(** * Verification model of the Scope debugger front-end and of Tableconvert

    Shallow embedding of
    - [scope/src/break.c]  (breakpoint store, reply parsing, apply, relocation,
      persistence),
    - [thread.c]           (thread store and the start-up / shut-down edges),
    - [tableconvert.c]     (conversion of a selection to an SQL value list).

    Conventions of the embedding.
    - A [GtkListStore] is the list of its rows; a [GtkTreeIter] is an index
      into that list.  An iter that the C code never initialised, or that GTK
      rejects, is [None]: the [gtk_list_store_*] entry points return at their
      [g_return_if_fail] guard and leave the store alone.
    - [char *] columns are [option string] ([None] is [NULL]).
    - The [gint] sums and differences of [breaks_delta] and of
      [break_id_compare] wrap into the 32-bit signed range, written out with
      [gint]; the sequence-id counter and the line [on_break_toggle] marks
      are integers of [Z].  [guint] counters wrap modulo 2^32.
    - A run that reads memory it has freed, frees a block twice or hands
      NULL to [strchr] has no defined result: the handler returns [None].
    - Calls that leave the module (commands sent to the debugger, editor
      markers, error reports) are appended to a log of [Effect]s.
    - Helpers of the repository that are not part of these three files, and
      the C library calls whose result depends on the platform, are the
      operations of the class [Host]; every theorem holds for every
      instance. *)

From Stdlib Require Import ZArith Ascii String DecimalString Lia.
From stdpp Require Import base option list strings sorting.

(** ** C strings *)

(** [strchr(s, c)] as a truth value.  The terminating NUL belongs to the
    string, so searching for NUL always succeeds. *)
Fixpoint str_mem (c : ascii) (s : string) : bool :=
  match s with
  | EmptyString => false
  | String a s' => bool_decide (a = c) || str_mem c s'
  end.

Definition strchr (s : string) (c : ascii) : bool :=
  bool_decide (c = "000"%char) || str_mem c s.

(** [strchr(s, c)] with a [gint] argument: the value is converted to [char]. *)
Definition char_of_gint (z : Z) : ascii := ascii_of_N (Z.to_N (z mod 256)).

(** The pointer returned by [strchr(s, c)] for a non-NUL [c]: the text before
    the first [c] and the text after it. *)
Fixpoint str_split (c : ascii) (s : string) : option (string * string) :=
  match s with
  | EmptyString => None
  | String a s' =>
      if bool_decide (a = c) then Some (EmptyString, s')
      else match str_split c s' with
           | Some (l, r) => Some (String a l, r)
           | None => None
           end
  end.

Definition str_head (s : string) : ascii :=
  match s with
  | EmptyString => "000"%char
  | String a _ => a
  end.

Definition isdigit (c : ascii) : bool :=
  (48 <=? nat_of_ascii c)%nat && (nat_of_ascii c <=? 57)%nat.

(** [printf("%d", z)] *)
Definition fmt_d (z : Z) : string := NilZero.string_of_int (Z.to_int z).

(** [printf("%s", s)]; glibc prints a NULL argument as [(null)]. *)
Definition fmt_s (s : option string) : string := default "(null)" s.

Definition fmt_c (c : ascii) : string := String c EmptyString.

(** [strcmp(a, b)] as the C library computes it, the difference of the first
    two bytes that differ; the standard fixes the sign only. *)
Fixpoint strcmp (a b : string) : Z :=
  match a, b with
  | EmptyString, EmptyString => 0
  | EmptyString, String d _ => - Z.of_nat (nat_of_ascii d)
  | String c _, EmptyString => Z.of_nat (nat_of_ascii c)
  | String c a', String d b' =>
      if bool_decide (c = d) then strcmp a' b'
      else Z.of_nat (nat_of_ascii c) - Z.of_nat (nat_of_ascii d)
  end.

(** [g_strcmp0(a, b)] for a [b] that is not NULL: NULL sorts first. *)
Definition g_strcmp0 (a : option string) (b : string) : Z :=
  match a with
  | Some a => strcmp a b
  | None => -1
  end.

(** The value of a [gint] expression: the integer wrapped into the 32-bit
    signed range. *)
Definition gint (z : Z) : Z := ((z + 2 ^ 31) mod 2 ^ 32 - 2 ^ 31)%Z.

(** The double quote, as a character and as a one-character string. *)
Definition dquote : ascii := "034"%char.
Definition DQ : string := String dquote EmptyString.

(** [s] occurs in [t] as a contiguous piece. *)
Fixpoint str_infix (s t : string) : bool :=
  String.prefix s t ||
  match t with
  | EmptyString => false
  | String _ t' => str_infix s t'
  end.

(** ** Protocol nodes (parse.h) *)

#[warnings="-register-all"] Inductive ParseNode : Type :=
| PT_VALUE (name : string) (value : string)
| PT_ARRAY (name : string) (value : list ParseNode).

Definition node_name (n : ParseNode) : string :=
  match n with
  | PT_VALUE name _ => name
  | PT_ARRAY name _ => name
  end.

(** Modelled from the spec: [parse_find_node] of parse.c (not among the
    sources).  Array element names need not be unique; lookup by name returns
    the first match. *)
Definition parse_find_node (nodes : list ParseNode) (name : string) : option ParseNode :=
  snd <$> list_find (λ n, node_name n = name) nodes.

(** Modelled from the spec: [parse_find_value] finds a named scalar; a node of
    the other shape yields [NULL]. *)
Definition parse_find_value (nodes : list ParseNode) (name : string) : option string :=
  match parse_find_node nodes name with
  | Some (PT_VALUE _ v) => Some v
  | _ => None
  end.

(** Modelled from the spec: [parse_find_array] finds a named array. *)
Definition parse_find_array (nodes : list ParseNode) (name : string)
  : option (list ParseNode) :=
  match parse_find_node nodes name with
  | Some (PT_ARRAY _ a) => Some a
  | _ => None
  end.

(** Modelled from the spec: the lead array / lead value is the value of the
    first element of a message's node array. *)
Definition parse_lead_array (nodes : list ParseNode) : list ParseNode :=
  match nodes with
  | PT_ARRAY _ a :: _ => a
  | _ => []
  end.

Definition parse_lead_value (nodes : list ParseNode) : option string :=
  match nodes with
  | PT_VALUE _ v :: _ => Some v
  | _ => None
  end.

(** [ParseLocation] of parse.h: what the location resolver extracts. *)
Record ParseLocation := mkParseLocation {
  loc_base_name : option string;
  loc_func : option string;
  loc_addr : option string;
  loc_file : option string;
  loc_line : Z
}.

(** ** Collaborators outside the three files *)

Class Host := {
  (** libc *)
  atoi : string → Z;
  (** GLib *)
  g_path_is_absolute : string → bool;
  (** parse.c: detach the correlation token from a node array *)
  parse_grab_token : list ParseNode → option string * list ParseNode;
  (** parse.c: the location resolver *)
  parse_location : list ParseNode → ParseLocation;
  (** utils.c: character set conversions and friends *)
  utils_get_locale_from_7bit : string → string;
  utils_get_display_from_7bit : string → string;
  utils_get_display_from_locale : string → string;
  utils_get_locale_from_display : string → string;
  utils_get_utf8_basename : string → string;
  validate_column : option string → bool → option string;
  (** Geany: [utils_filenamecmp(a, b) == 0] *)
  utils_filenamecmp : option string → string → bool;
  utils_filenamecmp_refl : ∀ p, utils_filenamecmp (Some p) p = true;
  (** debug.h: the [DebugState] bits used by break.c *)
  DS_INACTIVE : Z;
  DS_SENDABLE : Z
}.

(** ** Side effects visible outside the stores *)

Inductive Effect : Type :=
| dc_error (msg : string)
| debug_send (command : string)
| debug_send_thread (command : string)
| utils_mark (file : option string) (line : Z) (mark : bool) (enabled : bool)
| utils_mark_offset (file : option string) (line : Z) (mark : bool) (offset : Z)
| utils_mark_execute (file : option string) (line : Z) (mark : bool)
| utils_move_mark (line start delta : Z) (enabled : bool)
| sci_delete_marker_at_line (line : Z) (enabled : bool)
| sci_set_marker_at_line (line : Z) (enabled : bool)
| utils_tree_set_cursor (iter : nat)
| view_seek_selected
| plugin_beep
| dialogs_show_msgbox (text : string)
| terminal_clear
| terminal_standalone (show : bool)
| open_debug_panel
| on_debug_auto_exit.

Global Instance Effect_eq_dec : EqDecision Effect.
Proof. solve_decision. Defined.

(** [utils_mark(file, line, mark, MARKER_BREAKPT + n)] for an [int n]:
    [utils_mark] is the call with [n] 0 or 1, the markers of a disabled and
    of an enabled breakpoint; [utils_mark_offset] is the call with any other
    [n]. *)
Definition utils_mark_int (file : option string) (line : Z) (mark : bool) (n : Z)
  : Effect :=
  if bool_decide (n = 0%Z) then utils_mark file line mark false
  else if bool_decide (n = 1%Z) then utils_mark file line mark true
  else utils_mark_offset file line mark n.

(** ** break.c: the row store *)

Record BreakRow := mkBreakRow {
  BREAK_ID : option string;
  BREAK_FILE : option string;
  BREAK_LINE : Z;
  BREAK_SCID : Z;
  BREAK_TYPE : ascii;
  BREAK_ENABLED : bool;
  BREAK_DISPLAY : option string;
  BREAK_FUNC : option string;
  BREAK_ADDR : option string;
  BREAK_TIMES : Z;
  BREAK_IGNORE : option string;
  BREAK_COND : option string;
  BREAK_SCRIPT : option string;
  BREAK_PENDING : bool;
  BREAK_LOCATION : option string;
  BREAK_RUN_APPLY : bool;
  BREAK_TEMPORARY : bool;
  BREAK_DISCARD : bool;
  BREAK_MISSING : bool
}.

Definition set_BREAK_ID (v : option string) (r : BreakRow) : BreakRow :=
  {| BREAK_ID := v; BREAK_FILE := BREAK_FILE r; BREAK_LINE := BREAK_LINE r; BREAK_SCID :=
     BREAK_SCID r; BREAK_TYPE := BREAK_TYPE r; BREAK_ENABLED := BREAK_ENABLED r; BREAK_DISPLAY :=
     BREAK_DISPLAY r; BREAK_FUNC := BREAK_FUNC r; BREAK_ADDR := BREAK_ADDR r; BREAK_TIMES :=
     BREAK_TIMES r; BREAK_IGNORE := BREAK_IGNORE r; BREAK_COND := BREAK_COND r; BREAK_SCRIPT :=
     BREAK_SCRIPT r; BREAK_PENDING := BREAK_PENDING r; BREAK_LOCATION := BREAK_LOCATION r;
     BREAK_RUN_APPLY := BREAK_RUN_APPLY r; BREAK_TEMPORARY := BREAK_TEMPORARY r; BREAK_DISCARD :=
     BREAK_DISCARD r; BREAK_MISSING := BREAK_MISSING r |}.

Definition set_BREAK_FILE (v : option string) (r : BreakRow) : BreakRow :=
  {| BREAK_ID := BREAK_ID r; BREAK_FILE := v; BREAK_LINE := BREAK_LINE r; BREAK_SCID :=
     BREAK_SCID r; BREAK_TYPE := BREAK_TYPE r; BREAK_ENABLED := BREAK_ENABLED r; BREAK_DISPLAY :=
     BREAK_DISPLAY r; BREAK_FUNC := BREAK_FUNC r; BREAK_ADDR := BREAK_ADDR r; BREAK_TIMES :=
     BREAK_TIMES r; BREAK_IGNORE := BREAK_IGNORE r; BREAK_COND := BREAK_COND r; BREAK_SCRIPT :=
     BREAK_SCRIPT r; BREAK_PENDING := BREAK_PENDING r; BREAK_LOCATION := BREAK_LOCATION r;
     BREAK_RUN_APPLY := BREAK_RUN_APPLY r; BREAK_TEMPORARY := BREAK_TEMPORARY r; BREAK_DISCARD :=
     BREAK_DISCARD r; BREAK_MISSING := BREAK_MISSING r |}.

Definition set_BREAK_LINE (v : Z) (r : BreakRow) : BreakRow :=
  {| BREAK_ID := BREAK_ID r; BREAK_FILE := BREAK_FILE r; BREAK_LINE := v; BREAK_SCID :=
     BREAK_SCID r; BREAK_TYPE := BREAK_TYPE r; BREAK_ENABLED := BREAK_ENABLED r; BREAK_DISPLAY :=
     BREAK_DISPLAY r; BREAK_FUNC := BREAK_FUNC r; BREAK_ADDR := BREAK_ADDR r; BREAK_TIMES :=
     BREAK_TIMES r; BREAK_IGNORE := BREAK_IGNORE r; BREAK_COND := BREAK_COND r; BREAK_SCRIPT :=
     BREAK_SCRIPT r; BREAK_PENDING := BREAK_PENDING r; BREAK_LOCATION := BREAK_LOCATION r;
     BREAK_RUN_APPLY := BREAK_RUN_APPLY r; BREAK_TEMPORARY := BREAK_TEMPORARY r; BREAK_DISCARD :=
     BREAK_DISCARD r; BREAK_MISSING := BREAK_MISSING r |}.

Definition set_BREAK_SCID (v : Z) (r : BreakRow) : BreakRow :=
  {| BREAK_ID := BREAK_ID r; BREAK_FILE := BREAK_FILE r; BREAK_LINE := BREAK_LINE r;
     BREAK_SCID := v; BREAK_TYPE := BREAK_TYPE r; BREAK_ENABLED := BREAK_ENABLED r; BREAK_DISPLAY
     := BREAK_DISPLAY r; BREAK_FUNC := BREAK_FUNC r; BREAK_ADDR := BREAK_ADDR r; BREAK_TIMES :=
     BREAK_TIMES r; BREAK_IGNORE := BREAK_IGNORE r; BREAK_COND := BREAK_COND r; BREAK_SCRIPT :=
     BREAK_SCRIPT r; BREAK_PENDING := BREAK_PENDING r; BREAK_LOCATION := BREAK_LOCATION r;
     BREAK_RUN_APPLY := BREAK_RUN_APPLY r; BREAK_TEMPORARY := BREAK_TEMPORARY r; BREAK_DISCARD :=
     BREAK_DISCARD r; BREAK_MISSING := BREAK_MISSING r |}.

Definition set_BREAK_TYPE (v : ascii) (r : BreakRow) : BreakRow :=
  {| BREAK_ID := BREAK_ID r; BREAK_FILE := BREAK_FILE r; BREAK_LINE := BREAK_LINE r;
     BREAK_SCID := BREAK_SCID r; BREAK_TYPE := v; BREAK_ENABLED := BREAK_ENABLED r; BREAK_DISPLAY
     := BREAK_DISPLAY r; BREAK_FUNC := BREAK_FUNC r; BREAK_ADDR := BREAK_ADDR r; BREAK_TIMES :=
     BREAK_TIMES r; BREAK_IGNORE := BREAK_IGNORE r; BREAK_COND := BREAK_COND r; BREAK_SCRIPT :=
     BREAK_SCRIPT r; BREAK_PENDING := BREAK_PENDING r; BREAK_LOCATION := BREAK_LOCATION r;
     BREAK_RUN_APPLY := BREAK_RUN_APPLY r; BREAK_TEMPORARY := BREAK_TEMPORARY r; BREAK_DISCARD :=
     BREAK_DISCARD r; BREAK_MISSING := BREAK_MISSING r |}.

Definition set_BREAK_ENABLED (v : bool) (r : BreakRow) : BreakRow :=
  {| BREAK_ID := BREAK_ID r; BREAK_FILE := BREAK_FILE r; BREAK_LINE := BREAK_LINE r;
     BREAK_SCID := BREAK_SCID r; BREAK_TYPE := BREAK_TYPE r; BREAK_ENABLED := v; BREAK_DISPLAY :=
     BREAK_DISPLAY r; BREAK_FUNC := BREAK_FUNC r; BREAK_ADDR := BREAK_ADDR r; BREAK_TIMES :=
     BREAK_TIMES r; BREAK_IGNORE := BREAK_IGNORE r; BREAK_COND := BREAK_COND r; BREAK_SCRIPT :=
     BREAK_SCRIPT r; BREAK_PENDING := BREAK_PENDING r; BREAK_LOCATION := BREAK_LOCATION r;
     BREAK_RUN_APPLY := BREAK_RUN_APPLY r; BREAK_TEMPORARY := BREAK_TEMPORARY r; BREAK_DISCARD :=
     BREAK_DISCARD r; BREAK_MISSING := BREAK_MISSING r |}.

Definition set_BREAK_DISPLAY (v : option string) (r : BreakRow) : BreakRow :=
  {| BREAK_ID := BREAK_ID r; BREAK_FILE := BREAK_FILE r; BREAK_LINE := BREAK_LINE r;
     BREAK_SCID := BREAK_SCID r; BREAK_TYPE := BREAK_TYPE r; BREAK_ENABLED := BREAK_ENABLED r;
     BREAK_DISPLAY := v; BREAK_FUNC := BREAK_FUNC r; BREAK_ADDR := BREAK_ADDR r; BREAK_TIMES :=
     BREAK_TIMES r; BREAK_IGNORE := BREAK_IGNORE r; BREAK_COND := BREAK_COND r; BREAK_SCRIPT :=
     BREAK_SCRIPT r; BREAK_PENDING := BREAK_PENDING r; BREAK_LOCATION := BREAK_LOCATION r;
     BREAK_RUN_APPLY := BREAK_RUN_APPLY r; BREAK_TEMPORARY := BREAK_TEMPORARY r; BREAK_DISCARD :=
     BREAK_DISCARD r; BREAK_MISSING := BREAK_MISSING r |}.

Definition set_BREAK_FUNC (v : option string) (r : BreakRow) : BreakRow :=
  {| BREAK_ID := BREAK_ID r; BREAK_FILE := BREAK_FILE r; BREAK_LINE := BREAK_LINE r;
     BREAK_SCID := BREAK_SCID r; BREAK_TYPE := BREAK_TYPE r; BREAK_ENABLED := BREAK_ENABLED r;
     BREAK_DISPLAY := BREAK_DISPLAY r; BREAK_FUNC := v; BREAK_ADDR := BREAK_ADDR r; BREAK_TIMES
     := BREAK_TIMES r; BREAK_IGNORE := BREAK_IGNORE r; BREAK_COND := BREAK_COND r; BREAK_SCRIPT
     := BREAK_SCRIPT r; BREAK_PENDING := BREAK_PENDING r; BREAK_LOCATION := BREAK_LOCATION r;
     BREAK_RUN_APPLY := BREAK_RUN_APPLY r; BREAK_TEMPORARY := BREAK_TEMPORARY r; BREAK_DISCARD :=
     BREAK_DISCARD r; BREAK_MISSING := BREAK_MISSING r |}.

Definition set_BREAK_ADDR (v : option string) (r : BreakRow) : BreakRow :=
  {| BREAK_ID := BREAK_ID r; BREAK_FILE := BREAK_FILE r; BREAK_LINE := BREAK_LINE r;
     BREAK_SCID := BREAK_SCID r; BREAK_TYPE := BREAK_TYPE r; BREAK_ENABLED := BREAK_ENABLED r;
     BREAK_DISPLAY := BREAK_DISPLAY r; BREAK_FUNC := BREAK_FUNC r; BREAK_ADDR := v; BREAK_TIMES
     := BREAK_TIMES r; BREAK_IGNORE := BREAK_IGNORE r; BREAK_COND := BREAK_COND r; BREAK_SCRIPT
     := BREAK_SCRIPT r; BREAK_PENDING := BREAK_PENDING r; BREAK_LOCATION := BREAK_LOCATION r;
     BREAK_RUN_APPLY := BREAK_RUN_APPLY r; BREAK_TEMPORARY := BREAK_TEMPORARY r; BREAK_DISCARD :=
     BREAK_DISCARD r; BREAK_MISSING := BREAK_MISSING r |}.

Definition set_BREAK_TIMES (v : Z) (r : BreakRow) : BreakRow :=
  {| BREAK_ID := BREAK_ID r; BREAK_FILE := BREAK_FILE r; BREAK_LINE := BREAK_LINE r;
     BREAK_SCID := BREAK_SCID r; BREAK_TYPE := BREAK_TYPE r; BREAK_ENABLED := BREAK_ENABLED r;
     BREAK_DISPLAY := BREAK_DISPLAY r; BREAK_FUNC := BREAK_FUNC r; BREAK_ADDR := BREAK_ADDR r;
     BREAK_TIMES := v; BREAK_IGNORE := BREAK_IGNORE r; BREAK_COND := BREAK_COND r; BREAK_SCRIPT
     := BREAK_SCRIPT r; BREAK_PENDING := BREAK_PENDING r; BREAK_LOCATION := BREAK_LOCATION r;
     BREAK_RUN_APPLY := BREAK_RUN_APPLY r; BREAK_TEMPORARY := BREAK_TEMPORARY r; BREAK_DISCARD :=
     BREAK_DISCARD r; BREAK_MISSING := BREAK_MISSING r |}.

Definition set_BREAK_IGNORE (v : option string) (r : BreakRow) : BreakRow :=
  {| BREAK_ID := BREAK_ID r; BREAK_FILE := BREAK_FILE r; BREAK_LINE := BREAK_LINE r;
     BREAK_SCID := BREAK_SCID r; BREAK_TYPE := BREAK_TYPE r; BREAK_ENABLED := BREAK_ENABLED r;
     BREAK_DISPLAY := BREAK_DISPLAY r; BREAK_FUNC := BREAK_FUNC r; BREAK_ADDR := BREAK_ADDR r;
     BREAK_TIMES := BREAK_TIMES r; BREAK_IGNORE := v; BREAK_COND := BREAK_COND r; BREAK_SCRIPT :=
     BREAK_SCRIPT r; BREAK_PENDING := BREAK_PENDING r; BREAK_LOCATION := BREAK_LOCATION r;
     BREAK_RUN_APPLY := BREAK_RUN_APPLY r; BREAK_TEMPORARY := BREAK_TEMPORARY r; BREAK_DISCARD :=
     BREAK_DISCARD r; BREAK_MISSING := BREAK_MISSING r |}.

Definition set_BREAK_COND (v : option string) (r : BreakRow) : BreakRow :=
  {| BREAK_ID := BREAK_ID r; BREAK_FILE := BREAK_FILE r; BREAK_LINE := BREAK_LINE r;
     BREAK_SCID := BREAK_SCID r; BREAK_TYPE := BREAK_TYPE r; BREAK_ENABLED := BREAK_ENABLED r;
     BREAK_DISPLAY := BREAK_DISPLAY r; BREAK_FUNC := BREAK_FUNC r; BREAK_ADDR := BREAK_ADDR r;
     BREAK_TIMES := BREAK_TIMES r; BREAK_IGNORE := BREAK_IGNORE r; BREAK_COND := v; BREAK_SCRIPT
     := BREAK_SCRIPT r; BREAK_PENDING := BREAK_PENDING r; BREAK_LOCATION := BREAK_LOCATION r;
     BREAK_RUN_APPLY := BREAK_RUN_APPLY r; BREAK_TEMPORARY := BREAK_TEMPORARY r; BREAK_DISCARD :=
     BREAK_DISCARD r; BREAK_MISSING := BREAK_MISSING r |}.

Definition set_BREAK_SCRIPT (v : option string) (r : BreakRow) : BreakRow :=
  {| BREAK_ID := BREAK_ID r; BREAK_FILE := BREAK_FILE r; BREAK_LINE := BREAK_LINE r;
     BREAK_SCID := BREAK_SCID r; BREAK_TYPE := BREAK_TYPE r; BREAK_ENABLED := BREAK_ENABLED r;
     BREAK_DISPLAY := BREAK_DISPLAY r; BREAK_FUNC := BREAK_FUNC r; BREAK_ADDR := BREAK_ADDR r;
     BREAK_TIMES := BREAK_TIMES r; BREAK_IGNORE := BREAK_IGNORE r; BREAK_COND := BREAK_COND r;
     BREAK_SCRIPT := v; BREAK_PENDING := BREAK_PENDING r; BREAK_LOCATION := BREAK_LOCATION r;
     BREAK_RUN_APPLY := BREAK_RUN_APPLY r; BREAK_TEMPORARY := BREAK_TEMPORARY r; BREAK_DISCARD :=
     BREAK_DISCARD r; BREAK_MISSING := BREAK_MISSING r |}.

Definition set_BREAK_PENDING (v : bool) (r : BreakRow) : BreakRow :=
  {| BREAK_ID := BREAK_ID r; BREAK_FILE := BREAK_FILE r; BREAK_LINE := BREAK_LINE r;
     BREAK_SCID := BREAK_SCID r; BREAK_TYPE := BREAK_TYPE r; BREAK_ENABLED := BREAK_ENABLED r;
     BREAK_DISPLAY := BREAK_DISPLAY r; BREAK_FUNC := BREAK_FUNC r; BREAK_ADDR := BREAK_ADDR r;
     BREAK_TIMES := BREAK_TIMES r; BREAK_IGNORE := BREAK_IGNORE r; BREAK_COND := BREAK_COND r;
     BREAK_SCRIPT := BREAK_SCRIPT r; BREAK_PENDING := v; BREAK_LOCATION := BREAK_LOCATION r;
     BREAK_RUN_APPLY := BREAK_RUN_APPLY r; BREAK_TEMPORARY := BREAK_TEMPORARY r; BREAK_DISCARD :=
     BREAK_DISCARD r; BREAK_MISSING := BREAK_MISSING r |}.

Definition set_BREAK_LOCATION (v : option string) (r : BreakRow) : BreakRow :=
  {| BREAK_ID := BREAK_ID r; BREAK_FILE := BREAK_FILE r; BREAK_LINE := BREAK_LINE r;
     BREAK_SCID := BREAK_SCID r; BREAK_TYPE := BREAK_TYPE r; BREAK_ENABLED := BREAK_ENABLED r;
     BREAK_DISPLAY := BREAK_DISPLAY r; BREAK_FUNC := BREAK_FUNC r; BREAK_ADDR := BREAK_ADDR r;
     BREAK_TIMES := BREAK_TIMES r; BREAK_IGNORE := BREAK_IGNORE r; BREAK_COND := BREAK_COND r;
     BREAK_SCRIPT := BREAK_SCRIPT r; BREAK_PENDING := BREAK_PENDING r; BREAK_LOCATION := v;
     BREAK_RUN_APPLY := BREAK_RUN_APPLY r; BREAK_TEMPORARY := BREAK_TEMPORARY r; BREAK_DISCARD :=
     BREAK_DISCARD r; BREAK_MISSING := BREAK_MISSING r |}.

Definition set_BREAK_RUN_APPLY (v : bool) (r : BreakRow) : BreakRow :=
  {| BREAK_ID := BREAK_ID r; BREAK_FILE := BREAK_FILE r; BREAK_LINE := BREAK_LINE r;
     BREAK_SCID := BREAK_SCID r; BREAK_TYPE := BREAK_TYPE r; BREAK_ENABLED := BREAK_ENABLED r;
     BREAK_DISPLAY := BREAK_DISPLAY r; BREAK_FUNC := BREAK_FUNC r; BREAK_ADDR := BREAK_ADDR r;
     BREAK_TIMES := BREAK_TIMES r; BREAK_IGNORE := BREAK_IGNORE r; BREAK_COND := BREAK_COND r;
     BREAK_SCRIPT := BREAK_SCRIPT r; BREAK_PENDING := BREAK_PENDING r; BREAK_LOCATION :=
     BREAK_LOCATION r; BREAK_RUN_APPLY := v; BREAK_TEMPORARY := BREAK_TEMPORARY r; BREAK_DISCARD
     := BREAK_DISCARD r; BREAK_MISSING := BREAK_MISSING r |}.

Definition set_BREAK_TEMPORARY (v : bool) (r : BreakRow) : BreakRow :=
  {| BREAK_ID := BREAK_ID r; BREAK_FILE := BREAK_FILE r; BREAK_LINE := BREAK_LINE r;
     BREAK_SCID := BREAK_SCID r; BREAK_TYPE := BREAK_TYPE r; BREAK_ENABLED := BREAK_ENABLED r;
     BREAK_DISPLAY := BREAK_DISPLAY r; BREAK_FUNC := BREAK_FUNC r; BREAK_ADDR := BREAK_ADDR r;
     BREAK_TIMES := BREAK_TIMES r; BREAK_IGNORE := BREAK_IGNORE r; BREAK_COND := BREAK_COND r;
     BREAK_SCRIPT := BREAK_SCRIPT r; BREAK_PENDING := BREAK_PENDING r; BREAK_LOCATION :=
     BREAK_LOCATION r; BREAK_RUN_APPLY := BREAK_RUN_APPLY r; BREAK_TEMPORARY := v; BREAK_DISCARD
     := BREAK_DISCARD r; BREAK_MISSING := BREAK_MISSING r |}.

Definition set_BREAK_DISCARD (v : bool) (r : BreakRow) : BreakRow :=
  {| BREAK_ID := BREAK_ID r; BREAK_FILE := BREAK_FILE r; BREAK_LINE := BREAK_LINE r;
     BREAK_SCID := BREAK_SCID r; BREAK_TYPE := BREAK_TYPE r; BREAK_ENABLED := BREAK_ENABLED r;
     BREAK_DISPLAY := BREAK_DISPLAY r; BREAK_FUNC := BREAK_FUNC r; BREAK_ADDR := BREAK_ADDR r;
     BREAK_TIMES := BREAK_TIMES r; BREAK_IGNORE := BREAK_IGNORE r; BREAK_COND := BREAK_COND r;
     BREAK_SCRIPT := BREAK_SCRIPT r; BREAK_PENDING := BREAK_PENDING r; BREAK_LOCATION :=
     BREAK_LOCATION r; BREAK_RUN_APPLY := BREAK_RUN_APPLY r; BREAK_TEMPORARY := BREAK_TEMPORARY
     r; BREAK_DISCARD := v; BREAK_MISSING := BREAK_MISSING r |}.

Definition set_BREAK_MISSING (v : bool) (r : BreakRow) : BreakRow :=
  {| BREAK_ID := BREAK_ID r; BREAK_FILE := BREAK_FILE r; BREAK_LINE := BREAK_LINE r;
     BREAK_SCID := BREAK_SCID r; BREAK_TYPE := BREAK_TYPE r; BREAK_ENABLED := BREAK_ENABLED r;
     BREAK_DISPLAY := BREAK_DISPLAY r; BREAK_FUNC := BREAK_FUNC r; BREAK_ADDR := BREAK_ADDR r;
     BREAK_TIMES := BREAK_TIMES r; BREAK_IGNORE := BREAK_IGNORE r; BREAK_COND := BREAK_COND r;
     BREAK_SCRIPT := BREAK_SCRIPT r; BREAK_PENDING := BREAK_PENDING r; BREAK_LOCATION :=
     BREAK_LOCATION r; BREAK_RUN_APPLY := BREAK_RUN_APPLY r; BREAK_TEMPORARY := BREAK_TEMPORARY
     r; BREAK_DISCARD := BREAK_DISCARD r; BREAK_MISSING := v |}.

(** A row as [gtk_list_store_append] leaves it. *)
Definition empty_row : BreakRow :=
  {| BREAK_ID := None; BREAK_FILE := None; BREAK_LINE := 0; BREAK_SCID := 0;
     BREAK_TYPE := "000"; BREAK_ENABLED := false; BREAK_DISPLAY := None;
     BREAK_FUNC := None; BREAK_ADDR := None; BREAK_TIMES := 0; BREAK_IGNORE := None;
     BREAK_COND := None; BREAK_SCRIPT := None; BREAK_PENDING := false;
     BREAK_LOCATION := None; BREAK_RUN_APPLY := false; BREAK_TEMPORARY := false;
     BREAK_DISCARD := false; BREAK_MISSING := false |}.

(** The module's globals: [store], [scid_gen], and the effects so far. *)
Record Breaks := mkBreaks {
  store : list BreakRow;
  scid_gen : Z;
  log : list Effect
}.

Definition emit (e : Effect) (st : Breaks) : Breaks :=
  {| store := store st; scid_gen := scid_gen st; log := log st ++ [e] |}.

Definition with_store (rows : list BreakRow) (st : Breaks) : Breaks :=
  {| store := rows; scid_gen := scid_gen st; log := log st |}.

Definition breaks_init : Breaks := {| store := []; scid_gen := 0; log := [] |}.

(** [gtk_tree_model_get]: the row under an iter. *)
Definition row_at (iter : option nat) (st : Breaks) : option BreakRow :=
  iter ≫= λ i, store st !! i.

(** [gtk_list_store_set(store, iter, ...)] *)
Definition gtk_list_store_set (iter : option nat) (f : BreakRow → BreakRow) (st : Breaks)
  : Breaks :=
  match iter with
  | Some i => with_store (alter f i (store st)) st
  | None => st
  end.

(** [gtk_list_store_append(store, &iter)] *)
Definition gtk_list_store_append (st : Breaks) : Breaks * option nat :=
  (with_store (store st ++ [empty_row]) st, Some (length (store st))).

(** [gtk_list_store_insert_after(store, &iter, sibling)] *)
Definition gtk_list_store_insert_after (sibling : option nat) (st : Breaks)
  : Breaks * option nat :=
  match sibling with
  | Some k =>
      if decide (k < length (store st)) then
        (with_store (take (S k) (store st) ++ empty_row :: drop (S k) (store st)) st,
         Some (S k))
      else (st, None)
  | None => (st, None)
  end.

(** [gtk_list_store_remove(store, &iter)] *)
Definition gtk_list_store_remove (i : nat) (st : Breaks) : Breaks :=
  with_store (delete i (store st)) st.

Definition BP_CHARS : string := "bhtfwwwaarrc?".
Definition BP_BREAKS : string := "bh".
Definition BP_TRACES : string := "tf".
Definition BP_HARDWS : string := "hf".
Definition BP_BORTS : string := "bhtf".
Definition BP_KNOWNS : string := "btfwar".
Definition BP_WATCHES : string := "war".
Definition BP_WATOPTS : string := "ar".

(** [break_types], without its terminating [{ NULL, "??" }] entry. *)
Definition break_types : list (string * string) :=
  [ ("breakpoint", "break"); ("hw breakpoint", "hbreak"); ("tracepoint", "trace");
    ("fast tracepoint", "ftrace"); ("wpt", "watch"); ("watchpoint", "watch");
    ("hw watchpoint", "watch"); ("hw-awpt", "access"); ("acc watchpoint", "access");
    ("hw-rwpt", "read"); ("read watchpoint", "read"); ("catchpoint", "catch") ].

(** The loop [for (bt = break_types; bt->text; bt++) if (!strcmp(...)) break;]
    as the offset [bt - break_types]. *)
Fixpoint break_type_index (text_type : string) (bts : list (string * string)) : nat :=
  match bts with
  | [] => 0
  | (text, _) :: rest =>
      if bool_decide (text_type = text) then 0 else S (break_type_index text_type rest)
  end.

Definition str_nth (s : string) (n : nat) : ascii :=
  default "000"%char (String.get n s).

Inductive BreakStage : Type := BG_PERSIST | BG_DISCARD | BG_APPLY | BG_GOTO | BG_NEXT.

Global Instance BreakStage_eq_dec : EqDecision BreakStage.
Proof. solve_decision. Defined.

Record BreakData := mkBreakData {
  bd_iter : option nat;
  bd_type : ascii;
  bd_stage : BreakStage
}.

Definition bd_set_stage (s : BreakStage) (bd : BreakData) : BreakData :=
  {| bd_iter := bd_iter bd; bd_type := bd_type bd; bd_stage := s |}.

Definition bd_set_iter (i : option nat) (bd : BreakData) : BreakData :=
  {| bd_iter := i; bd_type := bd_type bd; bd_stage := bd_stage bd |}.

Definition bd_set_type (c : ascii) (bd : BreakData) : BreakData :=
  {| bd_iter := bd_iter bd; bd_type := c; bd_stage := bd_stage bd |}.

(** A [BreakData] local of a handler before any field but [stage] is set. *)
Definition bd_start (s : BreakStage) : BreakData :=
  {| bd_iter := None; bd_type := "000"; bd_stage := s |}.

(** Modelled from the spec: [utils_atoi0] of utils.c, [atoi] that accepts NULL. *)
Definition utils_atoi0 `{Host} (s : option string) : Z :=
  match s with
  | Some s => atoi s
  | None => 0
  end.

Section Break.
Context `{Host}.

(** Modelled from the spec: [model_find] on a string column finds the first
    row whose column equals the key. *)
Definition model_find_id (rows : list BreakRow) (id : string) : option nat :=
  fst <$> list_find (λ r, BREAK_ID r = Some id) rows.

(** Modelled from the spec: [model_find] on the integer column BREAK_SCID
    finds the first row whose sequence id is the number the key spells. *)
Definition model_find_scid (rows : list BreakRow) (key : string) : option nat :=
  fst <$> list_find (λ r, BREAK_SCID r = atoi key) rows.

Definition parse_find_locale (nodes : list ParseNode) (name : string) : option string :=
  utils_get_locale_from_7bit <$> parse_find_value nodes name.

Definition break_mark (iter : option nat) (mark : bool) (st : Breaks) : Breaks :=
  match row_at iter st with
  | Some r => emit (utils_mark (BREAK_FILE r) (BREAK_LINE r) mark (BREAK_ENABLED r)) st
  | None => st
  end.

Definition break_enable (iter : option nat) (enable : bool) (st : Breaks) : Breaks :=
  break_mark iter true
    (gtk_list_store_set iter (set_BREAK_ENABLED enable) (break_mark iter false st)).

(** [on_break_enabled_toggled]: [path_str] resolves to the row [i]; [state]
    is [debug_state()]. *)
Definition on_break_enabled_toggled (i : nat) (state : Z) (st : Breaks) : Breaks :=
  match store st !! i with
  | None => st
  | Some row =>
      let enabled := negb (BREAK_ENABLED row) in
      if bool_decide (state = DS_INACTIVE) || bool_decide (BREAK_ID row = None) then
        break_enable (Some i) enabled st
      else if negb (Z.land state DS_SENDABLE =? 0)%Z then
        emit (debug_send ("02" +:+ (if enabled then "1" else "0") +:+
                          fmt_d (BREAK_SCID row) +:+ "-break-" +:+
                          (if enabled then "en" else "dis") +:+ "able " +:+
                          fmt_s (BREAK_ID row))) st
      else emit plugin_beep st
  end.

Definition break_command (index : nat) (type : ascii) : string :=
  if bool_decide (index = 0) && strchr BP_TRACES type then "passcount"
  else nth index ["after"; "condition"; "commands"] "".

(** One [append_script_command] call on the accumulated [GString]. *)
Fixpoint script_escape (s : string) : string :=
  match s with
  | EmptyString => EmptyString
  | String c s' =>
      if bool_decide (c = dquote) || bool_decide (c = "\"%char)
      then String "\" (String c (script_escape s'))
      else String c (script_escape s')
  end.

Definition append_script_command (node : ParseNode) (acc : string * list Effect)
  : string * list Effect :=
  match node with
  | PT_VALUE _ value =>
      let display := utils_get_display_from_7bit value in
      let sep := if bool_decide (acc.1 = "") then "" else " " in
      (acc.1 +:+ sep +:+ DQ +:+ script_escape display +:+ DQ, acc.2)
  | PT_ARRAY _ _ => (acc.1, acc.2 ++ [dc_error "script: contains array"])
  end.

Definition break_iter_applied (iter : option nat) (id : string) (st : Breaks) : Breaks :=
  match row_at iter st with
  | None => st
  | Some r =>
      let type := BREAK_TYPE r in
      let borts := strchr BP_BORTS type in
      let col0 := if borts && strchr BP_BREAKS type then None else BREAK_IGNORE r in
      let col1 := if borts then None else BREAK_COND r in
      let col2 := BREAK_SCRIPT r in
      let st1 := if negb borts && negb (BREAK_ENABLED r)
                 then emit (debug_send ("-break-disable " +:+ id)) st else st in
      foldl (λ s '(index, column),
               match utils_get_locale_from_display <$> column with
               | Some locale =>
                   emit (debug_send ("-break-" +:+ break_command index type +:+ " " +:+
                                     id +:+ " " +:+ locale)) s
               | None => s
               end)
            st1 [(0, col0); (1, col1); (2, col2)]
  end.

(** The location of a row that is being created: an absolute
    [original-location] of the shape [file:rest] fills in the line, when
    [rest] starts with a digit and the resolver left the line unset.  Where
    the resolver left the file unset, [loc.file] is made to point into
    [original], the copy that the branch frees before [utils_mark] and the
    last [gtk_list_store_set] of [break_node_parse] read the file: [None]. *)
Definition new_break_loc (original : option string) (loc : ParseLocation)
  : option ParseLocation :=
  match original with
  | Some orig =>
      match str_split ":" orig with
      | Some (file, rest) =>
          if g_path_is_absolute orig && negb (bool_decide (file = ""))
             && negb (bool_decide (str_head rest = ":"%char))
          then
            match loc_file loc with
            | None => None
            | Some f =>
                Some {| loc_base_name := loc_base_name loc; loc_func := loc_func loc;
                        loc_addr := loc_addr loc; loc_file := Some f;
                        loc_line := if isdigit (str_head rest)
                                       && bool_decide (loc_line loc = 0%Z)
                                    then atoi rest else loc_line loc |}
            end
          else Some loc
      | None => Some loc
      end
  | None => Some loc
  end.

(** The text sent back to the debugger for a new row. *)
Definition new_break_location (nodes : list ParseNode) (type : ascii)
  : option string :=
  match parse_find_locale nodes "original-location" with
  | Some l => Some l
  | None =>
      if strchr BP_WATCHES type then
        match parse_find_locale nodes "exp" with
        | Some l => Some l
        | None => parse_find_locale nodes "what"
        end
      else None
  end.

(** The columns every parse refreshes (the last [gtk_list_store_set] of
    [break_node_parse]). *)
Definition set_parsed (id : string) (loc : ParseLocation) (times : option string)
    (temporary : bool) (r : BreakRow) : BreakRow :=
  set_BREAK_TEMPORARY temporary (set_BREAK_MISSING false
    (set_BREAK_TIMES (utils_atoi0 times) (set_BREAK_ADDR (loc_addr loc)
      (set_BREAK_FUNC (loc_func loc) (set_BREAK_LINE (loc_line loc)
        (set_BREAK_FILE (loc_file loc) (set_BREAK_ID (Some id) r))))))).

(** The script text composed from the [script] node. *)
Definition parse_script (script : ParseNode) : string * list Effect :=
  match script with
  | PT_VALUE _ _ => append_script_command script ("", [])
  | PT_ARRAY _ commands => foldl (λ acc n, append_script_command n acc) ("", []) commands
  end.

Definition emits (es : list Effect) (st : Breaks) : Breaks :=
  {| store := store st; scid_gen := scid_gen st; log := log st ++ es |}.

(** The branch [/* new breakpoint */]: the row is appended, or inserted
    after the previous row of the message, and its creation columns are
    set. *)
Definition break_row_new (leading : bool) (type : ascii) (nodes : list ParseNode)
    (loc : ParseLocation) (st : Breaks) (bd : BreakData)
  : option (Breaks * BreakData * ParseLocation) :=
  let borts := strchr BP_BORTS type in
  let original := parse_find_locale nodes "original-location" in
  let persist := leading && bool_decide (bd_stage bd = BG_PERSIST) in
  let pending := bool_decide (parse_find_locale nodes "pending" ≠ None) in
  match new_break_loc original loc with
  | None => None
  | Some loc =>
      let location := new_break_location nodes type in
      let unknown := bool_decide (location = None) || negb (strchr BP_KNOWNS type) in
      let persist := if unknown then false else persist in
      let location := match location with
                      | None => loc_func loc
                      | Some l => Some l
                      end in
      let display := if borts then utils_get_utf8_basename <$> location
                     else utils_get_display_from_locale <$> location in
      let '(st, iter) := if leading then gtk_list_store_append st
                         else gtk_list_store_insert_after (bd_iter bd) st in
      let bd := bd_set_iter iter bd in
      let scid := (scid_gen st + 1)%Z in
      let st := {| store := store st; scid_gen := scid; log := log st |} in
      let st := gtk_list_store_set iter
                  (λ r, set_BREAK_DISCARD (negb persist)
                          (set_BREAK_RUN_APPLY (leading && borts)
                            (set_BREAK_LOCATION location (set_BREAK_PENDING pending
                              (set_BREAK_DISPLAY display (set_BREAK_TYPE type
                                (set_BREAK_SCID scid r))))))) st in
      let st := match iter with
                | Some i => if persist then emit (utils_tree_set_cursor i) st else st
                | None => st
                end in
      Some (st, bd, loc)
  end.

(** The block [if (bd->stage != BG_APPLY)]: find the row of [id] or create
    it, mark the line, set the script column.  [enabled] is the [int] that
    [g_strcmp0] returned. *)
Definition break_row_locate (leading : bool) (type : ascii) (enabled : Z)
    (nodes : list ParseNode) (id : string) (loc : ParseLocation) (st : Breaks)
    (bd : BreakData) : option (Breaks * BreakData * ParseLocation) :=
  match
    match model_find_id (store st) id with
    | Some iter1 =>
        let bd := bd_set_iter (Some iter1) bd in
        Some (break_mark (bd_iter bd) false st, bd, loc)
    | None => break_row_new leading type nodes loc st bd
    end
  with
  | None => None
  | Some (st, bd, loc) =>
      let st := emit (utils_mark_int (loc_file loc) (loc_line loc) true enabled) st in
      let st :=
        match parse_find_node nodes "script" with
        | Some script =>
            gtk_list_store_set (bd_iter bd)
              (set_BREAK_SCRIPT (Some (parse_script script).1))
              (emits (parse_script script).2 st)
        | None => gtk_list_store_set (bd_iter bd) (set_BREAK_SCRIPT None) st
        end in
      Some (st, bd, loc)
  end.

(** The block [if (borts || bd->stage != BG_APPLY)]: the enabled flag, the
    condition and, unless a trace kind is being applied, the ignore or
    pass count. *)
Definition break_row_conds (stage : BreakStage) (type : ascii) (enabled : bool)
    (nodes : list ParseNode) (iter : option nat) (st : Breaks) : Breaks :=
  if strchr BP_BORTS type || negb (bool_decide (stage = BG_APPLY)) then
    let cond := utils_get_display_from_7bit <$> parse_find_value nodes "cond" in
    let ignore := match parse_find_value nodes "ignore" with
                  | Some i => Some i
                  | None => parse_find_value nodes "pass"
                  end in
    gtk_list_store_set iter
      (λ r, (if strchr BP_BREAKS type || negb (bool_decide (stage = BG_APPLY))
             then set_BREAK_IGNORE ignore else λ r, r)
              (set_BREAK_COND cond (set_BREAK_ENABLED enabled r))) st
  else st.

(** The branch [/* enough data to parse */] of [break_node_parse].
    [enabled] is a [gboolean], that is an [int], and holds what [g_strcmp0]
    returned; the boolean column BREAK_ENABLED keeps whether it is 0. *)
Definition break_row_parse (name : string) (nodes : list ParseNode) (id : string)
    (st : Breaks) (bd : BreakData) : option (Breaks * BreakData) :=
  let text_type := default name (parse_find_value nodes "type") in
  let type0 := str_nth BP_CHARS (break_type_index text_type break_types) in
  let leading := negb (str_mem "." id) in
  let stage := bd_stage bd in
  let keep := leading || negb (bool_decide (stage = BG_NEXT))
              || negb (bool_decide (type0 = "?"%char)) in
  let type := if keep then type0 else bd_type bd in
  let bd := if keep then bd_set_type type0 bd else bd in
  let loc := parse_location nodes in
  let enabled := g_strcmp0 (parse_find_value nodes "enabled") "n" in
  let times := parse_find_value nodes "times" in
  let temporary := bool_decide (parse_find_value nodes "disp" = Some "del") in
  match
    if bool_decide (stage = BG_APPLY) then Some (st, bd, loc)
    else break_row_locate leading type enabled nodes id loc st bd
  with
  | None => None
  | Some (st, bd, loc) =>
      let iter := bd_iter bd in
      let st := break_row_conds stage type (negb (enabled =? 0)%Z) nodes iter st in
      let st := gtk_list_store_set iter (set_parsed id loc times temporary) st in
      let st :=
        match stage with
        | BG_APPLY => break_iter_applied iter id st
        | BG_GOTO => emit (debug_send_thread "-exec-continue") st
        | _ => st
        end in
      Some (st, bd_set_stage BG_NEXT bd)
  end.

Definition break_node_parse (node : ParseNode) (sb : Breaks * BreakData)
  : option (Breaks * BreakData) :=
  match node with
  | PT_VALUE _ _ =>
      Some (emit (dc_error "breaks: contains value") sb.1, bd_set_stage BG_DISCARD sb.2)
  | PT_ARRAY name nodes =>
      match parse_find_value nodes "number" with
      | None => Some (emit (dc_error "no number") sb.1, bd_set_stage BG_DISCARD sb.2)
      | Some id => break_row_parse name nodes id sb.1 sb.2
      end
  end.

(** [array_foreach(nodes, (GFunc) break_node_parse, &bd)] *)
Fixpoint breaks_parse (nodes : list ParseNode) (sb : Breaks * BreakData)
  : option (Breaks * BreakData) :=
  match nodes with
  | [] => Some sb
  | node :: rest =>
      match break_node_parse node sb with
      | Some sb => breaks_parse rest sb
      | None => None
      end
  end.

(** The stage [on_break_inserted] starts from, chosen by the token. *)
Definition break_inserted_start (token : option string) (st : Breaks)
  : Breaks * BreakData :=
  match token with
  | None => (st, bd_start BG_PERSIST)
  | Some token =>
      if bool_decide (str_head token = "0"%char) then (st, bd_start BG_GOTO)
      else if negb (bool_decide (token = "")) then
        match model_find_scid (store st) token with
        | Some i => (st, bd_set_iter (Some i) (bd_start BG_APPLY))
        | None => (emit (dc_error (token +:+ ": b_scid not found")) st,
                   bd_start BG_PERSIST)
        end
      else (st, bd_start BG_DISCARD)
  end.

Definition on_break_inserted (nodes : list ParseNode) (st : Breaks) : option Breaks :=
  let '(token, nodes) := parse_grab_token nodes in
  fst <$> breaks_parse nodes (break_inserted_start token st).

Definition on_break_created (nodes : list ParseNode) (st : Breaks) : option Breaks :=
  fst <$> breaks_parse nodes (st, bd_start BG_DISCARD).

(** The command string [break_apply] builds for the row [r]; [thread] is
    its second argument and [thread_id] the global of thread.c. *)
Definition break_apply_command (thread : bool) (thread_id : option string)
    (r : BreakRow) : string :=
  let type := BREAK_TYPE r in
  let borts := strchr BP_BORTS type in
  let command := "02" +:+ fmt_d (BREAK_SCID r) +:+ "-break-" +:+
                 (if borts then "insert" else "watch") in
  let command :=
    if borts then
      let command := if BREAK_TEMPORARY r then command +:+ " -t" else command in
      let command := if strchr BP_HARDWS type then command +:+ " -h" else command in
      let command :=
        if strchr BP_BREAKS type then
          match BREAK_IGNORE r with
          | Some ignore => command +:+ (" -i " +:+ ignore)
          | None => command
          end
        else command +:+ " -a" in
      let command := if BREAK_ENABLED r then command else command +:+ " -d" in
      let command :=
        match BREAK_COND r with
        | Some cond =>
            command +:+ (" -c " +:+ DQ +:+ utils_get_locale_from_display cond +:+ DQ)
        | None => command
        end in
      let command := if BREAK_PENDING r then command +:+ " -f" else command in
      match thread, thread_id with
      | true, Some tid => command +:+ (" -p " +:+ tid)
      | _, _ => command
      end
    else if strchr BP_WATOPTS type then command +:+ (" -" +:+ fmt_c type)
    else command in
  command +:+ (" " +:+ fmt_s (BREAK_LOCATION r)).

Definition break_apply (iter : nat) (thread : bool) (thread_id : option string)
    (st : Breaks) : Breaks :=
  match store st !! iter with
  | Some r => emit (debug_send (break_apply_command thread thread_id r)) st
  | None => st
  end.

(** [breaks_apply]: [break_iter_apply] on every row, in store order. *)
Definition breaks_apply (st : Breaks) : Breaks :=
  emits (omap (λ r, if BREAK_RUN_APPLY r
                    then Some (debug_send (break_apply_command false None r))
                    else None) (store st)) st.

Definition break_clear_row (r : BreakRow) : BreakRow :=
  (if strchr BP_BORTS (BREAK_TYPE r) then λ r, r else set_BREAK_TEMPORARY false)
    (set_BREAK_ADDR None (set_BREAK_ID None r)).

Definition unmark_effect (r : BreakRow) : Effect :=
  utils_mark (BREAK_FILE r) (BREAK_LINE r) false (BREAK_ENABLED r).

(** The loop of [breaks_missing].  [id] is freed right after the columns
    are read; for a row that is missing and discardable the loop removes the
    row and frees [id] once more: [None]. *)
Fixpoint breaks_missing_rows (rows : list BreakRow) : option (list BreakRow) :=
  match rows with
  | [] => Some []
  | r :: rest =>
      if bool_decide (BREAK_ID r ≠ None) && BREAK_MISSING r then
        if BREAK_DISCARD r then None
        else (λ rest', break_clear_row r :: rest') <$> breaks_missing_rows rest
      else (λ rest', r :: rest') <$> breaks_missing_rows rest
  end.

Definition breaks_missing (st : Breaks) : option Breaks :=
  (λ rows, with_store rows st) <$> breaks_missing_rows (store st).

(** [model_foreach(model, (GFunc) break_iter_missing, NULL)] *)
Definition breaks_mark_missing (st : Breaks) : Breaks :=
  with_store (set_BREAK_MISSING true <$> store st) st.

Definition on_break_list (nodes : list ParseNode) (st : Breaks) : option Breaks :=
  match parse_find_array (parse_lead_array nodes) "body" with
  | None => Some (emit (dc_error "no body") st)
  | Some body =>
      let '(token, body) := parse_grab_token body in
      let refresh := bool_decide (token ≠ None) in
      let st := if refresh then breaks_mark_missing st else st in
      match breaks_parse body (st, bd_start BG_DISCARD) with
      | None => None
      | Some (st, _) => if refresh then breaks_missing st else Some st
      end
  end.

Definition break_remove (i : nat) (st : Breaks) : Breaks :=
  gtk_list_store_remove i (break_mark (Some i) false st).

Definition break_delete (i : nat) (state : Z) (st : Breaks) : Breaks :=
  match store st !! i with
  | None => st
  | Some r =>
      match BREAK_ID r with
      | Some id =>
          if bool_decide (state = DS_INACTIVE) then break_remove i st
          else emit (debug_send ("023" +:+ id +:+ "-break-delete " +:+ id)) st
      | None => break_remove i st
      end
  end.

(** [breaks_reset] *)
Definition breaks_reset (st : Breaks) : Breaks :=
  with_store (set_BREAK_TIMES 0 <$> store st) st.

Definition break_relocate (real_path : string) (line : Z) (r : BreakRow) : BreakRow :=
  let location := real_path +:+ ":" +:+ fmt_d line in
  let display := utils_get_utf8_basename location in
  set_BREAK_LOCATION (Some location) (set_BREAK_DISPLAY (Some display)
    (set_BREAK_LINE line (set_BREAK_FILE (Some real_path) r))).

(** [split = strchr(location, ':')] followed by [split && isdigit(split[1])] *)
Definition location_has_line (location : string) : bool :=
  match str_split ":" location with
  | Some (_, rest) => isdigit (str_head rest)
  | None => false
  end.

(** The loop of [breaks_delta]; the lines are [gint]s.  A row that is to be
    moved and has no location text makes the loop call [strchr(NULL, ':')]:
    [None]. *)
Fixpoint breaks_delta_rows (real_path : string) (start delta : Z) (active : bool)
    (rows : list BreakRow) : option (list BreakRow * list Effect) :=
  match rows with
  | [] => Some ([], [])
  | r :: rest =>
      let line := gint (BREAK_LINE r - 1) in
      if (0 <=? line)%Z && (start <=? line)%Z && utils_filenamecmp (BREAK_FILE r) real_path
      then
        if active then
          (λ '(rest', es),
             (r :: rest', utils_move_mark line start delta (BREAK_ENABLED r) :: es))
            <$> breaks_delta_rows real_path start delta active rest
        else if (0 <? delta)%Z || (gint (start - delta) <=? line)%Z then
          match BREAK_LOCATION r with
          | None => None
          | Some location =>
              let line := gint (line + gint (delta + 1)) in
              (λ '(rest', es),
                 ((if location_has_line location
                   then break_relocate real_path line r
                   else set_BREAK_LINE line r) :: rest', es))
                <$> breaks_delta_rows real_path start delta active rest
          end
        else
          (λ '(rest', es),
             (rest', sci_delete_marker_at_line start (BREAK_ENABLED r) :: es))
            <$> breaks_delta_rows real_path start delta active rest
      else
        (λ '(rest', es), (r :: rest', es))
          <$> breaks_delta_rows real_path start delta active rest
  end.

Definition breaks_delta (real_path : string) (start delta : Z) (active : bool)
    (st : Breaks) : option Breaks :=
  (λ '(rows, es), emits es (with_store rows st))
    <$> breaks_delta_rows real_path start delta active (store st).

(** The search loop of [on_break_toggle]: [None] when two different
    breakpoints sit on the line (the handler returns after the message
    box), otherwise [found] and [iter1]. *)
Fixpoint toggle_scan (real_path : string) (doc_line : Z) (rows : list BreakRow)
    (i : nat) (found : Z) (iter1 : nat) : option (Z * nat) :=
  match rows with
  | [] => Some (found, iter1)
  | r :: rest =>
      if bool_decide (BREAK_LINE r = doc_line) && utils_filenamecmp (BREAK_FILE r) real_path
      then
        if negb (found =? 0)%Z && negb (found =? utils_atoi0 (BREAK_ID r))%Z then None
        else toggle_scan real_path doc_line rest (S i)
               (match BREAK_ID r with Some id => atoi id | None => -1 end)%Z i
      else toggle_scan real_path doc_line rest (S i) found iter1
  end.

Definition on_break_toggle (real_path file_name : string) (doc_line : Z) (state : Z)
    (st : Breaks) : Breaks :=
  match toggle_scan real_path doc_line (store st) 0 0%Z 0 with
  | None =>
      emit (dialogs_show_msgbox
              ("There are two or more breakpoints at " +:+ file_name +:+ ":"
               +:+ fmt_d doc_line +:+ "."
               +:+ String "010" "Use the breakpoint list to remove the exact one.")) st
  | Some (found, iter1) =>
      if negb (found =? 0)%Z then break_delete iter1 state st
      else if negb (bool_decide (state = DS_INACTIVE)) then
        emit (debug_send ("-break-insert " +:+ real_path +:+ ":" +:+ fmt_d doc_line)) st
      else
        let '(st, iter) := gtk_list_store_append st in
        let st := gtk_list_store_set iter (break_relocate real_path doc_line) st in
        let scid := (scid_gen st + 1)%Z in
        let st := {| store := store st; scid_gen := scid; log := log st |} in
        let st := gtk_list_store_set iter
                    (λ r, set_BREAK_RUN_APPLY true (set_BREAK_ENABLED true
                            (set_BREAK_TYPE "b" (set_BREAK_SCID scid r)))) st in
        emit (sci_set_marker_at_line (doc_line - 1) true)
          (emit (utils_tree_set_cursor (default 0 iter)) st)
  end.

(** One section of the key file, as the [utils_get_setting_*] and
    [utils_key_file_get_string] readers see it: a key that is absent or
    unreadable is [None]. *)
Record KeySection := mkKeySection {
  key_line : option Z;
  key_type : option Z;
  key_enabled : option bool;
  key_pending : option bool;
  key_run_apply : option bool;
  key_temporary : option bool;
  key_file : option string;
  key_display : option string;
  key_func : option string;
  key_ignore : option string;
  key_cond : option string;
  key_script : option string;
  key_location : option string
}.

(** [break_load]: the result flag and the new state. *)
Definition break_load (section : KeySection) (st : Breaks) : bool * Breaks :=
  let line := default 0%Z (key_line section) in
  let type := default 0%Z (key_type section) in
  let enabled := default true (key_enabled section) in
  let pending := default false (key_pending section) in
  let run_apply := default (strchr BP_BORTS (char_of_gint type)) (key_run_apply section) in
  let temporary := default false (key_temporary section) in
  if negb (type =? 0)%Z && strchr BP_KNOWNS (char_of_gint type)
     && bool_decide (key_location section ≠ None) && (0 <=? line)%Z
  then
    let ignore := validate_column (key_ignore section) false in
    let line := if bool_decide (key_file section = None) then 0%Z else line in
    let '(st, iter) := gtk_list_store_append st in
    let scid := (scid_gen st + 1)%Z in
    let st := {| store := store st; scid_gen := scid; log := log st |} in
    let st := gtk_list_store_set iter
      (λ r, set_BREAK_TEMPORARY temporary (set_BREAK_RUN_APPLY run_apply
         (set_BREAK_LOCATION (key_location section) (set_BREAK_PENDING pending
           (set_BREAK_SCRIPT (key_script section) (set_BREAK_COND (key_cond section)
             (set_BREAK_IGNORE ignore (set_BREAK_FUNC (key_func section)
               (set_BREAK_DISPLAY (key_display section) (set_BREAK_ENABLED enabled
                 (set_BREAK_TYPE (char_of_gint type) (set_BREAK_SCID scid
                   (set_BREAK_LINE line (set_BREAK_FILE (key_file section) r))))))))))))))
      st in
    (true, break_mark iter true st)
  else (false, st).

End Break.

(** ** thread.c: thread groups, the thread store and the live-thread counter *)

Record ThreadGroup := mkThreadGroup {
  gid : string;
  pid : option string
}.

Record ThreadRow := mkThreadRow {
  THREAD_ID : option string;
  THREAD_FILE : option string;
  THREAD_LINE : Z;
  THREAD_PID : option string;
  THREAD_GROUP_ID : option string;
  THREAD_STATE : string;
  THREAD_BASE_NAME : option string;
  THREAD_FUNC : option string;
  THREAD_ADDR : option string;
  THREAD_TARGET_ID : option string;
  THREAD_CORE : option string
}.

Definition new_thread_row (tid : string) (gid : option string) (pid : option string)
  : ThreadRow :=
  {| THREAD_ID := Some tid; THREAD_FILE := None; THREAD_LINE := 0; THREAD_PID := pid;
     THREAD_GROUP_ID := gid; THREAD_STATE := ""; THREAD_BASE_NAME := None;
     THREAD_FUNC := None; THREAD_ADDR := None; THREAD_TARGET_ID := None;
     THREAD_CORE := None |}.

(** Preferences and translated texts read by the two handlers. *)
Record ThreadPrefs := mkThreadPrefs {
  terminal_auto_show : bool;
  terminal_auto_hide : bool;
  option_open_panel_on_start : bool;
  thread_select_on_exited : bool;
  STOPPED : string
}.

(** The globals of thread.c. *)
Record Threads := mkThreads {
  thread_groups : list ThreadGroup;
  thread_store : list ThreadRow;
  thread_count : Z;
  thread_id : option string;
  thread_prompt : Z;
  gdb_thread : option string;
  thread_log : list Effect
}.

Definition guint_max : Z := 2 ^ 32.

(** [guint] arithmetic *)
Definition guint (z : Z) : Z := z mod guint_max.

Definition threads_init : Threads :=
  {| thread_groups := []; thread_store := []; thread_count := 0; thread_id := None;
     thread_prompt := 0; gdb_thread := None; thread_log := [] |}.

Definition thread_emits (es : list Effect) (t : Threads) : Threads :=
  {| thread_groups := thread_groups t; thread_store := thread_store t;
     thread_count := thread_count t; thread_id := thread_id t;
     thread_prompt := thread_prompt t; gdb_thread := gdb_thread t;
     thread_log := thread_log t ++ es |}.

Definition set_thread_store (rows : list ThreadRow) (t : Threads) : Threads :=
  {| thread_groups := thread_groups t; thread_store := rows;
     thread_count := thread_count t; thread_id := thread_id t;
     thread_prompt := thread_prompt t; gdb_thread := gdb_thread t;
     thread_log := thread_log t |}.

Definition set_thread_count (c : Z) (t : Threads) : Threads :=
  {| thread_groups := thread_groups t; thread_store := thread_store t;
     thread_count := c; thread_id := thread_id t;
     thread_prompt := thread_prompt t; gdb_thread := gdb_thread t;
     thread_log := thread_log t |}.

Definition set_thread_prompt (p : Z) (t : Threads) : Threads :=
  {| thread_groups := thread_groups t; thread_store := thread_store t;
     thread_count := thread_count t; thread_id := thread_id t;
     thread_prompt := p; gdb_thread := gdb_thread t;
     thread_log := thread_log t |}.

Definition set_gdb_thread_var (g : option string) (t : Threads) : Threads :=
  {| thread_groups := thread_groups t; thread_store := thread_store t;
     thread_count := thread_count t; thread_id := thread_id t;
     thread_prompt := thread_prompt t; gdb_thread := g;
     thread_log := thread_log t |}.

(** [find_thread_group]: the first group with that id, or an error report. *)
Definition find_thread_group (g : string) (t : Threads) : option ThreadGroup * Threads :=
  match list_find (λ grp, gid grp = g) (thread_groups t) with
  | Some (_, grp) => (Some grp, t)
  | None => (None, thread_emits [dc_error (g +:+ ": gid not found")] t)
  end.

(** [find_thread] *)
Definition find_thread (tid : option string) (t : Threads) : option nat * Threads :=
  match list_find (λ r, THREAD_ID r = tid) (thread_store t) with
  | Some (i, _) => (Some i, t)
  | None => (None, thread_emits [dc_error (fmt_s tid +:+ ": tid not found")] t)
  end.

(** [set_gdb_thread] *)
Definition set_gdb_thread (tid : option string) (select : bool) (t : Threads) : Threads :=
  let t := set_gdb_thread_var tid t in
  if select then
    match find_thread tid t with
    | (Some i, t) => thread_emits [utils_tree_set_cursor i] t
    | (None, t) => t
    end
  else t.

(** [auto_select_thread] *)
Definition auto_select_thread (prefs : ThreadPrefs) (t : Threads) : Threads :=
  match list_find (λ r, THREAD_STATE r = STOPPED prefs) (thread_store t) with
  | Some (i, _) => thread_emits [utils_tree_set_cursor i; view_seek_selected] t
  | None => t
  end.

(** [thread_iter_unmark(iter, GINT_TO_POINTER(TRUE))] *)
Definition thread_iter_unmark_exit (prefs : ThreadPrefs) (r : ThreadRow) (t : Threads)
  : Threads :=
  let stopped := if bool_decide (THREAD_STATE r = STOPPED prefs) then 1%Z else 0%Z in
  thread_emits [utils_mark_execute (THREAD_FILE r) (THREAD_LINE r) false]
    (set_thread_prompt (guint (thread_prompt t - stopped)) t).

(** [on_thread_created]; the Unix build.  The start-up block calls
    [breaks_reset] of break.c, so the handler runs on both modules' globals. *)
Definition on_thread_created (prefs : ThreadPrefs) (nodes : list ParseNode)
    (w : Breaks * Threads) : Breaks * Threads :=
  let '(b, t) := w in
  let tid := parse_find_value nodes "id" in
  let group_id := parse_find_value nodes "group-id" in
  let first := bool_decide (thread_count t = 0%Z) in
  let t := set_thread_count (guint (thread_count t + 1)) t in
  let '(b, t) :=
    if first then (* startup *)
      (breaks_reset b,
       thread_emits ([terminal_clear]
                     ++ (if terminal_auto_show prefs then [terminal_standalone true] else [])
                     ++ (if option_open_panel_on_start prefs then [open_debug_panel] else []))
                    t)
    else (b, t) in
  match tid with
  | None => (b, thread_emits [dc_error "no tid"] t)
  | Some tid =>
      let iter := length (thread_store t) in
      let t := set_thread_store (thread_store t ++ [new_thread_row tid None None]) t in
      let t := thread_emits [debug_send ("04-thread-info " +:+ tid)] t in
      let t :=
        match group_id with
        | Some g =>
            let '(group, t) := find_thread_group g t in
            set_thread_store
              (alter (λ _, new_thread_row tid (Some g) (group ≫= pid)) iter (thread_store t)) t
        | None => t
        end in
      (b, if bool_decide (thread_count t = 1%Z) then set_gdb_thread (Some tid) true t else t)
  end.

(** [on_thread_exited]; the Unix build. *)
Definition on_thread_exited (prefs : ThreadPrefs) (nodes : list ParseNode)
    (w : Breaks * Threads) : Breaks * Threads :=
  let '(b, t) := w in
  let t :=
    match parse_find_value nodes "id" with
    | None => thread_emits [dc_error "no tid"] t
    | Some tid =>
        let t := if bool_decide (Some tid = gdb_thread t)
                 then set_gdb_thread None false t else t in
        match find_thread (Some tid) t with
        | (Some i, t) =>
            let was_selected := bool_decide (Some tid = thread_id t) in
            let t := match thread_store t !! i with
                     | Some r => thread_iter_unmark_exit prefs r t
                     | None => t
                     end in
            let t := set_thread_store (delete i (thread_store t)) t in
            if was_selected && thread_select_on_exited prefs
            then auto_select_thread prefs t else t
        | (None, t) => t
        end
    end in
  if bool_decide (thread_count t = 0%Z) then (b, thread_emits [dc_error "extra exit"] t)
  else
    let t := set_thread_count (guint (thread_count t - 1)) t in
    if bool_decide (thread_count t = 0%Z) then (* shutdown *)
      (b, thread_emits ((if terminal_auto_hide prefs then [terminal_standalone false] else [])
                        ++ [on_debug_auto_exit]) t)
    else (b, t).

(** The two notifications as events, and a run over a sequence of them. *)
Inductive ThreadEvent : Type :=
| thread_created (nodes : list ParseNode)
| thread_exited (nodes : list ParseNode).

Definition thread_step (prefs : ThreadPrefs) (ev : ThreadEvent) (w : Breaks * Threads)
  : Breaks * Threads :=
  match ev with
  | thread_created nodes => on_thread_created prefs nodes w
  | thread_exited nodes => on_thread_exited prefs nodes w
  end.

Definition thread_run (prefs : ThreadPrefs) (evs : list ThreadEvent) (w : Breaks * Threads)
  : Breaks * Threads :=
  foldl (λ w ev, thread_step prefs ev w) w evs.

(** The effects one event appends to the log. *)
Definition step_effects (prefs : ThreadPrefs) (ev : ThreadEvent) (w : Breaks * Threads)
  : list Effect :=
  drop (length (thread_log w.2)) (thread_log (thread_step prefs ev w).2).

(** How often the start-up block ([terminal_clear] is its unconditional call)
    and the shut-down block ([on_debug_auto_exit]) ran. *)
Definition startups (es : list Effect) : nat :=
  length (filter (λ e, e = terminal_clear) es).

Definition shutdowns (es : list Effect) : nat :=
  length (filter (λ e, e = on_debug_auto_exit) es).

(** ** tableconvert.c *)

Definition TAB : string := String "009" EmptyString.
Definition NL : string := String "010" EmptyString.

(** The fields of [s] between delimiters; never empty. *)
Fixpoint str_fields (delims : string) (s : string) : list string :=
  match s with
  | EmptyString => [EmptyString]
  | String c s' =>
      if str_mem c delims then EmptyString :: str_fields delims s'
      else match str_fields delims s' with
           | f :: fs => String c f :: fs
           | [] => [String c EmptyString]
           end
  end.

(** GLib's [g_strsplit_set(string, delimiters, -1)]: the empty string splits
    into the empty vector. *)
Definition g_strsplit_set (s delims : string) : list string :=
  if bool_decide (s = "") then [] else str_fields delims s.

(** The inner loop of [convert_to_table_sql], from column [j] on. *)
Fixpoint sql_columns (j : nat) (columns : list string) (replacement_str : string)
  : string :=
  match columns with
  | [] => replacement_str
  | column :: rest =>
      let replacement_str :=
        if decide (0 < j) then replacement_str +:+ "','" else replacement_str in
      sql_columns (S j) rest (replacement_str +:+ column)
  end.

(** The outer loop, over a NULL-terminated array of rows. *)
Fixpoint sql_rows (rows : list string) (replacement_str : string) : string :=
  match rows with
  | [] => replacement_str
  | row :: rest =>
      let replacement_str := replacement_str +:+ (TAB +:+ "('") in
      let replacement_str := sql_columns 0 (g_strsplit_set row TAB) replacement_str in
      let replacement_str :=
        match rest with
        | _ :: _ => replacement_str +:+ ("')," +:+ NL)
        | [] => replacement_str +:+ ("')" +:+ NL)
        end in
      sql_rows rest replacement_str
  end.

Definition convert_to_table_sql (rows : list string) : string := sql_rows rows "".

(** What the SQL value list is meant to be: one line per row holding the
    tuple of the row's quoted tab-separated columns, a comma after every
    tuple but the last. *)
Definition sql_quote (column : string) : string := "'" +:+ column +:+ "'".

Definition tab_columns (row : string) : list string := str_fields TAB row.

Definition sql_tuple (row : string) : string :=
  "(" +:+ String.concat "," (sql_quote <$> tab_columns row) +:+ ")".

Fixpoint sql_value_list (rows : list string) : string :=
  match rows with
  | [] => ""
  | [row] => TAB +:+ sql_tuple row +:+ NL
  | row :: rest => TAB +:+ sql_tuple row +:+ "," +:+ NL +:+ sql_value_list rest
  end.

(** ** A reference instance of the collaborators

    A UTF-8 Unix host: conversions are the identity, file names compare with
    [strcmp], the token travels as a node named [=token], and the location
    resolver reads [fullname], [line], [func] and [addr]. *)

Fixpoint digits_value (s : string) (acc : Z) : Z :=
  match s with
  | String c s' =>
      if isdigit c then digits_value s' (10 * acc + (Z.of_nat (nat_of_ascii c) - 48))%Z
      else acc
  | EmptyString => acc
  end.

Definition ref_atoi (s : string) : Z :=
  match s with
  | String "-" s' => (- digits_value s' 0)%Z
  | _ => digits_value s 0
  end.

Definition ref_grab_token (nodes : list ParseNode) : option string * list ParseNode :=
  match list_find (λ n, node_name n = "=token") nodes with
  | Some (i, PT_VALUE _ v) => (Some v, delete i nodes)
  | _ => (None, nodes)
  end.

Definition ref_parse_location (nodes : list ParseNode) : ParseLocation :=
  let file := parse_find_value nodes "fullname" in
  let line := match parse_find_value nodes "line" with
              | Some l => ref_atoi l
              | None => 0%Z
              end in
  {| loc_base_name := parse_find_value nodes "file";
     loc_func := parse_find_value nodes "func";
     loc_addr := parse_find_value nodes "addr";
     loc_file := file;
     loc_line := match file with
                 | Some _ => Z.max line 0
                 | None => 0%Z
                 end |}.

Definition ref_filenamecmp (a : option string) (b : string) : bool :=
  bool_decide (a = Some b).

Definition ref_host : Host :=
  {| atoi := ref_atoi;
     g_path_is_absolute := λ s, bool_decide (str_head s = "/"%char);
     parse_grab_token := ref_grab_token;
     parse_location := ref_parse_location;
     utils_get_locale_from_7bit := λ s, s;
     utils_get_display_from_7bit := λ s, s;
     utils_get_display_from_locale := λ s, s;
     utils_get_locale_from_display := λ s, s;
     utils_get_utf8_basename := λ s, s;
     validate_column := λ s _, s;
     utils_filenamecmp := ref_filenamecmp;
     utils_filenamecmp_refl := λ p, bool_decide_eq_true_2 (Some p = Some p) eq_refl;
     DS_INACTIVE := 1;
     DS_SENDABLE := 28 |}.

(** * Vocabulary of the statements

    Notions the theorems are stated with: views of a row or of a node,
    pieces of the code singled out, invariants, and concrete examples. *)

Section Vocabulary.

Context `{Host}.

(** ** Tableconvert *)

(** The columns after the first, each behind its separator. *)
Fixpoint sql_more (columns : list string) : string :=
  match columns with
  | [] => ""
  | c :: rest => "','" +:+ c +:+ sql_more rest
  end.

(** The text one pass of the outer loop appends. *)
Definition sql_row_text (row : string) (rest : list string) : string :=
  sql_columns 0 (g_strsplit_set row TAB) (TAB +:+ "('")
  +:+ match rest with
      | _ :: _ => "')," +:+ NL
      | [] => "')" +:+ NL
      end.

(** ** The apply command *)

(** A local row with sequence id 1: an enabled breakpoint of the given kind
    at [location]. *)
Definition example_row (id : option string) (type : ascii) (cond : option string)
    (location : string) : BreakRow :=
  set_BREAK_LOCATION (Some location) (set_BREAK_COND cond (set_BREAK_ENABLED true
    (set_BREAK_TYPE type (set_BREAK_SCID 1 (set_BREAK_ID id empty_row))))).

(** The flags [break_apply] puts before the disabled flag. *)
Definition apply_head (r : BreakRow) : string :=
  let type := BREAK_TYPE r in
  let command := "02" +:+ fmt_d (BREAK_SCID r) +:+ "-break-insert" in
  let command := if BREAK_TEMPORARY r then command +:+ " -t" else command in
  let command := if strchr BP_HARDWS type then command +:+ " -h" else command in
  if strchr BP_BREAKS type then
    match BREAK_IGNORE r with
    | Some ignore => command +:+ (" -i " +:+ ignore)
    | None => command
    end
  else command +:+ " -a".

(** The flags after the condition. *)
Definition apply_tail (thread : bool) (thread_id : option string) (r : BreakRow)
  : string :=
  (if BREAK_PENDING r then " -f" else "")
  +:+ (match thread, thread_id with
       | true, Some tid => " -p " +:+ tid
       | _, _ => ""
       end)
  +:+ " " +:+ fmt_s (BREAK_LOCATION r).

(** The condition flag. *)
Definition apply_cond (r : BreakRow) : string :=
  match BREAK_COND r with
  | Some cond => " -c " +:+ DQ +:+ utils_get_locale_from_display cond +:+ DQ
  | None => ""
  end.

(** The flags of [apply_head], without the command they follow. *)
Definition apply_head_flags (r : BreakRow) : string :=
  (if BREAK_TEMPORARY r then " -t" else "")
  +:+ (if strchr BP_HARDWS (BREAK_TYPE r) then " -h" else "")
  +:+ (if strchr BP_BREAKS (BREAK_TYPE r) then
         match BREAK_IGNORE r with
         | Some ignore => " -i " +:+ ignore
         | None => ""
         end
       else " -a").

(** ** Loading *)

(** The kind codes written by [break_save] that [break_load] is meant to
    accept: the characters of [BP_KNOWNS]. *)
Definition known_kind_code (type : Z) : bool :=
  existsb (λ c, (type =? Z.of_nat (nat_of_ascii c))%Z) (list_ascii_of_string BP_KNOWNS).

(** A section holding only a kind code, a line and a location. *)
Definition key_section (type line : option Z) (location : option string) : KeySection :=
  {| key_line := line; key_type := type; key_enabled := None; key_pending := None;
     key_run_apply := None; key_temporary := None; key_file := None;
     key_display := None; key_func := None; key_ignore := None; key_cond := None;
     key_script := None; key_location := location |}.

(** ** Thread events *)

Definition is_created (ev : ThreadEvent) : bool :=
  match ev with thread_created _ => true | thread_exited _ => false end.

(** The calls of the start-up block of [on_thread_created] after
    [breaks_reset], and the calls of the shut-down block of
    [on_thread_exited]. *)
Definition startup_effects (prefs : ThreadPrefs) : list Effect :=
  [terminal_clear]
  ++ (if terminal_auto_show prefs then [terminal_standalone true] else [])
  ++ (if option_open_panel_on_start prefs then [open_debug_panel] else []).

Definition shutdown_effects (prefs : ThreadPrefs) : list Effect :=
  (if terminal_auto_hide prefs then [terminal_standalone false] else [])
  ++ [on_debug_auto_exit].

(** The calls these two blocks are made of. *)
Definition is_lifecycle (e : Effect) : bool :=
  match e with
  | terminal_clear | terminal_standalone _ | open_debug_panel | on_debug_auto_exit => true
  | _ => false
  end.

(** Preferences with the terminal shown and hidden automatically. *)
Definition example_prefs : ThreadPrefs :=
  {| terminal_auto_show := true; terminal_auto_hide := true;
     option_open_panel_on_start := false; thread_select_on_exited := false;
     STOPPED := "Stopped" |}.

(** Two threads created, both exited, then a third created. *)
Definition example_events : list ThreadEvent :=
  [ thread_created [PT_VALUE "id" "1"; PT_VALUE "group-id" "i1"];
    thread_created [PT_VALUE "id" "2"; PT_VALUE "group-id" "i1"];
    thread_exited [PT_VALUE "id" "1"];
    thread_exited [PT_VALUE "id" "2"];
    thread_created [PT_VALUE "id" "3"; PT_VALUE "group-id" "i1"] ].

(** ** The parse of one row node *)

(** The script column of a node: the commands of its [script], escaped. *)
Definition node_script (nodes : list ParseNode) : option string :=
  match parse_find_node nodes "script" with
  | Some script => Some (parse_script script).1
  | None => None
  end.

(** The ignore column of a node: [ignore], or else [pass]. *)
Definition node_ignore (nodes : list ParseNode) : option string :=
  match parse_find_value nodes "ignore" with
  | Some i => Some i
  | None => parse_find_value nodes "pass"
  end.

(** The enabled column of a node: set unless [enabled] compares equal to
    [n]. *)
Definition node_enabled (nodes : list ParseNode) : bool :=
  negb (g_strcmp0 (parse_find_value nodes "enabled") "n" =? 0)%Z.

(** Everything a parse outside the Apply stage writes into the row of a
    node, whether the row was found or has just been created. *)
Definition row_merge (nodes : list ParseNode) (id : string) (loc : ParseLocation)
    (r : BreakRow) : BreakRow :=
  set_parsed id loc (parse_find_value nodes "times")
    (bool_decide (parse_find_value nodes "disp" = Some "del"))
    (set_BREAK_IGNORE (node_ignore nodes)
      (set_BREAK_COND (utils_get_display_from_7bit <$> parse_find_value nodes "cond")
        (set_BREAK_ENABLED (node_enabled nodes)
           (set_BREAK_SCRIPT (node_script nodes) r)))).

(** The node names its file itself, or its [original-location] does not
    stand in for the file: creating its row reads no freed memory. *)
Definition node_resolved (nodes : list ParseNode) : Prop :=
  is_Some (new_break_loc (parse_find_locale nodes "original-location")
             (parse_location nodes)).

(** The location a node resolves to when its row is being created. *)
Definition node_new_loc (nodes : list ParseNode) : ParseLocation :=
  default (parse_location nodes)
    (new_break_loc (parse_find_locale nodes "original-location") (parse_location nodes)).

(** Two rows agree on the columns set when a row is created. *)
Definition same_origin (r1 r2 : BreakRow) : Prop :=
  BREAK_SCID r1 = BREAK_SCID r2 ∧ BREAK_TYPE r1 = BREAK_TYPE r2
  ∧ BREAK_DISPLAY r1 = BREAK_DISPLAY r2 ∧ BREAK_PENDING r1 = BREAK_PENDING r2
  ∧ BREAK_LOCATION r1 = BREAK_LOCATION r2 ∧ BREAK_RUN_APPLY r1 = BREAK_RUN_APPLY r2
  ∧ BREAK_DISCARD r1 = BREAK_DISCARD r2.

(** A node of a row array that [break_node_parse] can parse: an array with
    a [number]. *)
Definition node_id (node : ParseNode) : option string :=
  match node with
  | PT_VALUE _ _ => None
  | PT_ARRAY _ nodes => parse_find_value nodes "number"
  end.

(** The fields of a row node. *)
Definition node_fields (node : ParseNode) : list ParseNode :=
  match node with
  | PT_VALUE _ _ => []
  | PT_ARRAY _ nodes => nodes
  end.

(** The row [break_row_new] creates, before the node's other columns are
    merged into it. *)
Definition created_row (leading : bool) (type : ascii) (stage : BreakStage)
    (nodes : list ParseNode) (loc : ParseLocation) (scid : Z) : BreakRow :=
  let borts := strchr BP_BORTS type in
  let location := new_break_location nodes type in
  let persist := if bool_decide (location = None) || negb (strchr BP_KNOWNS type)
                 then false else leading && bool_decide (stage = BG_PERSIST) in
  let location := match location with
                  | None => loc_func loc
                  | Some l => Some l
                  end in
  let display := if borts then utils_get_utf8_basename <$> location
                 else utils_get_display_from_locale <$> location in
  set_BREAK_DISCARD (negb persist)
    (set_BREAK_RUN_APPLY (leading && borts)
      (set_BREAK_LOCATION location
        (set_BREAK_PENDING (bool_decide (parse_find_locale nodes "pending" ≠ None))
          (set_BREAK_DISPLAY display (set_BREAK_TYPE type
            (set_BREAK_SCID scid empty_row)))))).

(** The kind of the row a node describes: its own, or for a dotted sub-id
    of unknown kind that follows a row of the same message, the kind of
    that row. *)
Definition row_type (name : string) (nodes : list ParseNode) (id : string)
    (bd : BreakData) : ascii :=
  let type0 := str_nth BP_CHARS
                 (break_type_index (default name (parse_find_value nodes "type"))
                    break_types) in
  if negb (str_mem "." id) || negb (bool_decide (bd_stage bd = BG_NEXT))
     || negb (bool_decide (type0 = "?"%char))
  then type0 else bd_type bd.

(** The row a node creates: the creation columns, then the merge. *)
Definition new_row (name : string) (nodes : list ParseNode) (id : string)
    (bd : BreakData) (scid : Z) : BreakRow :=
  row_merge nodes id (node_new_loc nodes)
    (created_row (negb (str_mem "." id)) (row_type name nodes id bd) (bd_stage bd)
       nodes (parse_location nodes) scid).

(** What the first row node of a reply writes into the row in the Apply
    stage. *)
Definition row_applied (name : string) (nodes : list ParseNode) (id : string)
    (bd : BreakData) (r : BreakRow) : BreakRow :=
  let type := row_type name nodes id bd in
  set_parsed id (parse_location nodes) (parse_find_value nodes "times")
    (bool_decide (parse_find_value nodes "disp" = Some "del"))
    (if strchr BP_BORTS type then
       (if strchr BP_BREAKS type then set_BREAK_IGNORE (node_ignore nodes) else λ r, r)
         (set_BREAK_COND (utils_get_display_from_7bit <$> parse_find_value nodes "cond")
            (set_BREAK_ENABLED (node_enabled nodes) r))
     else r).

(** Two states with the same rows and the same sequence-id counter; the
    logs may differ. *)
Definition same_rows (st st' : Breaks) : Prop :=
  store st = store st' ∧ scid_gen st = scid_gen st'.

(** The node is a sub-row (dotted id) of a kind [break_types] does not
    list: right after a parsed row of the same message it takes the kind
    of that row. *)
Definition kind_inherited (node : ParseNode) : bool :=
  match node_id node with
  | Some x =>
      str_mem "." x
      && bool_decide
           (str_nth BP_CHARS
              (break_type_index
                 (default (node_name node) (parse_find_value (node_fields node) "type"))
                 break_types) = "?"%char)
  | None => false
  end.

(** Two outcomes of a parse: both without a result, or both with one, the
    same rows and sequence-id counter and -- when [data] holds -- the same
    parse data. *)
Definition same_parse (data : Prop) (res res' : option (Breaks * BreakData)) : Prop :=
  option_Forall2 (λ r r', same_rows r.1 r'.1 ∧ (data → r.2 = r'.2)) res res'.

(** A reply with one breakpoint, as the debugger lists it. *)
Definition example_bkpt (number location : string) : ParseNode :=
  PT_ARRAY "bkpt"
    [ PT_VALUE "number" number; PT_VALUE "type" "breakpoint"; PT_VALUE "disp" "keep";
      PT_VALUE "enabled" "y"; PT_VALUE "addr" "0x1000"; PT_VALUE "func" "main";
      PT_VALUE "file" "a.c"; PT_VALUE "fullname" "/src/a.c"; PT_VALUE "line" "10";
      PT_VALUE "times" "0"; PT_VALUE "original-location" location ].

(** A breakpoint the debugger cannot place yet: it has no address and no
    file, only the location as it was typed. *)
Definition example_pending (number location : string) : ParseNode :=
  PT_ARRAY "bkpt"
    [ PT_VALUE "number" number; PT_VALUE "type" "breakpoint"; PT_VALUE "disp" "keep";
      PT_VALUE "enabled" "y"; PT_VALUE "addr" "<PENDING>"; PT_VALUE "pending" location;
      PT_VALUE "times" "0"; PT_VALUE "original-location" location ].

(** A breakpoint reported with its file and, when [line] is given, its
    line, but without [func]; [location] is its [original-location], when
    it is reported. *)
Definition example_bare (number : string) (line location : option string) : ParseNode :=
  PT_ARRAY "bkpt"
    ([ PT_VALUE "number" number; PT_VALUE "type" "breakpoint"; PT_VALUE "disp" "keep";
       PT_VALUE "enabled" "y"; PT_VALUE "addr" "0x1000"; PT_VALUE "file" "a.c";
       PT_VALUE "fullname" "/src/a.c" ]
     ++ match line with Some l => [PT_VALUE "line" l] | None => [] end
     ++ [ PT_VALUE "times" "0" ]
     ++ match location with Some l => [PT_VALUE "original-location" l] | None => [] end).

(** ** Properties of the store *)

(** The rows that are kept across sessions: those not marked discardable
    ([break_save] writes exactly these). *)
Definition persistent (rows : list BreakRow) : list BreakRow :=
  filter (λ r, BREAK_DISCARD r = false) rows.

(** Their sequence ids. *)
Definition persisted (rows : list BreakRow) : list Z :=
  BREAK_SCID <$> filter (λ r, BREAK_DISCARD r = false) rows.

(** The row [r'] is the row [r] after a parse of nodes with the backend
    ids [ids]: it has the columns it was created with and its backend id,
    and it is [r] itself unless one of the nodes names its id. *)
Definition row_kept (ids : list string) (r r' : BreakRow) : Prop :=
  same_origin r r' ∧ BREAK_ID r' = BREAK_ID r
  ∧ ((∀ x, BREAK_ID r = Some x → x ∉ ids) → r' = r).

(** No two rows carry the same backend id. *)
Definition unique_ids (rows : list BreakRow) : Prop := NoDup (omap BREAK_ID rows).

(** The operations that add rows or update them from outside. *)
Inductive BreakOp : Type :=
| op_break_inserted (nodes : list ParseNode)
| op_break_created (nodes : list ParseNode)
| op_break_list (nodes : list ParseNode)
| op_break_toggle (real_path file_name : string) (doc_line state : Z)
| op_break_load (section : KeySection).

(** The handler behind each operation. *)
Definition break_op (op : BreakOp) (st : Breaks) : option Breaks :=
  match op with
  | op_break_inserted nodes => on_break_inserted nodes st
  | op_break_created nodes => on_break_created nodes st
  | op_break_list nodes => on_break_list nodes st
  | op_break_toggle real_path file_name doc_line state =>
      Some (on_break_toggle real_path file_name doc_line state st)
  | op_break_load section => Some (break_load section st).2
  end.

(** A run of operations, first to last; it has a result when every
    operation of it has one. *)
Definition break_ops (ops : list BreakOp) (st : Breaks) : option Breaks :=
  foldl (λ st op, st ≫= break_op op) (Some st) ops.

(** The id a reply brings for the row its token names is carried by no other
    row.  Only a reply in the Apply stage is concerned. *)
Definition apply_id_fresh (op : BreakOp) (st : Breaks) : Prop :=
  match op with
  | op_break_inserted nodes =>
      let bd := (break_inserted_start (parse_grab_token nodes).1 st).2 in
      bd_stage bd = BG_APPLY →
      ∀ node tail x, (parse_grab_token nodes).2 = node :: tail → node_id node = Some x →
        ∀ j r, store st !! j = Some r → BREAK_ID r = Some x → bd_iter bd = Some j
  | _ => True
  end.

(** ** The refresh of a listing *)

(** The reply to a listing request sent with an empty token: the table
    with the rows in its [body]. *)
Definition example_listing (rows : list ParseNode) : list ParseNode :=
  [PT_ARRAY "BreakpointTable" [PT_ARRAY "body" (rows ++ [PT_VALUE "=token" ""])]].

End Vocabulary.

(** * The rest of the three files *)

(** ** tableconvert.c: the HTML and LaTeX tables and the dispatch *)

(** [gboolean] is an [int]; the value the tests [header == TRUE] compare
    with. *)
Definition TRUE : Z := 1.

Definition CR : string := String "013" EmptyString.

(** The inner loop of [convert_to_table_html]: one cell per column. *)
Fixpoint html_columns (columns : list string) (replacement_str : string) : string :=
  match columns with
  | [] => replacement_str
  | column :: rest =>
      let replacement_str := replacement_str +:+ (TAB +:+ TAB +:+ "<td>") in
      let replacement_str := replacement_str +:+ column in
      html_columns rest (replacement_str +:+ ("</td>" +:+ NL))
  end.

(** The outer loop of [convert_to_table_html], from row [i] on. *)
Fixpoint html_rows (header : Z) (i : nat) (rows : list string) (replacement_str : string)
  : string :=
  match rows with
  | [] => replacement_str
  | row :: rest =>
      let columns := g_strsplit_set row TAB in
      let replacement_str :=
        if bool_decide (i = 1) && bool_decide (header = TRUE)
        then replacement_str +:+ ("<tbody>" +:+ NL) else replacement_str in
      let replacement_str := replacement_str +:+ (TAB +:+ "<tr>" +:+ NL) in
      let replacement_str := html_columns columns replacement_str in
      let replacement_str := replacement_str +:+ (TAB +:+ "</tr>" +:+ NL) in
      let replacement_str :=
        if bool_decide (i = 0) && bool_decide (header = TRUE)
        then replacement_str +:+ ("</thead>" +:+ NL) else replacement_str in
      html_rows header (S i) rest replacement_str
  end.

Definition convert_to_table_html (rows : list string) (header : Z) : string :=
  let replacement_str := "<table>" +:+ NL in
  let replacement_str :=
    if bool_decide (header = TRUE) then replacement_str +:+ ("<thead>" +:+ NL)
    else replacement_str in
  let replacement_str := html_rows header 0 rows replacement_str in
  let replacement_str :=
    if bool_decide (header = TRUE) then replacement_str +:+ ("</tbody>" +:+ NL)
    else replacement_str in
  replacement_str +:+ ("</table>" +:+ NL).

(** The inner loop of [convert_to_table_latex], from column [j] on. *)
Fixpoint latex_columns (j : nat) (columns : list string) (replacement_str : string)
  : string :=
  match columns with
  | [] => replacement_str
  | column :: rest =>
      let replacement_str :=
        if decide (0 < j) then replacement_str +:+ "  &  " else replacement_str in
      latex_columns (S j) rest (replacement_str +:+ column)
  end.

Fixpoint latex_rows (rows : list string) (replacement_str : string) : string :=
  match rows with
  | [] => replacement_str
  | row :: rest =>
      let replacement_str := latex_columns 0 (g_strsplit_set row TAB) replacement_str in
      latex_rows rest (replacement_str +:+ ("\\" +:+ NL))
  end.

(** [convert_to_table_latex]; it does not read [header]. *)
Definition convert_to_table_latex (rows : list string) (header : Z) : string :=
  latex_rows rows ("\begin{tabular}{}" +:+ NL) +:+ ("\end{tabular}" +:+ NL).

(** [doc->file_type->id], as far as [convert_to_table] tells the values
    apart. *)
Inductive GeanyFiletypeID : Type :=
| GEANY_FILETYPES_NONE
| GEANY_FILETYPES_HTML
| GEANY_FILETYPES_LATEX
| GEANY_FILETYPES_SQL
| GEANY_FILETYPES_OTHER.

(** [convert_to_table] on the current document: [selection] is [None] when
    nothing is selected; the result is the text handed to [sci_replace_sel],
    [None] when the selection is left as it is. *)
Definition convert_to_table (file_type : GeanyFiletypeID) (selection : option string)
    (header : Z) : option string :=
  match selection with
  | None => None
  | Some selection =>
      let rows := g_strsplit_set selection (CR +:+ NL) in
      match file_type with
      | GEANY_FILETYPES_NONE => None
      | GEANY_FILETYPES_HTML => Some (convert_to_table_html rows header)
      | GEANY_FILETYPES_LATEX => Some (convert_to_table_latex rows header)
      | GEANY_FILETYPES_SQL => Some (convert_to_table_sql rows)
      | GEANY_FILETYPES_OTHER => None
      end
  end.

(** ** break.c: sorting, display, removal, clearing and saving *)

(** [for (p = s; isdigit( *p); p++);] *)
Fixpoint skip_digits (s : string) : string :=
  match s with
  | EmptyString => EmptyString
  | String c s' => if isdigit c then skip_digits s' else s
  end.

(** [p + ( *p == '.')] *)
Definition skip_dot (s : string) : string :=
  match s with
  | EmptyString => EmptyString
  | String c s' => if bool_decide (c = "."%char) then s' else s
  end.

(** [strchr(s, c) - s] for a character other than NUL. *)
Fixpoint str_index (c : ascii) (s : string) : option nat :=
  match s with
  | EmptyString => None
  | String a s' => if bool_decide (a = c) then Some 0 else S <$> str_index c s'
  end.

(** [strchr(s, c) - s]: NUL is found at the terminator; [None] is the NULL
    result. *)
Definition strchr_offset (s : string) (c : ascii) : option nat :=
  if bool_decide (c = "000"%char) then Some (String.length s) else str_index c s.

(** [!strncmp(id, pref, strlen(pref))]: the text of [id] after [pref]. *)
Fixpoint strip_prefix (pref id : string) : option string :=
  match pref, id with
  | EmptyString, _ => Some id
  | String p pref', String c id' =>
      if bool_decide (c = p) then strip_prefix pref' id' else None
  | String _ _, EmptyString => None
  end.

(** The [char] written as an integer by [g_key_file_set_integer]: [char] is
    signed on the platforms GLib's [gchar] is built for here. *)
Definition gint_of_char (c : ascii) : Z :=
  let n := Z.of_nat (nat_of_ascii c) in
  if (n <? 128)%Z then n else (n - 256)%Z.

Section BreakRest.

Context `{Host}.

(** [break_id_compare]: by the number of the id, then by the number after
    its dot.  Both differences are [gint]s. *)
Definition break_id_compare (a b : BreakRow) : Z :=
  let s1 := BREAK_ID a in
  let s2 := BREAK_ID b in
  let result := gint (utils_atoi0 s1 - utils_atoi0 s2) in
  match s1, s2 with
  | Some s1, Some s2 =>
      if (result =? 0)%Z
      then gint (atoi (skip_dot (skip_digits s1)) - atoi (skip_dot (skip_digits s2)))
      else result
  | _, _ => result
  end.

(** [break_type_set_data_func]: the text of the type cell.  [None] when the
    code computes with the NULL result of [strchr] or reads past the end of
    [break_types]. *)
Definition break_type_set_data_func (r : BreakRow) : option string :=
  match strchr_offset BP_CHARS (BREAK_TYPE r) with
  | Some offset =>
      match (break_types.*2 ++ ["??"]) !! offset with
      | Some type => Some (type +:+ (if BREAK_TEMPORARY r then ",t" else ""))
      | None => None
      end
  | None => None
  end.

(** The test of [break_remove_all]: [id] is [pref], or [pref] followed by a
    dot and more. *)
Definition break_id_matches (pref : string) (id : option string) : bool :=
  match id with
  | Some id =>
      match strip_prefix pref id with
      | Some rest => strchr "." (str_head rest)
      | None => false
      end
  | None => false
  end.

(** The loop of [break_remove_all]: the rows left, the markers removed by
    [break_remove], and [found]. *)
Fixpoint break_remove_all_rows (pref : string) (force : bool) (rows : list BreakRow)
  : list BreakRow * list Effect * bool :=
  match rows with
  | [] => ([], [], false)
  | r :: rest =>
      let '(rest', es, found) := break_remove_all_rows pref force rest in
      if break_id_matches pref (BREAK_ID r) then
        if BREAK_DISCARD r || force then (rest', unmark_effect r :: es, true)
        else (break_clear_row r :: rest', es, true)
      else (r :: rest', es, found)
  end.

Definition break_remove_all (pref : string) (force : bool) (st : Breaks) : bool * Breaks :=
  let '(rows, es, found) := break_remove_all_rows pref force (store st) in
  (found, emits es (with_store rows st)).

(** [on_break_done].  Without a token the handler reads through a NULL
    pointer: [None]. *)
Definition on_break_done (nodes : list ParseNode) (st : Breaks) : option Breaks :=
  match (parse_grab_token nodes).1 with
  | None => None
  | Some token =>
      let oper := str_head token in
      let arg := match token with String _ rest => rest | EmptyString => EmptyString end in
      Some
        (if bool_decide (oper = "0"%char) || bool_decide (oper = "1"%char) then
           match model_find_scid (store st) arg with
           | Some i => break_enable (Some i) (bool_decide (oper = "1"%char)) st
           | None => emit (dc_error (token +:+ ": b_scid not found")) st
           end
         else if bool_decide (oper = "2"%char) then
           emit (debug_send ("-break-info " +:+ arg)) st
         else if bool_decide (oper = "3"%char) then
           let '(found, st) := break_remove_all arg true st in
           if found then st else emit (dc_error (token +:+ ": bid not found")) st
         else emit (dc_error (token +:+ ": invalid b_oper")) st)
  end.

(** The loop of [breaks_clear]. *)
Fixpoint breaks_clear_rows (rows : list BreakRow) : list BreakRow * list Effect :=
  match rows with
  | [] => ([], [])
  | r :: rest =>
      let '(rest', es) := breaks_clear_rows rest in
      if BREAK_DISCARD r then (rest', unmark_effect r :: es)
      else (break_clear_row r :: rest', es)
  end.

Definition breaks_clear (st : Breaks) : Breaks :=
  let '(rows, es) := breaks_clear_rows (store st) in
  emits es (with_store rows st).

(** [break_iter_check] *)
Definition break_iter_check (r : BreakRow) (active : Z) : Z :=
  guint (active + (if BREAK_ENABLED r && bool_decide (BREAK_ID r ≠ None) then 1 else 0)).

(** [breaks_active] *)
Definition breaks_active (st : Breaks) : Z :=
  foldl (λ active r, break_iter_check r active) 0%Z (store st).

(** [breaks_delete_all] *)
Definition breaks_delete_all (st : Breaks) : Breaks :=
  {| store := []; scid_gen := 0; log := log st ++ (unmark_effect <$> store st) |}.

(** [break_save]: the result flag and the section as the writers leave it.
    A key that is set holds the value given, one that is removed is
    [None]. *)
Definition break_save (section : KeySection) (r : BreakRow) : bool * KeySection :=
  if BREAK_DISCARD r then (false, section)
  else
    (true,
     {| key_line := if (BREAK_LINE r =? 0)%Z then None else Some (BREAK_LINE r);
        key_type := Some (gint_of_char (BREAK_TYPE r));
        key_enabled := Some (BREAK_ENABLED r);
        key_pending := Some (BREAK_PENDING r);
        key_run_apply := Some (BREAK_RUN_APPLY r);
        key_temporary := if strchr BP_BORTS (BREAK_TYPE r)
                         then Some (BREAK_TEMPORARY r) else None;
        key_file := BREAK_FILE r;
        key_display := BREAK_DISPLAY r;
        key_func := BREAK_FUNC r;
        key_ignore := BREAK_IGNORE r;
        key_cond := BREAK_COND r;
        key_script := BREAK_SCRIPT r;
        key_location := BREAK_LOCATION r |}).

End BreakRest.

(** ** thread.c: thread groups, selection and teardown *)

Definition set_thread_groups (groups : list ThreadGroup) (t : Threads) : Threads :=
  {| thread_groups := groups; thread_store := thread_store t;
     thread_count := thread_count t; thread_id := thread_id t;
     thread_prompt := thread_prompt t; gdb_thread := gdb_thread t;
     thread_log := thread_log t |}.

(** [array_remove(thread_groups, group)] for the group [find_thread_group]
    returned: the first one with that id goes. *)
Fixpoint remove_thread_group (g : string) (groups : list ThreadGroup) : list ThreadGroup :=
  match groups with
  | [] => []
  | group :: rest =>
      if bool_decide (gid group = g) then rest else group :: remove_thread_group g rest
  end.

(** The assignment [group->pid = ...] to the group [find_thread_group]
    returned. *)
Fixpoint set_thread_group_pid (g : string) (p : option string) (groups : list ThreadGroup)
  : list ThreadGroup :=
  match groups with
  | [] => []
  | group :: rest =>
      if bool_decide (gid group = g) then {| gid := gid group; pid := p |} :: rest
      else group :: set_thread_group_pid g p rest
  end.

(** [on_thread_group_added].  [None]: without a lead value the handler calls
    [strdup(NULL)]. *)
Definition on_thread_group_added (nodes : list ParseNode) (t : Threads) : option Threads :=
  match parse_lead_value nodes with
  | Some g => Some (set_thread_groups (thread_groups t ++ [{| gid := g; pid := None |}]) t)
  | None => None
  end.

(** [on_thread_group_started]: the new state and the text shown in the
    status bar (untranslated).  [None]: a pid without a lead value makes the
    handler look a NULL id up. *)
Definition on_thread_group_started (nodes : list ParseNode) (t : Threads)
  : option (Threads * string) :=
  let g := parse_lead_value nodes in
  let p := parse_find_value nodes "pid" in
  let status := "Thread group " +:+ match p, g with
                                    | Some p, _ => p
                                    | None, Some g => g
                                    | None, None => ""
                                    end +:+ " started." in
  match p with
  | None => Some (thread_emits [dc_error "no pid"] t, status)
  | Some p =>
      match g with
      | None => None
      | Some g =>
          match find_thread_group g t with
          | (Some _, t) =>
              Some (set_thread_groups (set_thread_group_pid g (Some p) (thread_groups t)) t,
                    status)
          | (None, t) => Some (t, status)
          end
      end
  end.

(** [on_thread_group_exited]; the Unix build.  [terminal_show_on_error] is
    the preference of that name. *)
Definition on_thread_group_exited (terminal_show_on_error : bool) (nodes : list ParseNode)
    (t : Threads) : option (Threads * string) :=
  match parse_lead_value nodes with
  | None => None
  | Some g =>
      let exit_code := parse_find_value nodes "exit-code" in
      let '(group, t) := find_thread_group g t in
      let '(name, t) :=
        match group ≫= pid with
        | Some p => (p, set_thread_groups (set_thread_group_pid g None (thread_groups t)) t)
        | None => (g, t)
        end in
      let status := "Thread group " +:+ name +:+ " exited" in
      let '(status, t) :=
        match exit_code with
        | Some code =>
            (status +:+ " with exit code " +:+ code,
             if terminal_show_on_error then thread_emits [terminal_standalone true] t else t)
        | None => (status, t)
        end in
      Some (t, status +:+ ".")
  end.

(** [on_thread_group_removed] *)
Definition on_thread_group_removed (nodes : list ParseNode) (t : Threads) : option Threads :=
  match parse_lead_value nodes with
  | None => None
  | Some g =>
      match find_thread_group g t with
      | (Some _, t) => Some (set_thread_groups (remove_thread_group g (thread_groups t)) t)
      | (None, t) => Some t
      end
  end.

(** [on_thread_selected]; [thread_select_follow] is the preference of that
    name. *)
Definition on_thread_selected (thread_select_follow : bool) (nodes : list ParseNode)
    (t : Threads) : Threads :=
  set_gdb_thread (parse_lead_value nodes) thread_select_follow t.

(** [threads_clear] *)
Definition threads_clear (prefs : ThreadPrefs) (t : Threads) : Threads :=
  let t := foldl (λ t r, thread_iter_unmark_exit prefs r t) t (thread_store t) in
  let t := set_thread_groups [] t in
  let t := set_thread_store [] t in
  let t := set_gdb_thread None false t in
  set_thread_count 0 t.

(** [thread_synchronize] *)
Definition thread_synchronize (t : Threads) : Threads :=
  match thread_id t with
  | Some tid =>
      if bool_decide (Some tid ≠ gdb_thread t)
      then thread_emits [debug_send ("04-thread-select " +:+ tid)] t else t
  | None => t
  end.

(** ** thread.c: running and stopped threads *)

(** thread.h: the values of the [ThreadState] enum, of which thread.c has
    the names only. *)
Class ThreadStates := {
  THREAD_BLANK : Z;
  THREAD_RUNNING : Z;
  THREAD_STOPPED : Z;
  THREAD_QUERY_FRAME : Z;
  THREAD_AT_SOURCE : Z;
  THREAD_AT_ASSEMBLER : Z
}.

(** The views a handler of thread.c marks dirty. *)
Inductive ViewIndex : Type := VIEW_CONSOLE | VIEW_THREADS | VIEW_BREAKS.

(** The calls of the stop and frame handlers that the log of [Effect]s has
    no entry for. *)
Inductive ViewRequest : Type :=
| utils_seek (file : option string) (line : Z)
| view_dirty (view : ViewIndex)
| views_data_dirty
| plugin_blink.

(** The preferences and texts the handlers below read, besides those of
    [ThreadPrefs]. *)
Record ThreadOptions := mkThreadOptions {
  thread_prefs : ThreadPrefs;
  RUNNING : string;
  pref_keep_exec_point : bool;
  thread_select_on_running : bool;
  thread_select_on_stopped : bool;
  thread_select_follow : bool
}.

(** The globals of thread.c with [thread_state], and the requests to the
    views: each with the number of effects logged before it, so that the
    order of all calls is kept.  [thread_id] and [thread_state] are also
    written by the selection callback of the tree view, which a logged
    [utils_tree_set_cursor] stands for. *)
Record ThreadEngine := mkThreadEngine {
  te_threads : Threads;
  thread_state : Z;
  te_requests : list (nat * ViewRequest)
}.

Definition te_with (t : Threads) (e : ThreadEngine) : ThreadEngine :=
  {| te_threads := t; thread_state := thread_state e; te_requests := te_requests e |}.

Definition te_state (state : Z) (e : ThreadEngine) : ThreadEngine :=
  {| te_threads := te_threads e; thread_state := state; te_requests := te_requests e |}.

Definition te_request (q : ViewRequest) (e : ThreadEngine) : ThreadEngine :=
  {| te_threads := te_threads e; thread_state := thread_state e;
     te_requests := te_requests e ++ [(length (thread_log (te_threads e)), q)] |}.

Definition te_emits (es : list Effect) (e : ThreadEngine) : ThreadEngine :=
  te_with (thread_emits es (te_threads e)) e.

(** [gtk_list_store_set(store, iter, ...)] on the thread store. *)
Definition te_set_row (i : nat) (f : ThreadRow → ThreadRow) (e : ThreadEngine)
  : ThreadEngine :=
  te_with (set_thread_store (alter f i (thread_store (te_threads e))) (te_threads e)) e.

(** [find_thread] *)
Definition te_find_thread (tid : option string) (e : ThreadEngine)
  : option nat * ThreadEngine :=
  let '(found, t) := find_thread tid (te_threads e) in (found, te_with t e).

Section ThreadStop.

Context `{Host} {states : ThreadStates}.

(** [thread_iter_unmark(iter, gdata)] on the row [r]. *)
Definition thread_iter_unmark (o : ThreadOptions) (gdata : Z) (r : ThreadRow) (t : Threads)
  : Threads :=
  let stopped := bool_decide (THREAD_STATE r = STOPPED (thread_prefs o)) in
  let change := if bool_decide (gdata ≠ 0%Z)
                then (if stopped then (-1)%Z else 0%Z)
                else (if stopped then 0%Z else 1%Z) in
  let t := set_thread_prompt (guint (thread_prompt t + change)) t in
  if bool_decide (gdata ≠ 2%Z)
  then thread_emits [utils_mark_execute (THREAD_FILE r) (THREAD_LINE r) false] t
  else t.

(** The columns [thread_iter_running] sets. *)
Definition running_row (o : ThreadOptions) (r : ThreadRow) : ThreadRow :=
  if pref_keep_exec_point o then
    {| THREAD_ID := THREAD_ID r; THREAD_FILE := THREAD_FILE r; THREAD_LINE := THREAD_LINE r;
       THREAD_PID := THREAD_PID r; THREAD_GROUP_ID := THREAD_GROUP_ID r;
       THREAD_STATE := RUNNING o; THREAD_BASE_NAME := THREAD_BASE_NAME r;
       THREAD_FUNC := THREAD_FUNC r; THREAD_ADDR := THREAD_ADDR r;
       THREAD_TARGET_ID := THREAD_TARGET_ID r; THREAD_CORE := THREAD_CORE r |}
  else
    {| THREAD_ID := THREAD_ID r; THREAD_FILE := None; THREAD_LINE := 0;
       THREAD_PID := THREAD_PID r; THREAD_GROUP_ID := THREAD_GROUP_ID r;
       THREAD_STATE := RUNNING o; THREAD_BASE_NAME := None; THREAD_FUNC := None;
       THREAD_ADDR := None; THREAD_TARGET_ID := THREAD_TARGET_ID r; THREAD_CORE := None |}.

(** [thread_iter_running(iter, tid)].  The id compared with [thread_id] is
    [tid], or the row's own id when [tid] is NULL; every row has an id, which
    [on_thread_created] sets. *)
Definition thread_iter_running (o : ThreadOptions) (i : nat) (tid : option string)
    (e : ThreadEngine) : ThreadEngine :=
  match thread_store (te_threads e) !! i with
  | None => e
  | Some r =>
      let gdata := (1 + if pref_keep_exec_point o then 1 else 0)%Z in
      let e := te_with (thread_iter_unmark o gdata r (te_threads e)) e in
      let e := te_set_row i (running_row o) e in
      match thread_id (te_threads e) with
      | Some selected =>
          let tid1 := match tid with Some tid => Some tid | None => THREAD_ID r end in
          if bool_decide (tid1 = Some selected) then te_state THREAD_RUNNING e else e
      | None => e
      end
  end.

(** [model_foreach(model, func, gdata)] on the thread store. *)
Definition te_foreach (func : nat → ThreadEngine → ThreadEngine) (e : ThreadEngine)
  : ThreadEngine :=
  foldl (λ e i, func i e) e (seq 0 (length (thread_store (te_threads e)))).

(** [on_thread_running] *)
Definition on_thread_running (o : ThreadOptions) (nodes : list ParseNode)
    (e : ThreadEngine) : ThreadEngine :=
  match parse_find_value nodes "thread-id" with
  | None => te_emits [dc_error "no tid"] e
  | Some tid =>
      let was_stopped := (THREAD_STOPPED <=? thread_state e)%Z in
      let e :=
        if bool_decide (tid = "all") then te_foreach (λ i, thread_iter_running o i None) e
        else
          match te_find_thread (Some tid) e with
          | (Some i, e) => thread_iter_running o i (Some tid) e
          | (None, e) => e
          end in
      if thread_select_on_running o && was_stopped
         && bool_decide (thread_state e = THREAD_RUNNING)
      then te_with (auto_select_thread (thread_prefs o) (te_threads e)) e
      else e
  end.

(** [thread_parse_extra] *)
Definition thread_parse_extra (nodes : list ParseNode) (i : nat) (name : string)
    (set_column : option string → ThreadRow → ThreadRow) (e : ThreadEngine) : ThreadEngine :=
  match parse_find_value nodes name with
  | Some value => te_set_row i (set_column (Some value)) e
  | None => e
  end.

Definition set_THREAD_TARGET_ID (v : option string) (r : ThreadRow) : ThreadRow :=
  {| THREAD_ID := THREAD_ID r; THREAD_FILE := THREAD_FILE r; THREAD_LINE := THREAD_LINE r;
     THREAD_PID := THREAD_PID r; THREAD_GROUP_ID := THREAD_GROUP_ID r;
     THREAD_STATE := THREAD_STATE r; THREAD_BASE_NAME := THREAD_BASE_NAME r;
     THREAD_FUNC := THREAD_FUNC r; THREAD_ADDR := THREAD_ADDR r;
     THREAD_TARGET_ID := v; THREAD_CORE := THREAD_CORE r |}.

Definition set_THREAD_CORE (v : option string) (r : ThreadRow) : ThreadRow :=
  {| THREAD_ID := THREAD_ID r; THREAD_FILE := THREAD_FILE r; THREAD_LINE := THREAD_LINE r;
     THREAD_PID := THREAD_PID r; THREAD_GROUP_ID := THREAD_GROUP_ID r;
     THREAD_STATE := THREAD_STATE r; THREAD_BASE_NAME := THREAD_BASE_NAME r;
     THREAD_FUNC := THREAD_FUNC r; THREAD_ADDR := THREAD_ADDR r;
     THREAD_TARGET_ID := THREAD_TARGET_ID r; THREAD_CORE := v |}.

Definition set_THREAD_STATE (v : string) (r : ThreadRow) : ThreadRow :=
  {| THREAD_ID := THREAD_ID r; THREAD_FILE := THREAD_FILE r; THREAD_LINE := THREAD_LINE r;
     THREAD_PID := THREAD_PID r; THREAD_GROUP_ID := THREAD_GROUP_ID r;
     THREAD_STATE := v; THREAD_BASE_NAME := THREAD_BASE_NAME r;
     THREAD_FUNC := THREAD_FUNC r; THREAD_ADDR := THREAD_ADDR r;
     THREAD_TARGET_ID := THREAD_TARGET_ID r; THREAD_CORE := THREAD_CORE r |}.

(** The columns [thread_parse_frame] sets. *)
Definition frame_row (o : ThreadOptions) (loc : ParseLocation) (r : ThreadRow) : ThreadRow :=
  {| THREAD_ID := THREAD_ID r; THREAD_FILE := loc_file loc; THREAD_LINE := loc_line loc;
     THREAD_PID := THREAD_PID r; THREAD_GROUP_ID := THREAD_GROUP_ID r;
     THREAD_STATE := STOPPED (thread_prefs o); THREAD_BASE_NAME := loc_base_name loc;
     THREAD_FUNC := loc_func loc;
     THREAD_ADDR := Some (default "??" (loc_addr loc));
     THREAD_TARGET_ID := THREAD_TARGET_ID r; THREAD_CORE := THREAD_CORE r |}.

(** [thread_parse_frame] *)
Definition thread_parse_frame (o : ThreadOptions) (frame : list ParseNode)
    (tid : option string) (i : nat) (e : ThreadEngine) : ThreadEngine :=
  match thread_store (te_threads e) !! i with
  | None => e
  | Some r =>
      let loc := parse_location frame in
      let e := te_with (thread_iter_unmark o 0 r (te_threads e)) e in
      let e := te_set_row i (frame_row o loc) e in
      if bool_decide (tid = thread_id (te_threads e)) then
        if negb (loc_line loc =? 0)%Z
        then te_request (utils_seek (loc_file loc) (loc_line loc)) (te_state THREAD_AT_SOURCE e)
        else te_request (view_dirty VIEW_CONSOLE) (te_state THREAD_AT_ASSEMBLER e)
      else te_emits [utils_mark_execute (loc_file loc) (loc_line loc) true] e
  end.

(** [StopData] *)
Record StopData := mkStopData {
  sd_tid : option string;
  sd_iter : option nat;
  sd_found : bool
}.

(** [thread_iter_stopped] *)
Definition thread_iter_stopped (o : ThreadOptions) (i : nat) (es : ThreadEngine * StopData)
  : ThreadEngine * StopData :=
  let '(e, sd) := es in
  match thread_store (te_threads e) !! i with
  | None => (e, sd)
  | Some r =>
      let tid := match sd_tid sd with Some tid => Some tid | None => THREAD_ID r end in
      let e :=
        if bool_decide (THREAD_STATE r ≠ STOPPED (thread_prefs o))
        then te_with (set_thread_prompt (guint (thread_prompt (te_threads e) + 1))
                        (te_threads e)) e
        else e in
      let e := te_set_row i (set_THREAD_STATE (STOPPED (thread_prefs o))) e in
      let e :=
        if bool_decide (tid = thread_id (te_threads e)) then
          te_request views_data_dirty
            (if bool_decide (THREAD_ADDR r = None) then te_state THREAD_QUERY_FRAME e else e)
        else if bool_decide (THREAD_ADDR r = None) then te_request (view_dirty VIEW_THREADS) e
        else e in
      (e, if sd_found sd then sd
          else {| sd_tid := sd_tid sd; sd_iter := Some i; sd_found := true |})
  end.

(** [thread_node_stopped] *)
Definition thread_node_stopped (o : ThreadOptions) (node : ParseNode)
    (es : ThreadEngine * StopData) : ThreadEngine * StopData :=
  let '(e, sd) := es in
  match node with
  | PT_ARRAY name _ => (te_emits [dc_error (name +:+ ": found array")] e, sd)
  | PT_VALUE _ value =>
      let sd := {| sd_tid := Some value; sd_iter := sd_iter sd; sd_found := sd_found sd |} in
      match te_find_thread (Some value) e with
      | (Some i, e) => thread_iter_stopped o i (e, sd)
      | (None, e) => (e, sd)
      end
  end.

(** [on_thread_stopped]; [break_async] is the global of break.c. *)
Definition on_thread_stopped (o : ThreadOptions) (break_async : Z) (nodes : list ParseNode)
    (e : ThreadEngine) : ThreadEngine :=
  let tid := parse_find_value nodes "thread-id" in
  let stopped := parse_find_node nodes "stopped-threads" in
  let '(e, sd) :=
    match tid with
    | Some tid =>
        match te_find_thread (Some tid) e with
        | (Some i, e) =>
            let e := match parse_find_array nodes "frame" with
                     | Some frame => thread_parse_frame o frame (Some tid) i e
                     | None => e
                     end in
            (thread_parse_extra nodes i "core" set_THREAD_CORE e,
             {| sd_tid := None; sd_iter := Some i; sd_found := true |})
        | (None, e) => (e, {| sd_tid := None; sd_iter := None; sd_found := false |})
        end
    | None =>
        (te_emits [dc_error "no tid"] e,
         {| sd_tid := None; sd_iter := None; sd_found := false |})
    end in
  let '(e, sd) :=
    match stopped with
    | None => (te_emits [dc_error "no stopped"] e, sd)
    | Some (PT_VALUE _ tid) =>
        if bool_decide (tid = "all") then
          foldl (λ es i, thread_iter_stopped o i es) (e, sd)
            (seq 0 (length (thread_store (te_threads e))))
        else
          match te_find_thread (Some tid) e with
          | (Some i, e) =>
              thread_iter_stopped o i
                (e, {| sd_tid := Some tid; sd_iter := sd_iter sd; sd_found := sd_found sd |})
          | (None, e) => (e, sd)
          end
    | Some (PT_ARRAY _ ids) => foldl (λ es node, thread_node_stopped o node es) (e, sd) ids
    end in
  let e :=
    if thread_select_on_stopped o && (thread_state e <=? THREAD_RUNNING)%Z && sd_found sd then
      match sd_iter sd with
      | Some i => te_emits [utils_tree_set_cursor i; view_seek_selected] e
      | None => e
      end
    else e in
  let e :=
    if bool_decide (parse_find_value nodes "reason" = Some "signal-received")
    then te_request plugin_blink e else e in
  if (break_async <? 1)%Z then te_request (view_dirty VIEW_BREAKS) e else e.

(** [thread_parse] *)
Definition thread_parse (o : ThreadOptions) (nodes : list ParseNode) (tid : option string)
    (stopped : bool) (e : ThreadEngine) : ThreadEngine :=
  match te_find_thread tid e with
  | (None, e) => e
  | (Some i, e) =>
      let e :=
        if stopped then
          match parse_find_array nodes "frame" with
          | Some frame => thread_parse_frame o frame tid i e
          | None => te_emits [dc_error "no frame"] e
          end
        else
          match thread_store (te_threads e) !! i with
          | Some r =>
              if bool_decide (THREAD_STATE r ≠ RUNNING o)
              then thread_iter_running o i tid e else e
          | None => e
          end in
      let e := thread_parse_extra nodes i "target-id" set_THREAD_TARGET_ID e in
      thread_parse_extra nodes i "core" set_THREAD_CORE e
  end.

(** [thread_node_parse] *)
Definition thread_node_parse (o : ThreadOptions) (node : ParseNode) (e : ThreadEngine)
  : ThreadEngine :=
  match node with
  | PT_VALUE _ _ => te_emits [dc_error "threads: contains value"] e
  | PT_ARRAY _ nodes =>
      match parse_find_value nodes "id", parse_find_value nodes "state" with
      | Some tid, Some state =>
          thread_parse o nodes (Some tid) (negb (bool_decide (state = "running"))) e
      | _, _ => te_emits [dc_error "no tid or state"] e
      end
  end.

(** [thread_info_parse]: the id it returns and the new state. *)
Definition thread_info_parse (o : ThreadOptions) (nodes : list ParseNode) (sel : bool)
    (e : ThreadEngine) : option string * ThreadEngine :=
  let tid := parse_find_value nodes "current-thread-id" in
  let e := foldl (λ e node, thread_node_parse o node e) e (parse_lead_array nodes) in
  match tid with
  | Some tid => (Some tid, te_with (set_gdb_thread (Some tid) sel (te_threads e)) e)
  | None => (None, e)
  end.

(** [on_thread_info] *)
Definition on_thread_info (o : ThreadOptions) (nodes : list ParseNode) (e : ThreadEngine)
  : ThreadEngine :=
  (thread_info_parse o nodes (thread_select_follow o) e).2.

(** [on_thread_follow] *)
Definition on_thread_follow (o : ThreadOptions) (nodes : list ParseNode) (e : ThreadEngine)
  : ThreadEngine :=
  match thread_info_parse o nodes true e with
  | (Some _, e) => e
  | (None, e) => te_emits [dc_error "no current tid"] e
  end.

(** [on_thread_frame] *)
Definition on_thread_frame (o : ThreadOptions) (nodes : list ParseNode) (e : ThreadEngine)
  : ThreadEngine :=
  let '(token, nodes) := parse_grab_token nodes in
  thread_parse o nodes token true e.

(** [on_break_stopped] of break.c, on the breakpoints and the threads. *)
Definition on_break_stopped (o : ThreadOptions) (break_async : Z) (nodes : list ParseNode)
    (w : Breaks * ThreadEngine) : Breaks * ThreadEngine :=
  let b :=
    if (break_async <? 1)%Z then
      match parse_find_value nodes "bkptno", parse_find_value nodes "disp" with
      | Some id, Some disp =>
          if bool_decide (disp = "dis") then
            match model_find_id (store w.1) id with
            | Some i => break_enable (Some i) false w.1
            | None => w.1
            end
          else if bool_decide (disp = "del") then (break_remove_all id false w.1).2
          else w.1
      | _, _ => w.1
      end
    else w.1 in
  (b, on_thread_stopped o break_async nodes w.2).

End ThreadStop.

(** * Vocabulary of the further statements *)

(** ** Tables *)

(** Texts put one after another. *)
Definition str_concat (l : list string) : string := foldr String.append "" l.

(** Texts joined by a separator. *)
Fixpoint str_join (sep : string) (l : list string) : string :=
  match l with
  | [] => ""
  | [s] => s
  | s :: rest => s +:+ sep +:+ str_join sep rest
  end.

(** One cell and one row of the HTML table. *)
Definition html_cell (column : string) : string :=
  TAB +:+ TAB +:+ "<td>" +:+ column +:+ "</td>" +:+ NL.

Definition html_row (row : string) : string :=
  TAB +:+ "<tr>" +:+ NL +:+ str_concat (html_cell <$> g_strsplit_set row TAB)
  +:+ TAB +:+ "</tr>" +:+ NL.

(** One line of the LaTeX table. *)
Definition latex_row (row : string) : string :=
  str_join "  &  " (g_strsplit_set row TAB) +:+ "\\" +:+ NL.

(** A line of text: it holds no carriage return and no line feed. *)
Definition is_line (s : string) : Prop :=
  str_mem "013" s = false ∧ str_mem "010" s = false.

(** The lines with an empty text between every two of them. *)
Fixpoint crlf_rows (lines : list string) : list string :=
  match lines with
  | [] => []
  | [l] => [l]
  | l :: rest => l :: "" :: crlf_rows rest
  end.

Section BreakRestVocabulary.

Context `{Host}.

(** ** Sorting and display *)

(** A backend id, when there is one, starts with a number other than 0 (the
    debugger numbers breakpoints from 1). *)
Definition id_numbered (r : BreakRow) : Prop :=
  BREAK_ID r ≠ None → utils_atoi0 (BREAK_ID r) ≠ 0%Z.

(** The two numbers of a backend id, the one before the dot and the one
    after it, are not negative (they are [int]s, so they are below 2^31). *)
Definition id_fits (r : BreakRow) : Prop :=
  ∀ s, BREAK_ID r = Some s →
    (0 ≤ atoi s < 2 ^ 31)%Z ∧ (0 ≤ atoi (skip_dot (skip_digits s)) < 2 ^ 31)%Z.

(** The type text [break_types] gives for a type name of the debugger. *)
Definition break_type_name (text_type : string) : string :=
  match list_find (λ bt : string * string, bt.1 = text_type) break_types with
  | Some (_, bt) => bt.2
  | None => "??"
  end.

(** The kind character [break_node_parse] computes for a type name. *)
Definition break_type_char (text_type : string) : ascii :=
  str_nth BP_CHARS (break_type_index text_type break_types).

(** ** Removal *)

(** What [break_remove_all] does to one row. *)
Definition remove_row (pref : string) (force : bool) (r : BreakRow) : option BreakRow :=
  if break_id_matches pref (BREAK_ID r) then
    if BREAK_DISCARD r || force then None else Some (break_clear_row r)
  else Some r.

(** What [breaks_clear] does to one row. *)
Definition clear_row (r : BreakRow) : option BreakRow :=
  if BREAK_DISCARD r then None else Some (break_clear_row r).

(** The rows [breaks_active] counts. *)
Definition is_active (r : BreakRow) : bool :=
  BREAK_ENABLED r && bool_decide (BREAK_ID r ≠ None).

End BreakRestVocabulary.

(** ** Saving and loading *)

(** The row [break_load] appends for what [break_save] wrote of the row [r]:
    the saved columns of [r] under a new sequence id; the columns that are
    not saved are blank. *)
Definition loaded_row `{Host} (r : BreakRow) (scid : Z) : BreakRow :=
  {| BREAK_ID := None;
     BREAK_FILE := BREAK_FILE r;
     BREAK_LINE := if bool_decide (BREAK_FILE r = None) then 0%Z else BREAK_LINE r;
     BREAK_SCID := scid;
     BREAK_TYPE := BREAK_TYPE r;
     BREAK_ENABLED := BREAK_ENABLED r;
     BREAK_DISPLAY := BREAK_DISPLAY r;
     BREAK_FUNC := BREAK_FUNC r;
     BREAK_ADDR := None;
     BREAK_TIMES := 0;
     BREAK_IGNORE := validate_column (BREAK_IGNORE r) false;
     BREAK_COND := BREAK_COND r;
     BREAK_SCRIPT := BREAK_SCRIPT r;
     BREAK_PENDING := BREAK_PENDING r;
     BREAK_LOCATION := BREAK_LOCATION r;
     BREAK_RUN_APPLY := BREAK_RUN_APPLY r;
     BREAK_TEMPORARY := BREAK_TEMPORARY r && strchr BP_BORTS (BREAK_TYPE r);
     BREAK_DISCARD := false;
     BREAK_MISSING := false |}.

(** ** Applying a row *)

(** The commands [break_iter_applied] sends after the reply to the apply
    command of the row [r] has given it the id [id]. *)
Definition applied_commands `{Host} (id : string) (r : BreakRow) : list Effect :=
  log (break_iter_applied (Some 0) id (with_store [r] breaks_init)).

(** The row [on_break_toggle] appends when no debugger is running. *)
Definition toggled_row `{Host} (real_path : string) (doc_line : Z) (scid : Z) : BreakRow :=
  set_BREAK_RUN_APPLY true (set_BREAK_ENABLED true (set_BREAK_TYPE "b"
    (set_BREAK_SCID scid (break_relocate real_path doc_line empty_row)))).

(** The row is on the line [doc_line] of the file [real_path]. *)
Definition on_line `{Host} (real_path : string) (doc_line : Z) (r : BreakRow) : bool :=
  bool_decide (BREAK_LINE r = doc_line) && utils_filenamecmp (BREAK_FILE r) real_path.

(** ** Relocation *)

(** A line number or a number of lines of a document: below 2^30 in size, so
    that the sums and differences [breaks_delta] forms of two of them are
    [gint]s. *)
Definition line_fits (z : Z) : Prop := (- 2 ^ 30 < z < 2 ^ 30)%Z.

(** The row is in the file [real_path], at or after the line [start]. *)
Definition after_edit `{Host} (real_path : string) (start : Z) (r : BreakRow) : bool :=
  (0 <=? BREAK_LINE r - 1)%Z && (start <=? BREAK_LINE r - 1)%Z
  && utils_filenamecmp (BREAK_FILE r) real_path.

(** The row is on one of the lines an edit with a negative [delta] deletes. *)
Definition on_deleted_line `{Host} (real_path : string) (start delta : Z) (r : BreakRow)
  : bool :=
  after_edit real_path start r
  && negb ((0 <? delta)%Z || (start - delta <=? BREAK_LINE r - 1)%Z).

(** The row is one the edit moves, and it has a location text. *)
Definition movable `{Host} (real_path : string) (start delta : Z) (r : BreakRow) : Prop :=
  after_edit real_path start r = true → on_deleted_line real_path start delta r = false →
  BREAK_LOCATION r ≠ None.

(** The row of the store after an edit made while the program is not
    running: dropped when its line is deleted, moved by [delta] lines when it
    is at or after [start], with the location text rewritten when that text
    names a line. *)
Definition delta_row `{Host} (real_path : string) (start delta : Z) (r : BreakRow)
  : option BreakRow :=
  if on_deleted_line real_path start delta r then None
  else if after_edit real_path start r then
    Some (if location_has_line (default "" (BREAK_LOCATION r))
          then break_relocate real_path (BREAK_LINE r + delta) r
          else set_BREAK_LINE (BREAK_LINE r + delta) r)
  else Some r.

(** Two rows that agree on every column but the file, the display text and
    the location text. *)
Definition same_but_location (r r' : BreakRow) : Prop :=
  set_BREAK_LOCATION None (set_BREAK_DISPLAY None (set_BREAK_FILE None r))
  = set_BREAK_LOCATION None (set_BREAK_DISPLAY None (set_BREAK_FILE None r')).

(** The row [r2] is the row [r] after [k] lines were inserted at [start]
    and deleted again: the same row when [r] is not in the file at or after
    [start] or its location text names no line; otherwise a row in the file
    [real_path] that differs from [r] in nothing but the file, the display
    text and the location text. *)
Definition back_in_place `{Host} (real_path : string) (start : Z) (r r2 : BreakRow)
  : Prop :=
  same_but_location r r2
  ∧ if after_edit real_path start r && location_has_line (default "" (BREAK_LOCATION r))
    then BREAK_FILE r2 = Some real_path
    else r2 = r.

Section RefreshVocabulary.

Context `{Host}.

(** ** The refresh of a listing *)

(** The node array and the token [on_break_list] works on: the [body] of the
    lead array after [parse_grab_token]. *)
Definition break_list_body (nodes : list ParseNode)
  : option (option string * list ParseNode) :=
  parse_grab_token <$> parse_find_array (parse_lead_array nodes) "body".

(** The id of the first row node that can be parsed. *)
Fixpoint first_row_id (nodes : list ParseNode) : option string :=
  match nodes with
  | [] => None
  | n :: rest =>
      match node_id n with
      | Some x => Some x
      | None => first_row_id rest
      end
  end.

(** The listing starts with a parent row: its first row node has an id
    without a dot. *)
Definition parent_first (nodes : list ParseNode) : Prop :=
  ∀ x, first_row_id nodes = Some x → str_mem "." x = false.

(** Every listed row carries its resolved location itself: what the location
    resolver returns for it is not changed by the [original-location]
    fallback used when a row is created. *)
Definition self_located (nodes : list ParseNode) : Prop :=
  Forall (λ n, node_new_loc (node_fields n) = parse_location (node_fields n)) nodes.

(** The merge a node performs on the row with its id. *)
Definition node_merge (n : ParseNode) (x : string) : BreakRow → BreakRow :=
  row_merge (node_fields n) x (parse_location (node_fields n)).

(** What a parse pass does to one row when every listed id has a row and
    ids are unique: each node with the row's id merges into it. *)
Definition replay_step (r : BreakRow) (n : ParseNode) : BreakRow :=
  match node_id n with
  | Some x => if bool_decide (BREAK_ID r = Some x) then node_merge n x r else r
  | None => r
  end.

(** The same for all the nodes of a listing, in order. *)
Definition replay_row (nodes : list ParseNode) (r : BreakRow) : BreakRow :=
  foldl replay_step r nodes.

(** The row holds what the last node of [nodes] with the id [x] writes. *)
Definition settled_in (nodes : list ParseNode) (x : string) (r : BreakRow) : Prop :=
  ∃ pre n post, nodes = pre ++ n :: post ∧ node_id n = Some x
                ∧ Forall (λ m, node_id m ≠ Some x) post
                ∧ node_merge n x r = r.

(** A later row that a pass has touched never repeats the id of an earlier
    row. *)
Definition later_fresh (r r' : BreakRow) : Prop :=
  BREAK_MISSING r' = false → BREAK_ID r' ≠ BREAK_ID r.

(** One row under the sweep of [breaks_missing]: a row with an id that is
    still missing is cleared; [None] for the row the sweep removes, freeing
    its id twice. *)
Definition sweep_row (r : BreakRow) : option BreakRow :=
  if bool_decide (BREAK_ID r ≠ None) && BREAK_MISSING r then
    if BREAK_DISCARD r then None else Some (break_clear_row r)
  else Some r.

(** A row after a refresh: a local stub without id, still flagged missing,
    or the row of a listed id holding what the listing says. *)
Definition refreshed (nodes : list ParseNode) (r : BreakRow) : Prop :=
  (BREAK_ID r = None ∧ BREAK_MISSING r = true)
  ∨ ∃ x, BREAK_ID r = Some x ∧ BREAK_MISSING r = false ∧ settled_in nodes x r.

(** What holds of the store while a refresh pass has parsed the nodes [pre]:
    touched rows come first among the rows with their id, hold what the last
    node with that id says, every node parsed so far has its touched row,
    and once a row node has been parsed the iter of the pass is valid. *)
Record pass_inv (pre : list ParseNode) (rows : list BreakRow) (bd : BreakData)
  : Prop := mk_pass_inv {
  inv_fresh : StronglySorted later_fresh rows;
  inv_settled :
    Forall (λ r, BREAK_MISSING r = false →
                 ∃ x, BREAK_ID r = Some x ∧ settled_in pre x r) rows;
  inv_present :
    ∀ n x, n ∈ pre → node_id n = Some x →
           ∃ r, r ∈ rows ∧ BREAK_ID r = Some x ∧ BREAK_MISSING r = false;
  inv_iter : first_row_id pre ≠ None → ∃ k, bd_iter bd = Some k ∧ k < length rows;
  inv_stage : bd_stage bd ≠ BG_APPLY
}.

End RefreshVocabulary.

(** ** Threads *)

(** Two thread states agree on everything but the log and the thread the
    debugger has selected. *)
Definition same_threads (t t' : Threads) : Prop :=
  thread_groups t' = thread_groups t ∧ thread_store t' = thread_store t
  ∧ thread_count t' = thread_count t ∧ thread_prompt t' = thread_prompt t
  ∧ thread_id t' = thread_id t.


(** The rows of the thread store in the state "stopped". *)
Definition stopped_rows (prefs : ThreadPrefs) (rows : list ThreadRow) : list ThreadRow :=
  filter (λ r, THREAD_STATE r = STOPPED prefs) rows.

(** A thread-created and a thread-exited notification for the thread [tid],
    the first of a group. *)
Definition created_nodes (tid : string) (group : option string) : list ParseNode :=
  PT_VALUE "id" tid
  :: match group with
     | Some g => [PT_VALUE "group-id" g]
     | None => []
     end.

(** ** Running and stopped threads *)

(** The prompt counter is the number of stopped threads, as a [guint]. *)
Definition prompt_counts (prefs : ThreadPrefs) (t : Threads) : Prop :=
  thread_prompt t = guint (Z.of_nat (length (stopped_rows prefs (thread_store t)))).

(** 1 for a stopped row, 0 for another. *)
Definition stopped_z (prefs : ThreadPrefs) (r : ThreadRow) : Z :=
  if bool_decide (THREAD_STATE r = STOPPED prefs) then 1 else 0.

(** From [t] to [t'] the threads, their groups and the live-thread counter
    are the same, and the prompt counter still counts the stopped
    threads if it did. *)
Definition threads_kept (prefs : ThreadPrefs) (t t' : Threads) : Prop :=
  (prompt_counts prefs t → prompt_counts prefs t')
  ∧ THREAD_ID <$> thread_store t' = THREAD_ID <$> thread_store t
  ∧ thread_count t' = thread_count t
  ∧ thread_groups t' = thread_groups t.

(** The same from one state of the thread engine to another. *)
Definition engine_kept (o : ThreadOptions) (e e' : ThreadEngine) : Prop :=
  threads_kept (thread_prefs o) (te_threads e) (te_threads e').

(** The reports of the debugger about threads that exist. *)
Inductive ThreadReport : Type :=
| report_running (nodes : list ParseNode)
| report_stopped (break_async : Z) (nodes : list ParseNode)
| report_info (nodes : list ParseNode)
| report_follow (nodes : list ParseNode)
| report_frame (nodes : list ParseNode).

Definition thread_report `{Host} {states : ThreadStates} (o : ThreadOptions)
    (ev : ThreadReport) (e : ThreadEngine) : ThreadEngine :=
  match ev with
  | report_running nodes => on_thread_running o nodes e
  | report_stopped break_async nodes => on_thread_stopped o break_async nodes e
  | report_info nodes => on_thread_info o nodes e
  | report_follow nodes => on_thread_follow o nodes e
  | report_frame nodes => on_thread_frame o nodes e
  end.

(** The states numbered in the order thread.c names them in its
    comparisons. *)
Definition ref_states : ThreadStates :=
  {| THREAD_BLANK := 0; THREAD_RUNNING := 1; THREAD_STOPPED := 2; THREAD_QUERY_FRAME := 3;
     THREAD_AT_SOURCE := 4; THREAD_AT_ASSEMBLER := 5 |}.

(** Options that keep the execution point, with the texts of the two
    states. *)
Definition example_options : ThreadOptions :=
  {| thread_prefs := example_prefs; RUNNING := "Running"; pref_keep_exec_point := true;
     thread_select_on_running := true; thread_select_on_stopped := true;
     thread_select_follow := true |}.

(** A thread row in the given state. *)
Definition example_thread (tid state : string) (file : option string) (line : Z)
  : ThreadRow :=
  {| THREAD_ID := Some tid; THREAD_FILE := file; THREAD_LINE := line; THREAD_PID := None;
     THREAD_GROUP_ID := None; THREAD_STATE := state; THREAD_BASE_NAME := None;
     THREAD_FUNC := None; THREAD_ADDR := None; THREAD_TARGET_ID := None;
     THREAD_CORE := None |}.

(** Two threads, the first stopped and selected, the second running. *)
Definition example_engine : ThreadEngine :=
  {| te_threads :=
       {| thread_groups := [];
          thread_store := [example_thread "1" "Stopped" (Some "a.c") 7;
                           example_thread "2" "Running" None 0];
          thread_count := 2; thread_id := Some "1"; thread_prompt := 1;
          gdb_thread := Some "1"; thread_log := [] |};
     thread_state := THREAD_AT_SOURCE (ThreadStates:=ref_states);
     te_requests := [] |}.

(** * Proofs *)

(** ** Facts about C strings *)

Lemma str_app_cons (x : ascii) (a b : string) : String x a +:+ b = String x (a +:+ b).
Proof. reflexivity. Qed.

Lemma str_app_nil_l (a : string) : "" +:+ a = a.
Proof. reflexivity. Qed.

Lemma str_app_assoc (a b c : string) : (a +:+ b) +:+ c = a +:+ (b +:+ c).
Proof. induction a as [|x a IH]; [done | by rewrite !str_app_cons, IH]. Qed.

Lemma str_app_nil_r (a : string) : a +:+ "" = a.
Proof. induction a as [|x a IH]; [done | by rewrite str_app_cons, IH]. Qed.

(** ** tableconvert.c *)

Section TableConvert.

Lemma sql_columns_more columns : ∀ j acc,
  sql_columns (S j) columns acc = acc +:+ sql_more columns.
Proof.
  induction columns as [|c rest IH]; intros j acc; simpl.
  - by rewrite str_app_nil_r.
  - rewrite IH. destruct (decide (0 < S j)) as [_|Hn]; [|lia].
    by rewrite !str_app_assoc.
Qed.

Lemma sql_columns_first c rest acc :
  sql_columns 0 (c :: rest) acc = acc +:+ c +:+ sql_more rest.
Proof. simpl. by rewrite sql_columns_more, str_app_assoc. Qed.

Lemma str_fields_cons delims s : ∃ f fs, str_fields delims s = f :: fs.
Proof.
  induction s as [|c s [f [fs IH]]]; simpl; [by eauto|].
  destruct (str_mem c delims); [by eauto|]. rewrite IH. by eauto.
Qed.

Lemma sql_quoted_more c rest :
  String.concat "," (sql_quote <$> (c :: rest)) = "'" +:+ c +:+ sql_more rest +:+ "'".
Proof.
  revert c. induction rest as [|d rest IH]; intros c.
  - simpl. done.
  - change (sql_quote <$> c :: d :: rest) with (sql_quote c :: (sql_quote <$> d :: rest)).
    change (String.concat "," (sql_quote c :: (sql_quote <$> d :: rest)))
      with (sql_quote c +:+ "," +:+ String.concat "," (sql_quote <$> d :: rest)).
    rewrite IH. unfold sql_quote. simpl sql_more.
    rewrite !str_app_assoc. done.
Qed.

(** What one pass of the outer loop appends, whatever follows. *)
Lemma sql_row_quoted row :
  sql_columns 0 (g_strsplit_set row TAB) (TAB +:+ "('") +:+ "'"
  = TAB +:+ "(" +:+ String.concat "," (sql_quote <$> tab_columns row).
Proof.
  unfold g_strsplit_set, tab_columns. case_bool_decide as Hrow.
  - subst row. reflexivity.
  - destruct (str_fields_cons TAB row) as [f [fs ->]].
    rewrite sql_columns_first, sql_quoted_more. by rewrite !str_app_assoc.
Qed.

Lemma sql_columns_acc columns : ∀ j acc pre,
  sql_columns j columns (pre +:+ acc) = pre +:+ sql_columns j columns acc.
Proof.
  induction columns as [|c rest IH]; intros j acc pre; simpl; [done|].
  destruct (decide (0 < j)); rewrite <- IH; by rewrite !str_app_assoc.
Qed.

Lemma sql_rows_cons row rest acc :
  sql_rows (row :: rest) acc = sql_rows rest (acc +:+ sql_row_text row rest).
Proof.
  cbn [sql_rows]. f_equal. unfold sql_row_text.
  rewrite !sql_columns_acc.
  destruct rest; by rewrite !str_app_assoc.
Qed.

Lemma sql_rows_acc rows : ∀ acc, sql_rows rows acc = acc +:+ sql_rows rows "".
Proof.
  induction rows as [|row rest IH]; intros acc.
  - cbn [sql_rows]. by rewrite str_app_nil_r.
  - rewrite !sql_rows_cons, (IH (acc +:+ _)), (IH ("" +:+ _)).
    by rewrite str_app_nil_l, str_app_assoc.
Qed.

Lemma sql_row_text_tuple row rest :
  sql_row_text row rest
  = TAB +:+ sql_tuple row +:+ match rest with
                              | _ :: _ => "," +:+ NL
                              | [] => NL
                              end.
Proof.
  unfold sql_row_text, sql_tuple.
  destruct rest.
  - change ("')" +:+ NL) with ("'" +:+ (")" +:+ NL)).
    rewrite <- str_app_assoc, sql_row_quoted. by rewrite !str_app_assoc.
  - change ("')," +:+ NL) with ("'" +:+ (")," +:+ NL)).
    rewrite <- str_app_assoc, sql_row_quoted. by rewrite !str_app_assoc.
Qed.

Lemma convert_to_table_sql_cons row rest :
  convert_to_table_sql (row :: rest)
  = sql_row_text row rest +:+ convert_to_table_sql rest.
Proof.
  unfold convert_to_table_sql. by rewrite sql_rows_cons, sql_rows_acc, str_app_nil_l.
Qed.

(** C10.  For every NULL-terminated array of row strings,
    [convert_to_table_sql] emits one line per row, made of a tab, the
    parenthesised tuple of the row's tab-separated columns, each in single
    quotes and joined by commas, with a comma after every tuple but the
    last: the text of a non-empty array ends with the last tuple and a
    newline, not with a comma. *)
Theorem convert_to_table_sql_value_list (rows : list string) :
  convert_to_table_sql rows = sql_value_list rows
  ∧ ∀ body last, rows = body ++ [last] →
      ∃ pre, convert_to_table_sql rows = pre +:+ (TAB +:+ sql_tuple last +:+ NL).
Proof.
  split.
  - induction rows as [|row rest IH]; [done|].
    rewrite convert_to_table_sql_cons, IH, sql_row_text_tuple.
    destruct rest; cbn [sql_value_list]; by rewrite ?str_app_nil_r, ?str_app_assoc.
  - intros body. revert rows.
    induction body as [|b body IH]; intros rows last ->.
    + exists "". change ([] ++ [last]) with [last].
      rewrite convert_to_table_sql_cons, sql_row_text_tuple.
      by rewrite str_app_nil_l, !str_app_assoc, str_app_nil_r.
    + destruct (IH _ last eq_refl) as [pre Hpre].
      exists (sql_row_text b (body ++ [last]) +:+ pre).
      change ((b :: body) ++ [last]) with (b :: (body ++ [last])).
      by rewrite convert_to_table_sql_cons, Hpre, str_app_assoc.
Qed.

(** The array of three rows [a<TAB>b], the empty row and [c]. *)
Lemma convert_to_table_sql_value_list_witness :
  convert_to_table_sql ["a" +:+ TAB +:+ "b"; ""; "c"]
  = TAB +:+ "('a','b')," +:+ NL +:+ TAB +:+ "('')," +:+ NL +:+ TAB +:+ "('c')" +:+ NL
  ∧ ∃ pre, convert_to_table_sql ["a" +:+ TAB +:+ "b"; ""; "c"]
           = pre +:+ (TAB +:+ sql_tuple "c" +:+ NL).
Proof.
  split; [reflexivity|].
  exact (proj2 (convert_to_table_sql_value_list ["a" +:+ TAB +:+ "b"; ""; "c"])
           ["a" +:+ TAB +:+ "b"; ""] "c" eq_refl).
Defined.

End TableConvert.

(** ** break.c: the apply command *)

Section Apply.

Context `{Host}.

Lemma break_apply_command_borts thread tid r :
  strchr BP_BORTS (BREAK_TYPE r) = true →
  break_apply_command thread tid r
  = apply_head r +:+ (if BREAK_ENABLED r then "" else " -d") +:+ apply_cond r
    +:+ apply_tail thread tid r.
Proof.
  intros Hb. unfold break_apply_command, apply_tail, apply_cond. rewrite Hb.
  unfold apply_head. cbv zeta.
  set (head := if strchr BP_BREAKS (BREAK_TYPE r) then _ else _).
  clearbody head.
  destruct (BREAK_ENABLED r), (BREAK_COND r), (BREAK_PENDING r), thread, tid;
    by rewrite ?str_app_assoc, ?str_app_nil_r, ?str_app_nil_l.
Qed.

Lemma break_apply_command_watch thread tid r :
  strchr BP_BORTS (BREAK_TYPE r) = false →
  break_apply_command thread tid r
  = "02" +:+ fmt_d (BREAK_SCID r) +:+ "-break-watch"
    +:+ (if strchr BP_WATOPTS (BREAK_TYPE r) then " -" +:+ fmt_c (BREAK_TYPE r) else "")
    +:+ " " +:+ fmt_s (BREAK_LOCATION r).
Proof.
  intros Hb. unfold break_apply_command. rewrite Hb.
  destruct (strchr BP_WATOPTS (BREAK_TYPE r));
    by rewrite ?str_app_assoc, ?str_app_nil_r, ?str_app_nil_l.
Qed.

(** What [break_apply] makes of the condition.  For every row of kind
    break, hbreak, trace or ftrace that has a condition, the command carries
    [-c] and the condition's locale text between two double quotes, no
    character of it escaped; the command of every row ends with a space and
    the row's location string; and the command of a watchpoint row does not
    depend on the condition. *)
Lemma break_apply_condition_verbatim (thread : bool) (tid : option string)
    (r : BreakRow) :
  (∀ cond, strchr BP_BORTS (BREAK_TYPE r) = true → BREAK_COND r = Some cond →
     ∃ pre post,
       break_apply_command thread tid r
       = pre +:+ (" -c " +:+ DQ +:+ utils_get_locale_from_display cond +:+ DQ) +:+ post
         +:+ " " +:+ fmt_s (BREAK_LOCATION r))
  ∧ (∃ pre, break_apply_command thread tid r = pre +:+ " " +:+ fmt_s (BREAK_LOCATION r))
  ∧ (strchr BP_BORTS (BREAK_TYPE r) = false →
     ∀ cond, break_apply_command thread tid (set_BREAK_COND cond r)
             = break_apply_command thread tid r).
Proof.
  split; [|split].
  - intros cond Hb Hc. rewrite break_apply_command_borts by done.
    unfold apply_cond, apply_tail. rewrite Hc.
    exists (apply_head r +:+ (if BREAK_ENABLED r then "" else " -d")),
           ((if BREAK_PENDING r then " -f" else "")
            +:+ match thread, tid with
                | true, Some t => " -p " +:+ t
                | _, _ => ""
                end).
    by rewrite !str_app_assoc.
  - destruct (strchr BP_BORTS (BREAK_TYPE r)) eqn:Hb.
    + rewrite break_apply_command_borts by done. unfold apply_tail.
      exists (apply_head r +:+ (if BREAK_ENABLED r then "" else " -d") +:+ apply_cond r
              +:+ (if BREAK_PENDING r then " -f" else "")
              +:+ match thread, tid with
                  | true, Some t => " -p " +:+ t
                  | _, _ => ""
                  end).
      by rewrite !str_app_assoc.
    + rewrite break_apply_command_watch by done.
      exists ("02" +:+ fmt_d (BREAK_SCID r) +:+ "-break-watch"
              +:+ (if strchr BP_WATOPTS (BREAK_TYPE r)
                   then " -" +:+ fmt_c (BREAK_TYPE r) else "")).
      by rewrite !str_app_assoc.
  - intros Hb cond. by rewrite !break_apply_command_watch.
Qed.

End Apply.

(** C8.  A breakpoint at f.c:7 whose condition is the three characters
    a, double quote, b.  The command [break_apply] sends for it carries the
    condition between double quotes with the inner double quote as it is:
    the quoted condition with the inner quote behind a backslash is no part
    of the command, and the debugger reads a condition that ends after the
    a.  [append_script_command], which quotes script text for the same
    debugger in the same way, does put the backslash before the double
    quote and before a backslash. *)
Theorem break_apply_condition_unescaped :
  let cond := "a" +:+ DQ +:+ "b" in
  let r := example_row None "b" (Some cond) "f.c:7" in
  BREAK_COND r = Some cond
  ∧ break_apply_command (H:=ref_host) false None r
    = "021-break-insert -c " +:+ DQ +:+ cond +:+ DQ +:+ " f.c:7"
  ∧ str_infix (DQ +:+ script_escape cond +:+ DQ)
              (break_apply_command (H:=ref_host) false None r) = false
  ∧ (append_script_command (H:=ref_host) (PT_VALUE "script" cond) ("", [])).1
    = DQ +:+ "a\" +:+ DQ +:+ "b" +:+ DQ
  ∧ script_escape "\" = "\\".
Proof. vm_compute. repeat split. Qed.

(** ** break.c: toggling the enabled flag *)

Section Toggle.

Context `{Host}.

Lemma apply_head_insert r :
  apply_head r = "02" +:+ fmt_d (BREAK_SCID r) +:+ "-break-insert" +:+ apply_head_flags r.
Proof.
  unfold apply_head, apply_head_flags. cbv zeta.
  destruct (BREAK_TEMPORARY r), (strchr BP_HARDWS (BREAK_TYPE r)),
    (strchr BP_BREAKS (BREAK_TYPE r)), (BREAK_IGNORE r);
    by rewrite ?str_app_assoc, ?str_app_nil_r, ?str_app_nil_l.
Qed.

(** C4, corrected statement.
    Toggling [enabled] on a row takes one of three
    routes.  With the session inactive, or with no backend id on the row,
    the flag is flipped on the local row and nothing is sent.  Otherwise,
    when the session is sendable, one [-break-enable] / [-break-disable]
    command is sent and the row is left as it is.  Otherwise (an active
    session that cannot take commands, a row with a backend id) nothing is
    sent and nothing changes: the handler only beeps.  Applying the row
    later emits, for the kinds break, hbreak, trace and ftrace, a
    [-break-insert] command in which [-d] is present exactly when the row
    is disabled, and for a watchpoint kind a [-break-watch] command that
    does not depend on the flag. *)
Theorem break_enabled_toggle_routing (i : nat) (state : Z) (st : Breaks)
    (row : BreakRow) :
  store st !! i = Some row →
  let st' := on_break_enabled_toggled i state st in
  let enabled := negb (BREAK_ENABLED row) in
  ((state = DS_INACTIVE ∨ BREAK_ID row = None) →
     store st' = alter (set_BREAK_ENABLED enabled) i (store st)
     ∧ log st' = log st ++
         [utils_mark (BREAK_FILE row) (BREAK_LINE row) false (BREAK_ENABLED row);
          utils_mark (BREAK_FILE row) (BREAK_LINE row) true enabled])
  ∧ (∀ id, state ≠ DS_INACTIVE → BREAK_ID row = Some id →
       Z.land state DS_SENDABLE ≠ 0%Z →
       store st' = store st
       ∧ log st' = log st ++
           [debug_send ("02" +:+ (if enabled then "1" else "0") +:+
                        fmt_d (BREAK_SCID row) +:+ "-break-" +:+
                        (if enabled then "en" else "dis") +:+ "able " +:+ id)])
  ∧ (state ≠ DS_INACTIVE → BREAK_ID row ≠ None → Z.land state DS_SENDABLE = 0%Z →
       store st' = store st ∧ log st' = log st ++ [plugin_beep])
  ∧ (∀ thread tid,
       if strchr BP_BORTS (BREAK_TYPE row) then
         ∃ flags rest, ∀ e,
           break_apply_command thread tid (set_BREAK_ENABLED e row)
           = "02" +:+ fmt_d (BREAK_SCID row) +:+ "-break-insert" +:+ flags
             +:+ (if e then "" else " -d") +:+ rest
       else
         ∃ rest, ∀ e,
           break_apply_command thread tid (set_BREAK_ENABLED e row)
           = "02" +:+ fmt_d (BREAK_SCID row) +:+ "-break-watch" +:+ rest).
Proof.
  intros Hrow st' enabled. subst st'. unfold on_break_enabled_toggled. rewrite Hrow.
  fold enabled. split; [|split; [|split]].
  - intros Hlocal.
    assert (bool_decide (state = DS_INACTIVE) || bool_decide (BREAK_ID row = None) = true)
      as -> by (destruct Hlocal; repeat case_bool_decide; done).
    unfold break_enable, break_mark, row_at, gtk_list_store_set. cbn.
    rewrite Hrow. cbn. rewrite list_lookup_alter_eq, Hrow. cbn.
    by rewrite <- app_assoc.
  - intros id Hact Hid Hsend.
    rewrite bool_decide_eq_false_2, Hid by done. rewrite bool_decide_eq_false_2 by done.
    apply Z.eqb_neq in Hsend. by rewrite Hsend.
  - intros Hact Hid Hsend.
    rewrite !bool_decide_eq_false_2 by done. apply Z.eqb_eq in Hsend. by rewrite Hsend.
  - intros thread tid. destruct (strchr BP_BORTS (BREAK_TYPE row)) eqn:Hb.
    + exists (apply_head_flags row), (apply_cond row +:+ apply_tail thread tid row).
      intros e. rewrite break_apply_command_borts by done.
      change (apply_head (set_BREAK_ENABLED e row)) with (apply_head row).
      rewrite apply_head_insert. by rewrite !str_app_assoc.
    + exists ((if strchr BP_WATOPTS (BREAK_TYPE row)
               then " -" +:+ fmt_c (BREAK_TYPE row) else "")
              +:+ " " +:+ fmt_s (BREAK_LOCATION row)).
      intros e. by rewrite break_apply_command_watch.
Qed.

End Toggle.

(** A disabled breakpoint with backend id 2, toggled while disconnected. *)
Lemma break_enabled_toggle_routing_witness :
  let row := set_BREAK_ENABLED false (example_row (Some "2") "b" None "f.c:7") in
  let st := with_store [row] breaks_init in
  store (on_break_enabled_toggled (H:=ref_host) 0 1 st) = [set_BREAK_ENABLED true row]
  ∧ log (on_break_enabled_toggled (H:=ref_host) 0 1 st)
    = [utils_mark None 0 false false; utils_mark None 0 true true].
Proof.
  intros row st.
  exact (proj1 (break_enabled_toggle_routing (H:=ref_host) 0 1 st row eq_refl)
           (or_introl eq_refl)).
Defined.

(** A breakpoint with backend id 2, toggled while the debugger is busy
    (state [DS_BUSY], neither inactive nor sendable): the row keeps its
    flag and no command is sent. *)
Lemma break_enabled_toggle_busy_counterexample :
  let row := example_row (Some "2") "b" None "f.c:7" in
  let st := with_store [row] breaks_init in
  let st' := on_break_enabled_toggled (H:=ref_host) 0 2 st in
  2%Z ≠ DS_INACTIVE (Host:=ref_host) ∧ Z.land 2 (DS_SENDABLE (Host:=ref_host)) = 0%Z
  ∧ store st' = store st ∧ log st' = [plugin_beep].
Proof. vm_compute. repeat split; discriminate. Qed.

(** ** break.c: relocation *)

Lemma gint_fits (z : Z) : (- 2 ^ 31 <= z < 2 ^ 31)%Z → gint z = z.
Proof. intros Hz. unfold gint. rewrite Z.mod_small; lia. Qed.

Section Delta.

Context `{Host}.

(** A row that is to be moved and has no location text stops the loop. *)
Lemma breaks_delta_rows_no_location real_path start delta (rows : list BreakRow) r :
  r ∈ rows → BREAK_LOCATION r = None →
  line_fits start → line_fits delta → line_fits (BREAK_LINE r) →
  after_edit real_path start r = true → on_deleted_line real_path start delta r = false →
  breaks_delta_rows real_path start delta false rows = None.
Proof.
  intros Hin Hloc Hs Hd Hl Ha Hdel. unfold line_fits in *.
  induction rows as [|r0 rest IH]; [by apply elem_of_nil in Hin|].
  apply elem_of_cons in Hin as [<-|Hin].
  - cbn [breaks_delta_rows]. cbv zeta.
    unfold on_deleted_line in Hdel. rewrite Ha in Hdel. cbn [andb] in Hdel.
    apply negb_false_iff in Hdel. unfold after_edit in Ha.
    rewrite (gint_fits (BREAK_LINE r - 1)) by lia.
    rewrite (gint_fits (start - delta)) by lia.
    by rewrite Ha, Hdel, Hloc.
  - specialize (IH Hin). cbn [breaks_delta_rows]. cbv zeta. rewrite IH.
    repeat case_match; done.
Qed.

(** With lines that fit and a location text on every row that moves, the
    loop treats the rows one by one as [delta_row] says. *)
Lemma breaks_delta_rows_inactive real_path start delta (rows : list BreakRow) :
  line_fits start → line_fits delta →
  Forall (λ r, line_fits (BREAK_LINE r)) rows →
  Forall (movable real_path start delta) rows →
  fst <$> breaks_delta_rows real_path start delta false rows
  = Some (omap (delta_row real_path start delta) rows).
Proof.
  intros Hs Hd Hl Hm. unfold line_fits in Hs, Hd.
  induction rows as [|r rest IH]; [done|].
  apply Forall_cons in Hl as [Hl Hl']. apply Forall_cons in Hm as [Hm Hm'].
  specialize (IH Hl' Hm'). unfold line_fits in Hl. unfold movable in Hm.
  cbn [breaks_delta_rows omap list_omap]. cbv zeta.
  unfold delta_row at 1. unfold on_deleted_line, after_edit in *.
  rewrite (gint_fits (BREAK_LINE r - 1)) by lia.
  rewrite (gint_fits (start - delta)) by lia.
  destruct (breaks_delta_rows real_path start delta false rest) as [[rest' es]|];
    [|done].
  cbn in IH. injection IH as ->.
  destruct ((0 <=? BREAK_LINE r - 1)%Z && (start <=? BREAK_LINE r - 1)%Z
            && utils_filenamecmp (BREAK_FILE r) real_path); [|done].
  cbn [andb negb] in *.
  destruct ((0 <? delta)%Z || (start - delta <=? BREAK_LINE r - 1)%Z); [|done].
  cbn [negb] in *.
  destruct (BREAK_LOCATION r) as [location|]; [|by destruct Hm].
  rewrite (gint_fits (delta + 1)) by lia.
  rewrite (gint_fits (BREAK_LINE r - 1 + (delta + 1))) by lia.
  replace (BREAK_LINE r - 1 + (delta + 1))%Z with (BREAK_LINE r + delta)%Z by lia.
  done.
Qed.

End Delta.

(** C5.  A breakpoint the debugger reports on line 10 of /src/a.c, with an
    address but with neither [original-location] nor [func]: its row has
    the file and the line and no location text.  Three lines inserted at
    line index 4 of that file, with the program not executing, make
    [breaks_delta] call [strchr] on the NULL location text, so the
    insertion has no result and there is no state for the deletion to
    restore.  [break_node_parse] tests the location text for NULL before it
    uses it; [breaks_delta] does not.  The same breakpoint reported with
    its [original-location] is moved to line 13 and back to line 10. *)
Theorem breaks_delta_location_missing :
  let bare := example_bare "1" (Some "10") None in
  (∃ st, on_break_created (H:=ref_host) [bare] breaks_init = Some st
         ∧ (λ r, (BREAK_FILE r, BREAK_LINE r, BREAK_LOCATION r)) <$> store st
           = [(Some "/src/a.c", 10%Z, None)]
         ∧ breaks_delta (H:=ref_host) "/src/a.c" 4 3 false st = None)
  ∧ ∃ st st1 st2,
      on_break_created (H:=ref_host) [example_bkpt "1" "/src/a.c:10"] breaks_init = Some st
      ∧ breaks_delta (H:=ref_host) "/src/a.c" 4 3 false st = Some st1
      ∧ breaks_delta (H:=ref_host) "/src/a.c" 4 (- 3) false st1 = Some st2
      ∧ BREAK_LINE <$> store st = [10%Z]
      ∧ BREAK_LINE <$> store st1 = [13%Z]
      ∧ BREAK_LINE <$> store st2 = [10%Z].
Proof.
  split.
  - eexists. split; [vm_compute; reflexivity|]. split; vm_compute; reflexivity.
  - do 3 eexists. split; [vm_compute; reflexivity|].
    split; [vm_compute; reflexivity|]. split; [vm_compute; reflexivity|].
    repeat split.
Qed.

(** ** break.c: loading persisted records *)

Section Load.

Context `{Host}.

Lemma break_load_valid section st :
  (break_load section st).1
  = negb (default 0 (key_type section) =? 0)%Z
    && strchr BP_KNOWNS (char_of_gint (default 0%Z (key_type section)))
    && bool_decide (key_location section ≠ None)
    && (0 <=? default 0 (key_line section))%Z.
Proof. unfold break_load. by case_match. Qed.

Lemma break_load_rows section st :
  length (store (break_load section st).2)
  = (length (store st) + if (break_load section st).1 then 1 else 0)%nat.
Proof.
  unfold break_load. case_match; cbn; [|lia].
  unfold break_mark, row_at, gtk_list_store_set. cbn.
  case_match; cbn; by rewrite length_alter, length_app.
Qed.

Lemma known_kind_code_strchr type :
  (0 ≤ type < 256)%Z →
  negb (type =? 0)%Z && strchr BP_KNOWNS (char_of_gint type) = known_kind_code type.
Proof.
  intros Hr.
  assert (∃ n, (n < 256)%nat ∧ type = Z.of_nat n) as (n & Hn & ->)
    by (exists (Z.to_nat type); lia).
  clear Hr. revert n Hn.
  assert (forallb (λ n, bool_decide
            (negb (Z.of_nat n =? 0)%Z && strchr BP_KNOWNS (char_of_gint (Z.of_nat n))
             = known_kind_code (Z.of_nat n))) (seq 0 256) = true) as Hall
    by (vm_compute; reflexivity).
  intros n Hn. rewrite forallb_forall in Hall.
  specialize (Hall n). rewrite bool_decide_eq_true in Hall.
  apply Hall, in_seq. lia.
Qed.

(** For a kind code in the range of [char], [break_load] adds a row exactly
    when the code is one of [BP_KNOWNS], the location is present and the
    line is not negative. *)
Lemma break_load_filter section st :
  (0 ≤ default 0 (key_type section) < 256)%Z →
  let valid := known_kind_code (default 0%Z (key_type section))
               && bool_decide (key_location section ≠ None)
               && (0 <=? default 0 (key_line section))%Z in
  (break_load section st).1 = valid
  ∧ length (store (break_load section st).2)
    = (length (store st) + if valid then 1 else 0)%nat.
Proof.
  intros Hr valid.
  assert ((break_load section st).1 = valid) as Hv
    by (subst valid; by rewrite break_load_valid, known_kind_code_strchr).
  split; [done|]. by rewrite break_load_rows, Hv.
Qed.

End Load.

(** C7.  The record with kind code 256, a location and no line: 256 is not a
    recognised kind, yet [break_load] reports the record valid and appends a
    row for it, of kind NUL.  [strchr] converts its argument to [char], so
    256 becomes NUL, which [strchr] finds at the terminator of [BP_KNOWNS];
    the guard [type &&] only stops the code 0 itself. *)
Theorem break_load_accepts_kind_256 :
  let section := key_section (Some 256%Z) None (Some "main") in
  known_kind_code 256 = false
  ∧ (break_load (H:=ref_host) section breaks_init).1 = true
  ∧ store (break_load (H:=ref_host) section breaks_init).2
    = [set_BREAK_RUN_APPLY true (set_BREAK_LOCATION (Some "main")
         (set_BREAK_ENABLED true (set_BREAK_SCID 1 empty_row)))].
Proof. vm_compute. repeat split. Qed.

(** ** thread.c: start-up and shut-down *)

Section Lifecycle.

Variable prefs : ThreadPrefs.

Lemma startups_app es1 es2 : startups (es1 ++ es2) = (startups es1 + startups es2)%nat.
Proof. unfold startups. by rewrite filter_app, length_app. Qed.

Lemma shutdowns_app es1 es2 :
  shutdowns (es1 ++ es2) = (shutdowns es1 + shutdowns es2)%nat.
Proof. unfold shutdowns. by rewrite filter_app, length_app. Qed.

(** What [on_thread_created] appends to the log and does to the counter. *)
Lemma on_thread_created_edge nodes w :
  ∃ es, thread_log (on_thread_created prefs nodes w).2 = thread_log w.2 ++ es
        ∧ startups es = (if bool_decide (thread_count w.2 = 0%Z) then 1 else 0)%nat
        ∧ shutdowns es = 0%nat
        ∧ thread_count (on_thread_created prefs nodes w).2
          = guint (thread_count w.2 + 1).
Proof.
  destruct w as [b t]. unfold on_thread_created.
  unfold set_gdb_thread, find_thread, find_thread_group.
  repeat (case_match; simplify_eq; cbn -[guint]);
    rewrite <- ?app_assoc; eexists; (split; [reflexivity|]);
    repeat case_bool_decide; try done;
    destruct (terminal_auto_show prefs), (option_open_panel_on_start prefs); done.
Qed.

(** What [on_thread_exited] appends to the log and does to the counter. *)
Lemma on_thread_exited_edge nodes w :
  ∃ es, thread_log (on_thread_exited prefs nodes w).2 = thread_log w.2 ++ es
        ∧ startups es = 0%nat
        ∧ shutdowns es
          = (if bool_decide (thread_count w.2 ≠ 0%Z
                             ∧ guint (thread_count w.2 - 1) = 0%Z) then 1 else 0)%nat
        ∧ thread_count (on_thread_exited prefs nodes w).2
          = (if bool_decide (thread_count w.2 = 0%Z) then 0%Z
             else guint (thread_count w.2 - 1)).
Proof.
  destruct w as [b t]. unfold on_thread_exited.
  unfold set_gdb_thread, find_thread, auto_select_thread, thread_iter_unmark_exit.
  repeat (case_match; simplify_eq; cbn -[guint] in * );
    rewrite <- ?app_assoc;
    first [ eexists; split; [reflexivity|]
          | exists []; split; [by rewrite app_nil_r|] ];
    repeat case_bool_decide; try done; try tauto;
    destruct (terminal_auto_hide prefs); done.
Qed.

(** What [on_thread_created] does to the breakpoints, and the start-up calls
    among what it appends to the log. *)
Lemma on_thread_created_startup nodes w :
  let first := bool_decide (thread_count w.2 = 0%Z) in
  (on_thread_created prefs nodes w).1 = (if first then breaks_reset w.1 else w.1)
  ∧ ∃ es, thread_log (on_thread_created prefs nodes w).2 = thread_log w.2 ++ es
          ∧ filter is_lifecycle es = (if first then startup_effects prefs else []).
Proof.
  destruct w as [b t]. unfold on_thread_created, startup_effects.
  unfold set_gdb_thread, find_thread, find_thread_group.
  repeat (case_match; simplify_eq; cbn -[guint]);
    rewrite <- ?app_assoc; (split; [done|]); eexists; (split; [reflexivity|]);
    destruct (terminal_auto_show prefs), (option_open_panel_on_start prefs); done.
Qed.

(** The same for [on_thread_exited] and the shut-down calls. *)
Lemma on_thread_exited_shutdown nodes w :
  let last := bool_decide (thread_count w.2 ≠ 0%Z ∧ guint (thread_count w.2 - 1) = 0%Z) in
  (on_thread_exited prefs nodes w).1 = w.1
  ∧ ∃ es, thread_log (on_thread_exited prefs nodes w).2 = thread_log w.2 ++ es
          ∧ filter is_lifecycle es = (if last then shutdown_effects prefs else []).
Proof.
  destruct w as [b t]. unfold on_thread_exited, shutdown_effects.
  unfold set_gdb_thread, find_thread, auto_select_thread, thread_iter_unmark_exit.
  repeat (case_match; simplify_eq; cbn -[guint] in * );
    rewrite <- ?app_assoc; (split; [done|]);
    first [ eexists; split; [reflexivity|]
          | exists []; split; [by rewrite app_nil_r|] ];
    repeat case_bool_decide; try done; try tauto;
    destruct (terminal_auto_hide prefs); done.
Qed.

Lemma guint_succ c :
  (0 ≤ c < guint_max)%Z →
  guint (c + 1) = (if bool_decide (c + 1 = guint_max) then 0 else c + 1)%Z.
Proof.
  intros Hc. unfold guint. case_bool_decide as E.
  - rewrite E. apply Z_mod_same_full.
  - apply Z.mod_small. lia.
Qed.

Lemma guint_pred c : (0 < c < guint_max)%Z → guint (c - 1) = (c - 1)%Z.
Proof. intros Hc. apply Z.mod_small. lia. Qed.

Lemma guint_max_large : (2 < guint_max)%Z.
Proof. reflexivity. Qed.

(** The effects of one step and the counter after it. *)
Lemma thread_step_edge ev w :
  (0 ≤ thread_count w.2 < guint_max)%Z →
  let c := thread_count w.2 in
  let c' := thread_count (thread_step prefs ev w).2 in
  thread_log (thread_step prefs ev w).2 = thread_log w.2 ++ step_effects prefs ev w
  ∧ startups (step_effects prefs ev w)
    = (if is_created ev && bool_decide (c = 0%Z) then 1 else 0)%nat
  ∧ shutdowns (step_effects prefs ev w)
    = (if negb (is_created ev) && bool_decide (c = 1%Z) then 1 else 0)%nat
  ∧ c' = (if is_created ev then (if bool_decide (c + 1 = guint_max) then 0 else c + 1)
          else if bool_decide (c = 0) then 0 else c - 1)%Z.
Proof.
  intros Hc c c'. subst c c'. unfold step_effects. pose proof guint_max_large.
  destruct ev as [nodes|nodes]; cbn [thread_step is_created andb negb].
  - destruct (on_thread_created_edge nodes w) as (es & -> & Hs & Hd & ->).
    rewrite drop_app_length, Hs, Hd. rewrite guint_succ by done. done.
  - destruct (on_thread_exited_edge nodes w) as (es & -> & Hs & Hd & ->).
    rewrite drop_app_length, Hs, Hd. repeat split.
    + repeat case_bool_decide; try done.
      * destruct_and!. rewrite guint_pred in * by lia. lia.
      * exfalso. apply H0. split; [lia|]. rewrite guint_pred; lia.
    + clear Hs Hd. case_bool_decide; [done|]. apply guint_pred. lia.
Qed.

(** The breakpoints after one step and the start-up and shut-down calls of
    the step. *)
Lemma thread_step_lifecycle ev w :
  (0 ≤ thread_count w.2 < guint_max)%Z →
  let c := thread_count w.2 in
  (thread_step prefs ev w).1
  = (if is_created ev && bool_decide (c = 0%Z) then breaks_reset w.1 else w.1)
  ∧ filter is_lifecycle (step_effects prefs ev w)
    = (if is_created ev && bool_decide (c = 0%Z) then startup_effects prefs
       else if negb (is_created ev) && bool_decide (c = 1%Z) then shutdown_effects prefs
       else []).
Proof.
  intros Hc c. subst c. unfold step_effects. pose proof guint_max_large.
  destruct ev as [nodes|nodes]; cbn [thread_step is_created andb negb].
  - destruct (on_thread_created_startup nodes w) as (-> & es & -> & Hf).
    by rewrite drop_app_length, Hf.
  - destruct (on_thread_exited_shutdown nodes w) as (-> & es & -> & Hf).
    rewrite drop_app_length, Hf. split; [done|].
    assert (bool_decide (thread_count w.2 ≠ 0%Z ∧ guint (thread_count w.2 - 1) = 0%Z)
            = bool_decide (thread_count w.2 = 1%Z)) as ->; [|done].
    apply bool_decide_ext. split.
    + intros [Hn Hg]. rewrite guint_pred in Hg by lia. lia.
    + intros ->. done.
Qed.

Lemma breaks_reset_idemp b : breaks_reset (breaks_reset b) = breaks_reset b.
Proof.
  unfold breaks_reset, with_store. cbn [store scid_gen log]. f_equal.
  rewrite <- list_fmap_compose. by apply list_fmap_ext.
Qed.

(** The breakpoints after one step, told from the log. *)
Lemma thread_step_breaks ev w :
  thread_log (thread_step prefs ev w).2 = thread_log w.2 ++ step_effects prefs ev w
  ∧ (thread_step prefs ev w).1
    = (if bool_decide (startups (step_effects prefs ev w) = 0%nat) then w.1
       else breaks_reset w.1).
Proof.
  unfold step_effects.
  destruct ev as [nodes|nodes]; cbn [thread_step].
  - destruct (on_thread_created_edge nodes w) as (es & E & Hs & _).
    destruct (on_thread_created_startup nodes w) as (-> & _).
    rewrite E, drop_app_length, Hs. split; [done|]. by repeat case_bool_decide.
  - destruct (on_thread_exited_edge nodes w) as (es & E & Hs & _).
    destruct (on_thread_exited_shutdown nodes w) as (-> & _).
    rewrite E, drop_app_length, Hs. split; [done|]. by rewrite bool_decide_eq_true_2.
Qed.

Lemma thread_run_snoc evs ev w :
  thread_run prefs (evs ++ [ev]) w = thread_step prefs ev (thread_run prefs evs w).
Proof. unfold thread_run. by rewrite foldl_app. Qed.

(** Over any run the breakpoints are as they were, or have their hit
    counts reset when a start-up was among the steps. *)
Lemma thread_run_breaks evs : ∀ w,
  ∃ es, thread_log (thread_run prefs evs w).2 = thread_log w.2 ++ es
    ∧ (thread_run prefs evs w).1
      = (if bool_decide (startups es = 0%nat) then w.1 else breaks_reset w.1).
Proof.
  induction evs as [|ev evs IH] using rev_ind; intros w.
  - exists []. cbn. by rewrite app_nil_r.
  - destruct (IH w) as (es & Hlog & Hb). rewrite thread_run_snoc.
    destruct (thread_step_breaks ev (thread_run prefs evs w)) as (Hlog' & Hb').
    exists (es ++ step_effects prefs ev (thread_run prefs evs w)).
    rewrite Hlog', Hlog, <- app_assoc. split; [done|].
    rewrite Hb', Hb, startups_app.
    repeat case_bool_decide; try done; try lia. apply breaks_reset_idemp.
Qed.

(** Over a run that starts with [c] live threads and is too short for the
    counter to wrap, the start-up and shut-down blocks alternate. *)
Lemma thread_run_balance evs : ∀ w,
  (0 ≤ thread_count w.2)%Z →
  (thread_count w.2 + Z.of_nat (length evs) < guint_max)%Z →
  ∃ es, thread_log (thread_run prefs evs w).2 = thread_log w.2 ++ es
    ∧ (0 ≤ thread_count (thread_run prefs evs w).2
         ≤ thread_count w.2 + Z.of_nat (length evs))%Z
    ∧ (startups es + (if bool_decide (thread_count w.2 = 0%Z) then 0 else 1)
       = shutdowns es
         + (if bool_decide (thread_count (thread_run prefs evs w).2 = 0%Z)
            then 0 else 1))%nat.
Proof.
  induction evs as [|ev evs IH] using rev_ind; intros w H0 Hlen.
  - exists []. cbn. rewrite app_nil_r. split; [done|]. split; [lia|lia].
  - rewrite length_app in Hlen. cbn [length] in Hlen.
    destruct (IH w H0 ltac:(lia)) as (es & Hlog & Hrange & Hbal).
    rewrite thread_run_snoc.
    destruct (thread_step_edge ev (thread_run prefs evs w) ltac:(lia))
      as (Hlog' & Hs & Hd & Hc).
    exists (es ++ step_effects prefs ev (thread_run prefs evs w)).
    rewrite Hlog', Hlog, <- app_assoc. split; [done|].
    rewrite startups_app, shutdowns_app, Hs, Hd, Hc, length_app. cbn [length].
    destruct (is_created ev); cbn [andb negb]; repeat case_bool_decide; lia.
Qed.

(** C6.  Over any sequence of thread-created and thread-exited
    notifications, at every step: the start-up block runs exactly when the
    live-thread counter goes from 0 to 1, the shut-down block runs exactly
    when it goes from 1 back to 0, and neither runs more than once in a
    step.  What runs is the whole block and nothing of it runs elsewhere: on
    the step from 0 to 1 the hit counts of the breakpoints are reset and
    the terminal is cleared, then shown and the panel opened as the
    preferences say; on the step from 1 to 0 the terminal is hidden as the
    preferences say and the debugger is left; on every other step the
    breakpoints are as they were and none of these calls is made.  So the
    blocks do not run on every thread: over a run that starts with no live
    thread (and is too short for the 32-bit counter to wrap) start-ups and
    shut-downs alternate, one start-up and at most one shut-down per
    session, and after any run the breakpoints are as before it, with
    their hit counts reset if a start-up was among its steps. *)
Theorem thread_lifecycle_edges (evs : list ThreadEvent) (w : Breaks * Threads) :
  (0 ≤ thread_count w.2 < guint_max)%Z →
  (∀ pre ev post, evs = pre ++ ev :: post →
     let w1 := thread_run prefs pre w in
     let c := thread_count w1.2 in
     let c' := thread_count (thread_step prefs ev w1).2 in
     (0 ≤ c < guint_max)%Z
     ∧ (startups (step_effects prefs ev w1) = 1%nat ↔ c = 0%Z ∧ c' = 1%Z)
     ∧ (shutdowns (step_effects prefs ev w1) = 1%nat ↔ c = 1%Z ∧ c' = 0%Z)
     ∧ (startups (step_effects prefs ev w1) ≤ 1)%nat
     ∧ (shutdowns (step_effects prefs ev w1) ≤ 1)%nat
     ∧ (thread_step prefs ev w1).1
       = (if bool_decide (c = 0%Z ∧ c' = 1%Z) then breaks_reset w1.1 else w1.1)
     ∧ filter is_lifecycle (step_effects prefs ev w1)
       = (if bool_decide (c = 0%Z ∧ c' = 1%Z) then startup_effects prefs
          else if bool_decide (c = 1%Z ∧ c' = 0%Z) then shutdown_effects prefs
          else []))
  ∧ (thread_count w.2 = 0%Z → (Z.of_nat (length evs) < guint_max)%Z →
     let es := drop (length (thread_log w.2)) (thread_log (thread_run prefs evs w).2) in
     startups es
     = (shutdowns es
        + if bool_decide (thread_count (thread_run prefs evs w).2 = 0%Z) then 0 else 1)%nat)
  ∧ (let es := drop (length (thread_log w.2)) (thread_log (thread_run prefs evs w).2) in
     (thread_run prefs evs w).1
     = (if bool_decide (startups es = 0%nat) then w.1 else breaks_reset w.1)).
Proof.
  intros Hc. split; [|split].
  - intros pre ev post ->. clear post.
    assert (0 ≤ thread_count (thread_run prefs pre w).2 < guint_max)%Z as Hr.
    { induction pre as [|e pre IH] using rev_ind; [done|].
      rewrite thread_run_snoc.
      destruct (thread_step_edge e (thread_run prefs pre w) IH) as (_ & _ & _ & ->).
      pose proof guint_max_large.
      destruct (is_created e); repeat case_bool_decide; lia. }
    intros w1 c c'. subst w1 c c'.
    destruct (thread_step_lifecycle ev (thread_run prefs pre w) Hr) as (-> & ->).
    destruct (thread_step_edge ev (thread_run prefs pre w) Hr) as (_ & -> & -> & ->).
    pose proof guint_max_large. split; [done|].
    destruct (is_created ev); cbn [andb negb]; repeat case_bool_decide;
      repeat split; intros; destruct_and?; try done; try lia.
  - intros Hz Hlen es.
    destruct (thread_run_balance evs w ltac:(lia) ltac:(lia)) as (es' & Hlog & _ & Hbal).
    subst es. rewrite Hlog, drop_app_length.
    rewrite bool_decide_eq_true_2 in Hbal by done. lia.
  - intros es. destruct (thread_run_breaks evs w) as (es' & Hlog & Hb).
    subst es. by rewrite Hlog, drop_app_length.
Qed.

End Lifecycle.

(** A breakpoint hit three times, no live thread; two threads are created
    and exit, then a third is created: two start-ups, one shut-down, a
    thread still alive and the hit count reset; the first creation is the
    step that resets it, clears the terminal and shows it. *)
Lemma thread_lifecycle_edges_witness :
  let b := with_store [set_BREAK_TIMES 3 (example_row (Some "1") "b" None "f.c:7")]
             breaks_init in
  let w := (b, threads_init) in
  let es := thread_log (thread_run example_prefs example_events w).2 in
  let ev := thread_created [PT_VALUE "id" "1"; PT_VALUE "group-id" "i1"] in
  startups es = 2%nat ∧ shutdowns es = 1%nat
  ∧ startups es
    = (shutdowns es
       + if bool_decide (thread_count (thread_run example_prefs example_events w).2 = 0%Z)
         then 0 else 1)%nat
  ∧ BREAK_TIMES <$> store (thread_run example_prefs example_events w).1 = [0%Z]
  ∧ BREAK_TIMES <$> store (thread_step example_prefs ev w).1 = [0%Z]
  ∧ filter is_lifecycle (step_effects example_prefs ev w)
    = [terminal_clear; terminal_standalone true].
Proof.
  intros b w es ev.
  pose proof (thread_lifecycle_edges example_prefs example_events w
                ltac:(split; [reflexivity | reflexivity])) as (Hstep & Hbal & Hrun).
  split; [reflexivity|]. split; [reflexivity|].
  split; [exact (Hbal eq_refl ltac:(reflexivity))|].
  split; [cbv zeta in Hrun; rewrite Hrun; reflexivity|].
  destruct (Hstep [] ev (tail example_events) eq_refl) as (_ & _ & _ & _ & _ & Hb & Hf).
  split; [cbv zeta in Hb; cbn [thread_run foldl] in Hb; rewrite Hb; reflexivity|].
  exact Hf.
Defined.

(** ** break.c: the parse of a row node *)

(** Rows are compared column by column. *)
Lemma BreakRow_eq (r1 r2 : BreakRow) :
  BREAK_ID r1 = BREAK_ID r2 → BREAK_FILE r1 = BREAK_FILE r2 →
  BREAK_LINE r1 = BREAK_LINE r2 → BREAK_SCID r1 = BREAK_SCID r2 →
  BREAK_TYPE r1 = BREAK_TYPE r2 → BREAK_ENABLED r1 = BREAK_ENABLED r2 →
  BREAK_DISPLAY r1 = BREAK_DISPLAY r2 → BREAK_FUNC r1 = BREAK_FUNC r2 →
  BREAK_ADDR r1 = BREAK_ADDR r2 → BREAK_TIMES r1 = BREAK_TIMES r2 →
  BREAK_IGNORE r1 = BREAK_IGNORE r2 → BREAK_COND r1 = BREAK_COND r2 →
  BREAK_SCRIPT r1 = BREAK_SCRIPT r2 → BREAK_PENDING r1 = BREAK_PENDING r2 →
  BREAK_LOCATION r1 = BREAK_LOCATION r2 → BREAK_RUN_APPLY r1 = BREAK_RUN_APPLY r2 →
  BREAK_TEMPORARY r1 = BREAK_TEMPORARY r2 → BREAK_DISCARD r1 = BREAK_DISCARD r2 →
  BREAK_MISSING r1 = BREAK_MISSING r2 → r1 = r2.
Proof. destruct r1, r2. cbn. intros. by subst. Qed.

Ltac row_simpl :=
  cbn [BREAK_ID BREAK_FILE BREAK_LINE BREAK_SCID BREAK_TYPE BREAK_ENABLED BREAK_DISPLAY
       BREAK_FUNC BREAK_ADDR BREAK_TIMES BREAK_IGNORE BREAK_COND BREAK_SCRIPT
       BREAK_PENDING BREAK_LOCATION BREAK_RUN_APPLY BREAK_TEMPORARY BREAK_DISCARD
       BREAK_MISSING
       set_BREAK_ID set_BREAK_FILE set_BREAK_LINE set_BREAK_SCID set_BREAK_TYPE
       set_BREAK_ENABLED set_BREAK_DISPLAY set_BREAK_FUNC set_BREAK_ADDR
       set_BREAK_TIMES set_BREAK_IGNORE set_BREAK_COND set_BREAK_SCRIPT
       set_BREAK_PENDING set_BREAK_LOCATION set_BREAK_RUN_APPLY set_BREAK_TEMPORARY
       set_BREAK_DISCARD set_BREAK_MISSING
       set_parsed row_merge new_row created_row row_applied break_clear_row
       break_relocate empty_row] in *.

Ltac row_eq := apply BreakRow_eq; row_simpl; try reflexivity.

Section ParseBase.

Context `{Host}.

Lemma store_emit e st : store (emit e st) = store st.
Proof. done. Qed.

Lemma store_emits es st : store (emits es st) = store st.
Proof. done. Qed.

Lemma store_break_mark iter mark st : store (break_mark iter mark st) = store st.
Proof. unfold break_mark. by case_match. Qed.

Lemma scid_break_mark iter mark st : scid_gen (break_mark iter mark st) = scid_gen st.
Proof. unfold break_mark. by case_match. Qed.

Lemma store_break_iter_applied iter id st :
  store (break_iter_applied iter id st) = store st
  ∧ scid_gen (break_iter_applied iter id st) = scid_gen st.
Proof.
  unfold break_iter_applied. case_match; [|done]. cbn [foldl].
  repeat case_match; done.
Qed.

Lemma model_find_id_Some rows id i :
  model_find_id rows id = Some i →
  ∃ r, rows !! i = Some r ∧ BREAK_ID r = Some id
       ∧ ∀ j r', rows !! j = Some r' → (j < i)%nat → BREAK_ID r' ≠ Some id.
Proof.
  unfold model_find_id. intros Hf.
  destruct (list_find _ rows) as [[i' r]|] eqn:E; [|done]. cbn in Hf. simplify_eq.
  apply list_find_Some in E as (? & ? & ?). eauto.
Qed.

Lemma model_find_id_None rows id :
  model_find_id rows id = None → ∀ r, r ∈ rows → BREAK_ID r ≠ Some id.
Proof.
  unfold model_find_id. intros Hf.
  destruct (list_find _ rows) as [[i' r]|] eqn:E; [done|].
  apply list_find_None in E. intros r Hr. by eapply Forall_forall in E.
Qed.

Lemma alter_middle {A} (f : A → A) (l1 l2 : list A) (x : A) (i : nat) :
  length l1 = i → alter f i (l1 ++ x :: l2) = l1 ++ f x :: l2.
Proof. intros <-. rewrite alter_app_r_alt by lia. by rewrite Nat.sub_diag. Qed.

Lemma store_gtk_set iter f st :
  store (gtk_list_store_set iter f st)
  = match iter with
    | Some i => alter f i (store st)
    | None => store st
    end.
Proof. by destruct iter. Qed.

Lemma scid_gtk_set iter f st : scid_gen (gtk_list_store_set iter f st) = scid_gen st.
Proof. by destruct iter. Qed.

(** *** The branch that creates a row *)

Lemma new_break_loc_func original loc loc' :
  new_break_loc original loc = Some loc' → loc_func loc' = loc_func loc.
Proof. unfold new_break_loc. intros Hl. repeat case_match; by simplify_eq. Qed.

Lemma node_new_loc_Some nodes loc' :
  new_break_loc (parse_find_locale nodes "original-location") (parse_location nodes)
  = Some loc' →
  node_new_loc nodes = loc'.
Proof. unfold node_new_loc. by intros ->. Qed.

Lemma break_row_new_spec leading type nodes loc st bd :
  let new := created_row leading type (bd_stage bd) nodes loc (scid_gen st + 1) in
  match new_break_loc (parse_find_locale nodes "original-location") loc with
  | None => break_row_new leading type nodes loc st bd = None
  | Some loc' =>
      ∃ res, break_row_new leading type nodes loc st bd = Some res
        ∧ res.2 = loc'
        ∧ scid_gen res.1.1 = (scid_gen st + 1)%Z
        ∧ bd_stage res.1.2 = bd_stage bd ∧ bd_type res.1.2 = bd_type bd
        ∧ if leading then
            store res.1.1 = store st ++ [new] ∧ bd_iter res.1.2 = Some (length (store st))
          else
            match bd_iter bd with
            | Some k =>
                if decide (k < length (store st)) then
                  store res.1.1 = take (S k) (store st) ++ new :: drop (S k) (store st)
                  ∧ bd_iter res.1.2 = Some (S k)
                else store res.1.1 = store st ∧ bd_iter res.1.2 = None
            | None => store res.1.1 = store st ∧ bd_iter res.1.2 = None
            end
  end.
Proof.
  intros new. subst new. unfold break_row_new, created_row. cbv zeta.
  destruct (new_break_loc _ loc) as [loc'|] eqn:Hloc; [|done].
  rewrite (new_break_loc_func _ _ _ Hloc).
  set (persist := if bool_decide _ || _ then false else _).
  destruct leading.
  - cbn [gtk_list_store_append].
    destruct persist; cbn; eexists; (split; [reflexivity|]); cbn; repeat split;
      by rewrite (alter_middle _ _ []).
  - unfold gtk_list_store_insert_after.
    destruct (bd_iter bd) as [k|]; [destruct (decide (k < length (store st)))|];
      destruct persist; cbn; eexists; (split; [reflexivity|]); cbn; repeat split;
      try done; by rewrite alter_middle by (rewrite length_take; lia).
Qed.

Lemma break_row_locate_spec leading type enabled nodes id loc st bd :
  let script := set_BREAK_SCRIPT (node_script nodes) in
  let new := script (created_row leading type (bd_stage bd) nodes loc (scid_gen st + 1)) in
  match model_find_id (store st) id with
  | Some i =>
      ∃ res, break_row_locate leading type enabled nodes id loc st bd = Some res
        ∧ bd_stage res.1.2 = bd_stage bd ∧ bd_type res.1.2 = bd_type bd
        ∧ res.2 = loc ∧ store res.1.1 = alter script i (store st)
        ∧ scid_gen res.1.1 = scid_gen st ∧ bd_iter res.1.2 = Some i
  | None =>
      match new_break_loc (parse_find_locale nodes "original-location") loc with
      | None => break_row_locate leading type enabled nodes id loc st bd = None
      | Some loc' =>
          ∃ res, break_row_locate leading type enabled nodes id loc st bd = Some res
            ∧ bd_stage res.1.2 = bd_stage bd ∧ bd_type res.1.2 = bd_type bd
            ∧ res.2 = loc'
            ∧ scid_gen res.1.1 = (scid_gen st + 1)%Z
            ∧ if leading then
                store res.1.1 = store st ++ [new]
                ∧ bd_iter res.1.2 = Some (length (store st))
              else
                match bd_iter bd with
                | Some k =>
                    if decide (k < length (store st)) then
                      store res.1.1
                      = take (S k) (store st) ++ new :: drop (S k) (store st)
                      ∧ bd_iter res.1.2 = Some (S k)
                    else store res.1.1 = store st ∧ bd_iter res.1.2 = None
                | None => store res.1.1 = store st ∧ bd_iter res.1.2 = None
                end
      end
  end.
Proof.
  intros script new. subst script new. unfold break_row_locate.
  assert (∀ (st' : Breaks) (bd' : BreakData) (e : Effect),
    (match parse_find_node nodes "script" with
     | Some script =>
         gtk_list_store_set (bd_iter bd')
           (set_BREAK_SCRIPT (Some (parse_script script).1))
           (emits (parse_script script).2 (emit e st'))
     | None => gtk_list_store_set (bd_iter bd') (set_BREAK_SCRIPT None) (emit e st')
     end)
    = gtk_list_store_set (bd_iter bd') (set_BREAK_SCRIPT (node_script nodes))
        (match parse_find_node nodes "script" with
         | Some script => emits (parse_script script).2 (emit e st')
         | None => emit e st'
         end)) as Hscript.
  { intros. unfold node_script. by case_match. }
  destruct (model_find_id (store st) id) as [i|].
  - cbv zeta. rewrite Hscript. eexists. split; [reflexivity|].
    cbn [fst snd bd_set_iter bd_iter bd_stage bd_type].
    rewrite store_gtk_set, scid_gtk_set.
    repeat split; case_match; cbn; by rewrite ?store_break_mark, ?scid_break_mark.
  - pose proof (break_row_new_spec leading type nodes loc st bd) as Hnew.
    cbv zeta in Hnew.
    destruct (new_break_loc _ loc) as [loc'|]; [|by rewrite Hnew].
    destruct Hnew as ([[st1 bd1] loc1] & -> & Hnew).
    cbn [fst snd] in Hnew. destruct Hnew as (-> & Hscid & Hst & Hty & Hrows).
    rewrite Hscript. eexists. split; [reflexivity|].
    cbn [fst snd]. rewrite store_gtk_set, scid_gtk_set.
    assert (∀ s, store (match parse_find_node nodes "script" with
                        | Some script => emits (parse_script script).2 (emit s st1)
                        | None => emit s st1
                        end) = store st1) as Hstore
      by (intros; by destruct (parse_find_node nodes "script")).
    assert (∀ s, scid_gen (match parse_find_node nodes "script" with
                        | Some script => emits (parse_script script).2 (emit s st1)
                        | None => emit s st1
                        end) = scid_gen st1) as Hscid'
      by (intros; by destruct (parse_find_node nodes "script")).
    rewrite Hstore, Hscid'. repeat split; try done.
    destruct leading.
    + destruct Hrows as [-> ->]. split; [|done]. by rewrite (alter_middle _ _ []).
    + destruct (bd_iter bd) as [k|]; [destruct (decide (k < length (store st)))|];
        destruct Hrows as [-> ->]; split; try done.
      rewrite alter_middle; [done|]. rewrite length_take. lia.
Qed.

Lemma store_break_row_conds stage type enabled nodes iter st :
  stage ≠ BG_APPLY →
  break_row_conds stage type enabled nodes iter st
  = gtk_list_store_set iter
      (λ r, set_BREAK_IGNORE (node_ignore nodes)
              (set_BREAK_COND (utils_get_display_from_7bit <$> parse_find_value nodes "cond")
                 (set_BREAK_ENABLED enabled r))) st.
Proof.
  intros Hs. unfold break_row_conds.
  rewrite (bool_decide_eq_false_2 (stage = BG_APPLY)) by done.
  cbn [negb]. by rewrite !orb_true_r.
Qed.

(** The outcome of parsing a node with a [number] outside the Apply stage:
    the row with the id takes the node's columns; or no row has the id and
    a row is created, which has no result when the file of the new row is
    the freed copy of [original-location]. *)
Lemma break_row_parse_cases name nodes id st bd :
  bd_stage bd ≠ BG_APPLY →
  let new := new_row name nodes id bd (scid_gen st + 1) in
  match model_find_id (store st) id with
  | Some i =>
      ∃ res, break_row_parse name nodes id st bd = Some res
        ∧ bd_stage res.2 = BG_NEXT ∧ bd_type res.2 = row_type name nodes id bd
        ∧ store res.1 = alter (row_merge nodes id (parse_location nodes)) i (store st)
        ∧ scid_gen res.1 = scid_gen st ∧ bd_iter res.2 = Some i
  | None =>
      match new_break_loc (parse_find_locale nodes "original-location")
              (parse_location nodes) with
      | None => break_row_parse name nodes id st bd = None
      | Some _ =>
          ∃ res, break_row_parse name nodes id st bd = Some res
            ∧ bd_stage res.2 = BG_NEXT ∧ bd_type res.2 = row_type name nodes id bd
            ∧ scid_gen res.1 = (scid_gen st + 1)%Z
            ∧ if negb (str_mem "." id) then
                store res.1 = store st ++ [new]
                ∧ bd_iter res.2 = Some (length (store st))
              else
                match bd_iter bd with
                | Some k =>
                    if decide (k < length (store st)) then
                      store res.1 = take (S k) (store st) ++ new :: drop (S k) (store st)
                      ∧ bd_iter res.2 = Some (S k)
                    else store res.1 = store st ∧ bd_iter res.2 = None
                | None => store res.1 = store st ∧ bd_iter res.2 = None
                end
      end
  end.
Proof.
  intros Hstage new. subst new. unfold break_row_parse, new_row. cbv zeta.
  rewrite (bool_decide_eq_false_2 (bd_stage bd = BG_APPLY)) by done.
  fold (row_type name nodes id bd). fold (node_enabled nodes).
  set (bd0 := if _ : bool then bd_set_type _ bd else bd).
  assert (bd_stage bd0 = bd_stage bd ∧ bd_iter bd0 = bd_iter bd
          ∧ bd_type bd0 = row_type name nodes id bd) as (Hst0 & Hit0 & Hty0)
    by (subst bd0; unfold row_type; by case_match).
  clearbody bd0.
  pose proof (break_row_locate_spec (negb (str_mem "." id)) (row_type name nodes id bd)
    (g_strcmp0 (parse_find_value nodes "enabled") "n")
    nodes id (parse_location nodes) st bd0) as Hloc.
  cbv zeta in Hloc.
  assert (∀ (s : Breaks) (it : option nat),
    store (match bd_stage bd with
           | BG_APPLY => break_iter_applied it id s
           | BG_GOTO => emit (debug_send_thread "-exec-continue") s
           | _ => s
           end) = store s
    ∧ scid_gen (match bd_stage bd with
           | BG_APPLY => break_iter_applied it id s
           | BG_GOTO => emit (debug_send_thread "-exec-continue") s
           | _ => s
           end) = scid_gen s) as Hfin.
  { intros s it. destruct (bd_stage bd); try done. }
  rewrite Hit0, Hst0 in Hloc.
  destruct (model_find_id (store st) id) as [i|].
  - destruct Hloc as ([[st1 bd1] loc1] & -> & Hloc). cbn [fst snd] in Hloc.
    destruct Hloc as (Hst1 & Hty1 & -> & Hrows & Hsc & Hit).
    eexists. split; [reflexivity|].
    cbn [fst snd bd_set_stage bd_stage bd_iter bd_type].
    rewrite store_break_row_conds by done.
    split; [done|]. split; [congruence|].
    rewrite (proj1 (Hfin _ _)), (proj2 (Hfin _ _)), !store_gtk_set, !scid_gtk_set.
    rewrite Hit, Hrows, Hsc. by rewrite !list_alter_alter_eq.
  - destruct (new_break_loc _ (parse_location nodes)) as [loc'|] eqn:Hnl;
      [|by rewrite Hloc].
    destruct Hloc as ([[st1 bd1] loc1] & -> & Hloc). cbn [fst snd] in Hloc.
    destruct Hloc as (Hst1 & Hty1 & -> & Hsc & Hrows).
    eexists. split; [reflexivity|].
    cbn [fst snd bd_set_stage bd_stage bd_iter bd_type].
    rewrite store_break_row_conds by done.
    split; [done|]. split; [congruence|].
    rewrite (proj1 (Hfin _ _)), (proj2 (Hfin _ _)), !store_gtk_set, !scid_gtk_set.
    split; [done|].
    rewrite (node_new_loc_Some _ _ Hnl). unfold row_merge.
    destruct (negb (str_mem "." id)).
    + destruct Hrows as [-> ->]. split; [|done].
      by rewrite !(alter_middle _ _ []).
    + destruct (bd_iter bd) as [k|]; [destruct (decide (k < length (store st)))|];
        destruct Hrows as [-> ->]; split; try done.
      rewrite !alter_middle; [done|rewrite length_take; lia..].
Qed.

(** A node without a [number], or a scalar in the place of a row. *)
Lemma break_node_parse_bad node sb :
  node_id node = None →
  ∃ e, break_node_parse node sb
       = Some (emit (dc_error e) sb.1, bd_set_stage BG_DISCARD sb.2).
Proof.
  intros Hbad. destruct node as [name v|name nodes]; cbn in *.
  - by eexists.
  - rewrite Hbad. by eexists.
Qed.

Lemma break_node_parse_row node sb id :
  node_id node = Some id →
  break_node_parse node sb = break_row_parse (node_name node) (node_fields node) id sb.1 sb.2.
Proof.
  intros Hid. destruct node as [name v|name nodes]; cbn in *; [done|]. by rewrite Hid.
Qed.

(** The first row node of a reply in the Apply stage: its columns go into
    the row the token named; no row is looked up by id and none is
    created. *)
Lemma break_row_parse_apply name nodes id st bd :
  bd_stage bd = BG_APPLY →
  ∃ res, break_row_parse name nodes id st bd = Some res
    ∧ bd_stage res.2 = BG_NEXT ∧ bd_iter res.2 = bd_iter bd
    ∧ bd_type res.2 = row_type name nodes id bd
    ∧ scid_gen res.1 = scid_gen st
    ∧ store res.1 = match bd_iter bd with
                    | Some i => alter (row_applied name nodes id bd) i (store st)
                    | None => store st
                    end.
Proof.
  intros Hstage. unfold break_row_parse, row_applied. cbv zeta.
  fold (row_type name nodes id bd). fold (node_enabled nodes). rewrite Hstage.
  rewrite (bool_decide_eq_true_2 (BG_APPLY = BG_APPLY)) by done.
  set (bd0 := if _ : bool then bd_set_type _ bd else bd).
  assert (bd_iter bd0 = bd_iter bd ∧ bd_type bd0 = row_type name nodes id bd)
    as [Hit0 Hty0].
  { subst bd0. unfold row_type. rewrite Hstage. by case_match. }
  clearbody bd0. eexists. split; [reflexivity|].
  cbn [fst snd bd_set_stage bd_stage bd_iter bd_type].
  destruct (store_break_iter_applied (bd_iter bd0) id
    (gtk_list_store_set (bd_iter bd0)
       (set_parsed id (parse_location nodes) (parse_find_value nodes "times")
          (bool_decide (parse_find_value nodes "disp" = Some "del")))
       (break_row_conds BG_APPLY (row_type name nodes id bd) (node_enabled nodes)
          nodes (bd_iter bd0) st))) as [-> ->].
  rewrite store_gtk_set, scid_gtk_set, Hit0.
  split; [done|]. split; [done|]. split; [done|]. split.
  - unfold break_row_conds. case_match; [|done]. by rewrite scid_gtk_set.
  - unfold break_row_conds, node_ignore.
    rewrite (bool_decide_eq_true_2 (BG_APPLY = BG_APPLY)) by done.
    cbn [negb]. rewrite !orb_false_r.
    destruct (bd_iter bd) as [i|]; destruct (strchr BP_BORTS _); try done.
    rewrite store_gtk_set, list_alter_alter_eq.
    by destruct (strchr BP_BREAKS _).
Qed.

Lemma row_merge_idemp nodes id loc r :
  row_merge nodes id loc (row_merge nodes id loc r) = row_merge nodes id loc r.
Proof. row_eq. Qed.

Lemma new_row_facts name nodes id bd scid :
  let new := new_row name nodes id bd scid in
  BREAK_ID new = Some id ∧ BREAK_MISSING new = false ∧ BREAK_SCID new = scid
  ∧ row_merge nodes id (node_new_loc nodes) new = new
  ∧ (bd_stage bd ≠ BG_PERSIST → BREAK_DISCARD new = true).
Proof.
  split; [row_simpl; done|]. split; [row_simpl; done|]. split; [row_simpl; done|].
  split; [unfold new_row; apply row_merge_idemp|].
  intros Hs. unfold new_row, created_row. row_simpl.
  rewrite (bool_decide_eq_false_2 (bd_stage bd = BG_PERSIST)) by done.
  rewrite andb_false_r. by case_match.
Qed.

(** The outcome of [break_node_parse] on a node with a [number], outside
    the Apply stage, told by the shape of the store: the first row with
    that id takes the node's columns, or no row has the id and a new row is
    put in, or -- for a dotted sub-id with no valid previous row -- nothing
    is stored.  There is no outcome when no row has the id and the node
    does not resolve its file. *)
Lemma break_node_parse_shape node x st bd :
  node_id node = Some x → bd_stage bd ≠ BG_APPLY →
  let merge := row_merge (node_fields node) x (parse_location (node_fields node)) in
  let new := new_row (node_name node) (node_fields node) x bd (scid_gen st + 1) in
  match break_node_parse node (st, bd) with
  | None =>
      Forall (λ r', BREAK_ID r' ≠ Some x) (store st) ∧ ¬ node_resolved (node_fields node)
  | Some res =>
      bd_stage res.2 = BG_NEXT
      ∧ bd_type res.2 = row_type (node_name node) (node_fields node) x bd
      ∧ ((∃ l1 r l2,
            store st = l1 ++ r :: l2 ∧ BREAK_ID r = Some x
            ∧ Forall (λ r', BREAK_ID r' ≠ Some x) l1
            ∧ store res.1 = l1 ++ merge r :: l2
            ∧ scid_gen res.1 = scid_gen st ∧ bd_iter res.2 = Some (length l1))
         ∨ (Forall (λ r', BREAK_ID r' ≠ Some x) (store st)
            ∧ node_resolved (node_fields node)
            ∧ scid_gen res.1 = (scid_gen st + 1)%Z
            ∧ ((∃ l1 l2,
                  store st = l1 ++ l2 ∧ store res.1 = l1 ++ new :: l2
                  ∧ bd_iter res.2 = Some (length l1))
               ∨ (store res.1 = store st ∧ bd_iter res.2 = None
                  ∧ str_mem "." x = true
                  ∧ ¬ ∃ k, bd_iter bd = Some k ∧ k < length (store st)))))
  end.
Proof.
  intros Hid Hstage merge new. subst merge new.
  rewrite (break_node_parse_row _ _ _ Hid). cbn [fst snd].
  pose proof (break_row_parse_cases (node_name node) (node_fields node) x st bd Hstage)
    as Hc. cbv zeta in Hc. unfold node_resolved.
  destruct (model_find_id (store st) x) as [i|] eqn:Hfind.
  - destruct Hc as ([st' bd'] & -> & Hs & Hty & Hst & Hsc & Hit). cbn [fst snd] in *.
    split; [done|]. split; [done|]. left.
    apply model_find_id_Some in Hfind as (r & Hr & Hrid & Hfirst).
    exists (take i (store st)), r, (drop (S i) (store st)).
    assert (length (take i (store st)) = i) as Hlen.
    { rewrite length_take. apply lookup_lt_Some in Hr. lia. }
    split; [by rewrite take_drop_middle|]. split; [done|]. split.
    { apply Forall_forall. intros r' Hr'.
      apply list_elem_of_lookup in Hr' as [j Hj].
      pose proof (lookup_lt_Some _ _ _ Hj) as Hlt. rewrite Hlen in Hlt.
      rewrite lookup_take_lt in Hj by done. by eapply Hfirst. }
    rewrite Hlen. repeat split; try done.
    rewrite Hst. rewrite <- (take_drop_middle _ _ _ Hr) at 1.
    by rewrite alter_middle.
  - assert (Forall (λ r', BREAK_ID r' ≠ Some x) (store st)) as Hnone.
    { apply Forall_forall. by apply model_find_id_None. }
    destruct (new_break_loc _ (parse_location (node_fields node))) as [loc'|].
    2:{ rewrite Hc. split; [done|]. by intros [? ?]. }
    destruct Hc as ([st' bd'] & -> & Hs & Hty & Hsc & Hc). cbn [fst snd] in *.
    split; [done|]. split; [done|]. right.
    split; [done|]. split; [by eexists|]. split; [done|].
    destruct (str_mem "." x); cbn [negb] in Hc.
    + destruct (bd_iter bd) as [k|]; [destruct (decide (k < length (store st)))|].
      * left. destruct Hc as [-> ->].
        exists (take (S k) (store st)), (drop (S k) (store st)).
        rewrite take_drop, length_take. repeat split; try done. f_equal. lia.
      * right. destruct Hc as [-> ->]. repeat split; try done.
        intros (k' & ? & ?). by simplify_eq.
      * right. destruct Hc as [-> ->]. repeat split; try done.
        intros (k' & ? & ?). by simplify_eq.
    + left. destruct Hc as [-> ->]. exists (store st), [].
      by rewrite app_nil_r.
Qed.

Lemma breaks_parse_cons node nodes sb :
  breaks_parse (node :: nodes) sb = break_node_parse node sb ≫= breaks_parse nodes.
Proof. cbn [breaks_parse]. by destruct (break_node_parse node sb). Qed.

Lemma breaks_parse_app nodes1 nodes2 sb :
  breaks_parse (nodes1 ++ nodes2) sb = breaks_parse nodes1 sb ≫= breaks_parse nodes2.
Proof.
  revert sb. induction nodes1 as [|node nodes1 IH]; intros sb; [done|].
  cbn [app breaks_parse]. destruct (break_node_parse node sb); [apply IH|done].
Qed.

End ParseBase.

(** ** break.c: nodes that cannot be parsed *)

Section Containment.

Context `{Host}.

Lemma BreakData_eq bd bd' :
  bd_iter bd = bd_iter bd' → bd_type bd = bd_type bd' → bd_stage bd = bd_stage bd' →
  bd = bd'.
Proof. destruct bd, bd'. cbn. by intros -> -> ->. Qed.

Lemma same_parse_bind (P Q : Prop) res res'
    (f g : Breaks * BreakData → option (Breaks * BreakData)) :
  same_parse P res res' →
  (∀ r r', same_rows r.1 r'.1 → (P → r.2 = r'.2) → same_parse Q (f r) (g r')) →
  same_parse Q (res ≫= f) (res' ≫= g).
Proof.
  unfold same_parse. intros [r r' [Hr Hb]|] Hf; cbn; [by apply Hf|constructor].
Qed.

(** The rows a node leaves depend on the rows it finds, not on the log. *)
Lemma break_node_parse_same_rows node st st' bd :
  same_rows st st' →
  same_parse True (break_node_parse node (st, bd)) (break_node_parse node (st', bd)).
Proof.
  intros [Hst Hsc]. unfold same_parse, same_rows.
  destruct (node_id node) as [x|] eqn:Hid.
  - rewrite !(break_node_parse_row _ _ _ Hid). cbn [fst snd].
    destruct (decide (bd_stage bd = BG_APPLY)) as [Ha|Ha].
    + destruct (break_row_parse_apply (node_name node) (node_fields node) x st bd Ha)
        as (r1 & -> & S1 & I1 & T1 & C1 & R1).
      destruct (break_row_parse_apply (node_name node) (node_fields node) x st' bd Ha)
        as (r2 & -> & S2 & I2 & T2 & C2 & R2).
      constructor. split; [split|]; [| |intros _; apply BreakData_eq]; try congruence.
      rewrite R1, R2. by rewrite Hst.
    + pose proof (break_row_parse_cases (node_name node) (node_fields node) x st bd Ha)
        as C1.
      pose proof (break_row_parse_cases (node_name node) (node_fields node) x st' bd Ha)
        as C2.
      cbv zeta in C1, C2. rewrite <- Hst, <- Hsc in C2.
      destruct (model_find_id (store st) x).
      * destruct C1 as (r1 & -> & S1 & T1 & R1 & G1 & I1),
                 C2 as (r2 & -> & S2 & T2 & R2 & G2 & I2).
        constructor. split; [split|]; [| |intros _; apply BreakData_eq]; congruence.
      * destruct (new_break_loc _ (parse_location (node_fields node)));
          [|rewrite C1, C2; constructor].
        destruct C1 as (r1 & -> & S1 & T1 & G1 & C1), C2 as (r2 & -> & S2 & T2 & G2 & C2).
        constructor.
        destruct (negb (str_mem "." x)).
        { destruct C1 as (R1 & I1), C2 as (R2 & I2).
          split; [split|]; [| |intros _; apply BreakData_eq]; congruence. }
        destruct (bd_iter bd) as [k|]; [destruct (decide (k < length (store st)))|];
          destruct C1 as (R1 & I1), C2 as (R2 & I2);
          (split; [split|]; [| |intros _; apply BreakData_eq]); congruence.
  - destruct (break_node_parse_bad node (st, bd) Hid) as [e ->].
    destruct (break_node_parse_bad node (st', bd) Hid) as [e' ->].
    constructor. by cbn.
Qed.

Lemma breaks_parse_same_rows nodes : ∀ st st' bd,
  same_rows st st' →
  same_parse True (breaks_parse nodes (st, bd)) (breaks_parse nodes (st', bd)).
Proof.
  induction nodes as [|node nodes IH]; intros st st' bd Hsame.
  { constructor. by cbn. }
  rewrite !breaks_parse_cons.
  eapply same_parse_bind; [by apply break_node_parse_same_rows|].
  intros [s1 b1] [s2 b2] Hs Hb. cbn [fst snd] in *. rewrite (Hb I). by apply IH.
Qed.

Lemma row_type_as_discard node x bd :
  node_id node = Some x → (bd_stage bd = BG_NEXT → kind_inherited node = false) →
  row_type (node_name node) (node_fields node) x (bd_set_stage BG_DISCARD bd)
  = row_type (node_name node) (node_fields node) x bd.
Proof.
  unfold kind_inherited, row_type. intros -> Hk. cbn [bd_stage bd_set_stage bd_type].
  rewrite (bool_decide_eq_false_2 (BG_DISCARD = BG_NEXT)) by done.
  cbn [negb]. rewrite orb_true_r. cbn [orb].
  destruct (decide (bd_stage bd = BG_NEXT)) as [Hs|Hs].
  - specialize (Hk Hs). destruct (str_mem "." x); [|done].
    cbn [andb negb orb] in *. rewrite Hk. cbn [negb]. by rewrite orb_true_r.
  - rewrite (bool_decide_eq_false_2 _ Hs). cbn [negb]. by rewrite orb_true_r.
Qed.

Lemma new_row_as_discard node x bd scid :
  node_id node = Some x → (bd_stage bd = BG_NEXT → kind_inherited node = false) →
  bd_stage bd ≠ BG_PERSIST →
  new_row (node_name node) (node_fields node) x (bd_set_stage BG_DISCARD bd) scid
  = new_row (node_name node) (node_fields node) x bd scid.
Proof.
  intros Hid Hk Hs. unfold new_row. rewrite (row_type_as_discard _ _ _ Hid Hk).
  unfold created_row. cbn [bd_stage bd_set_stage].
  by rewrite !(bool_decide_eq_false_2 (_ = BG_PERSIST)).
Qed.

(** Outside the Persist and the Apply stage a node leaves the same rows
    and the same parse data as it does in the Discard stage, unless it
    inherits its kind from the row before. *)
Lemma break_node_parse_as_discard node st st' bd :
  same_rows st st' → bd_stage bd ≠ BG_PERSIST → bd_stage bd ≠ BG_APPLY →
  (bd_stage bd = BG_NEXT → kind_inherited node = false) →
  same_parse True (break_node_parse node (st, bd_set_stage BG_DISCARD bd))
    (break_node_parse node (st', bd)).
Proof.
  intros [Hst Hsc] Hp Ha Hk. unfold same_parse, same_rows.
  destruct (node_id node) as [x|] eqn:Hid.
  - rewrite !(break_node_parse_row _ _ _ Hid). cbn [fst snd].
    pose proof (break_row_parse_cases (node_name node) (node_fields node) x st
                  (bd_set_stage BG_DISCARD bd) ltac:(done)) as C1.
    pose proof (break_row_parse_cases (node_name node) (node_fields node) x st' bd Ha)
      as C2.
    cbv zeta in C1, C2. rewrite <- Hst, <- Hsc in C2.
    rewrite (row_type_as_discard _ _ _ Hid Hk) in C1.
    rewrite (new_row_as_discard _ _ _ _ Hid Hk Hp) in C1.
    cbn [bd_iter bd_set_stage] in C1.
    destruct (model_find_id (store st) x).
    + destruct C1 as (r1 & -> & S1 & T1 & R1 & G1 & I1),
               C2 as (r2 & -> & S2 & T2 & R2 & G2 & I2).
      constructor. split; [split|]; [| |intros _; apply BreakData_eq]; congruence.
    + destruct (new_break_loc _ (parse_location (node_fields node)));
        [|rewrite C1, C2; constructor].
      destruct C1 as (r1 & -> & S1 & T1 & G1 & C1), C2 as (r2 & -> & S2 & T2 & G2 & C2).
      constructor.
      destruct (negb (str_mem "." x)).
      { destruct C1 as (R1 & I1), C2 as (R2 & I2).
        split; [split|]; [| |intros _; apply BreakData_eq]; congruence. }
      destruct (bd_iter bd) as [k|]; [destruct (decide (k < length (store st)))|];
        destruct C1 as (R1 & I1), C2 as (R2 & I2);
        (split; [split|]; [| |intros _; apply BreakData_eq]); congruence.
  - destruct (break_node_parse_bad node (st, bd_set_stage BG_DISCARD bd) Hid) as [e ->].
    destruct (break_node_parse_bad node (st', bd) Hid) as [e' ->].
    constructor. cbn. split; [done|]. intros _. by apply BreakData_eq.
Qed.

(** C9, corrected statement.
    When a node of a multi-row breakpoint message is a scalar in the place
    of a row, or a row without a [number], the error is reported, the row
    collection is left as it is and only that node is dropped: all the
    nodes after it are still parsed.  They are parsed in the Discard stage,
    which the failed node sets.  So the rest of the batch leaves the rows
    it would have left had the node been absent -- the parse has a result
    in the one case when it has one in the other, with the same rows and
    the same sequence-id counter -- whenever the stage at that node is
    Discard (the node comes first in a notification, in a listing or in a
    reply with an empty token), Goto, or Next (the node comes after a row
    of the same message) with the node after it not a sub-row that takes
    its kind from the row before. *)
Theorem break_parse_shape_error_contained (pre post : list ParseNode)
    (bad : ParseNode) (sb sb1 : Breaks * BreakData) :
  node_id bad = None →
  breaks_parse pre sb = Some sb1 →
  let res := breaks_parse (pre ++ bad :: post) sb in
  ∃ e,
    break_node_parse bad sb1
    = Some (emit (dc_error e) sb1.1, bd_set_stage BG_DISCARD sb1.2)
    ∧ store (emit (dc_error e) sb1.1) = store sb1.1
    ∧ scid_gen (emit (dc_error e) sb1.1) = scid_gen sb1.1
    ∧ res = breaks_parse post (emit (dc_error e) sb1.1, bd_set_stage BG_DISCARD sb1.2)
    ∧ (bd_stage sb1.2 ≠ BG_PERSIST → bd_stage sb1.2 ≠ BG_APPLY →
       (bd_stage sb1.2 = BG_NEXT →
        ∀ node, head post = Some node → kind_inherited node = false) →
       same_parse (bd_stage sb1.2 = BG_DISCARD ∨ post ≠ []) res
         (breaks_parse (pre ++ post) sb)).
Proof.
  intros Hbad Hpre res. subst res.
  destruct (break_node_parse_bad bad sb1 Hbad) as [e He]. exists e.
  split; [done|]. split; [done|]. split; [done|].
  rewrite !breaks_parse_app, Hpre. cbn [mbind option_bind].
  rewrite breaks_parse_cons, He. cbn [mbind option_bind].
  split; [done|]. intros Hp Ha Hk.
  destruct sb1 as [st1 bd1]. cbn [fst snd] in *.
  assert (same_rows (emit (dc_error e) st1) st1) as Hsame by done.
  destruct post as [|node post].
  - constructor. split; [done|]. intros [Hd|Hne]; [|done].
    cbn [snd]. by apply BreakData_eq.
  - rewrite !breaks_parse_cons.
    eapply same_parse_bind.
    { apply break_node_parse_as_discard; [done..|]. intros Hs. by apply Hk. }
    intros [s1 b1] [s2 b2] Hs Hb. cbn [fst snd] in *. rewrite (Hb I).
    destruct (breaks_parse_same_rows post _ _ b2 Hs) as [r r' [Hr Hb']|];
      constructor. split; [done|]. intros _. by apply Hb'.
Qed.

End Containment.

(** A scalar between two rows of a listing: the two rows are stored as
    they are without the scalar. *)
Lemma break_parse_shape_error_contained_witness :
  let pre := [example_bkpt "1" "a.c:10"] in
  let post := [example_bkpt "2" "a.c:12"] in
  let bad := PT_VALUE "bkpt" "oops" in
  let sb := (breaks_init, bd_start BG_DISCARD) in
  ((λ res, BREAK_ID <$> store res.1) <$> breaks_parse (H:=ref_host) (pre ++ bad :: post) sb
   = Some [Some "1"; Some "2"])
  ∧ same_parse True (breaks_parse (H:=ref_host) (pre ++ bad :: post) sb)
      (breaks_parse (H:=ref_host) (pre ++ post) sb).
Proof.
  intros pre post bad sb. split; [reflexivity|].
  destruct (break_parse_shape_error_contained (H:=ref_host) pre post bad sb
              (default sb (breaks_parse (H:=ref_host) pre sb)) eq_refl eq_refl)
    as (e & _ & _ & _ & _ & Hsame).
  assert (same_parse (BG_NEXT = BG_DISCARD ∨ post ≠ [])
            (breaks_parse (H:=ref_host) (pre ++ bad :: post) sb)
            (breaks_parse (H:=ref_host) (pre ++ post) sb)) as Hs.
  { apply Hsame; [discriminate|discriminate|]. intros _ node Hnode.
    injection Hnode as <-. reflexivity. }
  destruct Hs as [r r' [Hr Hb]|]; constructor.
  split; [exact Hr|]. intros _. apply Hb. right. discriminate.
Defined.

(** Four replies to a breakpoint insertion whose first node, or whose node
    after the first row, is a scalar.  Without a token (stage Persist) the
    row that follows is created as a discardable row, while without the
    scalar it is created as a persistent one.  With the token of a local
    row (stage Apply) the row that follows is appended, while without the
    scalar it is written into the local row.  With a token that starts
    with 0 (stage Goto) the rows are the same, but execution is not
    resumed.  After the row of a breakpoint with two locations, the
    sub-row that follows the scalar is created with the kind [?], while
    without the scalar it takes the kind of the breakpoint. *)
Lemma break_parse_shape_error_counterexample :
  let good := example_bkpt "1" "a.c:10" in
  let bad := PT_VALUE "bkpt" "oops" in
  let sub := PT_ARRAY "locations" [PT_VALUE "number" "1.1"; PT_VALUE "enabled" "y";
                                   PT_VALUE "addr" "0x1000"; PT_VALUE "func" "main"] in
  let local := with_store [example_row None "b" None "a.c:10"] breaks_init in
  node_id bad = None
  ∧ (λ st, BREAK_DISCARD <$> store st) <$> on_break_inserted (H:=ref_host) [bad; good] breaks_init
    = Some [true]
  ∧ (λ st, BREAK_DISCARD <$> store st) <$> on_break_inserted (H:=ref_host) [good] breaks_init
    = Some [false]
  ∧ (λ st, BREAK_ID <$> store st)
    <$> on_break_inserted (H:=ref_host) [bad; good; PT_VALUE "=token" "1"] local
    = Some [None; Some "1"]
  ∧ (λ st, BREAK_ID <$> store st)
    <$> on_break_inserted (H:=ref_host) [good; PT_VALUE "=token" "1"] local
    = Some [Some "1"]
  ∧ (λ st, last (log st))
    <$> on_break_inserted (H:=ref_host) [bad; good; PT_VALUE "=token" "0"] breaks_init
    = Some (Some (utils_mark_offset (Some "/src/a.c") 10 true 11))
  ∧ (λ st, last (log st))
    <$> on_break_inserted (H:=ref_host) [good; PT_VALUE "=token" "0"] breaks_init
    = Some (Some (debug_send_thread "-exec-continue"))
  ∧ (λ st, BREAK_TYPE <$> store st) <$> on_break_created (H:=ref_host) [good; bad; sub] breaks_init
    = Some ["b"; "?"]%char
  ∧ (λ st, BREAK_TYPE <$> store st) <$> on_break_created (H:=ref_host) [good; sub] breaks_init
    = Some ["b"; "b"]%char.
Proof. vm_compute. repeat split. Qed.

(** ** break.c: replies to an insertion *)

Section Dispatch.

Context `{Host}.

Lemma persisted_app l1 l2 : persisted (l1 ++ l2) = persisted l1 ++ persisted l2.
Proof. unfold persisted. by rewrite filter_app, fmap_app. Qed.

Lemma persisted_cons r l :
  persisted (r :: l)
  = (if BREAK_DISCARD r then [] else [BREAK_SCID r]) ++ persisted l.
Proof.
  unfold persisted. rewrite filter_cons.
  destruct (BREAK_DISCARD r); by case_decide.
Qed.

Lemma persisted_alter f i l :
  (∀ r, BREAK_SCID (f r) = BREAK_SCID r ∧ BREAK_DISCARD (f r) = BREAK_DISCARD r) →
  persisted (alter f i l) = persisted l.
Proof.
  intros Hf. revert i. induction l as [|r l IH]; intros [|i]; try done.
  - cbn [alter list_alter]. rewrite !persisted_cons.
    by destruct (Hf r) as [-> ->].
  - cbn [alter list_alter]. rewrite !persisted_cons. f_equal. apply IH.
Qed.

Lemma persistent_app l1 l2 : persistent (l1 ++ l2) = persistent l1 ++ persistent l2.
Proof. unfold persistent. by rewrite filter_app. Qed.

Lemma persistent_cons r l :
  persistent (r :: l) = (if BREAK_DISCARD r then [] else [r]) ++ persistent l.
Proof.
  unfold persistent. rewrite filter_cons.
  destruct (BREAK_DISCARD r); by case_decide.
Qed.

Lemma persisted_persistent l : persisted l = BREAK_SCID <$> persistent l.
Proof. done. Qed.

Lemma row_merge_origin nodes id loc r :
  BREAK_SCID (row_merge nodes id loc r) = BREAK_SCID r
  ∧ BREAK_DISCARD (row_merge nodes id loc r) = BREAK_DISCARD r.
Proof. done. Qed.

Lemma row_applied_origin name nodes id bd r :
  BREAK_SCID (row_applied name nodes id bd r) = BREAK_SCID r
  ∧ BREAK_DISCARD (row_applied name nodes id bd r) = BREAK_DISCARD r.
Proof. unfold row_applied. cbv zeta. by repeat case_match. Qed.

Lemma row_kept_refl ids r : row_kept ids r r.
Proof. by repeat split. Qed.

Lemma rows_kept_refl ids l : Forall2 (row_kept ids) l l.
Proof. induction l; constructor; [apply row_kept_refl|done]. Qed.

Lemma row_kept_trans ids1 ids2 r1 r2 r3 :
  row_kept ids1 r1 r2 → row_kept ids2 r2 r3 → row_kept (ids1 ++ ids2) r1 r3.
Proof.
  intros (Ho1 & Hi1 & Hk1) (Ho2 & Hi2 & Hk2). split; [|split].
  - unfold same_origin in *. destruct_and!. repeat split; congruence.
  - congruence.
  - intros Hx.
    assert (r2 = r1) as ->.
    { apply Hk1. intros x Hid Hin. apply (Hx x Hid), elem_of_app. by left. }
    apply Hk2. intros x Hid Hin. apply (Hx x Hid), elem_of_app. by right.
Qed.

Lemma rows_kept_trans ids1 ids2 l1 l2 l3 :
  Forall2 (row_kept ids1) l1 l2 → Forall2 (row_kept ids2) l2 l3 →
  Forall2 (row_kept (ids1 ++ ids2)) l1 l3.
Proof.
  intros H12. revert l3. induction H12 as [|r1 r2 l1 l2 Hr _ IH]; intros l3 H23.
  - apply Forall2_nil_inv_l in H23 as ->. constructor.
  - apply Forall2_cons_inv_l in H23 as (r3 & l3' & Hr' & Hl & ->).
    constructor; [by eapply row_kept_trans|by apply IH].
Qed.

Lemma row_kept_merge nodes x loc r :
  BREAK_ID r = Some x → row_kept [x] r (row_merge nodes x loc r).
Proof.
  intros Hid. split; [by repeat split|]. split; [by row_simpl|].
  intros Hx. destruct (Hx x Hid). by apply list_elem_of_singleton.
Qed.

(** Outside the Persist and the Apply stage a node leaves the persistent
    rows in their places, with the columns they were created with; it
    rewrites those of them that carry its id and no other. *)
Lemma break_node_parse_kept node st bd res :
  bd_stage bd ≠ BG_PERSIST → bd_stage bd ≠ BG_APPLY →
  break_node_parse node (st, bd) = Some res →
  Forall2 (row_kept (option_list (node_id node)))
    (persistent (store st)) (persistent (store res.1))
  ∧ bd_stage res.2 ≠ BG_PERSIST ∧ bd_stage res.2 ≠ BG_APPLY.
Proof.
  intros Hp Ha Hres. destruct (node_id node) as [x|] eqn:Hid.
  - pose proof (break_node_parse_shape node x st bd Hid Ha) as Hshape.
    cbv zeta in Hshape. rewrite Hres in Hshape.
    destruct Hshape as (Hs & _ & Hshape). rewrite Hs. split; [|done].
    destruct Hshape as [(l1 & r & l2 & -> & Hr & _ & -> & _)
                       |(_ & _ & _ & [(l1 & l2 & -> & -> & _)|(-> & _)])].
    + rewrite !persistent_app, !persistent_cons.
      destruct (row_merge_origin (node_fields node) x
                  (parse_location (node_fields node)) r) as [_ ->].
      apply Forall2_app; [apply rows_kept_refl|].
      apply Forall2_app; [|apply rows_kept_refl].
      destruct (BREAK_DISCARD r); constructor; [|constructor].
      by apply row_kept_merge.
    + rewrite !persistent_app, persistent_cons.
      destruct (new_row_facts (node_name node) (node_fields node) x bd
                  (scid_gen st + 1)) as (_ & _ & _ & _ & Hd).
      rewrite (Hd Hp). apply rows_kept_refl.
    + apply rows_kept_refl.
  - destruct (break_node_parse_bad node (st, bd) Hid) as [e He].
    rewrite He in Hres. injection Hres as <-. split; [apply rows_kept_refl|done].
Qed.

Lemma breaks_parse_kept nodes : ∀ st bd res,
  bd_stage bd ≠ BG_PERSIST → bd_stage bd ≠ BG_APPLY →
  breaks_parse nodes (st, bd) = Some res →
  Forall2 (row_kept (omap node_id nodes)) (persistent (store st)) (persistent (store res.1)).
Proof.
  induction nodes as [|node nodes IH]; intros st bd res Hp Ha Hres.
  { injection Hres as <-. apply rows_kept_refl. }
  rewrite breaks_parse_cons in Hres.
  destruct (break_node_parse node (st, bd)) as [[st1 bd1]|] eqn:Hnode; [|done].
  cbn [mbind option_bind] in Hres.
  destruct (break_node_parse_kept node st bd _ Hp Ha Hnode) as (Hk & Hp1 & Ha1).
  specialize (IH st1 bd1 res Hp1 Ha1 Hres). cbn [fst snd] in *.
  assert (omap node_id (node :: nodes)
          = option_list (node_id node) ++ omap node_id nodes) as ->.
  { cbn [omap list_omap]. by destruct (node_id node). }
  by eapply rows_kept_trans.
Qed.

Lemma rows_kept_persisted ids rows rows' :
  Forall2 (row_kept ids) (persistent rows) (persistent rows') →
  persisted rows' = persisted rows.
Proof.
  rewrite !persisted_persistent. induction 1 as [|r r' l l' Hr _ IH]; [done|].
  rewrite !fmap_cons, IH. f_equal. by destruct Hr as ((-> & _) & _).
Qed.

Lemma break_row_parse_goto_log name nodes id st bd res :
  bd_stage bd = BG_GOTO →
  break_row_parse name nodes id st bd = Some res →
  last (log res.1) = Some (debug_send_thread "-exec-continue").
Proof.
  intros Hs. unfold break_row_parse. cbv zeta. rewrite Hs.
  rewrite (bool_decide_eq_false_2 (BG_GOTO = BG_APPLY)) by done.
  destruct (break_row_locate _ _ _ _ _ _ _ _) as [[[st1 bd1] loc1]|]; [|done].
  intros [= <-]. cbn [fst log emit]. apply last_snoc.
Qed.

(** C3, corrected statement.
    How [on_break_inserted] routes a reply by its token.
    A token that starts with 0 selects the Goto stage: rows are looked up
    by backend id and created when the id is unknown (so a row node with
    a new parent id adds a row, unless it leaves the file to its
    [original-location], in which case the parse has no result), and after
    the row node execution is resumed with -exec-continue.  A non-empty
    token that does not start with 0 and spells the sequence id of a row
    selects the Apply stage: the first row node is written into that row,
    which is located by the sequence id, and no row is created for it.
    The empty token selects the Discard stage: every row it creates is
    discardable, so the persistent rows are the same before and after, in
    the same order and with the columns they were created with; those the
    reply names by their backend id take the columns the reply reports, the
    others are left as they are. *)
Theorem break_inserted_dispatch (nodes rest : list ParseNode) (token : string)
    (st : Breaks) :
  parse_grab_token nodes = (Some token, rest) →
  (str_head token = "0"%char →
     on_break_inserted nodes st = fst <$> breaks_parse rest (st, bd_start BG_GOTO)
     ∧ ∀ node x, node_id node = Some x → str_mem "." x = false →
         model_find_id (store st) x = None →
         (node_resolved (node_fields node) →
          ∃ res, break_node_parse node (st, bd_start BG_GOTO) = Some res
            ∧ store res.1
              = store st ++ [new_row (node_name node) (node_fields node) x
                               (bd_start BG_GOTO) (scid_gen st + 1)]
            ∧ last (log res.1) = Some (debug_send_thread "-exec-continue"))
         ∧ (¬ node_resolved (node_fields node) →
            break_node_parse node (st, bd_start BG_GOTO) = None))
  ∧ (str_head token ≠ "0"%char → token ≠ "" →
     ∀ i, model_find_scid (store st) token = Some i →
       let bd := bd_set_iter (Some i) (bd_start BG_APPLY) in
       on_break_inserted nodes st = fst <$> breaks_parse rest (st, bd)
       ∧ ∀ node x, node_id node = Some x →
           ∃ res, break_node_parse node (st, bd) = Some res
             ∧ store res.1
               = alter (row_applied (node_name node) (node_fields node) x bd) i (store st)
             ∧ length (store res.1) = length (store st)
             ∧ scid_gen res.1 = scid_gen st ∧ bd_stage res.2 = BG_NEXT)
  ∧ (token = "" →
     on_break_inserted nodes st = fst <$> breaks_parse rest (st, bd_start BG_DISCARD)
     ∧ ∀ st', on_break_inserted nodes st = Some st' →
         persisted (store st') = persisted (store st)
         ∧ Forall2 (row_kept (omap node_id rest))
             (persistent (store st)) (persistent (store st'))).
Proof.
  intros Hgrab. unfold on_break_inserted. rewrite Hgrab.
  unfold break_inserted_start. split; [|split].
  - intros H0. rewrite (bool_decide_eq_true_2 _ H0). split; [done|].
    intros node x Hid Hlead Hnone.
    rewrite (break_node_parse_row _ _ _ Hid). cbn [fst snd].
    pose proof (break_row_parse_cases (node_name node) (node_fields node) x st
                  (bd_start BG_GOTO) ltac:(done)) as Hc.
    cbv zeta in Hc. rewrite Hnone, Hlead in Hc. cbn [negb] in Hc.
    unfold node_resolved. split.
    + intros [loc' Hloc]. rewrite Hloc in Hc.
      destruct Hc as (res & Hres & _ & _ & _ & Hst & _). exists res.
      split; [done|]. split; [done|]. exact (break_row_parse_goto_log _ _ _ _ (bd_start BG_GOTO) res eq_refl Hres).
    + intros Hnot.
      destruct (new_break_loc _ (parse_location (node_fields node))); [|done].
      destruct Hnot. by eexists.
  - intros H0 Hne i Hfind. rewrite (bool_decide_eq_false_2 _ H0).
    rewrite (bool_decide_eq_false_2 _ Hne). cbn [negb]. rewrite Hfind.
    split; [done|]. intros node x Hid.
    rewrite (break_node_parse_row _ _ _ Hid). cbn [fst snd].
    destruct (break_row_parse_apply (node_name node) (node_fields node) x st
                (bd_set_iter (Some i) (bd_start BG_APPLY)) eq_refl)
      as (res & Hres & Hs & _ & _ & Hsc & Hst).
    exists res. split; [done|]. cbn [bd_iter bd_set_iter] in Hst.
    rewrite Hst. by rewrite length_alter.
  - intros ->. rewrite (bool_decide_eq_false_2 (str_head "" = "0"%char)) by done.
    rewrite (bool_decide_eq_true_2 ("" = "")) by done. cbn [negb].
    split; [done|]. intros st' Hres.
    destruct (breaks_parse rest (st, bd_start BG_DISCARD)) as [[st1 bd1]|] eqn:Hp;
      cbn in Hres; [|done].
    injection Hres as <-.
    pose proof (breaks_parse_kept rest st (bd_start BG_DISCARD) _
                  ltac:(done) ltac:(done) Hp) as Hk.
    split; [|done]. by eapply rows_kept_persisted.
Qed.

End Dispatch.

(** A local breakpoint with sequence id 1 and the reply to its insertion. *)
Lemma break_inserted_dispatch_witness :
  let row := example_row None "b" None "/src/a.c:10" in
  let st := with_store [row] breaks_init in
  let reply := [example_bkpt "4" "/src/a.c:10"; PT_VALUE "=token" "1"] in
  (λ st', BREAK_ID <$> store st') <$> on_break_inserted (H:=ref_host) reply st
  = Some [Some "4"]
  ∧ on_break_inserted (H:=ref_host) reply st
    = fst <$> breaks_parse (H:=ref_host) [example_bkpt "4" "/src/a.c:10"]
                (st, bd_set_iter (Some 0) (bd_start BG_APPLY)).
Proof.
  intros row st reply. split; [reflexivity|].
  exact (proj1 (proj1 (proj2 (break_inserted_dispatch (H:=ref_host) reply
                                [example_bkpt "4" "/src/a.c:10"] "1" st eq_refl))
                  ltac:(discriminate) ltac:(discriminate) 0 eq_refl)).
Defined.

(** A reply whose token starts with 0, for a breakpoint the store does not
    know: no local row exists, and a row is created.  The marker of the
    new row is set with the number [g_strcmp0] returned for the texts y
    and n added to MARKER_BREAKPT. *)
Lemma break_inserted_token_0_counterexample :
  let reply := [example_bkpt "4" "/src/a.c:10"; PT_VALUE "=token" "0"] in
  parse_grab_token (Host:=ref_host) reply = (Some "0", [example_bkpt "4" "/src/a.c:10"])
  ∧ store breaks_init = []
  ∧ (λ st', BREAK_ID <$> store st') <$> on_break_inserted (H:=ref_host) reply breaks_init
    = Some [Some "4"]
  ∧ log <$> on_break_inserted (H:=ref_host) reply breaks_init
    = Some [utils_mark_offset (Some "/src/a.c") 10 true 11;
            debug_send_thread "-exec-continue"].
Proof. vm_compute. repeat split. Qed.

(** ** break.c: uniqueness of the backend ids *)

Section UniqueIds.

Context `{Host}.

Lemma alter_ge {A} (f : A → A) (l : list A) (i : nat) :
  length l ≤ i → alter f i l = l.
Proof.
  revert i. induction l as [|x l IH]; intros [|i] Hi; cbn in *; try done; [lia|].
  f_equal. apply IH. lia.
Qed.

Lemma omap_id_middle (l1 l2 : list BreakRow) r :
  omap BREAK_ID (l1 ++ r :: l2)
  = omap BREAK_ID l1 ++ option_list (BREAK_ID r) ++ omap BREAK_ID l2.
Proof. rewrite omap_app. f_equal. cbn. by destruct (BREAK_ID r). Qed.

Lemma unique_ids_same_id l1 l2 r r' :
  BREAK_ID r' = BREAK_ID r → unique_ids (l1 ++ r :: l2) → unique_ids (l1 ++ r' :: l2).
Proof. unfold unique_ids. rewrite !omap_id_middle. by intros ->. Qed.

Lemma unique_ids_remove l1 l2 r : unique_ids (l1 ++ r :: l2) → unique_ids (l1 ++ l2).
Proof.
  unfold unique_ids. rewrite omap_id_middle, omap_app. intros Hn.
  eapply sublist_NoDup; [done|].
  apply sublist_app; [done|]. by apply sublist_inserts_l.
Qed.

Lemma unique_ids_insert l1 l2 new x :
  BREAK_ID new = Some x → Forall (λ r, BREAK_ID r ≠ Some x) (l1 ++ l2) →
  unique_ids (l1 ++ l2) → unique_ids (l1 ++ new :: l2).
Proof.
  unfold unique_ids. rewrite omap_id_middle, omap_app. intros -> Hx Hn. cbn.
  rewrite <- Permutation_middle. apply NoDup_cons. split; [|done].
  rewrite <- omap_app. intros (r & Hr & Hid)%list_elem_of_omap.
  by eapply Forall_forall in Hx.
Qed.

Lemma unique_ids_insert_none l1 l2 new :
  BREAK_ID new = None → unique_ids (l1 ++ l2) → unique_ids (l1 ++ new :: l2).
Proof. unfold unique_ids. rewrite omap_id_middle, omap_app. by intros ->. Qed.

Lemma unique_ids_sublist l1 l2 :
  omap BREAK_ID l1 `sublist_of` omap BREAK_ID l2 → unique_ids l2 → unique_ids l1.
Proof. unfold unique_ids. intros Hs Hn. by eapply sublist_NoDup. Qed.

(** *** Parsing *)

Lemma break_node_parse_unique node st bd res :
  bd_stage bd ≠ BG_APPLY → unique_ids (store st) →
  break_node_parse node (st, bd) = Some res →
  unique_ids (store res.1) ∧ bd_stage res.2 ≠ BG_APPLY.
Proof.
  intros Ha Hu Hres. destruct (node_id node) as [x|] eqn:Hid.
  - pose proof (break_node_parse_shape node x st bd Hid Ha) as Hshape.
    cbv zeta in Hshape. rewrite Hres in Hshape.
    destruct Hshape as (Hs & _ & Hshape). rewrite Hs. split; [|done].
    destruct Hshape as [(l1 & r & l2 & Hst & Hr & _ & -> & _)
                       |(Hx & _ & _ & [(l1 & l2 & Hst & -> & _)|(-> & _)])]; [| |done].
    + rewrite Hst in Hu. eapply unique_ids_same_id; [|done]. by rewrite Hr.
    + rewrite Hst in Hu, Hx.
      eapply unique_ids_insert; [|done..].
      apply new_row_facts.
  - destruct (break_node_parse_bad node (st, bd) Hid) as [e He].
    rewrite He in Hres. by injection Hres as <-.
Qed.

Lemma breaks_parse_unique nodes : ∀ st bd res,
  bd_stage bd ≠ BG_APPLY → unique_ids (store st) →
  breaks_parse nodes (st, bd) = Some res →
  unique_ids (store res.1).
Proof.
  induction nodes as [|node nodes IH]; intros st bd res Ha Hu Hres.
  { by injection Hres as <-. }
  rewrite breaks_parse_cons in Hres.
  destruct (break_node_parse node (st, bd)) as [[st1 bd1]|] eqn:Hnode; [|done].
  destruct (break_node_parse_unique node st bd _ Ha Hu Hnode) as [Hu' Ha'].
  by eapply IH.
Qed.

Lemma row_applied_id name nodes id bd r :
  BREAK_ID (row_applied name nodes id bd r) = Some id.
Proof. done. Qed.

Lemma break_node_parse_apply_unique node st bd res :
  bd_stage bd = BG_APPLY → unique_ids (store st) →
  (∀ x, node_id node = Some x →
     ∀ j r, store st !! j = Some r → BREAK_ID r = Some x → bd_iter bd = Some j) →
  break_node_parse node (st, bd) = Some res →
  unique_ids (store res.1) ∧ bd_stage res.2 ≠ BG_APPLY.
Proof.
  intros Ha Hu Hfresh Hres. destruct (node_id node) as [x|] eqn:Hid.
  - rewrite (break_node_parse_row _ _ _ Hid) in Hres. cbn [fst snd] in Hres.
    destruct (break_row_parse_apply (node_name node) (node_fields node) x st bd Ha)
      as (res' & Hres' & Hs & _ & _ & _ & Hst).
    rewrite Hres in Hres'. injection Hres' as <-. rewrite Hs, Hst.
    split; [|done]. destruct (bd_iter bd) as [i|] eqn:Hi; [|done].
    destruct (store st !! i) as [r|] eqn:Hr.
    + rewrite <- (take_drop_middle _ _ _ Hr) in Hu |- *.
      rewrite alter_middle by (rewrite length_take; apply lookup_lt_Some in Hr; lia).
      eapply unique_ids_insert; [apply row_applied_id| |by eapply unique_ids_remove].
      apply Forall_forall. intros r' Hr' Hid'.
      apply elem_of_app in Hr' as [Hr'|Hr'].
      * apply list_elem_of_lookup in Hr' as [j Hj].
        pose proof (lookup_lt_Some _ _ _ Hj) as Hlt.
        rewrite length_take in Hlt.
        rewrite lookup_take_lt in Hj by lia.
        specialize (Hfresh x eq_refl j r' Hj Hid'). simplify_eq. lia.
      * apply list_elem_of_lookup in Hr' as [j Hj].
        rewrite lookup_drop in Hj.
        specialize (Hfresh x eq_refl _ r' Hj Hid'). simplify_eq. lia.
    + rewrite alter_ge; [done|]. by apply lookup_ge_None.
  - destruct (break_node_parse_bad node (st, bd) Hid) as [e He].
    rewrite He in Hres. by injection Hres as <-.
Qed.

(** *** The sweep, the marking and the local operations *)

Lemma breaks_missing_rows_ids rows : ∀ rows',
  breaks_missing_rows rows = Some rows' →
  omap BREAK_ID rows' `sublist_of` omap BREAK_ID rows.
Proof.
  induction rows as [|r rows IH]; intros rows' Hrows.
  { by injection Hrows as <-. }
  cbn [breaks_missing_rows] in Hrows.
  destruct (breaks_missing_rows rows) as [rest|].
  2:{ by repeat case_match. }
  specialize (IH rest eq_refl).
  destruct (bool_decide (BREAK_ID r ≠ None) && BREAK_MISSING r);
    [destruct (BREAK_DISCARD r); [done|]|]; injection Hrows as <-;
    cbn [omap list_omap].
  - assert (BREAK_ID (break_clear_row r) = None) as ->
      by (unfold break_clear_row; by destruct (strchr BP_BORTS (BREAK_TYPE r))).
    destruct (BREAK_ID r); [by apply sublist_cons|done].
  - destruct (BREAK_ID r); [by apply sublist_skip|done].
Qed.

Lemma omap_id_fmap f (rows : list BreakRow) :
  (∀ r, BREAK_ID (f r) = BREAK_ID r) → omap BREAK_ID (f <$> rows) = omap BREAK_ID rows.
Proof.
  intros Hf. induction rows as [|r rows IH]; [done|].
  rewrite fmap_cons. cbn [omap list_omap]. by rewrite Hf, IH.
Qed.

Lemma on_break_list_unique nodes st st' :
  on_break_list nodes st = Some st' →
  unique_ids (store st) → unique_ids (store st').
Proof.
  intros Hres Hu. unfold on_break_list in Hres.
  destruct (parse_find_array (parse_lead_array nodes) "body") as [body|];
    [|by injection Hres as <-].
  destruct (parse_grab_token body) as [token rows].
  destruct (bool_decide (token ≠ None)).
  - destruct (breaks_parse rows (breaks_mark_missing st, bd_start BG_DISCARD))
      as [[st1 bd1]|] eqn:Hp; [|done].
    assert (unique_ids (store st1)) as Hu1.
    { eapply (breaks_parse_unique rows _ _ (st1, bd1)); [| |exact Hp]; [done|].
      unfold unique_ids. cbn. by rewrite omap_id_fmap. }
    unfold breaks_missing in Hres.
    destruct (breaks_missing_rows (store st1)) as [rows'|] eqn:Hm; [|done].
    injection Hres as <-. cbn.
    eapply unique_ids_sublist; [|done]. by apply breaks_missing_rows_ids.
  - destruct (breaks_parse rows (st, bd_start BG_DISCARD)) as [[st1 bd1]|] eqn:Hp;
      [|done].
    injection Hres as <-.
    by eapply (breaks_parse_unique rows _ _ (st1, bd1)); [| |exact Hp].
Qed.

Lemma break_delete_unique i state st :
  unique_ids (store st) → unique_ids (store (break_delete i state st)).
Proof.
  intros Hu. unfold break_delete, break_remove, gtk_list_store_remove.
  assert (unique_ids (delete i (store st))) as Hd.
  { destruct (store st !! i) as [r|] eqn:Hr.
    - rewrite <- (take_drop_middle _ _ _ Hr) in Hu.
      rewrite delete_take_drop. by eapply unique_ids_remove.
    - rewrite delete_take_drop, (drop_ge _ (S i)), app_nil_r, take_ge;
        [done|apply lookup_ge_None in Hr; lia..]. }
  repeat case_match; cbn; by rewrite ?store_break_mark.
Qed.

Lemma on_break_toggle_unique real_path file_name doc_line state st :
  unique_ids (store st) →
  unique_ids (store (on_break_toggle real_path file_name doc_line state st)).
Proof.
  intros Hu. unfold on_break_toggle.
  destruct (toggle_scan _ _ _ _ _ _) as [[found iter1]|]; [|done].
  destruct (negb (found =? 0)%Z); [by apply break_delete_unique|].
  destruct (negb (bool_decide (state = DS_INACTIVE))); [done|].
  cbn. rewrite list_alter_alter_eq, (alter_middle _ _ []) by done.
  apply unique_ids_insert_none; [done|]. by rewrite app_nil_r.
Qed.

Lemma break_load_unique section st :
  unique_ids (store st) → unique_ids (store (break_load section st).2).
Proof.
  intros Hu. unfold break_load. case_match; [|done].
  cbn. rewrite store_break_mark. cbn. rewrite (alter_middle _ _ []) by done.
  apply unique_ids_insert_none; [done|]. by rewrite app_nil_r.
Qed.

(** C1, corrected statement.
    Uniqueness of the non-empty backend ids is kept by
    every operation that adds rows or updates them and runs to its end --
    a breakpoint notification, a listing with or without refresh,
    toggling a breakpoint at a line, loading a persisted record, and a
    reply to an insertion in the Persist, Goto and Discard stages --
    because the parser looks the id up and merges into the row that has
    it.  A reply in the Apply stage writes its id into the row the token
    names without looking the id up: there uniqueness is kept when no
    other row carries that id. *)
Theorem break_ids_stay_unique (op : BreakOp) (st st' : Breaks) :
  break_op op st = Some st' →
  unique_ids (store st) → apply_id_fresh op st →
  unique_ids (store st').
Proof.
  intros Hop Hu Hfresh.
  destruct op as [nodes|nodes|nodes|path name line state|section];
    cbn [break_op] in Hop.
  - unfold on_break_inserted in Hop. cbn [apply_id_fresh] in Hfresh.
    destruct (parse_grab_token nodes) as [token rest]. cbn [fst snd] in Hfresh.
    assert (store (break_inserted_start token st).1 = store st) as Hst.
    { unfold break_inserted_start. by repeat case_match. }
    destruct (break_inserted_start token st) as [st0 bd]. cbn [fst snd] in *.
    rewrite <- Hst in Hu, Hfresh.
    destruct (breaks_parse rest (st0, bd)) as [[st1 bd1]|] eqn:Hp; [|done].
    injection Hop as <-.
    destruct (decide (bd_stage bd = BG_APPLY)) as [Ha|Ha];
      [|exact (breaks_parse_unique rest _ _ (st1, bd1) Ha Hu Hp)].
    destruct rest as [|node tail]; [by injection Hp as <- <-|].
    rewrite breaks_parse_cons in Hp.
    destruct (break_node_parse node (st0, bd)) as [[st2 bd2]|] eqn:Hnode; [|done].
    cbn [mbind option_bind] in Hp.
    destruct (break_node_parse_apply_unique node st0 bd (st2, bd2) Ha Hu)
      as [Hu' Ha']; [|done|].
    { intros x Hid j r Hj Hr. by eapply (Hfresh Ha node tail x). }
    exact (breaks_parse_unique tail _ _ (st1, bd1) Ha' Hu' Hp).
  - unfold on_break_created in Hop.
    destruct (breaks_parse nodes (st, bd_start BG_DISCARD)) as [[st1 bd1]|] eqn:Hp;
      [|done].
    injection Hop as <-.
    by eapply (breaks_parse_unique nodes _ _ (st1, bd1)); [| |exact Hp].
  - by eapply on_break_list_unique.
  - injection Hop as <-. by apply on_break_toggle_unique.
  - injection Hop as <-. by apply break_load_unique.
Qed.

End UniqueIds.

(** A notification for breakpoint 2 arriving in a store that already has
    breakpoints 1 and 2. *)
Lemma break_ids_stay_unique_witness :
  let st := with_store [example_row (Some "1") "b" None "a.c:10";
                        example_row (Some "2") "b" None "a.c:12"] breaks_init in
  let op := op_break_created [example_bkpt "2" "a.c:12"; example_bkpt "3" "a.c:14"] in
  ∃ st', break_op (H:=ref_host) op st = Some st'
    ∧ BREAK_ID <$> store st' = [Some "1"; Some "2"; Some "3"]
    ∧ unique_ids (store st').
Proof.
  intros st op. eexists. split; [vm_compute; reflexivity|].
  split; [vm_compute; reflexivity|].
  apply (break_ids_stay_unique (H:=ref_host) op st);
    [vm_compute; reflexivity| |exact I].
  apply NoDup_cons. split; [|apply NoDup_singleton].
  intros Hin. apply list_elem_of_singleton in Hin. discriminate Hin.
Defined.

(** A breakpoint toggled at a line while disconnected (sequence id 1), a
    notification that creates breakpoint 7, and a reply for sequence id 1
    that also says 7: every operation runs to its end, and two rows carry
    the id 7. *)
Lemma break_ids_duplicate_counterexample :
  let ops := [ op_break_toggle "/src/a.c" "a.c" 10 1;
               op_break_created [example_bkpt "7" "/src/a.c:10"];
               op_break_inserted [example_bkpt "7" "/src/a.c:10"; PT_VALUE "=token" "1"] ] in
  unique_ids (store breaks_init)
  ∧ ∃ st', break_ops (H:=ref_host) ops breaks_init = Some st'
      ∧ BREAK_ID <$> store st' = [Some "7"; Some "7"]
      ∧ ¬ unique_ids (store st').
Proof.
  intros ops. split; [apply NoDup_nil_2|]. eexists.
  split; [vm_compute; reflexivity|]. split; [vm_compute; reflexivity|].
  intros Hn. vm_compute in Hn. apply NoDup_cons in Hn as [Hnotin _].
  apply Hnotin. left.
Qed.

(** ** break.c: the refresh of a listing *)

(** C2.  Breakpoint 1 is known from a notification, so its row is
    discardable; the debugger then answers a listing request with a table
    that holds breakpoint 2 only.  The refresh marks the row of 1 missing,
    parses the table, and the sweep of [breaks_missing] reaches the row of
    1: it has an id, is missing and discardable, so the sweep removes it
    and frees its id a second time -- the id was freed right after the
    columns were read.  The first pass of the refresh has no result, and
    there is no state to compare a second pass with.  [break_remove_all],
    the other loop that removes rows by id, frees the id once and removes
    the same row.
    The refresh has no result either when the table holds a breakpoint the
    debugger could not place yet and whose location is an absolute path:
    the row is created with the freed copy of the location as its file.
    And where both passes run to their end they can differ: a row created
    from a node that names its file but not its line takes the line from
    the location text, here 10; the second pass finds the row by its id and
    stores the line the node resolves to, 0. *)
Theorem break_list_refresh_frees_twice :
  (∃ st1 sb,
     on_break_created (H:=ref_host) [example_bkpt "1" "/src/a.c:10"] breaks_init = Some st1
     ∧ (λ r, (BREAK_ID r, BREAK_DISCARD r)) <$> store st1 = [(Some "1", true)]
     ∧ parse_grab_token (Host:=ref_host)
         ([example_bkpt "2" "/src/b.c:20"] ++ [PT_VALUE "=token" ""])
       = (Some "", [example_bkpt "2" "/src/b.c:20"])
     ∧ breaks_parse (H:=ref_host) [example_bkpt "2" "/src/b.c:20"]
         (breaks_mark_missing st1, bd_start BG_DISCARD) = Some sb
     ∧ (λ r, (BREAK_ID r, BREAK_DISCARD r, BREAK_MISSING r)) <$> store sb.1
       = [(Some "1", true, true); (Some "2", true, false)]
     ∧ breaks_missing sb.1 = None
     ∧ on_break_list (H:=ref_host) (example_listing [example_bkpt "2" "/src/b.c:20"]) st1
       = None
     ∧ store (break_remove_all "1" true st1).2 = [])
  ∧ on_break_list (H:=ref_host) (example_listing [example_pending "1" "/src/a.c:10"])
      breaks_init = None
  ∧ ∃ st1 st2,
      let listing := example_listing [example_bare "1" None (Some "/src/a.c:10")] in
      on_break_list (H:=ref_host) listing breaks_init = Some st1
      ∧ on_break_list (H:=ref_host) listing st1 = Some st2
      ∧ (λ r, (BREAK_ID r, BREAK_FILE r, BREAK_LINE r)) <$> store st1
        = [(Some "1", Some "/src/a.c", 10%Z)]
      ∧ (λ r, (BREAK_ID r, BREAK_FILE r, BREAK_LINE r)) <$> store st2
        = [(Some "1", Some "/src/a.c", 0%Z)].
Proof.
  split; [|split].
  - do 2 eexists. split; [vm_compute; reflexivity|].
    split; [vm_compute; reflexivity|]. split; [vm_compute; reflexivity|].
    split; [vm_compute; reflexivity|]. split; [vm_compute; reflexivity|].
    split; [vm_compute; reflexivity|]. split; vm_compute; reflexivity.
  - vm_compute. reflexivity.
  - do 2 eexists. split; [vm_compute; reflexivity|].
    split; [vm_compute; reflexivity|]. split; vm_compute; reflexivity.
Qed.

(** * Further proofs *)

(** ** tableconvert.c: the HTML and LaTeX tables *)

Lemma str_concat_cons s l : str_concat (s :: l) = s +:+ str_concat l.
Proof. reflexivity. Qed.

Lemma html_columns_acc columns : ∀ acc,
  html_columns columns acc = acc +:+ str_concat (html_cell <$> columns).
Proof.
  induction columns as [|c rest IH]; intros acc.
  - cbn. by rewrite str_app_nil_r.
  - cbn [html_columns fmap list_fmap]. rewrite IH, str_concat_cons.
    unfold html_cell. by rewrite !str_app_assoc.
Qed.

(** One pass of the outer loop that is neither the first nor the second
    of a table with a header. *)
Lemma html_rows_plain header i rows : ∀ acc,
  (header ≠ TRUE ∨ 2 ≤ i) →
  html_rows header i rows acc = acc +:+ str_concat (html_row <$> rows).
Proof.
  revert i. induction rows as [|row rest IH]; intros i acc Hplain.
  - cbn. by rewrite str_app_nil_r.
  - cbn [html_rows fmap list_fmap]. cbv zeta.
    assert (bool_decide (i = 1) && bool_decide (header = TRUE) = false) as ->.
    { destruct Hplain; repeat case_bool_decide; try done; lia. }
    assert (bool_decide (i = 0) && bool_decide (header = TRUE) = false) as ->.
    { destruct Hplain; repeat case_bool_decide; try done; lia. }
    rewrite IH by (destruct Hplain; [by left | right; lia]).
    rewrite html_columns_acc, str_concat_cons. unfold html_row.
    by rewrite !str_app_assoc.
Qed.

Lemma html_rows_second rows : ∀ acc,
  html_rows TRUE 1 rows acc
  = acc +:+ match rows with
            | [] => ""
            | _ :: _ => "<tbody>" +:+ NL +:+ str_concat (html_row <$> rows)
            end.
Proof.
  intros acc. destruct rows as [|row rest].
  - cbn. by rewrite str_app_nil_r.
  - cbn [html_rows fmap list_fmap]. cbv zeta.
    rewrite (bool_decide_eq_false_2 (1 = 0)) by done.
    rewrite !bool_decide_eq_true_2 by done. cbn [andb].
    rewrite html_rows_plain by (right; lia).
    rewrite html_columns_acc, str_concat_cons. unfold html_row.
    by rewrite !str_app_assoc.
Qed.

Lemma html_rows_first row rest acc :
  html_rows TRUE 0 (row :: rest) acc
  = acc +:+ html_row row +:+ "</thead>" +:+ NL +:+ html_rows TRUE 1 rest "".
Proof.
  cbn [html_rows]. cbv zeta.
  rewrite (bool_decide_eq_false_2 (0 = 1)) by done.
  rewrite !bool_decide_eq_true_2 by done. cbn [andb].
  rewrite (html_rows_second rest (_ +:+ _)), (html_rows_second rest "").
  rewrite html_columns_acc. unfold html_row.
  by rewrite !str_app_assoc, ?str_app_nil_l.
Qed.

(** X1.  [convert_to_table_html] without a header ([header] is any value
    but [TRUE]) puts the rows, one [<tr>] with one [<td>] per tab-separated
    column, between [<table>] and [</table>].  With a header and two rows or
    more, the first row stands in [<thead>] and the others in [<tbody>]. *)
Theorem convert_to_table_html_shape (rows : list string) (header : Z) :
  (header ≠ TRUE →
   convert_to_table_html rows header
   = "<table>" +:+ NL +:+ str_concat (html_row <$> rows) +:+ "</table>" +:+ NL)
  ∧ (∀ first second rest, rows = first :: second :: rest →
       convert_to_table_html rows TRUE
       = "<table>" +:+ NL +:+ "<thead>" +:+ NL +:+ html_row first +:+ "</thead>" +:+ NL
         +:+ "<tbody>" +:+ NL +:+ str_concat (html_row <$> second :: rest)
         +:+ "</tbody>" +:+ NL +:+ "</table>" +:+ NL).
Proof.
  split.
  - intros Hh. unfold convert_to_table_html. cbv zeta.
    rewrite (bool_decide_eq_false_2 _ Hh).
    rewrite html_rows_plain by (by left). by rewrite !str_app_assoc.
  - intros first second rest ->. unfold convert_to_table_html. cbv zeta.
    rewrite !bool_decide_eq_true_2 by done.
    rewrite html_rows_first, html_rows_second.
    by rewrite !str_app_assoc, ?str_app_nil_l.
Qed.

(** A header row and two body rows. *)
Lemma convert_to_table_html_shape_witness :
  convert_to_table_html ["a" +:+ TAB +:+ "b"; "c"; "d"] TRUE
  = "<table>" +:+ NL +:+ "<thead>" +:+ NL
    +:+ html_row ("a" +:+ TAB +:+ "b") +:+ "</thead>" +:+ NL
    +:+ "<tbody>" +:+ NL +:+ str_concat (html_row <$> ["c"; "d"])
    +:+ "</tbody>" +:+ NL +:+ "</table>" +:+ NL
  ∧ convert_to_table_html ["c"] 2
    = "<table>" +:+ NL +:+ str_concat (html_row <$> ["c"]) +:+ "</table>" +:+ NL.
Proof.
  split.
  - exact (proj2 (convert_to_table_html_shape ["a" +:+ TAB +:+ "b"; "c"; "d"] TRUE)
             _ _ _ eq_refl).
  - exact (proj1 (convert_to_table_html_shape ["c"] 2) ltac:(discriminate)).
Defined.

(** X2.  With a header and fewer than two rows [convert_to_table_html]
    closes a [<tbody>] it has not opened; with no row at all it also leaves
    [<thead>] open. *)
Theorem convert_to_table_html_short (row : string) :
  convert_to_table_html [row] TRUE
  = "<table>" +:+ NL +:+ "<thead>" +:+ NL +:+ html_row row +:+ "</thead>" +:+ NL
    +:+ "</tbody>" +:+ NL +:+ "</table>" +:+ NL
  ∧ convert_to_table_html [] TRUE
    = "<table>" +:+ NL +:+ "<thead>" +:+ NL +:+ "</tbody>" +:+ NL +:+ "</table>" +:+ NL
  ∧ str_infix "<tbody>" (convert_to_table_html [] TRUE) = false.
Proof.
  split; [|split; reflexivity].
  unfold convert_to_table_html. cbv zeta.
  rewrite !bool_decide_eq_true_2 by done.
  rewrite html_rows_first, html_rows_second.
  by rewrite !str_app_assoc, ?str_app_nil_l.
Qed.

Lemma latex_columns_acc columns : ∀ j acc,
  latex_columns j columns acc
  = acc +:+ (if decide (0 < j)
             then match columns with [] => "" | _ :: _ => "  &  " end
             else "")
    +:+ str_join "  &  " columns.
Proof.
  induction columns as [|c rest IH]; intros j acc.
  - cbn. destruct (decide (0 < j)); by rewrite ?str_app_nil_r.
  - cbn [latex_columns]. cbv zeta. rewrite IH.
    destruct (decide (0 < S j)) as [_|]; [|lia].
    destruct (decide (0 < j)), rest; cbn [str_join];
      by rewrite ?str_app_assoc, ?str_app_nil_r, ?str_app_nil_l.
Qed.

Lemma latex_rows_acc rows : ∀ acc,
  latex_rows rows acc = acc +:+ str_concat (latex_row <$> rows).
Proof.
  induction rows as [|row rest IH]; intros acc.
  - cbn. by rewrite str_app_nil_r.
  - cbn [latex_rows fmap list_fmap]. cbv zeta.
    rewrite IH, latex_columns_acc, str_concat_cons. unfold latex_row.
    destruct (decide (0 < 0)); [lia|].
    by rewrite !str_app_assoc, ?str_app_nil_l.
Qed.

(** X3.  [convert_to_table_latex] puts one line per row between the
    [tabular] brackets: the row's tab-separated columns joined by an
    ampersand, then a double backslash.  The header flag changes
    nothing. *)
Theorem convert_to_table_latex_shape (rows : list string) (header : Z) :
  convert_to_table_latex rows header
  = "\begin{tabular}{}" +:+ NL +:+ str_concat (latex_row <$> rows)
    +:+ "\end{tabular}" +:+ NL.
Proof.
  unfold convert_to_table_latex. rewrite latex_rows_acc. by rewrite !str_app_assoc.
Qed.

(** ** tableconvert.c: the selection and its rows *)

Lemma is_line_cons a l : is_line (String a l) →
  str_mem a (CR +:+ NL) = false ∧ is_line l.
Proof.
  unfold is_line. cbn. intros [H1 H2].
  apply orb_false_iff in H1 as [H1 H1'], H2 as [H2 H2'].
  apply bool_decide_eq_false in H1, H2.
  split; [|done]. change (CR +:+ NL) with (String "013" (String "010" "")).
  cbn [str_mem]. rewrite !orb_false_iff.
  split; [|split; [|done]]; apply bool_decide_eq_false; congruence.
Qed.

Lemma str_fields_line l : is_line l → str_fields (CR +:+ NL) l = [l].
Proof.
  induction l as [|a l IH]; intros Hl; [done|].
  apply is_line_cons in Hl as [Ha Hl]. cbn [str_fields]. rewrite Ha, (IH Hl). done.
Qed.

Lemma str_fields_line_sep l c rest :
  is_line l → str_mem c (CR +:+ NL) = true →
  str_fields (CR +:+ NL) (l +:+ String c rest) = l :: str_fields (CR +:+ NL) rest.
Proof.
  intros Hl Hc. induction l as [|a l IH].
  - rewrite str_app_nil_l. cbn [str_fields]. by rewrite Hc.
  - apply is_line_cons in Hl as [Ha Hl]. rewrite str_app_cons. cbn [str_fields].
    rewrite Ha, (IH Hl). done.
Qed.

Lemma str_fields_join_nl lines :
  Forall is_line lines → lines ≠ [] →
  str_fields (CR +:+ NL) (str_join NL lines) = lines.
Proof.
  induction lines as [|l rest IH]; intros Hl Hne; [done|].
  apply Forall_cons in Hl as [Hl Hrest]. destruct rest as [|l' rest].
  - cbn [str_join]. by apply str_fields_line.
  - change (str_join NL (l :: l' :: rest)) with (l +:+ NL +:+ str_join NL (l' :: rest)).
    change (NL +:+ str_join NL (l' :: rest))
      with (String "010" (str_join NL (l' :: rest))).
    rewrite str_fields_line_sep by done. by rewrite IH.
Qed.

Lemma str_fields_join_crlf lines :
  Forall is_line lines → lines ≠ [] →
  str_fields (CR +:+ NL) (str_join (CR +:+ NL) lines) = crlf_rows lines.
Proof.
  induction lines as [|l rest IH]; intros Hl Hne; [done|].
  apply Forall_cons in Hl as [Hl Hrest]. destruct rest as [|l' rest].
  - cbn [str_join crlf_rows]. by apply str_fields_line.
  - change (str_join (CR +:+ NL) (l :: l' :: rest))
      with (l +:+ String "013" (String "010" (str_join (CR +:+ NL) (l' :: rest)))).
    rewrite str_fields_line_sep by done.
    change (String "010" (str_join (CR +:+ NL) (l' :: rest)))
      with ("" +:+ String "010" (str_join (CR +:+ NL) (l' :: rest))).
    rewrite str_fields_line_sep by done. by rewrite IH.
Qed.

Lemma crlf_rows_lines lines : Forall is_line lines → Forall is_line (crlf_rows lines).
Proof.
  induction lines as [|l rest IH]; intros Hl; [done|].
  apply Forall_cons in Hl as [Hl Hrest]. destruct rest as [|l' rest].
  - by apply Forall_singleton.
  - change (crlf_rows (l :: l' :: rest)) with (l :: "" :: crlf_rows (l' :: rest)).
    repeat apply Forall_cons_2; [done|done|by apply IH].
Qed.

Lemma str_join_empty sep lines :
  str_join sep lines = "" → sep ≠ "" → lines = [] ∨ lines = [""].
Proof.
  intros Hj Hsep. destruct lines as [|l [|l' rest]]; [by left|right; by cbn in Hj; subst|].
  exfalso. cbn [str_join] in Hj. destruct l; [|by rewrite str_app_cons in Hj].
  rewrite str_app_nil_l in Hj. destruct sep; [done|]. by rewrite str_app_cons in Hj.
Qed.

Lemma g_strsplit_set_join_nl lines :
  Forall is_line lines → str_join NL lines ≠ "" →
  g_strsplit_set (str_join NL lines) (CR +:+ NL) = lines.
Proof.
  intros Hl Hne. unfold g_strsplit_set. rewrite bool_decide_eq_false_2 by done.
  apply str_fields_join_nl; [done|]. by intros ->.
Qed.

(** X4.  [convert_to_table] splits the selection into its lines and hands
    them to the converter of the document's file type; for the file type
    none, for every other file type and without a selection the document is
    left as it is. *)
Theorem convert_to_table_dispatch (lines : list string) (header : Z) :
  Forall is_line lines → str_join NL lines ≠ "" →
  let selection := Some (str_join NL lines) in
  convert_to_table GEANY_FILETYPES_HTML selection header
  = Some (convert_to_table_html lines header)
  ∧ convert_to_table GEANY_FILETYPES_LATEX selection header
    = Some (convert_to_table_latex lines header)
  ∧ convert_to_table GEANY_FILETYPES_SQL selection header
    = Some (convert_to_table_sql lines)
  ∧ convert_to_table GEANY_FILETYPES_NONE selection header = None
  ∧ convert_to_table GEANY_FILETYPES_OTHER selection header = None
  ∧ ∀ file_type, convert_to_table file_type None header = None.
Proof.
  intros Hl Hne selection. subst selection. unfold convert_to_table.
  rewrite g_strsplit_set_join_nl by done. by repeat split.
Qed.

(** Two lines, the second with two columns. *)
Lemma convert_to_table_dispatch_witness :
  convert_to_table GEANY_FILETYPES_SQL (Some ("a" +:+ NL +:+ "b" +:+ TAB +:+ "c")) TRUE
  = Some (convert_to_table_sql ["a"; "b" +:+ TAB +:+ "c"]).
Proof.
  refine (proj1 (proj2 (proj2
            (convert_to_table_dispatch ["a"; "b" +:+ TAB +:+ "c"] TRUE _ _)))).
  - repeat constructor.
  - discriminate.
Defined.

(** X5.  Carriage return and line feed each end a row: a selection whose
    lines end in CR LF is converted as if an empty line followed every line
    but the last. *)
Theorem convert_to_table_crlf (file_type : GeanyFiletypeID) (lines : list string)
    (header : Z) :
  Forall is_line lines →
  convert_to_table file_type (Some (str_join (CR +:+ NL) lines)) header
  = convert_to_table file_type (Some (str_join NL (crlf_rows lines))) header.
Proof.
  intros Hl. unfold convert_to_table.
  assert (g_strsplit_set (str_join (CR +:+ NL) lines) (CR +:+ NL)
          = g_strsplit_set (str_join NL (crlf_rows lines)) (CR +:+ NL)) as ->; [|done].
  destruct (decide (str_join (CR +:+ NL) lines = "")) as [He|Hne].
  - apply str_join_empty in He as [->| ->]; [reflexivity|reflexivity|discriminate].
  - assert (str_join NL (crlf_rows lines) ≠ "") as Hne'.
    { intros He. apply str_join_empty in He as [He|He]; [| |discriminate].
      - destruct lines as [|l [|l' rest]]; done.
      - destruct lines as [|l [|l' rest]]; [done| |done].
        cbn in He. by injection He as ->. }
    rewrite g_strsplit_set_join_nl by (by try apply crlf_rows_lines).
    unfold g_strsplit_set. rewrite bool_decide_eq_false_2 by done.
    apply str_fields_join_crlf; [done|]. by intros ->.
Qed.

(** Two lines with CR LF between them: three rows, the second empty. *)
Lemma convert_to_table_crlf_witness :
  convert_to_table GEANY_FILETYPES_SQL (Some ("a" +:+ CR +:+ NL +:+ "b")) TRUE
  = Some (TAB +:+ "('a')," +:+ NL +:+ TAB +:+ "('')," +:+ NL +:+ TAB +:+ "('b')" +:+ NL).
Proof.
  exact (eq_trans (convert_to_table_crlf GEANY_FILETYPES_SQL ["a"; "b"] TRUE
                     ltac:(repeat constructor)) eq_refl).
Defined.

(** ** break.c: the order of the ids and the type cell *)

Section BreakSort.

Context `{Host}.

(** X6.  [break_id_compare] is a consistent order on rows whose backend
    ids are made of numbers that are not negative, so that their
    differences are [gint]s: a row equals itself, swapping the rows negates
    the result, and on rows whose backend ids carry a number other than 0
    the relation "not after" is transitive. *)
Theorem break_id_compare_order (a b c : BreakRow) :
  break_id_compare a a = 0%Z
  ∧ (id_fits a → id_fits b →
     break_id_compare b a = (- break_id_compare a b)%Z)
  ∧ (id_fits a → id_fits b → id_fits c →
     id_numbered a → id_numbered b → id_numbered c →
     (break_id_compare a b ≤ 0)%Z → (break_id_compare b c ≤ 0)%Z →
     (break_id_compare a c ≤ 0)%Z).
Proof.
  unfold break_id_compare, id_numbered, id_fits. cbv zeta.
  assert (gint 0 = 0%Z) as Hz by reflexivity.
  destruct (BREAK_ID a) as [x|], (BREAK_ID b) as [y|], (BREAK_ID c) as [z|];
    cbn [utils_atoi0];
    (split; [by rewrite ?Z.sub_diag, ?Hz; repeat case_match|]);
    (split; intros;
     repeat match goal with
            | Hf : ∀ s, Some ?i = Some s → _ |- _ => destruct (Hf i eq_refl); clear Hf
            | Hf : ∀ s, None = Some s → _ |- _ => clear Hf
            | Hx : Some _ ≠ None → _ |- _ => specialize (Hx ltac:(done))
            | Hx : None ≠ None → _ |- _ => clear Hx
            end;
     rewrite ?gint_fits in * by lia; repeat case_match; lia).
Qed.

End BreakSort.

(** The ids 2.9, 2.10 and 3. *)
Lemma break_id_compare_order_witness :
  let a := set_BREAK_ID (Some "2.9") empty_row in
  let b := set_BREAK_ID (Some "2.10") empty_row in
  let c := set_BREAK_ID (Some "3") empty_row in
  (break_id_compare (H:=ref_host) a b < 0)%Z
  ∧ (break_id_compare (H:=ref_host) b c < 0)%Z
  ∧ (break_id_compare (H:=ref_host) a c ≤ 0)%Z
  ∧ break_id_compare (H:=ref_host) b a = (- break_id_compare (H:=ref_host) a b)%Z.
Proof.
  intros a b c.
  assert (∀ s : string, In s ["2.9"; "2.10"; "3"] →
            ∀ r, BREAK_ID r = Some s → id_fits (H:=ref_host) r) as Hfits.
  { intros s Hs r Hr s' Hs'. rewrite Hr in Hs'. injection Hs' as <-.
    cbn [In] in Hs. destruct Hs as [<-|[<-|[<-|[]]]]; vm_compute; repeat split;
      discriminate. }
  assert (id_fits (H:=ref_host) a ∧ id_fits (H:=ref_host) b ∧ id_fits (H:=ref_host) c)
    as (Ha & Hb & Hc).
  { split; [|split].
    - apply (Hfits "2.9"); [cbn; tauto|reflexivity].
    - apply (Hfits "2.10"); [cbn; tauto|reflexivity].
    - apply (Hfits "3"); [cbn; tauto|reflexivity]. }
  split; [reflexivity|]. split; [reflexivity|]. split.
  - apply (proj2 (proj2 (break_id_compare_order (H:=ref_host) a b c)) Ha Hb Hc);
      [intros _; discriminate ..| |]; discriminate.
  - exact (proj1 (proj2 (break_id_compare_order (H:=ref_host) a b c)) Ha Hb).
Defined.

Section BreakTypeCell.

Context `{Host}.

Lemma break_type_cell_known (c : ascii) (r : BreakRow) :
  BREAK_TYPE r = c → c ≠ "000"%char → str_mem c BP_CHARS = true →
  ∃ type, break_type_set_data_func r
          = Some (type +:+ (if BREAK_TEMPORARY r then ",t" else "")).
Proof.
  intros Hr Hc Hmem. unfold break_type_set_data_func, strchr_offset. rewrite Hr.
  rewrite bool_decide_eq_false_2 by done.
  unfold BP_CHARS in *. cbn [str_mem str_index] in *.
  repeat (case_bool_decide; [cbn; eauto; fail|]). done.
Qed.

(** X7.  The type cell of a row whose kind was parsed from a type name of
    the debugger shows the type [break_types] lists for that name ([??] for
    a name it does not list), followed by [,t] for a temporary breakpoint;
    every kind [break_load] is meant to accept has a text too; a row of
    kind NUL makes the cell function read past the end of [break_types]. *)
Theorem break_type_cell_text (text_type : string) (r : BreakRow) :
  (BREAK_TYPE r = break_type_char text_type →
   break_type_set_data_func r
   = Some (break_type_name text_type +:+ (if BREAK_TEMPORARY r then ",t" else "")))
  ∧ (BREAK_TYPE r ≠ "000"%char → strchr BP_KNOWNS (BREAK_TYPE r) = true →
     break_type_set_data_func r ≠ None)
  ∧ (BREAK_TYPE r = "000"%char → break_type_set_data_func r = None).
Proof.
  split; [|split].
  - intros Hr. unfold break_type_set_data_func, break_type_char, break_type_name in *.
    rewrite Hr. clear Hr. unfold break_types.
    cbn [break_type_index list_find fst snd].
    repeat match goal with
           | |- context [bool_decide (text_type = ?s)] =>
               destruct (decide (text_type = s)) as [->|?];
               [reflexivity
               |rewrite (bool_decide_eq_false_2 (text_type = s)) by done;
                rewrite (decide_False (P:=s = text_type)) by done]
           end.
    reflexivity.
  - intros Hc Hk.
    assert (str_mem (BREAK_TYPE r) BP_CHARS = true) as Hmem.
    { unfold strchr in Hk. rewrite bool_decide_eq_false_2 in Hk by done.
      unfold BP_KNOWNS, BP_CHARS in *. cbn [str_mem orb] in *.
      repeat (let Hx := fresh "Hx" in case_bool_decide as Hx; [by rewrite <- Hx|]).
      cbn in Hk. done. }
    by destruct (break_type_cell_known (BREAK_TYPE r) r eq_refl Hc Hmem) as [type ->].
  - intros Hr. unfold break_type_set_data_func. rewrite Hr. reflexivity.
Qed.

End BreakTypeCell.

(** The debugger's hardware watchpoint, temporary. *)
Lemma break_type_cell_text_witness :
  let r := set_BREAK_TEMPORARY true (set_BREAK_TYPE "w" empty_row) in
  break_type_set_data_func r = Some "watch,t".
Proof.
  intros r.
  exact (proj1 (break_type_cell_text "hw watchpoint" r) eq_refl).
Defined.

(** ** break.c: removing and clearing rows *)

Section BreakRemoval.

Context `{Host}.

Lemma break_clear_row_id r : BREAK_ID (break_clear_row r) = None.
Proof. unfold break_clear_row. by destruct (strchr BP_BORTS (BREAK_TYPE r)). Qed.

Lemma break_clear_row_addr r : BREAK_ADDR (break_clear_row r) = None.
Proof. unfold break_clear_row. by destruct (strchr BP_BORTS (BREAK_TYPE r)). Qed.

Lemma break_clear_row_kept r :
  BREAK_SCID (break_clear_row r) = BREAK_SCID r
  ∧ BREAK_DISCARD (break_clear_row r) = BREAK_DISCARD r
  ∧ BREAK_ENABLED (break_clear_row r) = BREAK_ENABLED r.
Proof. unfold break_clear_row. by destruct (strchr BP_BORTS (BREAK_TYPE r)). Qed.

Lemma break_remove_all_rows_omap pref force rows :
  (break_remove_all_rows pref force rows).1.1 = omap (remove_row pref force) rows.
Proof.
  induction rows as [|r rows IH]; [done|]. cbn [break_remove_all_rows omap list_omap].
  destruct (break_remove_all_rows pref force rows) as [[rest es] found].
  cbn [fst] in IH. unfold remove_row at 1.
  destruct (break_id_matches pref (BREAK_ID r)); [destruct (BREAK_DISCARD r || force)|];
    cbn [fst]; by rewrite IH.
Qed.

Lemma break_remove_all_rows_found pref force rows :
  (break_remove_all_rows pref force rows).2
  = existsb (λ r, break_id_matches pref (BREAK_ID r)) rows.
Proof.
  induction rows as [|r rows IH]; [done|]. cbn [break_remove_all_rows existsb].
  destruct (break_remove_all_rows pref force rows) as [[rest es] found].
  cbn [snd] in IH.
  destruct (break_id_matches pref (BREAK_ID r)); [by destruct (BREAK_DISCARD r || force)|].
  done.
Qed.

Lemma store_break_remove_all pref force st :
  store (break_remove_all pref force st).2 = omap (remove_row pref force) (store st)
  ∧ scid_gen (break_remove_all pref force st).2 = scid_gen st
  ∧ (break_remove_all pref force st).1
    = existsb (λ r, break_id_matches pref (BREAK_ID r)) (store st).
Proof.
  unfold break_remove_all.
  pose proof (break_remove_all_rows_omap pref force (store st)) as Hr.
  pose proof (break_remove_all_rows_found pref force (store st)) as Hf.
  destruct (break_remove_all_rows pref force (store st)) as [[rows es] found].
  cbn [fst snd] in *. by subst.
Qed.

Lemma remove_rows_ids pref force (rows : list BreakRow) :
  omap BREAK_ID (omap (remove_row pref force) rows) `sublist_of` omap BREAK_ID rows.
Proof.
  induction rows as [|r rows IH]; [done|]. cbn [omap list_omap].
  unfold remove_row at 1.
  destruct (break_id_matches pref (BREAK_ID r)); [destruct (BREAK_DISCARD r || force)|];
    cbn [omap list_omap].
  - destruct (BREAK_ID r); [by apply sublist_cons|done].
  - rewrite break_clear_row_id. destruct (BREAK_ID r); [by apply sublist_cons|done].
  - destruct (BREAK_ID r); [by apply sublist_skip|done].
Qed.

Lemma remove_rows_unmatched pref force (rows : list BreakRow) :
  Forall (λ r, break_id_matches pref (BREAK_ID r) = false)
    (omap (remove_row pref force) rows).
Proof.
  induction rows as [|r rows IH]; [done|]. cbn [omap list_omap].
  unfold remove_row at 1.
  destruct (break_id_matches pref (BREAK_ID r)) eqn:Hm;
    [destruct (BREAK_DISCARD r || force)|]; cbn [omap list_omap]; try done.
  - apply Forall_cons_2; [|done]. by rewrite break_clear_row_id.
  - by apply Forall_cons_2.
Qed.

Lemma remove_rows_forced pref (rows : list BreakRow) :
  omap (remove_row pref true) rows
  = filter (λ r, break_id_matches pref (BREAK_ID r) = false) rows.
Proof.
  induction rows as [|r rows IH]; [done|]. cbn [omap list_omap].
  rewrite filter_cons. unfold remove_row at 1. rewrite orb_true_r.
  destruct (break_id_matches pref (BREAK_ID r)); case_decide; try done.
  cbn. by rewrite IH.
Qed.

Lemma remove_rows_persisted pref (rows : list BreakRow) :
  persisted (omap (remove_row pref false) rows) = persisted rows.
Proof.
  induction rows as [|r rows IH]; [done|]. cbn [omap list_omap].
  unfold remove_row at 1. rewrite orb_false_r.
  destruct (break_id_matches pref (BREAK_ID r)); [destruct (BREAK_DISCARD r) eqn:Hd|];
    cbn [omap list_omap]; rewrite !persisted_cons, ?IH.
  - by rewrite Hd.
  - destruct (break_clear_row_kept r) as (-> & -> & _). by rewrite Hd.
  - done.
Qed.

(** X8.  [break_remove_all] reports whether a row carries the id [pref] or
    a sub-id of it, and leaves no such row: with [force] those rows are
    removed and the rows left are the others, in their order; without it
    only the discardable ones are removed and the persistent ones stay as
    local rows without an id, so the persistent rows are the same before
    and after.  Ids stay unique and the sequence-id counter is not
    touched. *)
Theorem break_remove_all_rows_left (pref : string) (force : bool) (st : Breaks) :
  let res := break_remove_all pref force st in
  (res.1 = true ↔ ∃ r, r ∈ store st ∧ break_id_matches pref (BREAK_ID r) = true)
  ∧ Forall (λ r, break_id_matches pref (BREAK_ID r) = false) (store res.2)
  ∧ (force = true →
     store res.2 = filter (λ r, break_id_matches pref (BREAK_ID r) = false) (store st))
  ∧ (force = false → persisted (store res.2) = persisted (store st))
  ∧ (unique_ids (store st) → unique_ids (store res.2))
  ∧ scid_gen res.2 = scid_gen st.
Proof.
  intros res. subst res.
  destruct (store_break_remove_all pref force st) as (-> & -> & ->).
  split; [|split; [|split; [|split; [|split]]]].
  - rewrite existsb_exists. split; intros (r & Hr & Hm); exists r;
      (split; [|done]); by apply list_elem_of_In.
  - apply remove_rows_unmatched.
  - intros ->. apply remove_rows_forced.
  - intros ->. apply remove_rows_persisted.
  - apply unique_ids_sublist, remove_rows_ids.
  - done.
Qed.

Lemma breaks_clear_rows_omap rows :
  (breaks_clear_rows rows).1 = omap clear_row rows.
Proof.
  induction rows as [|r rows IH]; [done|]. cbn [breaks_clear_rows omap list_omap].
  destruct (breaks_clear_rows rows) as [rest es]. cbn [fst] in IH.
  unfold clear_row at 1. destruct (BREAK_DISCARD r); cbn [fst]; by rewrite IH.
Qed.

Lemma breaks_clear_rows_log rows :
  Forall (λ r, BREAK_DISCARD r = false) rows → (breaks_clear_rows rows).2 = [].
Proof.
  induction rows as [|r rows IH]; intros Hd; [done|].
  apply Forall_cons in Hd as [Hr Hd]. cbn [breaks_clear_rows].
  specialize (IH Hd). destruct (breaks_clear_rows rows) as [rest es].
  cbn [snd] in *. by rewrite Hr.
Qed.

Lemma store_breaks_clear st :
  store (breaks_clear st) = omap clear_row (store st)
  ∧ scid_gen (breaks_clear st) = scid_gen st.
Proof.
  unfold breaks_clear. pose proof (breaks_clear_rows_omap (store st)) as Hr.
  destruct (breaks_clear_rows (store st)) as [rows es]. cbn [fst] in Hr. by subst.
Qed.

Lemma clear_rows_cleared (rows : list BreakRow) :
  Forall (λ r, BREAK_ID r = None ∧ BREAK_ADDR r = None ∧ BREAK_DISCARD r = false)
    (omap clear_row rows).
Proof.
  induction rows as [|r rows IH]; [done|]. cbn [omap list_omap]. unfold clear_row at 1.
  destruct (BREAK_DISCARD r) eqn:Hd; [done|]. cbn [omap list_omap].
  apply Forall_cons_2; [|done].
  rewrite break_clear_row_id, break_clear_row_addr.
  by destruct (break_clear_row_kept r) as (_ & -> & _).
Qed.

Lemma clear_rows_persisted (rows : list BreakRow) :
  persisted (omap clear_row rows) = persisted rows.
Proof.
  induction rows as [|r rows IH]; [done|]. cbn [omap list_omap]. unfold clear_row at 1.
  destruct (BREAK_DISCARD r) eqn:Hd; cbn [omap list_omap]; rewrite !persisted_cons, ?IH.
  - by rewrite Hd.
  - destruct (break_clear_row_kept r) as (-> & -> & _). by rewrite Hd.
Qed.

Lemma break_clear_row_idemp r : break_clear_row (break_clear_row r) = break_clear_row r.
Proof.
  destruct r as [id file line scid type en disp func addr times ign cond script pend
                 loc ra temp disc miss].
  unfold break_clear_row. cbn.
  destruct (strchr BP_BORTS type) eqn:Hb; cbn; by rewrite Hb.
Qed.

Lemma clear_rows_idemp (rows : list BreakRow) :
  omap clear_row (omap clear_row rows) = omap clear_row rows.
Proof.
  induction rows as [|r rows IH]; [done|]. cbn [omap list_omap].
  destruct (clear_row r) as [r'|] eqn:Hc; cbn [omap list_omap]; [|done].
  unfold clear_row in Hc. destruct (BREAK_DISCARD r) eqn:Hd; [done|].
  injection Hc as <-.
  assert (clear_row (break_clear_row r) = Some (break_clear_row r)) as ->.
  { unfold clear_row. destruct (break_clear_row_kept r) as (_ & -> & _).
    by rewrite Hd, break_clear_row_idemp. }
  by rewrite IH.
Qed.

Lemma breaks_active_step rows : ∀ a,
  (0 ≤ a)%Z → (a + Z.of_nat (length rows) < guint_max)%Z →
  foldl (λ active r, break_iter_check r active) a rows
  = (a + Z.of_nat (length (filter (λ r, is_active r = true) rows)))%Z.
Proof.
  induction rows as [|r rows IH]; intros a Ha Hlen; [cbn; lia|].
  cbn [foldl]. rewrite filter_cons. cbn [length] in Hlen.
  assert (0 ≤ Z.of_nat (length (filter (λ r, is_active r = true) rows))
          ≤ Z.of_nat (length rows))%Z as Hf.
  { split; [lia|]. apply inj_le, length_filter. }
  unfold break_iter_check, guint. fold (is_active r).
  destruct (is_active r) eqn:Hact.
  - rewrite Z.mod_small by lia. rewrite IH by lia.
    rewrite decide_True by done. cbn [length]. lia.
  - rewrite Z.add_0_r, Z.mod_small by lia. rewrite IH by lia.
    by rewrite decide_False by done.
Qed.

(** X9.  [breaks_clear] removes the discardable rows and keeps every other
    row as a local row, without id and address: the persistent rows are
    the same before and after, no breakpoint is active afterwards, and a
    second call changes nothing and removes no marker. *)
Theorem breaks_clear_local (st : Breaks) :
  Forall (λ r, BREAK_ID r = None ∧ BREAK_ADDR r = None ∧ BREAK_DISCARD r = false)
    (store (breaks_clear st))
  ∧ persisted (store (breaks_clear st)) = persisted (store st)
  ∧ scid_gen (breaks_clear st) = scid_gen st
  ∧ breaks_active (breaks_clear st) = 0%Z
  ∧ store (breaks_clear (breaks_clear st)) = store (breaks_clear st)
  ∧ log (breaks_clear (breaks_clear st)) = log (breaks_clear st).
Proof.
  destruct (store_breaks_clear st) as [Hs Hg].
  destruct (store_breaks_clear (breaks_clear st)) as [Hs2 _].
  pose proof (clear_rows_cleared (store st)) as Hc. rewrite <- Hs in Hc.
  split; [done|]. split; [rewrite Hs; apply clear_rows_persisted|].
  split; [done|]. split; [|split].
  - unfold breaks_active. revert Hc. generalize (store (breaks_clear st)).
    intros rows Hc. induction Hc as [|r rows (Hid & _) _ IH]; [done|].
    cbn [foldl]. unfold break_iter_check at 2. rewrite Hid.
    rewrite andb_false_r. by cbn.
  - by rewrite Hs2, Hs, clear_rows_idemp.
  - unfold breaks_clear at 1.
    pose proof (breaks_clear_rows_log (store (breaks_clear st))) as Hl.
    destruct (breaks_clear_rows (store (breaks_clear st))) as [rows es].
    cbn [snd] in Hl. rewrite Hl.
    + cbn. by rewrite app_nil_r.
    + eapply Forall_impl; [exact Hc|]. by intros r (_ & _ & ?).
Qed.

(** X10.  [breaks_active] is the number of enabled rows that have a backend
    id, as long as the store holds fewer than 2^32 rows; it is 0 after
    [breaks_delete_all], which empties the store, restarts the sequence ids
    and removes the marker of every row. *)
Theorem breaks_active_count (st : Breaks) :
  (Z.of_nat (length (store st)) < guint_max)%Z →
  breaks_active st = Z.of_nat (length (filter (λ r, is_active r = true) (store st)))
  ∧ breaks_active (breaks_delete_all st) = 0%Z
  ∧ store (breaks_delete_all st) = []
  ∧ scid_gen (breaks_delete_all st) = 0%Z
  ∧ log (breaks_delete_all st) = log st ++ (unmark_effect <$> store st).
Proof.
  intros Hlen. split; [|done].
  unfold breaks_active. rewrite breaks_active_step by lia. lia.
Qed.

End BreakRemoval.

(** Breakpoint 2 with the locations 2.1 and 2.2, breakpoint 21 and a local
    breakpoint; breakpoint 2 is deleted. *)
Lemma break_remove_all_rows_left_witness :
  let rows := [example_row (Some "2") "b" None "f"; example_row (Some "2.1") "b" None "f";
               example_row (Some "21") "b" None "g"; example_row None "b" None "h"] in
  let res := break_remove_all "2" true (with_store rows breaks_init) in
  BREAK_ID <$> store res.2 = [Some "21"; None]
  ∧ store res.2
    = filter (λ r, break_id_matches "2" (BREAK_ID r) = false) (store (with_store rows breaks_init)).
Proof.
  intros rows res. split; [reflexivity|].
  exact (proj1 (proj2 (proj2 (break_remove_all_rows_left "2" true
                                (with_store rows breaks_init)))) eq_refl).
Defined.

(** One enabled breakpoint with an id, one disabled, one local. *)
Lemma breaks_active_count_witness :
  let rows := [example_row (Some "1") "b" None "f";
               set_BREAK_ENABLED false (example_row (Some "2") "b" None "g");
               example_row None "b" None "h"] in
  breaks_active (with_store rows breaks_init) = 1%Z.
Proof.
  intros rows.
  exact (proj1 (breaks_active_count (with_store rows breaks_init) ltac:(reflexivity))).
Defined.

(** ** break.c: saving and loading a row *)

Lemma char_of_gint_of_char (c : ascii) : char_of_gint (gint_of_char c) = c.
Proof. by destruct c as [[] [] [] [] [] [] [] []]. Qed.

Lemma gint_of_char_zero (c : ascii) : gint_of_char c = 0%Z → c = "000"%char.
Proof. by destruct c as [[] [] [] [] [] [] [] []]. Qed.

Section BreakSaveLoad.

Context `{Host}.

(** X11.  A discardable row is not saved.  Any other row whose kind is a
    known one, that has a location and whose line is not negative is saved
    and comes back from [break_load]: the row appended holds the saved
    columns of the row under a fresh sequence id -- the line only with a
    file, the ignore count as [validate_column] returns it, the temporary
    flag only for the kinds break, hbreak, trace and ftrace -- and neither
    id, address nor hit count. *)
Theorem break_save_load_round_trip (r : BreakRow) (old : KeySection) (st : Breaks) :
  BREAK_TYPE r ≠ "000"%char → strchr BP_KNOWNS (BREAK_TYPE r) = true →
  BREAK_LOCATION r ≠ None → (0 ≤ BREAK_LINE r)%Z →
  (BREAK_DISCARD r = true → break_save old r = (false, old))
  ∧ (BREAK_DISCARD r = false →
     (break_save old r).1 = true
     ∧ (break_load (break_save old r).2 st).1 = true
     ∧ store (break_load (break_save old r).2 st).2
       = store st ++ [loaded_row r (scid_gen st + 1)]
     ∧ scid_gen (break_load (break_save old r).2 st).2 = (scid_gen st + 1)%Z).
Proof.
  intros Htype Hknown Hloc Hline. unfold break_save. split; [by intros ->|].
  intros ->. cbn [fst snd]. split; [done|].
  unfold break_load.
  cbn [key_line key_type key_enabled key_pending key_run_apply key_temporary key_file
       key_display key_func key_ignore key_cond key_script key_location from_option id].
  rewrite char_of_gint_of_char, Hknown.
  assert ((gint_of_char (BREAK_TYPE r) =? 0)%Z = false) as ->.
  { apply Z.eqb_neq. intros Hz. by apply gint_of_char_zero in Hz. }
  rewrite (bool_decide_eq_true_2 (BREAK_LOCATION r ≠ None)) by done.
  assert ((0 <=? default 0 (if (BREAK_LINE r =? 0)%Z then None else Some (BREAK_LINE r)))%Z
          = true) as ->.
  { destruct (BREAK_LINE r =? 0)%Z; cbn [from_option id]; lia. }
  cbn [negb andb gtk_list_store_append fst snd]. split; [done|].
  rewrite store_break_mark, scid_break_mark. split; [|done].
  cbn [gtk_list_store_set store with_store scid_gen].
  rewrite (alter_middle _ _ []) by done. f_equal. f_equal.
  unfold loaded_row. apply BreakRow_eq; row_simpl; try reflexivity.
  - destruct (BREAK_LINE r =? 0)%Z eqn:Hz; cbn [from_option id]; [|done].
    apply Z.eqb_eq in Hz. rewrite Hz. by case_bool_decide.
  - destruct (strchr BP_BORTS (BREAK_TYPE r)); cbn [from_option id];
      by rewrite ?andb_true_r, ?andb_false_r.
Qed.

End BreakSaveLoad.

(** A conditional breakpoint on line 10 of /src/a.c that the debugger knows
    as breakpoint 4. *)
Lemma break_save_load_round_trip_witness :
  let r := set_BREAK_ADDR (Some "0x1000") (set_BREAK_LINE 10 (set_BREAK_FILE (Some "/src/a.c")
             (example_row (Some "4") "b" (Some "n > 1") "/src/a.c:10"))) in
  let sec := (break_save (key_section None None None) r).2 in
  store (break_load (H:=ref_host) sec breaks_init).2
  = [set_BREAK_ADDR None (set_BREAK_ID None r)].
Proof.
  intros r sec.
  refine (eq_trans (proj1 (proj2 (proj2 (proj2
            (break_save_load_round_trip (H:=ref_host) r (key_section None None None)
               breaks_init _ _ _ _) eq_refl)))) eq_refl);
    [discriminate | reflexivity | discriminate | discriminate].
Defined.

(** ** break.c: the replies to the commands of break.c *)

Section BreakDone.

Context `{Host}.

Lemma store_break_enable i enable st :
  store (break_enable (Some i) enable st) = alter (set_BREAK_ENABLED enable) i (store st)
  ∧ scid_gen (break_enable (Some i) enable st) = scid_gen st.
Proof.
  unfold break_enable. rewrite store_break_mark, scid_break_mark.
  cbn [gtk_list_store_set store with_store scid_gen].
  by rewrite store_break_mark, scid_break_mark.
Qed.

Lemma model_find_scid_Some rows key i :
  model_find_scid rows key = Some i →
  ∃ r, rows !! i = Some r ∧ BREAK_SCID r = atoi key.
Proof.
  unfold model_find_scid. intros Hf.
  destruct (list_find _ rows) as [[i' r]|] eqn:E; [|done]. cbn in Hf. simplify_eq.
  apply list_find_Some in E as (? & ? & ?). eauto.
Qed.

(** A reply to a toggle whose row is found. *)
Lemma on_break_done_enable nodes st c arg i :
  (parse_grab_token nodes).1 = Some (String c arg) →
  c = "0"%char ∨ c = "1"%char →
  model_find_scid (store st) arg = Some i →
  ∃ st', on_break_done nodes st = Some st'
    ∧ store st' = alter (set_BREAK_ENABLED (bool_decide (c = "1"%char))) i (store st).
Proof.
  intros Htok Hc Hfind. unfold on_break_done. rewrite Htok. cbn [str_head].
  eexists. split; [done|].
  assert (bool_decide (c = "0"%char) || bool_decide (c = "1"%char) = true) as ->
    by (destruct Hc as [->| ->]; done).
  rewrite Hfind. by destruct (store_break_enable i (bool_decide (c = "1"%char)) st).
Qed.

(** X12.  [on_break_done] acts on the first character of the token and
    takes the rest as its argument: 0 and 1 disable and enable the first row
    with that sequence id, 3 removes every row with that id or a sub-id of
    it, 2 asks the debugger for the breakpoint and changes no row.  An
    unknown sequence id, an id no row has and any other character are
    reported, and the rows stay as they are.  Without a token the handler
    reads through a NULL pointer. *)
Theorem on_break_done_routes (nodes : list ParseNode) (st : Breaks) :
  ((parse_grab_token nodes).1 = None → on_break_done nodes st = None)
  ∧ ∀ c arg, (parse_grab_token nodes).1 = Some (String c arg) →
      ∃ st', on_break_done nodes st = Some st'
        ∧ scid_gen st' = scid_gen st
        ∧ ((c = "0"%char ∨ c = "1"%char) →
           match model_find_scid (store st) arg with
           | Some i =>
               store st' = alter (set_BREAK_ENABLED (bool_decide (c = "1"%char))) i (store st)
           | None =>
               st' = emit (dc_error (String c arg +:+ ": b_scid not found")) st
           end)
        ∧ (c = "2"%char → st' = emit (debug_send ("-break-info " +:+ arg)) st)
        ∧ (c = "3"%char →
           store st' = filter (λ r, break_id_matches arg (BREAK_ID r) = false) (store st)
           ∧ ((∀ r, r ∈ store st → break_id_matches arg (BREAK_ID r) = false) →
              st' = emit (dc_error (String c arg +:+ ": bid not found")) st))
        ∧ (c ≠ "0"%char → c ≠ "1"%char → c ≠ "2"%char → c ≠ "3"%char →
           st' = emit (dc_error (String c arg +:+ ": invalid b_oper")) st).
Proof.
  split; [by unfold on_break_done; intros ->|].
  intros c arg Htok. unfold on_break_done. rewrite Htok. cbn [str_head].
  eexists. split; [done|].
  destruct (decide (c = "0"%char ∨ c = "1"%char)) as [Hc|Hc].
  { assert (bool_decide (c = "0"%char) || bool_decide (c = "1"%char) = true) as ->
      by (destruct Hc as [->| ->]; done).
    assert (c ≠ "2"%char ∧ c ≠ "3"%char) as [H2 H3]
      by (destruct Hc as [->| ->]; done).
    destruct (model_find_scid (store st) arg) as [i|].
    - destruct (store_break_enable i (bool_decide (c = "1"%char)) st) as [Hs Hg].
      split; [done|]. split; [done|]. split; [done|]. split; [done|].
      intros H0 H1. destruct Hc; done.
    - split; [done|]. split; [done|]. split; [done|]. split; [done|].
      intros H0 H1. destruct Hc; done. }
  assert (c ≠ "0"%char ∧ c ≠ "1"%char) as [H0 H1] by (split; intros ->; apply Hc; auto).
  rewrite (bool_decide_eq_false_2 (c = "0"%char)), (bool_decide_eq_false_2 (c = "1"%char))
    by done. cbn [orb].
  destruct (decide (c = "2"%char)) as [->|H2].
  { rewrite bool_decide_eq_true_2 by done.
    split; [done|]. split; [done|]. split; [done|]. split; [done|]. done. }
  rewrite (bool_decide_eq_false_2 (c = "2"%char)) by done.
  destruct (decide (c = "3"%char)) as [->|H3].
  - rewrite bool_decide_eq_true_2 by done.
    destruct (store_break_remove_all arg true st) as (Hs & Hg & Hf).
    rewrite remove_rows_forced in Hs.
    destruct (break_remove_all arg true st) as [found st1] eqn:Hr. cbn [fst snd] in *.
    assert (store (if found then st1
                   else emit (dc_error ("3" +:+ arg +:+ ": bid not found")) st1)
            = filter (λ r, break_id_matches arg (BREAK_ID r) = false) (store st)) as Hst
      by (by destruct found).
    split; [by destruct found|]. split; [done|].
    split; [done|]. split; [|done]. intros _. split; [done|].
    intros Hall.
    assert (found = false) as ->.
    { rewrite Hf. apply not_true_is_false. intros (r & Hr' & Hm)%existsb_exists.
      apply list_elem_of_In in Hr'. by rewrite (Hall r Hr') in Hm. }
    f_equal. unfold break_remove_all in Hr.
    assert (∀ rows, (∀ r, r ∈ rows → break_id_matches arg (BREAK_ID r) = false) →
              break_remove_all_rows arg true rows = (rows, [], false)) as Hsame.
    { clear. induction rows as [|r rows IH]; intros Hall; [done|].
      cbn [break_remove_all_rows]. rewrite IH.
      - by rewrite (Hall r) by left.
      - intros r' Hr'. apply Hall. by right. }
    rewrite (Hsame _ Hall) in Hr. injection Hr as <-.
    destruct st. cbn. unfold emits, with_store. cbn. by rewrite app_nil_r.
  - rewrite (bool_decide_eq_false_2 (c = "3"%char)) by done.
    split; [done|]. split; [done|]. split; [done|]. split; [done|]. done.
Qed.

(** X13.  The command a write-through toggle sends carries the new value
    and the row's sequence id in its token; when [on_break_done] gets that
    token back (less the two characters that route the reply to it), the
    row, if it is the first with that sequence id, takes the new value and
    no other row changes. *)
Theorem break_toggle_done (i : nat) (state : Z) (st : Breaks) (row : BreakRow)
    (id : string) (nodes : list ParseNode) :
  store st !! i = Some row → BREAK_ID row = Some id →
  state ≠ DS_INACTIVE → Z.land state DS_SENDABLE ≠ 0%Z →
  let enabled := negb (BREAK_ENABLED row) in
  let token := String (if enabled then "1" else "0")%char (fmt_d (BREAK_SCID row)) in
  (parse_grab_token nodes).1 = Some token →
  model_find_scid (store st) (fmt_d (BREAK_SCID row)) = Some i →
  let st1 := on_break_enabled_toggled i state st in
  store st1 = store st
  ∧ (∃ command, log st1 = log st ++ [debug_send ("02" +:+ token +:+ command)])
  ∧ ∃ st2, on_break_done nodes st1 = Some st2
           ∧ store st2 = alter (set_BREAK_ENABLED enabled) i (store st).
Proof.
  intros Hrow Hid Hact Hsend enabled token Htok Hfind st1.
  assert (st1 = emit (debug_send ("02" +:+ token +:+ "-break-" +:+
                                  (if enabled then "en" else "dis") +:+ "able " +:+ id)) st)
    as Hst1.
  { subst st1. unfold on_break_enabled_toggled. rewrite Hrow, Hid.
    rewrite (bool_decide_eq_false_2 (state = DS_INACTIVE)) by done.
    rewrite (bool_decide_eq_false_2 (Some id = None)) by done. cbn [orb].
    assert ((Z.land state DS_SENDABLE =? 0)%Z = false) as -> by (by apply Z.eqb_neq).
    cbn [negb fmt_s from_option Datatypes.id]. fold enabled. subst token.
    by destruct enabled. }
  split; [by rewrite Hst1|]. split; [rewrite Hst1; by eexists|].
  assert (store st1 = store st) as Hs by (by rewrite Hst1).
  destruct (on_break_done_enable nodes st1 _ _ i Htok) as (st2 & Hdone & Hst2).
  { destruct enabled; auto. }
  { by rewrite Hs. }
  exists st2. split; [done|]. rewrite Hst2, Hs. by destruct enabled.
Qed.

End BreakDone.

(** Breakpoint 2 with the location 2.1: the reply to its deletion. *)
Lemma on_break_done_routes_witness :
  let rows := [example_row (Some "2") "b" None "f"; example_row (Some "2.1") "b" None "f";
               example_row (Some "3") "b" None "g"] in
  BREAK_ID <$> store (default breaks_init
                        (on_break_done (H:=ref_host) [PT_VALUE "=token" "32"]
                           (with_store rows breaks_init)))
  = [Some "3"]
  ∧ on_break_done (H:=ref_host) [] breaks_init = None.
Proof.
  intros rows. split; [reflexivity|].
  exact (proj1 (on_break_done_routes (H:=ref_host) [] breaks_init) eq_refl).
Defined.

(** Breakpoint 4, enabled, with sequence id 1: it is disabled while the
    program is stopped, and the reply arrives. *)
Lemma break_toggle_done_witness :
  let row := example_row (Some "4") "b" None "f.c:7" in
  let st := with_store [row] breaks_init in
  let st1 := on_break_enabled_toggled (H:=ref_host) 0 8 st in
  log st1 = [debug_send "0201-break-disable 4"]
  ∧ ∃ st2, on_break_done (H:=ref_host) [PT_VALUE "=token" "01"] st1 = Some st2
           ∧ store st2 = [set_BREAK_ENABLED false row].
Proof.
  intros row st st1. split; [reflexivity|].
  exact (proj2 (proj2 (break_toggle_done (H:=ref_host) 0 8 st row "4"
                         [PT_VALUE "=token" "01"] eq_refl eq_refl
                         ltac:(discriminate) ltac:(discriminate) eq_refl eq_refl))).
Defined.

(** ** break.c: what the apply command carries and what follows it *)

Section BreakApplied.

Context `{Host}.

(** The three editable columns as [break_iter_applied] sends them. *)
Lemma applied_commands_list id r :
  applied_commands id r
  = (if negb (strchr BP_BORTS (BREAK_TYPE r)) && negb (BREAK_ENABLED r)
     then [debug_send ("-break-disable " +:+ id)] else [])
    ++ match (if strchr BP_BORTS (BREAK_TYPE r) && strchr BP_BREAKS (BREAK_TYPE r)
              then None else BREAK_IGNORE r) with
       | Some ignore =>
           [debug_send ("-break-" +:+ break_command 0 (BREAK_TYPE r) +:+ " " +:+ id
                        +:+ " " +:+ utils_get_locale_from_display ignore)]
       | None => []
       end
    ++ match (if strchr BP_BORTS (BREAK_TYPE r) then None else BREAK_COND r) with
       | Some cond =>
           [debug_send ("-break-" +:+ break_command 1 (BREAK_TYPE r) +:+ " " +:+ id
                        +:+ " " +:+ utils_get_locale_from_display cond)]
       | None => []
       end
    ++ match BREAK_SCRIPT r with
       | Some script =>
           [debug_send ("-break-" +:+ break_command 2 (BREAK_TYPE r) +:+ " " +:+ id
                        +:+ " " +:+ utils_get_locale_from_display script)]
       | None => []
       end.
Proof.
  unfold applied_commands, break_iter_applied. cbn [row_at mbind option_bind].
  change (store (with_store [r] breaks_init) !! 0) with (Some r). cbv zeta.
  cbn [foldl].
  destruct (negb (strchr BP_BORTS (BREAK_TYPE r)) && negb (BREAK_ENABLED r));
    destruct (if strchr BP_BORTS (BREAK_TYPE r) && strchr BP_BREAKS (BREAK_TYPE r)
              then None else BREAK_IGNORE r);
    destruct (if strchr BP_BORTS (BREAK_TYPE r) then None else BREAK_COND r);
    destruct (BREAK_SCRIPT r); reflexivity.
Qed.

Lemma break_iter_applied_log i id r st :
  store st !! i = Some r →
  log (break_iter_applied (Some i) id st) = log st ++ applied_commands id r.
Proof.
  intros Hr. rewrite applied_commands_list.
  unfold break_iter_applied. cbn [row_at mbind option_bind]. rewrite Hr. cbv zeta.
  cbn [foldl].
  destruct (negb (strchr BP_BORTS (BREAK_TYPE r)) && negb (BREAK_ENABLED r));
    destruct (if strchr BP_BORTS (BREAK_TYPE r) && strchr BP_BREAKS (BREAK_TYPE r)
              then None else BREAK_IGNORE r);
    destruct (if strchr BP_BORTS (BREAK_TYPE r) then None else BREAK_COND r);
    destruct (BREAK_SCRIPT r); cbn [fmap option_fmap option_map emit log app];
    by rewrite <- ?app_assoc, ?app_nil_r.
Qed.

(** X14.  Every setting of a row reaches the debugger by one route only.
    For the kinds break, hbreak, trace and ftrace the apply command is
    [-break-insert] followed by the flags of the row in a fixed order:
    [-t], [-h], then [-i] and the ignore count for break and hbreak or [-a]
    for the trace kinds, then [-d] exactly when the row is disabled, then
    [-c] and the quoted condition exactly when the row has one, then the
    flags of the pending state and of the thread and the location.  The
    commands that follow the reply do not depend on the disabled flag and
    the condition of these kinds, nor on the ignore count of break and
    hbreak.  For the other kinds the apply command does not depend on the
    disabled flag and the condition, and [-break-disable] and
    [-break-condition] follow the reply; their ignore count, and the pass
    count of the trace kinds, follows the reply too.  The script always
    follows the reply. *)
Theorem break_settings_one_route (thread : bool) (tid : option string) (id : string)
    (r : BreakRow) (i : nat) (st : Breaks) :
  store st !! i = Some r →
  log (break_iter_applied (Some i) id st) = log st ++ applied_commands id r
  ∧ (if strchr BP_BORTS (BREAK_TYPE r)
     then break_apply_command thread tid r
          = "02" +:+ fmt_d (BREAK_SCID r) +:+ "-break-insert"
            +:+ (if BREAK_TEMPORARY r then " -t" else "")
            +:+ (if strchr BP_HARDWS (BREAK_TYPE r) then " -h" else "")
            +:+ (if strchr BP_BREAKS (BREAK_TYPE r) then
                   match BREAK_IGNORE r with
                   | Some ignore => " -i " +:+ ignore
                   | None => ""
                   end
                 else " -a")
            +:+ (if BREAK_ENABLED r then "" else " -d")
            +:+ match BREAK_COND r with
                | Some cond => " -c " +:+ DQ +:+ utils_get_locale_from_display cond +:+ DQ
                | None => ""
                end
            +:+ apply_tail thread tid r
          ∧ ∀ enabled cond,
              applied_commands id (set_BREAK_COND cond (set_BREAK_ENABLED enabled r))
              = applied_commands id r
     else (∀ enabled cond,
             break_apply_command thread tid (set_BREAK_COND cond (set_BREAK_ENABLED enabled r))
             = break_apply_command thread tid r)
          ∧ (BREAK_ENABLED r = false →
             debug_send ("-break-disable " +:+ id) ∈ applied_commands id r)
          ∧ (∀ cond, BREAK_COND r = Some cond →
               debug_send ("-break-condition " +:+ id +:+ " "
                           +:+ utils_get_locale_from_display cond)
               ∈ applied_commands id r))
  ∧ (if strchr BP_BORTS (BREAK_TYPE r) && strchr BP_BREAKS (BREAK_TYPE r)
     then ∀ ignore, applied_commands id (set_BREAK_IGNORE ignore r) = applied_commands id r
     else (∀ ignore, break_apply_command thread tid (set_BREAK_IGNORE ignore r)
                     = break_apply_command thread tid r)
          ∧ ∀ ignore, BREAK_IGNORE r = Some ignore →
              debug_send ("-break-" +:+ (if strchr BP_TRACES (BREAK_TYPE r)
                                         then "passcount" else "after")
                          +:+ " " +:+ id +:+ " " +:+ utils_get_locale_from_display ignore)
              ∈ applied_commands id r)
  ∧ (∀ script, break_apply_command thread tid (set_BREAK_SCRIPT script r)
               = break_apply_command thread tid r)
  ∧ (∀ script, BREAK_SCRIPT r = Some script →
       debug_send ("-break-commands " +:+ id +:+ " "
                   +:+ utils_get_locale_from_display script)
       ∈ applied_commands id r).
Proof.
  intros Hr. split; [by apply break_iter_applied_log|].
  split; [|split; [|split]].
  - destruct (strchr BP_BORTS (BREAK_TYPE r)) eqn:Hb.
    + split.
      * rewrite break_apply_command_borts, apply_head_insert by done.
        unfold apply_head_flags, apply_cond. by rewrite !str_app_assoc.
      * intros enabled cond. rewrite !applied_commands_list. row_simpl. by rewrite Hb.
    + split; [|split].
      * intros enabled cond. unfold break_apply_command. row_simpl. by rewrite Hb.
      * intros He. rewrite applied_commands_list, Hb, He. cbn [negb andb].
        apply elem_of_app. left. apply list_elem_of_singleton. done.
      * intros cond Hc. rewrite applied_commands_list, Hb, Hc.
        rewrite !elem_of_app. right. right. left. apply list_elem_of_singleton. done.
  - destruct (strchr BP_BORTS (BREAK_TYPE r) && strchr BP_BREAKS (BREAK_TYPE r)) eqn:Hb.
    + intros ignore. rewrite !applied_commands_list. row_simpl. by rewrite Hb.
    + split.
      * intros ignore. unfold break_apply_command. row_simpl.
        destruct (strchr BP_BORTS (BREAK_TYPE r)); [|done].
        cbn [andb] in Hb. by rewrite Hb.
      * intros ignore Hi. rewrite applied_commands_list, Hb, Hi.
        rewrite !elem_of_app. right. left. apply list_elem_of_singleton.
        unfold break_command. cbn [bool_decide decide_rel andb nth].
        by destruct (strchr BP_TRACES (BREAK_TYPE r)).
  - intros script. unfold break_apply_command. by row_simpl.
  - intros script Hs. rewrite applied_commands_list, Hs.
    rewrite !elem_of_app. right. right. right. apply list_elem_of_singleton. done.
Qed.

End BreakApplied.

(** A disabled watchpoint with a condition and an ignore count, and a
    disabled breakpoint with the same. *)
Lemma break_settings_one_route_witness :
  let r := set_BREAK_IGNORE (Some "3") (set_BREAK_ENABLED false
             (example_row None "w" (Some "n > 1") "n")) in
  let b := set_BREAK_IGNORE (Some "3") (set_BREAK_ENABLED false
             (example_row None "b" (Some "n > 1") "f.c:7")) in
  break_apply_command (H:=ref_host) false None r = "021-break-watch n"
  ∧ log (break_iter_applied (H:=ref_host) (Some 0) "5" (with_store [r] breaks_init))
    = [debug_send "-break-disable 5"; debug_send "-break-after 5 3";
       debug_send "-break-condition 5 n > 1"]
  ∧ break_apply_command (H:=ref_host) false None b
    = "021-break-insert -i 3 -d -c " +:+ DQ +:+ "n > 1" +:+ DQ +:+ " f.c:7"
  ∧ log (break_iter_applied (H:=ref_host) (Some 0) "5" (with_store [b] breaks_init)) = [].
Proof.
  intros r b. split; [reflexivity|]. split; [|split].
  - exact (eq_trans (proj1 (break_settings_one_route (H:=ref_host) false None "5" r 0
                              (with_store [r] breaks_init) eq_refl)) eq_refl).
  - exact (eq_trans (proj1 (proj1 (proj2 (break_settings_one_route (H:=ref_host) false
                              None "5" b 0 (with_store [b] breaks_init) eq_refl))))
             eq_refl).
  - exact (eq_trans (proj1 (break_settings_one_route (H:=ref_host) false None "5" b 0
                              (with_store [b] breaks_init) eq_refl)) eq_refl).
Defined.

(** ** break.c: toggling a breakpoint without a debugger *)

Section BreakToggle.

Context `{Host}.

Lemma toggle_scan_off_line real_path doc_line rows : ∀ i found iter1,
  Forall (λ r, on_line real_path doc_line r = false) rows →
  toggle_scan real_path doc_line rows i found iter1 = Some (found, iter1).
Proof.
  induction rows as [|r rows IH]; intros i found iter1 Hoff; [done|].
  apply Forall_cons in Hoff as [Hr Hoff]. cbn [toggle_scan].
  unfold on_line in Hr. rewrite Hr. by apply IH.
Qed.

Lemma toggle_scan_last real_path doc_line rows r : ∀ i,
  Forall (λ r, on_line real_path doc_line r = false) rows →
  on_line real_path doc_line r = true → BREAK_ID r = None →
  toggle_scan real_path doc_line (rows ++ [r]) i 0 0 = Some ((-1)%Z, i + length rows).
Proof.
  induction rows as [|r' rows IH]; intros i Hoff Hon Hid.
  - cbn [app toggle_scan length]. unfold on_line in Hon. rewrite Hon, Hid.
    cbn. by rewrite Nat.add_0_r.
  - apply Forall_cons in Hoff as [Hr Hoff]. cbn [app toggle_scan length].
    unfold on_line in Hr. rewrite Hr. rewrite IH by done. f_equal. f_equal. lia.
Qed.

Lemma toggled_row_on_line real_path doc_line scid :
  on_line real_path doc_line (toggled_row real_path doc_line scid) = true
  ∧ BREAK_ID (toggled_row real_path doc_line scid) = None
  ∧ BREAK_RUN_APPLY (toggled_row real_path doc_line scid) = true.
Proof.
  unfold on_line, toggled_row, break_relocate. row_simpl.
  rewrite bool_decide_eq_true_2 by done. by rewrite utils_filenamecmp_refl.
Qed.

Lemma on_break_toggle_new real_path file_name doc_line st :
  Forall (λ r, on_line real_path doc_line r = false) (store st) →
  store (on_break_toggle real_path file_name doc_line DS_INACTIVE st)
  = store st ++ [toggled_row real_path doc_line (scid_gen st + 1)]
  ∧ scid_gen (on_break_toggle real_path file_name doc_line DS_INACTIVE st)
    = (scid_gen st + 1)%Z
  ∧ log (on_break_toggle real_path file_name doc_line DS_INACTIVE st)
    = log st ++ [utils_tree_set_cursor (length (store st));
                 sci_set_marker_at_line (doc_line - 1) true].
Proof.
  intros Hoff. unfold on_break_toggle. rewrite toggle_scan_off_line by done.
  cbn [Z.eqb negb]. rewrite bool_decide_eq_true_2 by done.
  cbn [negb gtk_list_store_append gtk_list_store_set store with_store scid_gen log emit
       from_option].
  rewrite list_alter_alter_eq.
  rewrite (alter_middle _ (store st) [] empty_row (length (store st)) eq_refl).
  split; [reflexivity|]. split; [reflexivity|]. by rewrite <- app_assoc.
Qed.

Lemma apply_command_toggled tid real_path doc_line scid :
  break_apply_command false tid (toggled_row real_path doc_line scid)
  = "02" +:+ fmt_d scid +:+ "-break-insert " +:+ real_path +:+ ":" +:+ fmt_d doc_line.
Proof.
  unfold break_apply_command, toggled_row, break_relocate. row_simpl.
  change (strchr BP_BORTS "b") with true. change (strchr BP_HARDWS "b") with false.
  change (strchr BP_BREAKS "b") with true. cbv zeta. cbn [fmt_s from_option Datatypes.id].
  by rewrite ?str_app_assoc.
Qed.

(** X15.  Toggling a breakpoint on a line that has none, while no debugger
    is running, appends an enabled breakpoint for that line under a fresh
    sequence id; toggling the line again removes the row, so that the rows
    are what they were; and if the session is started instead, the last
    command [breaks_apply] sends inserts that breakpoint at the line. *)
Theorem break_toggle_offline (real_path file_name : string) (doc_line : Z)
    (st : Breaks) :
  Forall (λ r, on_line real_path doc_line r = false) (store st) →
  let st1 := on_break_toggle real_path file_name doc_line DS_INACTIVE st in
  let st2 := on_break_toggle real_path file_name doc_line DS_INACTIVE st1 in
  store st1 = store st ++ [toggled_row real_path doc_line (scid_gen st + 1)]
  ∧ store st2 = store st
  ∧ last (log (breaks_apply st1))
    = Some (debug_send ("02" +:+ fmt_d (scid_gen st + 1) +:+ "-break-insert "
                        +:+ real_path +:+ ":" +:+ fmt_d doc_line)).
Proof.
  intros Hoff st1 st2.
  destruct (on_break_toggle_new real_path file_name doc_line st Hoff) as (Hs1 & Hg1 & Hl1).
  fold st1 in Hs1, Hg1, Hl1.
  destruct (toggled_row_on_line real_path doc_line (scid_gen st + 1)) as (Hon & Hid & Hra).
  split; [done|]. split.
  - subst st2. unfold on_break_toggle. rewrite Hs1.
    rewrite toggle_scan_last by done. cbn [Z.eqb negb Nat.add].
    unfold break_delete. rewrite Hs1.
    rewrite (list_lookup_middle _ [] _ _ eq_refl), Hid.
    unfold break_remove, gtk_list_store_remove. rewrite store_break_mark, Hs1.
    cbn [store with_store].
    by rewrite (delete_middle _ []), app_nil_r.
  - unfold breaks_apply. cbn [log emits]. rewrite Hs1, omap_app.
    cbn [omap list_omap]. rewrite Hra, app_assoc, last_snoc.
    by rewrite apply_command_toggled.
Qed.

End BreakToggle.

(** Line 10 of /src/a.c, with a breakpoint on line 12 in the store. *)
Lemma break_toggle_offline_witness :
  let row := set_BREAK_LINE 12 (set_BREAK_FILE (Some "/src/a.c")
               (example_row None "b" None "/src/a.c:12")) in
  let st := with_store [row] breaks_init in
  let st1 := on_break_toggle (H:=ref_host) "/src/a.c" "a.c" 10 1 st in
  BREAK_LOCATION <$> store st1 = [Some "/src/a.c:12"; Some "/src/a.c:10"]
  ∧ store (on_break_toggle (H:=ref_host) "/src/a.c" "a.c" 10 1 st1) = store st.
Proof.
  intros row st st1. split; [reflexivity|].
  refine (proj1 (proj2 (break_toggle_offline (H:=ref_host) "/src/a.c" "a.c" 10 st _))).
  repeat constructor.
Defined.

(** ** break.c: relocation when lines are inserted or deleted *)

Section BreakDelta.

Context `{Host}.

Lemma breaks_delta_rows_active real_path start delta (rows : list BreakRow) :
  fst <$> breaks_delta_rows real_path start delta true rows = Some rows.
Proof.
  induction rows as [|r rows IH]; [done|]. cbn [breaks_delta_rows]. cbv zeta.
  destruct (breaks_delta_rows real_path start delta true rows) as [[rest es]|];
    [|done].
  cbn in IH. injection IH as ->. by case_match.
Qed.

Lemma delta_rows_kept real_path start delta (rows : list BreakRow) :
  let kept := filter (λ r, on_deleted_line real_path start delta r = false) rows in
  let rows' := omap (delta_row real_path start delta) rows in
  BREAK_SCID <$> rows' = BREAK_SCID <$> kept
  ∧ BREAK_ID <$> rows' = BREAK_ID <$> kept
  ∧ BREAK_LINE <$> rows'
    = (λ r, if after_edit real_path start r then (BREAK_LINE r + delta)%Z
            else BREAK_LINE r) <$> kept.
Proof.
  induction rows as [|r rows (IH1 & IH2 & IH3)]; [done|].
  cbn zeta in *. cbn [omap list_omap]. rewrite filter_cons.
  assert (delta_row real_path start delta r
          = if on_deleted_line real_path start delta r then None
            else if after_edit real_path start r then
              Some (if location_has_line (default "" (BREAK_LOCATION r))
                    then break_relocate real_path (BREAK_LINE r + delta) r
                    else set_BREAK_LINE (BREAK_LINE r + delta) r)
            else Some r) as -> by reflexivity.
  destruct (on_deleted_line real_path start delta r); case_decide; try done.
  destruct (after_edit real_path start r) eqn:Ha;
    [destruct (location_has_line (default "" (BREAK_LOCATION r)))|];
    rewrite !fmap_cons, IH1, IH2, IH3, ?Ha; unfold break_relocate; row_simpl;
    repeat split; f_equal; lia.
Qed.

(** X16.  While the program runs [breaks_delta] leaves the rows alone.
    Otherwise, for an edit of a document whose line numbers fit and with a
    location text on every row that is to move, it removes the breakpoints
    of the file that sit on deleted lines and keeps all the others, in
    their order and with their ids: those of the file at or after the edit
    point move by [delta] lines and have the location text rewritten when
    it names a line, the rest stay as they are.  A row that is to move and
    has no location text leaves the call without a result. *)
Theorem breaks_delta_lines (real_path : string) (start delta : Z) (st : Breaks) :
  (∃ st', breaks_delta real_path start delta true st = Some st'
          ∧ store st' = store st)
  ∧ (line_fits start → line_fits delta →
     Forall (λ r, line_fits (BREAK_LINE r)) (store st) →
     (Forall (movable real_path start delta) (store st) →
      let kept := filter (λ r, on_deleted_line real_path start delta r = false)
                    (store st) in
      ∃ st', breaks_delta real_path start delta false st = Some st'
        ∧ store st' = omap (delta_row real_path start delta) (store st)
        ∧ BREAK_SCID <$> store st' = BREAK_SCID <$> kept
        ∧ BREAK_ID <$> store st' = BREAK_ID <$> kept
        ∧ BREAK_LINE <$> store st'
          = (λ r, if after_edit real_path start r then (BREAK_LINE r + delta)%Z
                  else BREAK_LINE r) <$> kept)
     ∧ (¬ Forall (movable real_path start delta) (store st) →
        breaks_delta real_path start delta false st = None)).
Proof.
  split.
  - unfold breaks_delta.
    pose proof (breaks_delta_rows_active real_path start delta (store st)) as Hr.
    destruct (breaks_delta_rows real_path start delta true (store st)) as [[rows es]|];
      [|done].
    cbn in Hr. injection Hr as ->. by eexists.
  - intros Hs Hd Hl. split.
    + intros Hm kept. unfold breaks_delta.
      pose proof (breaks_delta_rows_inactive real_path start delta (store st)
                    Hs Hd Hl Hm) as Hr.
      destruct (breaks_delta_rows real_path start delta false (store st))
        as [[rows es]|]; [|done].
      cbn in Hr. injection Hr as ->. eexists. split; [reflexivity|].
      cbn [store emits with_store]. split; [done|]. apply delta_rows_kept.
    + intros Hm. apply not_Forall_Exists in Hm; [|intros r; unfold movable].
      2:{ destruct (after_edit real_path start r),
                   (on_deleted_line real_path start delta r), (BREAK_LOCATION r);
            first [by left|right; intros Hx; by apply Hx]. }
      apply Exists_exists in Hm as (r & Hin & Hnot). unfold breaks_delta.
      unfold movable in Hnot.
      rewrite (breaks_delta_rows_no_location real_path start delta (store st) r);
        try done.
      * destruct (BREAK_LOCATION r) eqn:Hloc; [|done]. destruct Hnot.
        intros _ _. by rewrite Hloc.
      * by eapply Forall_forall in Hl.
      * destruct (after_edit real_path start r) eqn:Ha; [done|]. destruct Hnot.
        intros Ha'. by rewrite Ha in Ha'.
      * destruct (on_deleted_line real_path start delta r) eqn:Hdel; [|done].
        destruct Hnot. intros _ Hdel'. by rewrite Hdel in Hdel'.
Qed.

End BreakDelta.

(** Breakpoints on the lines 3, 6 and 9 of /src/a.c; the three lines after
    line 4 are deleted. *)
Lemma breaks_delta_lines_witness :
  let row l := set_BREAK_SCID l (set_BREAK_LINE l (set_BREAK_FILE (Some "/src/a.c")
                 (example_row None "b" None "a.c:1"))) in
  let st := with_store [row 3%Z; row 6%Z; row 9%Z] breaks_init in
  ∃ st', breaks_delta (H:=ref_host) "/src/a.c" 4 (- 3) false st = Some st'
    ∧ BREAK_SCID <$> store st' = [3%Z; 9%Z] ∧ BREAK_LINE <$> store st' = [3%Z; 6%Z]
    ∧ BREAK_LOCATION <$> store st' = [Some "a.c:1"; Some "/src/a.c:6"].
Proof.
  intros row st.
  destruct (proj1 (proj2 (breaks_delta_lines (H:=ref_host) "/src/a.c" 4 (- 3) st)
                     ltac:(split; reflexivity) ltac:(split; reflexivity)
                     ltac:(repeat constructor))
              ltac:(repeat constructor; intros _ _; discriminate))
    as (st' & Hst & Hrows & Hscid & _ & Hline).
  exists st'. split; [exact Hst|]. split; [exact Hscid|]. split; [exact Hline|].
  rewrite Hrows. reflexivity.
Defined.

Section BreakDeltaRoundTrip.

Context `{Host}.

Lemma delta_row_round_trip real_path p k r :
  (0 < k)%Z →
  (after_edit real_path p r = true → BREAK_LOCATION r ≠ None) →
  ∃ r1 r2,
    delta_row real_path p k r = Some r1 ∧ delta_row real_path p (- k) r1 = Some r2
    ∧ BREAK_LINE r1 = (if after_edit real_path p r then BREAK_LINE r + k
                       else BREAK_LINE r)%Z
    ∧ movable real_path p (- k) r1
    ∧ back_in_place real_path p r r2.
Proof.
  intros Hk Hloc. unfold delta_row at 1. unfold on_deleted_line.
  assert ((0 <? k)%Z = true) as -> by by apply Z.ltb_lt.
  cbn [orb negb]. rewrite andb_false_r.
  destruct (after_edit real_path p r) eqn:Ha.
  - set (r1 := if location_has_line (default "" (BREAK_LOCATION r)) then _ else _).
    assert (BREAK_LINE r1 = (BREAK_LINE r + k)%Z) as Hl
      by (subst r1; by destruct (location_has_line _)).
    assert (after_edit real_path p r1 = true) as Ha1.
    { unfold after_edit in Ha |- *. rewrite Hl.
      apply andb_prop in Ha as [Ha Hf]. apply andb_prop in Ha as [H0 Hp].
      apply Z.leb_le in H0, Hp.
      rewrite !andb_true_iff, !Z.leb_le. split; [lia|].
      subst r1. destruct (location_has_line _); cbn; [|done].
      apply utils_filenamecmp_refl. }
    assert (on_deleted_line real_path p (- k) r1 = false) as Hd1.
    { unfold on_deleted_line. rewrite Ha1, Hl. cbn [andb].
      apply negb_false_iff, orb_true_iff. right. apply Z.leb_le.
      unfold after_edit in Ha. apply andb_prop in Ha as [Ha _].
      apply andb_prop in Ha as [_ Hp]. apply Z.leb_le in Hp. lia. }
    assert (BREAK_LOCATION r1 ≠ None) as Hloc1.
    { subst r1. destruct (location_has_line _); cbn; [done|by apply Hloc]. }
    exists r1. eexists. split; [done|].
    split; [unfold delta_row; by rewrite Hd1, Ha1|].
    split; [done|]. split; [by intros _ _|].
    unfold back_in_place, same_but_location. rewrite Ha. cbn [andb]. rewrite Hl.
    replace (BREAK_LINE r + k + - k)%Z with (BREAK_LINE r) by lia.
    subst r1. destruct (location_has_line (default "" (BREAK_LOCATION r))) eqn:Hhl.
    + set (r1 := break_relocate real_path (BREAK_LINE r + k) r).
      destruct (location_has_line (default "" (BREAK_LOCATION r1))); subst r1;
        unfold break_relocate; (split; [row_eq|row_simpl; reflexivity]).
    + row_simpl. rewrite Hhl. split; row_eq.
  - exists r, r. split; [done|].
    split; [unfold delta_row, on_deleted_line; by rewrite Ha|].
    split; [done|]. split; [intros Ha'; by rewrite Ha in Ha'|].
    unfold back_in_place. by rewrite Ha.
Qed.

(** X27.  With the program not executing, lines that fit and a location
    text on every row of the file at or after the edit point, [breaks_delta]
    for an insertion of [k] lines followed by [breaks_delta] for the
    deletion of [k] lines at the same point both have a result, and the
    second result has the rows of the start in their places: no row is
    removed and none added, every row is on the line it had, and the rows
    that are not in the file at or after the edit point, or whose location
    text names no line, are the rows they were.  Of the others the file,
    the display text and the location text have been rewritten, for the
    file [real_path]. *)
Theorem breaks_delta_insert_delete (real_path : string) (start k : Z) (st : Breaks) :
  (0 < k)%Z → line_fits start → line_fits k →
  Forall (λ r, line_fits (BREAK_LINE r) ∧ line_fits (BREAK_LINE r + k)) (store st) →
  Forall (λ r, after_edit real_path start r = true → BREAK_LOCATION r ≠ None)
    (store st) →
  ∃ st1 st2,
    breaks_delta real_path start k false st = Some st1
    ∧ breaks_delta real_path start (- k) false st1 = Some st2
    ∧ Forall2 (back_in_place real_path start) (store st) (store st2)
    ∧ BREAK_LINE <$> store st2 = BREAK_LINE <$> store st
    ∧ scid_gen st2 = scid_gen st.
Proof.
  intros Hk Hs Hfk Hl Hloc.
  assert (∃ rows1 rows2,
            omap (delta_row real_path start k) (store st) = rows1
            ∧ omap (delta_row real_path start (- k)) rows1 = rows2
            ∧ Forall (λ r, line_fits (BREAK_LINE r)) rows1
            ∧ Forall (movable real_path start (- k)) rows1
            ∧ Forall2 (back_in_place real_path start) (store st) rows2)
    as (rows1 & rows2 & H1 & H2 & Hl1 & Hm1 & Hback).
  { clear Hs. induction (store st) as [|r rows IH].
    { exists [], []. repeat split; constructor. }
    apply Forall_cons in Hl as [[Hr Hrk] Hl]. apply Forall_cons in Hloc as [Hrloc Hloc].
    destruct (IH Hl Hloc) as (rows1 & rows2 & E1' & E2' & Hl1 & Hm1 & Hback).
    destruct (delta_row_round_trip real_path start k r Hk Hrloc)
      as (r1 & r2 & E1 & E2 & Hline & Hmov & Hb).
    exists (r1 :: rows1), (r2 :: rows2). cbn [omap list_omap].
    rewrite E1, E1'. cbn [omap list_omap]. rewrite E2, E2'.
    split; [reflexivity|]. split; [reflexivity|].
    split; [|split; [|by constructor]]; constructor; try done.
    rewrite Hline. by destruct (after_edit real_path start r). }
  assert (line_fits (- k)) as Hfk' by (unfold line_fits in *; lia).
  assert (Forall (movable real_path start k) (store st)) as Hm.
  { eapply Forall_impl; [exact Hloc|]. intros r Hr Ha _. by apply Hr. }
  assert (Forall (λ r, line_fits (BREAK_LINE r)) (store st)) as Hl0.
  { eapply Forall_impl; [exact Hl|]. by intros r [? _]. }
  pose proof (breaks_delta_rows_inactive real_path start k (store st) Hs Hfk Hl0 Hm)
    as E1.
  pose proof (breaks_delta_rows_inactive real_path start (- k) rows1 Hs Hfk' Hl1 Hm1)
    as E2.
  rewrite H1 in E1. rewrite H2 in E2.
  unfold breaks_delta.
  destruct (breaks_delta_rows real_path start k false (store st)) as [[rows1' es1]|];
    [|done].
  cbn in E1. injection E1 as ->.
  exists (emits es1 (with_store rows1 st)). cbn [store emits with_store].
  destruct (breaks_delta_rows real_path start (- k) false rows1) as [[rows2' es2]|];
    [|done].
  cbn in E2. injection E2 as ->.
  eexists. split; [reflexivity|]. split; [reflexivity|].
  cbn [store scid_gen emits with_store]. split; [done|]. split; [|done].
  clear -Hback. induction Hback as [|r r2 l l2 [Hsame _] _ IH]; [done|].
  rewrite !fmap_cons, IH. f_equal.
  unfold same_but_location in Hsame.
  by apply (f_equal BREAK_LINE) in Hsame.
Qed.

End BreakDeltaRoundTrip.

(** A breakpoint on line 10 of /src/a.c whose location text is the
    relative a.c:10, three lines inserted at line index 4 and deleted
    again: the breakpoint is on line 10, its location text now carries the
    full path. *)
Lemma breaks_delta_insert_delete_witness :
  let row := set_BREAK_LINE 10 (set_BREAK_FILE (Some "/src/a.c")
               (example_row None "b" None "a.c:10")) in
  let st := with_store [row] breaks_init in
  ∃ st1 st2,
    breaks_delta (H:=ref_host) "/src/a.c" 4 3 false st = Some st1
    ∧ breaks_delta (H:=ref_host) "/src/a.c" 4 (- 3) false st1 = Some st2
    ∧ BREAK_LINE <$> store st2 = [10%Z]
    ∧ BREAK_LOCATION <$> store st2 = [Some "/src/a.c:10"].
Proof.
  intros row st.
  destruct (breaks_delta_insert_delete (H:=ref_host) "/src/a.c" 4 3 st
              ltac:(reflexivity) ltac:(split; reflexivity) ltac:(split; reflexivity)
              ltac:(repeat constructor) ltac:(repeat constructor; discriminate))
    as (st1 & st2 & E1 & E2 & _ & Hline & _).
  exists st1, st2. split; [exact E1|]. split; [exact E2|]. split; [exact Hline|].
  vm_compute in E1. injection E1 as <-. vm_compute in E2. injection E2 as <-.
  reflexivity.
Defined.

(** ** thread.c: threads and their groups *)

Lemma find_thread_group_same g t :
  same_threads t (find_thread_group g t).2
  ∧ gdb_thread (find_thread_group g t).2 = gdb_thread t
  ∧ (find_thread_group g t).1 = snd <$> list_find (λ grp, gid grp = g) (thread_groups t).
Proof. unfold find_thread_group, same_threads. by repeat case_match. Qed.

Lemma find_thread_same tid t :
  same_threads t (find_thread tid t).2
  ∧ gdb_thread (find_thread tid t).2 = gdb_thread t
  ∧ (find_thread tid t).1 = fst <$> list_find (λ r, THREAD_ID r = tid) (thread_store t).
Proof. unfold find_thread, same_threads. by repeat case_match. Qed.

Lemma set_gdb_thread_same tid sel t :
  same_threads t (set_gdb_thread tid sel t)
  ∧ gdb_thread (set_gdb_thread tid sel t) = tid.
Proof.
  unfold set_gdb_thread. destruct sel; [|done].
  destruct (find_thread_same tid (set_gdb_thread_var tid t)) as ((?&?&?&?&?) & ? & _).
  destruct (find_thread tid (set_gdb_thread_var tid t)) as [[i|] t']; by cbn in *.
Qed.

(** The row [on_thread_created] appends. *)
Lemma on_thread_created_store prefs nodes b t tid :
  parse_find_value nodes "id" = Some tid →
  thread_store (on_thread_created prefs nodes (b, t)).2
  = thread_store t
    ++ [match parse_find_value nodes "group-id" with
        | Some g =>
            new_thread_row tid (Some g)
              ((snd <$> list_find (λ grp, gid grp = g) (thread_groups t)) ≫= pid)
        | None => new_thread_row tid None None
        end]
  ∧ thread_count (on_thread_created prefs nodes (b, t)).2 = guint (thread_count t + 1)
  ∧ thread_groups (on_thread_created prefs nodes (b, t)).2 = thread_groups t
  ∧ thread_prompt (on_thread_created prefs nodes (b, t)).2 = thread_prompt t
  ∧ thread_id (on_thread_created prefs nodes (b, t)).2 = thread_id t
  ∧ (on_thread_created prefs nodes (b, t)).1
    = if bool_decide (thread_count t = 0%Z) then breaks_reset b else b.
Proof.
  intros Htid. unfold on_thread_created. rewrite Htid. cbv zeta.
  set (bt := if bool_decide (thread_count t = 0%Z) then _ else _).
  assert (bt.1 = (if bool_decide (thread_count t = 0%Z) then breaks_reset b else b)
          ∧ thread_store bt.2 = thread_store t ∧ thread_groups bt.2 = thread_groups t
          ∧ thread_count bt.2 = guint (thread_count t + 1)
          ∧ thread_prompt bt.2 = thread_prompt t
          ∧ thread_id bt.2 = thread_id t) as (Hb & Hs & Hg & Hc & Hp & Hi)
    by (subst bt; by case_bool_decide).
  destruct bt as [b2 t2]. cbn [fst snd] in *.
  set (t3 := thread_emits _ (set_thread_store _ t2)).
  assert (thread_store t3 = thread_store t ++ [new_thread_row tid None None]
          ∧ thread_groups t3 = thread_groups t ∧ thread_count t3 = guint (thread_count t + 1)
          ∧ thread_prompt t3 = thread_prompt t ∧ thread_id t3 = thread_id t)
    as (Hs3 & Hg3 & Hc3 & Hp3 & Hi3) by (subst t3; cbn; by rewrite Hs).
  assert (length (thread_store t2) = length (thread_store t)) as Hlen by (by rewrite Hs).
  clearbody t3.
  set (t4 := match parse_find_value nodes "group-id" with
             | Some g => _
             | None => t3
             end).
  assert (thread_store t4
          = thread_store t
            ++ [match parse_find_value nodes "group-id" with
                | Some g =>
                    new_thread_row tid (Some g)
                      ((snd <$> list_find (λ grp, gid grp = g) (thread_groups t)) ≫= pid)
                | None => new_thread_row tid None None
                end]
          ∧ thread_groups t4 = thread_groups t
          ∧ thread_count t4 = guint (thread_count t + 1)
          ∧ thread_prompt t4 = thread_prompt t ∧ thread_id t4 = thread_id t)
    as (Hs4 & Hg4 & Hc4 & Hp4 & Hi4).
  { subst t4. destruct (parse_find_value nodes "group-id") as [g|]; [|done].
    destruct (find_thread_group_same g t3) as ((Hg' & Hs' & Hc' & Hp' & Hi') & _ & Hf').
    destruct (find_thread_group g t3) as [group t5]. cbn [fst snd] in *.
    cbn [thread_store thread_groups thread_count thread_prompt thread_id set_thread_store].
    rewrite Hs', Hs3, Hlen, (alter_middle _ _ []) by done.
    by rewrite Hf', Hg', Hg3, Hc', Hp', Hi'. }
  clearbody t4. cbn [fst snd].
  destruct (set_gdb_thread_same (Some tid) true t4) as ((?&?&?&?&?) & _).
  destruct (bool_decide (thread_count t4 = 1%Z)); cbn [fst snd];
    repeat split; congruence.
Qed.

Lemma auto_select_thread_same prefs t :
  same_threads t (auto_select_thread prefs t)
  ∧ gdb_thread (auto_select_thread prefs t) = gdb_thread t.
Proof. unfold auto_select_thread, same_threads. by repeat case_match. Qed.

(** The row [on_thread_exited] removes. *)
Lemma on_thread_exited_store prefs nodes b t tid :
  parse_find_value nodes "id" = Some tid →
  let res := on_thread_exited prefs nodes (b, t) in
  res.1 = b
  ∧ thread_groups res.2 = thread_groups t
  ∧ thread_id res.2 = thread_id t
  ∧ thread_count res.2
    = (if bool_decide (thread_count t = 0%Z) then 0%Z else guint (thread_count t - 1))
  ∧ match list_find (λ r, THREAD_ID r = Some tid) (thread_store t) with
    | Some (i, r) =>
        thread_store res.2 = delete i (thread_store t)
        ∧ thread_prompt res.2
          = guint (thread_prompt t
                   - if bool_decide (THREAD_STATE r = STOPPED prefs) then 1 else 0)
    | None => thread_store res.2 = thread_store t ∧ thread_prompt res.2 = thread_prompt t
    end.
Proof.
  intros Htid res. subst res. unfold on_thread_exited. rewrite Htid. cbv zeta.
  set (t1 := if bool_decide (Some tid = gdb_thread t) then _ else t).
  assert (same_threads t t1) as (Hg1 & Hs1 & Hc1 & Hp1 & Hi1).
  { subst t1. case_bool_decide; [|done]. apply set_gdb_thread_same. }
  clearbody t1.
  destruct (find_thread_same (Some tid) t1) as ((Hg2 & Hs2 & Hc2 & Hp2 & Hi2) & _ & Hf).
  destruct (find_thread (Some tid) t1) as [found t2]. cbn [fst snd] in *.
  rewrite Hs1 in Hf.
  set (t3 := match found with Some i => _ | None => t2 end).
  assert (thread_groups t3 = thread_groups t ∧ thread_id t3 = thread_id t
          ∧ thread_count t3 = thread_count t
          ∧ match list_find (λ r, THREAD_ID r = Some tid) (thread_store t) with
            | Some (i, r) =>
                thread_store t3 = delete i (thread_store t)
                ∧ thread_prompt t3
                  = guint (thread_prompt t
                           - if bool_decide (THREAD_STATE r = STOPPED prefs) then 1 else 0)
            | None => thread_store t3 = thread_store t ∧ thread_prompt t3 = thread_prompt t
            end) as (Hg3 & Hi3 & Hc3 & Hrow).
  { subst t3.
    destruct (list_find (λ r, THREAD_ID r = Some tid) (thread_store t)) as [[i r]|] eqn:Hfind;
      cbn in Hf; subst found; [|repeat split; congruence].
    apply list_find_Some in Hfind as (Hr & _ & _).
    rewrite Hs2, Hs1, Hr.
    set (t4 := set_thread_store _ (thread_iter_unmark_exit prefs r t2)).
    assert (thread_groups t4 = thread_groups t ∧ thread_id t4 = thread_id t
            ∧ thread_count t4 = thread_count t
            ∧ thread_store t4 = delete i (thread_store t)
            ∧ thread_prompt t4
              = guint (thread_prompt t
                       - if bool_decide (THREAD_STATE r = STOPPED prefs) then 1 else 0))
      as (? & ? & ? & ? & ?).
    { subst t4. unfold thread_iter_unmark_exit. cbn. rewrite Hs2, Hs1, Hp2, Hp1.
      repeat split; congruence. }
    clearbody t4.
    destruct (auto_select_thread_same prefs t4) as ((?&?&?&?&?) & _).
    destruct (bool_decide (Some tid = thread_id t2) && thread_select_on_exited prefs);
      repeat split; congruence. }
  clearbody t3. rewrite Hc3.
  destruct (bool_decide (thread_count t = 0%Z)) eqn:Hz; cbn [fst snd].
  - apply bool_decide_eq_true in Hz.
    split; [done|]. split; [done|]. split; [done|]. split; [cbn; congruence|].
    destruct (list_find _ _) as [[i r]|]; done.
  - cbn [set_thread_count thread_count].
    destruct (bool_decide (guint (thread_count t - 1) = 0%Z)); cbn [fst snd];
      (split; [done|]; split; [done|]; split; [done|]; split; [done|]);
      destruct (list_find _ _) as [[i r]|]; done.
Qed.

Lemma list_find_app_fresh {A} (P : A → Prop) `{∀ x, Decision (P x)} (l : list A) (x : A) :
  Forall (λ y, ¬ P y) l → P x → list_find P (l ++ [x]) = Some (length l, x).
Proof.
  intros Hl Hx. apply list_find_Some. split; [by apply list_lookup_middle|].
  split; [done|]. intros j y Hj Hlt.
  rewrite lookup_app_l in Hj by done.
  eapply Forall_forall in Hl; [done|]. by eapply list_elem_of_lookup_2.
Qed.

(** X17.  A thread that is created and exits again leaves the thread store,
    the live-thread counter and the groups as they were, provided no row had
    its id before; the row in between is blank, with the group's pid.  The
    creation of the first live thread resets the hit count of every
    breakpoint, any other leaves the breakpoints alone. *)
Theorem thread_created_exited (prefs : ThreadPrefs) (created exited : list ParseNode)
    (tid : string) (w : Breaks * Threads) :
  parse_find_value created "id" = Some tid → parse_find_value exited "id" = Some tid →
  Forall (λ r, THREAD_ID r ≠ Some tid) (thread_store w.2) →
  (0 ≤ thread_count w.2 < guint_max - 1)%Z → STOPPED prefs ≠ "" →
  let w1 := on_thread_created prefs created w in
  let w2 := on_thread_exited prefs exited w1 in
  (∃ row, thread_store w1.2 = thread_store w.2 ++ [row] ∧ THREAD_ID row = Some tid
          ∧ THREAD_STATE row = "" ∧ THREAD_FILE row = None)
  ∧ w1.1 = (if bool_decide (thread_count w.2 = 0%Z) then breaks_reset w.1 else w.1)
  ∧ thread_store w2.2 = thread_store w.2
  ∧ thread_count w2.2 = thread_count w.2
  ∧ thread_groups w2.2 = thread_groups w.2
  ∧ thread_prompt w2.2 = guint (thread_prompt w.2)
  ∧ w2.1 = w1.1.
Proof.
  intros Hc He Hfresh Hcount Hstop w1 w2. destruct w as [b t]. cbn [fst snd] in *.
  destruct (on_thread_created_store prefs created b t tid Hc)
    as (Hs1 & Hc1 & Hg1 & Hp1 & Hi1 & Hb1).
  fold w1 in Hs1, Hc1, Hg1, Hp1, Hi1, Hb1.
  set (row := match parse_find_value created "group-id" with
              | Some g => _
              | None => _
              end) in Hs1.
  assert (THREAD_ID row = Some tid ∧ THREAD_STATE row = "" ∧ THREAD_FILE row = None)
    as (Hrid & Hrst & Hrfile)
    by (unfold row; by destruct (parse_find_value created "group-id")).
  split; [by exists row|]. split; [done|].
  destruct w1 as [b1 t1]. cbn [fst snd] in *.
  destruct (on_thread_exited_store prefs exited b1 t1 tid He)
    as (Hb2 & Hg2 & Hi2 & Hc2 & Hrow).
  fold w2 in Hb2, Hg2, Hi2, Hc2, Hrow.
  rewrite Hs1 in Hrow. rewrite (list_find_app_fresh _ _ row) in Hrow by done.
  destruct Hrow as [Hs2 Hp2].
  rewrite (delete_middle _ []), app_nil_r in Hs2.
  assert (guint (thread_count t + 1) = (thread_count t + 1)%Z) as Hsmall
    by (unfold guint; apply Z.mod_small; lia).
  repeat split; try congruence.
  - rewrite Hc2, Hc1, Hsmall. rewrite bool_decide_eq_false_2 by lia.
    replace (thread_count t + 1 - 1)%Z with (thread_count t) by lia.
    unfold guint. apply Z.mod_small. lia.
  - rewrite Hp2, Hrst, Hp1. rewrite bool_decide_eq_false_2 by done.
    by rewrite Z.sub_0_r.
Qed.

(** The first thread of a session, with one breakpoint that was hit twice. *)
Lemma thread_created_exited_witness :
  let b := with_store [set_BREAK_TIMES 2 (example_row (Some "1") "b" None "f")] breaks_init in
  let w1 := on_thread_created example_prefs (created_nodes "1" None) (b, threads_init) in
  let w2 := on_thread_exited example_prefs (created_nodes "1" None) w1 in
  BREAK_TIMES <$> store w1.1 = [0%Z]
  ∧ thread_store w2.2 = [] ∧ thread_count w2.2 = 0%Z.
Proof.
  intros b w1 w2. split; [reflexivity|].
  destruct (thread_created_exited example_prefs (created_nodes "1" None)
              (created_nodes "1" None) "1" (b, threads_init) eq_refl eq_refl
              (Forall_nil_2 _) ltac:(split; [reflexivity|reflexivity]) ltac:(discriminate))
    as (_ & _ & Hs & Hc & _).
  split; [exact Hs | exact Hc].
Defined.

(** ** thread.c: thread groups *)

Lemma set_thread_group_pid_find g p groups grp i :
  list_find (λ grp, gid grp = g) groups = Some (i, grp) →
  list_find (λ grp, gid grp = g) (set_thread_group_pid g p groups)
  = Some (i, {| gid := gid grp; pid := p |}).
Proof.
  revert i. induction groups as [|group rest IH]; intros i Hf; [done|].
  cbn [set_thread_group_pid]. cbn [list_find] in Hf.
  case_bool_decide as Hg.
  - rewrite decide_True in Hf by done. injection Hf as <- <-.
    cbn [list_find]. by rewrite decide_True.
  - rewrite decide_False in Hf by done.
    destruct (list_find _ rest) as [[j grp']|] eqn:Hrest; [|done].
    cbn in Hf. injection Hf as <- <-.
    cbn [list_find]. rewrite decide_False by done. by rewrite (IH j eq_refl).
Qed.

Lemma remove_thread_group_fresh g groups group :
  Forall (λ grp, gid grp ≠ g) groups → gid group = g →
  remove_thread_group g (groups ++ [group]) = groups.
Proof.
  intros Hf Hg. induction Hf as [|grp rest Hgrp _ IH].
  - cbn. by rewrite bool_decide_eq_true_2.
  - cbn [app remove_thread_group]. rewrite bool_decide_eq_false_2 by done. by rewrite IH.
Qed.

Lemma set_thread_groups_same t : set_thread_groups (thread_groups t) t = t.
Proof. by destruct t. Qed.

(** X18.  The pid a thread group reports when it starts is kept with the
    group and given to every thread created in the group afterwards; when
    the group exits the pid is dropped, and a thread created in the group
    after that gets none.  The status bar names the group by its pid both
    times; an exit that reports an exit code adds the code to the text and,
    where the preference asks for it, shows the terminal. *)
Theorem thread_group_pid (prefs : ThreadPrefs) (show : bool)
    (started exited created : list ParseNode) (g p tid : string) (b : Breaks)
    (t : Threads) :
  parse_lead_value started = Some g → parse_find_value started "pid" = Some p →
  parse_lead_value exited = Some g →
  parse_find_value created "id" = Some tid →
  parse_find_value created "group-id" = Some g →
  (∃ group, group ∈ thread_groups t ∧ gid group = g) →
  ∃ t1 t2,
    on_thread_group_started started t = Some (t1, "Thread group " +:+ p +:+ " started.")
    ∧ last (thread_store (on_thread_created prefs created (b, t1)).2)
      = Some (new_thread_row tid (Some g) (Some p))
    ∧ on_thread_group_exited show exited t1
      = Some (t2, "Thread group " +:+ p +:+ " exited"
                  +:+ match parse_find_value exited "exit-code" with
                      | Some code => " with exit code " +:+ code
                      | None => ""
                      end +:+ ".")
    ∧ last (thread_store (on_thread_created prefs created (b, t2)).2)
      = Some (new_thread_row tid (Some g) None)
    ∧ thread_log t2
      = thread_log t
        ++ match parse_find_value exited "exit-code" with
           | Some _ => if show then [terminal_standalone true] else []
           | None => []
           end.
Proof.
  intros Hlead Hpid Hlead' Htid Hgid (group & Hin & Hg).
  assert (∃ i grp, list_find (λ grp, gid grp = g) (thread_groups t) = Some (i, grp))
    as (i & grp & Hfind).
  { destruct (list_find (λ grp, gid grp = g) (thread_groups t)) as [[i grp]|] eqn:Hf;
      [by eauto|].
    eapply list_find_None, Forall_forall in Hf; [|exact Hin]. done. }
  assert (find_thread_group g t = (Some grp, t)) as Hft
    by (unfold find_thread_group; by rewrite Hfind).
  set (t1 := set_thread_groups (set_thread_group_pid g (Some p) (thread_groups t)) t).
  set (t2 := set_thread_groups (set_thread_group_pid g None (thread_groups t1)) t1).
  exists t1,
    (match parse_find_value exited "exit-code" with
     | Some _ => if show then thread_emits [terminal_standalone true] t2 else t2
     | None => t2
     end).
  assert (list_find (λ grp, gid grp = g) (thread_groups t1)
          = Some (i, {| gid := gid grp; pid := Some p |})) as Hfind1
    by (by apply set_thread_group_pid_find).
  assert (list_find (λ grp, gid grp = g) (thread_groups t2)
          = Some (i, {| gid := gid grp; pid := None |})) as Hfind2
    by (by apply (set_thread_group_pid_find g None _ _ _ Hfind1)).
  split; [|split; [|split; [|split]]].
  - unfold on_thread_group_started. by rewrite Hlead, Hpid, Hft.
  - destruct (on_thread_created_store prefs created b t1 tid Htid) as (-> & _).
    by rewrite last_snoc, Hgid, Hfind1.
  - unfold on_thread_group_exited. rewrite Hlead'.
    unfold find_thread_group. rewrite Hfind1. cbn [mbind option_bind pid].
    fold t2. destruct (parse_find_value exited "exit-code") as [code|];
      by rewrite ?str_app_assoc, ?str_app_nil_l.
  - set (t2' := match parse_find_value exited "exit-code" with
                | Some _ => if show then thread_emits [terminal_standalone true] t2 else t2
                | None => t2
                end).
    assert (thread_groups t2' = thread_groups t2) as Hgr
      by (subst t2'; by destruct (parse_find_value exited "exit-code"), show).
    destruct (on_thread_created_store prefs created b t2' tid Htid) as (-> & _).
    by rewrite last_snoc, Hgid, Hgr, Hfind2.
  - destruct (parse_find_value exited "exit-code"), show; cbn; by rewrite ?app_nil_r.
Qed.

(** X19.  A thread group that is added and removed again leaves the groups
    as they were, when no group had its id before; removing a group that is
    not known is reported and changes nothing else. *)
Theorem thread_group_added_removed (nodes : list ParseNode) (g : string) (t : Threads) :
  parse_lead_value nodes = Some g →
  Forall (λ grp, gid grp ≠ g) (thread_groups t) →
  (∃ t1, on_thread_group_added nodes t = Some t1
         ∧ thread_groups t1 = thread_groups t ++ [{| gid := g; pid := None |}]
         ∧ on_thread_group_removed nodes t1 = Some t)
  ∧ on_thread_group_removed nodes t
    = Some (thread_emits [dc_error (g +:+ ": gid not found")] t).
Proof.
  intros Hlead Hfresh. split.
  - eexists. split; [by unfold on_thread_group_added; rewrite Hlead|].
    split; [done|]. unfold on_thread_group_removed. rewrite Hlead.
    unfold find_thread_group. cbn [thread_groups set_thread_groups].
    rewrite (list_find_app_fresh _ _ {| gid := g; pid := None |}) by done.
    cbn [thread_groups set_thread_groups].
    rewrite remove_thread_group_fresh by done. by destruct t.
  - unfold on_thread_group_removed. rewrite Hlead. unfold find_thread_group.
    assert (list_find (λ grp, gid grp = g) (thread_groups t) = None) as ->
      by (by apply list_find_None).
    done.
Qed.

(** Group i1 with the process 4711, thread 1 created in it, and the exit
    of the group with the exit code 01. *)
Lemma thread_group_pid_witness :
  let t := set_thread_groups [{| gid := "i1"; pid := None |}] threads_init in
  let started := [PT_VALUE "id" "i1"; PT_VALUE "pid" "4711"] in
  let exited := [PT_VALUE "id" "i1"; PT_VALUE "exit-code" "01"] in
  ∃ t1 t2,
    on_thread_group_started started t = Some (t1, "Thread group 4711 started.")
    ∧ last (thread_store (on_thread_created example_prefs (created_nodes "1" (Some "i1"))
                            (breaks_init, t1)).2)
      = Some (new_thread_row "1" (Some "i1") (Some "4711"))
    ∧ on_thread_group_exited true exited t1
      = Some (t2, "Thread group 4711 exited with exit code 01.")
    ∧ thread_log t2 = [terminal_standalone true].
Proof.
  intros t started exited.
  destruct (thread_group_pid example_prefs true started exited
              (created_nodes "1" (Some "i1")) "i1" "4711" "1" breaks_init t
              eq_refl eq_refl eq_refl eq_refl eq_refl)
    as (t1 & t2 & Hstart & Hrow & Hexit & _ & Hlog).
  - exists {| gid := "i1"; pid := None |}. split; [|reflexivity].
    apply list_elem_of_singleton. reflexivity.
  - exists t1, t2. split; [exact Hstart|]. split; [exact Hrow|].
    split; [exact Hexit | exact Hlog].
Defined.

(** Group i2 added to the group i1. *)
Lemma thread_group_added_removed_witness :
  let t := set_thread_groups [{| gid := "i1"; pid := None |}] threads_init in
  ∃ t1, on_thread_group_added [PT_VALUE "id" "i2"] t = Some t1
        ∧ thread_groups t1 = [{| gid := "i1"; pid := None |}; {| gid := "i2"; pid := None |}]
        ∧ on_thread_group_removed [PT_VALUE "id" "i2"] t1 = Some t.
Proof.
  intros t.
  refine (proj1 (thread_group_added_removed [PT_VALUE "id" "i2"] "i2" t eq_refl _)).
  apply Forall_singleton. discriminate.
Defined.

(** ** thread.c: teardown and synchronisation *)

Lemma guint_sub_guint a b : guint (guint a - b) = guint (a - b).
Proof. unfold guint. apply Zminus_mod_idemp_l. Qed.

Lemma threads_unmark_all prefs rows : ∀ t,
  let t' := foldl (λ t r, thread_iter_unmark_exit prefs r t) t rows in
  thread_id t' = thread_id t
  ∧ guint (thread_prompt t')
    = guint (thread_prompt t - Z.of_nat (length (stopped_rows prefs rows))).
Proof.
  induction rows as [|r rows IH]; intros t.
  - cbn. by rewrite Z.sub_0_r.
  - cbn [foldl]. cbv zeta.
    destruct (IH (thread_iter_unmark_exit prefs r t)) as (Hi & Hp).
    rewrite Hi, Hp. unfold stopped_rows. rewrite filter_cons.
    split; [done|]. unfold thread_iter_unmark_exit.
    cbn [thread_prompt thread_emits set_thread_prompt].
    rewrite guint_sub_guint. f_equal.
    case_bool_decide; [rewrite decide_True by done|rewrite decide_False by done];
      cbn [length]; lia.
Qed.

(** X20.  [threads_clear] empties the thread store and the groups, sets the
    live-thread counter to 0 and forgets the thread the debugger had
    selected; the prompt counter goes down by the number of stopped threads;
    and the next thread that is created starts a session anew. *)
Theorem threads_clear_resets (prefs : ThreadPrefs) (nodes : list ParseNode) (b : Breaks)
    (t : Threads) :
  let t' := threads_clear prefs t in
  thread_store t' = [] ∧ thread_groups t' = [] ∧ thread_count t' = 0%Z
  ∧ gdb_thread t' = None
  ∧ guint (thread_prompt t')
    = guint (thread_prompt t - Z.of_nat (length (stopped_rows prefs (thread_store t))))
  ∧ startups (step_effects prefs (thread_created nodes) (b, t')) = 1%nat.
Proof.
  intros t'.
  destruct (threads_unmark_all prefs (thread_store t) t) as (Hi & Hp).
  assert (thread_count t' = 0%Z) as Hc by done.
  repeat split; try done.
  destruct (thread_step_edge prefs (thread_created nodes) (b, t')) as (_ & -> & _).
  - cbn [snd]. rewrite Hc. done.
  - cbn [is_created andb snd]. by rewrite Hc.
Qed.

(** X21.  [thread_synchronize] asks the debugger to select the thread
    selected in the list exactly when it is not the thread the debugger has
    selected; once the debugger has reported that thread selected, nothing is
    sent. *)
Theorem thread_synchronize_selected (follow : bool) (nodes : list ParseNode)
    (tid : string) (t : Threads) :
  thread_id t = Some tid →
  (gdb_thread t ≠ Some tid →
   thread_synchronize t = thread_emits [debug_send ("04-thread-select " +:+ tid)] t)
  ∧ (gdb_thread t = Some tid → thread_synchronize t = t)
  ∧ (parse_lead_value nodes = Some tid →
     thread_synchronize (on_thread_selected follow nodes t)
     = on_thread_selected follow nodes t).
Proof.
  intros Hid. unfold thread_synchronize. split; [|split].
  - intros Hg. rewrite Hid. by rewrite bool_decide_eq_true_2 by congruence.
  - intros Hg. rewrite Hid. by rewrite bool_decide_eq_false_2 by (rewrite Hg; auto).
  - intros Hlead. unfold on_thread_selected. rewrite Hlead.
    destruct (set_gdb_thread_same (Some tid) follow t) as ((_ & _ & _ & _ & Hi) & Hg).
    rewrite Hi, Hid, Hg. by rewrite bool_decide_eq_false_2 by auto.
Qed.

(** Thread 2 selected in the list while the debugger is on thread 1. *)
Lemma thread_synchronize_selected_witness :
  let t := {| thread_groups := []; thread_store := []; thread_count := 2;
              thread_id := Some "2"; thread_prompt := 0; gdb_thread := Some "1";
              thread_log := [] |} in
  thread_log (thread_synchronize t) = [debug_send "04-thread-select 2"]
  ∧ thread_log (thread_synchronize (on_thread_selected false [PT_VALUE "new-thread-id" "2"] t))
    = [].
Proof.
  intros t.
  destruct (thread_synchronize_selected false [PT_VALUE "new-thread-id" "2"] "2" t eq_refl)
    as (Hsend & _ & Hquiet).
  split.
  - rewrite Hsend by discriminate. reflexivity.
  - rewrite Hquiet by reflexivity. reflexivity.
Defined.

(** ** thread.c: running and stopped threads *)

Lemma guint_guint z : guint (guint z) = guint z.
Proof. unfold guint. by apply Z.mod_mod. Qed.

Lemma guint_add_guint a b : guint (guint a + b) = guint (a + b).
Proof. unfold guint. apply Zplus_mod_idemp_l. Qed.

Lemma alter_lookup_None {A} (f : A → A) (l : list A) (i : nat) :
  l !! i = None → alter f i l = l.
Proof. intros Hl. apply alter_ge. by apply lookup_ge_None. Qed.

Section ThreadReports.

Context `{Host} {states : ThreadStates} (o : ThreadOptions).

Lemma threads_kept_refl t : threads_kept (thread_prefs o) t t.
Proof. by repeat split. Qed.

Lemma threads_kept_trans t1 t2 t3 :
  threads_kept (thread_prefs o) t1 t2 → threads_kept (thread_prefs o) t2 t3 →
  threads_kept (thread_prefs o) t1 t3.
Proof.
  intros (Hp1 & Hi1 & Hc1 & Hg1) (Hp2 & Hi2 & Hc2 & Hg2).
  split; [auto|]. split; [congruence|]. split; congruence.
Qed.

Lemma threads_kept_same t t' :
  thread_store t' = thread_store t → thread_prompt t' = thread_prompt t →
  thread_count t' = thread_count t → thread_groups t' = thread_groups t →
  threads_kept (thread_prefs o) t t'.
Proof.
  intros Hs Hp Hc Hg. unfold threads_kept, prompt_counts.
  rewrite Hs, Hp. by repeat split.
Qed.

Lemma threads_kept_emits es t : threads_kept (thread_prefs o) t (thread_emits es t).
Proof. by apply threads_kept_same. Qed.

Lemma stopped_rows_alter (rows : list ThreadRow) (i : nat) r (f : ThreadRow → ThreadRow) :
  rows !! i = Some r →
  Z.of_nat (length (stopped_rows (thread_prefs o) (alter f i rows)))
  = (Z.of_nat (length (stopped_rows (thread_prefs o) rows))
     + stopped_z (thread_prefs o) (f r) - stopped_z (thread_prefs o) r)%Z.
Proof.
  intros Hl. apply list_elem_of_split_length in Hl as (l1 & l2 & -> & ->).
  rewrite alter_middle by done. unfold stopped_rows, stopped_z.
  rewrite !filter_app, !filter_cons, !length_app.
  do 2 case_bool_decide.
  - rewrite !decide_True by done. cbn [length]. lia.
  - rewrite decide_True, decide_False by done. cbn [length]. lia.
  - rewrite decide_False, decide_True by done. cbn [length]. lia.
  - rewrite !decide_False by done. lia.
Qed.

Lemma thread_ids_alter (rows : list ThreadRow) (i : nat) r (f : ThreadRow → ThreadRow) :
  rows !! i = Some r → THREAD_ID (f r) = THREAD_ID r →
  THREAD_ID <$> alter f i rows = THREAD_ID <$> rows.
Proof.
  intros Hl Hid. apply list_elem_of_split_length in Hl as (l1 & l2 & -> & ->).
  rewrite alter_middle by done. rewrite !fmap_app, !fmap_cons. by rewrite Hid.
Qed.

(** A handler that rewrites one row and moves the prompt counter by the
    change of that row. *)
Lemma threads_kept_row t t' i r (f : ThreadRow → ThreadRow) d :
  thread_store t !! i = Some r →
  thread_store t' = alter f i (thread_store t) →
  (prompt_counts (thread_prefs o) t → thread_prompt t' = guint (thread_prompt t + d)) →
  d = (stopped_z (thread_prefs o) (f r) - stopped_z (thread_prefs o) r)%Z →
  THREAD_ID (f r) = THREAD_ID r →
  thread_count t' = thread_count t → thread_groups t' = thread_groups t →
  threads_kept (thread_prefs o) t t'.
Proof.
  intros Hl Hs Hp -> Hid Hc Hg. split; [|split; [|done]].
  - intros Hpc. unfold prompt_counts. rewrite (Hp Hpc), Hs.
    rewrite (stopped_rows_alter _ _ r) by done.
    rewrite Hpc, guint_add_guint. f_equal. lia.
  - rewrite Hs. by apply thread_ids_alter with r.
Qed.

Lemma kept_find_thread tid e : engine_kept o e (te_find_thread tid e).2.
Proof.
  unfold engine_kept. unfold te_find_thread, find_thread.
  destruct (list_find _ _) as [[i r]|]; cbn [snd te_with te_threads].
  - apply threads_kept_refl.
  - apply threads_kept_emits.
Qed.

Lemma thread_iter_unmark_fields gdata r t :
  let t' := thread_iter_unmark o gdata r t in
  thread_store t' = thread_store t ∧ thread_count t' = thread_count t
  ∧ thread_groups t' = thread_groups t
  ∧ thread_prompt t'
    = guint (thread_prompt t
             + (if bool_decide (gdata ≠ 0%Z) then - stopped_z (thread_prefs o) r
                else 1 - stopped_z (thread_prefs o) r)).
Proof.
  unfold thread_iter_unmark, stopped_z. cbv zeta.
  destruct (bool_decide (gdata ≠ 2%Z));
    cbn [thread_store thread_count thread_groups thread_prompt thread_emits
         set_thread_prompt];
    (repeat split; [do 2 f_equal; by repeat case_bool_decide]).
Qed.

Lemma running_row_state r : THREAD_STATE (running_row o r) = RUNNING o.
Proof. unfold running_row. by destruct (pref_keep_exec_point o). Qed.

Lemma running_row_id r : THREAD_ID (running_row o r) = THREAD_ID r.
Proof. unfold running_row. by destruct (pref_keep_exec_point o). Qed.

Lemma thread_iter_running_threads i tid e r :
  thread_store (te_threads e) !! i = Some r →
  let t1 := thread_iter_unmark o (1 + if pref_keep_exec_point o then 1 else 0) r
              (te_threads e) in
  te_threads (thread_iter_running o i tid e)
  = set_thread_store (alter (running_row o) i (thread_store t1)) t1.
Proof.
  intros Hl. unfold thread_iter_running. rewrite Hl. cbv zeta.
  destruct (thread_id _); [case_bool_decide|]; reflexivity.
Qed.

Lemma kept_iter_running i tid e :
  RUNNING o ≠ STOPPED (thread_prefs o) → engine_kept o e (thread_iter_running o i tid e).
Proof.
  unfold engine_kept. intros Hrs. destruct (thread_store (te_threads e) !! i) as [r|] eqn:Hl.
  - rewrite (thread_iter_running_threads i tid e r Hl). cbv zeta.
    destruct (thread_iter_unmark_fields (1 + if pref_keep_exec_point o then 1 else 0) r
                (te_threads e)) as (Hs & Hc & Hg & Hp).
    apply threads_kept_row with i r (running_row o) (- stopped_z (thread_prefs o) r)%Z; try done.
    + cbn [thread_store set_thread_store]. by rewrite Hs.
    + intros _. cbn [thread_prompt set_thread_store]. rewrite Hp.
      rewrite bool_decide_eq_true_2; [done|]. destruct (pref_keep_exec_point o); lia.
    + assert (stopped_z (thread_prefs o) (running_row o r) = 0%Z) as ->; [|lia].
      unfold stopped_z. rewrite running_row_state. by rewrite bool_decide_eq_false_2.
    + apply running_row_id.
  - unfold thread_iter_running. rewrite Hl. apply threads_kept_refl.
Qed.

Lemma kept_foldl {A S} (proj : S → ThreadEngine) (step : S → A → S) (l : list A) :
  (∀ s a, engine_kept o (proj s) (proj (step s a))) →
  ∀ s, engine_kept o (proj s) (proj (foldl step s l)).
Proof.
  unfold engine_kept. intros Hstep. induction l as [|a l IH]; intros s; cbn [foldl].
  - apply threads_kept_refl.
  - eapply threads_kept_trans; [apply Hstep|apply IH].
Qed.

Lemma kept_auto_select e :
  engine_kept o e (te_with (auto_select_thread (thread_prefs o) (te_threads e)) e).
Proof.
  unfold engine_kept. cbn [te_threads te_with]. unfold auto_select_thread.
  destruct (list_find _ _) as [[i r]|]; [apply threads_kept_emits|apply threads_kept_refl].
Qed.

Lemma kept_on_thread_running nodes e :
  RUNNING o ≠ STOPPED (thread_prefs o) → engine_kept o e (on_thread_running o nodes e).
Proof.
  unfold engine_kept. intros Hrs. unfold on_thread_running.
  destruct (parse_find_value nodes "thread-id") as [tid|];
    [|apply threads_kept_emits].
  cbv zeta.
  match goal with
  | |- context [if ?c then te_with _ ?e1 else _] =>
      assert (engine_kept o e e1) as He1; [|destruct c]
  end.
  - case_bool_decide.
    + unfold te_foreach.
      apply (kept_foldl Datatypes.id (λ e i, thread_iter_running o i None e)).
      intros s a. by apply kept_iter_running.
    + pose proof (kept_find_thread (Some tid) e) as Hf.
      destruct (te_find_thread (Some tid) e) as [[i|] e1]; cbn [snd] in Hf; [|done].
      eapply threads_kept_trans; [exact Hf|]. by apply kept_iter_running.
  - eapply threads_kept_trans; [exact He1|apply kept_auto_select].
  - done.
Qed.

Lemma kept_set_row i (f : ThreadRow → ThreadRow) e :
  (∀ r, THREAD_STATE (f r) = THREAD_STATE r ∧ THREAD_ID (f r) = THREAD_ID r) →
  engine_kept o e (te_set_row i f e).
Proof.
  unfold engine_kept. intros Hf. cbn [te_threads te_set_row te_with].
  destruct (thread_store (te_threads e) !! i) as [r|] eqn:Hl.
  - destruct (Hf r) as (Hst & Hid).
    apply threads_kept_row with i r f 0%Z; try done.
    + intros Hp. cbn [thread_prompt set_thread_store].
      rewrite Z.add_0_r, Hp. by rewrite guint_guint.
    + unfold stopped_z. rewrite Hst. lia.
  - rewrite alter_lookup_None by done. by apply threads_kept_same.
Qed.

Lemma kept_parse_extra nodes i name set_column e :
  (∀ v r, THREAD_STATE (set_column v r) = THREAD_STATE r
          ∧ THREAD_ID (set_column v r) = THREAD_ID r) →
  engine_kept o e (thread_parse_extra nodes i name set_column e).
Proof.
  unfold engine_kept. intros Hf. unfold thread_parse_extra.
  destruct (parse_find_value nodes name); [|apply threads_kept_refl].
  by apply kept_set_row.
Qed.

Lemma set_THREAD_CORE_same v r :
  THREAD_STATE (set_THREAD_CORE v r) = THREAD_STATE r
  ∧ THREAD_ID (set_THREAD_CORE v r) = THREAD_ID r.
Proof. done. Qed.

Lemma set_THREAD_TARGET_ID_same v r :
  THREAD_STATE (set_THREAD_TARGET_ID v r) = THREAD_STATE r
  ∧ THREAD_ID (set_THREAD_TARGET_ID v r) = THREAD_ID r.
Proof. done. Qed.

Lemma thread_parse_frame_threads frame tid i e r :
  thread_store (te_threads e) !! i = Some r →
  let t1 := thread_iter_unmark o 0 r (te_threads e) in
  let t2 := set_thread_store (alter (frame_row o (parse_location frame)) i (thread_store t1))
              t1 in
  ∃ es, te_threads (thread_parse_frame o frame tid i e) = thread_emits es t2.
Proof.
  intros Hl. unfold thread_parse_frame. rewrite Hl. cbv zeta.
  case_bool_decide.
  - exists []. destruct (negb _); cbn [te_threads te_request te_state te_set_row te_with];
      unfold thread_emits; cbn; by rewrite app_nil_r.
  - eexists. reflexivity.
Qed.

Lemma kept_parse_frame frame tid i e : engine_kept o e (thread_parse_frame o frame tid i e).
Proof.
  unfold engine_kept. destruct (thread_store (te_threads e) !! i) as [r|] eqn:Hl.
  - destruct (thread_parse_frame_threads frame tid i e r Hl) as (es & ->).
    destruct (thread_iter_unmark_fields 0 r (te_threads e)) as (Hs & Hc & Hg & Hp).
    eapply threads_kept_trans; [|apply threads_kept_emits].
    apply threads_kept_row
      with i r (frame_row o (parse_location frame)) (1 - stopped_z (thread_prefs o) r)%Z; try done.
    assert (stopped_z (thread_prefs o) (frame_row o (parse_location frame) r) = 1%Z) as ->; [|lia].
    unfold stopped_z. cbn [THREAD_STATE frame_row]. by rewrite bool_decide_eq_true_2.
  - unfold thread_parse_frame. rewrite Hl. apply threads_kept_refl.
Qed.

Lemma thread_iter_stopped_threads i e sd r :
  thread_store (te_threads e) !! i = Some r →
  let t := te_threads e in
  let t1 := if bool_decide (THREAD_STATE r ≠ STOPPED (thread_prefs o))
            then set_thread_prompt (guint (thread_prompt t + 1)) t else t in
  te_threads (thread_iter_stopped o i (e, sd)).1
  = set_thread_store (alter (set_THREAD_STATE (STOPPED (thread_prefs o))) i (thread_store t1))
      t1.
Proof.
  intros Hl. unfold thread_iter_stopped. rewrite Hl. cbv zeta. cbn [fst].
  repeat case_bool_decide; reflexivity.
Qed.

Lemma kept_iter_stopped i e sd : engine_kept o e (thread_iter_stopped o i (e, sd)).1.
Proof.
  unfold engine_kept. destruct (thread_store (te_threads e) !! i) as [r|] eqn:Hl.
  - rewrite (thread_iter_stopped_threads i e sd r Hl). cbv zeta.
    apply threads_kept_row
      with i r (set_THREAD_STATE (STOPPED (thread_prefs o))) (1 - stopped_z (thread_prefs o) r)%Z;
      try done.
    + by case_bool_decide.
    + intros Hp. unfold stopped_z.
      destruct (decide (THREAD_STATE r = STOPPED (thread_prefs o))) as [Hst|Hst].
      * rewrite (bool_decide_eq_false_2 (_ ≠ _)) by (intros Hx; by apply Hx).
        rewrite bool_decide_eq_true_2 by done.
        cbn [thread_prompt set_thread_store]. rewrite Hp.
        replace (1 - 1)%Z with 0%Z by lia. by rewrite Z.add_0_r, guint_guint.
      * rewrite (bool_decide_eq_true_2 (_ ≠ _)) by done.
        by rewrite bool_decide_eq_false_2 by done.
    + assert (stopped_z (thread_prefs o) (set_THREAD_STATE (STOPPED (thread_prefs o)) r)
              = 1%Z) as ->;
        [|lia].
      unfold stopped_z. cbn [THREAD_STATE set_THREAD_STATE].
      by rewrite bool_decide_eq_true_2.
    + by case_bool_decide.
    + by case_bool_decide.
  - unfold thread_iter_stopped. rewrite Hl. apply threads_kept_refl.
Qed.

Lemma kept_node_stopped node e sd : engine_kept o e (thread_node_stopped o node (e, sd)).1.
Proof.
  unfold engine_kept. unfold thread_node_stopped. destruct node as [name value|name value].
  - pose proof (kept_find_thread (Some value) e) as Hf.
    destruct (te_find_thread (Some value) e) as [[i|] e1]; cbn [snd] in Hf; [|done].
    eapply threads_kept_trans; [exact Hf|apply kept_iter_stopped].
  - apply threads_kept_emits.
Qed.

Lemma kept_request q e : engine_kept o e (te_request q e).
Proof. unfold engine_kept. apply threads_kept_refl. Qed.

Lemma kept_on_thread_stopped break_async nodes e :
  engine_kept o e (on_thread_stopped o break_async nodes e).
Proof.
  unfold engine_kept. unfold on_thread_stopped. cbv zeta.
  match goal with
  | |- context [let '(_, _) := ?p1 in let '(_, _) := _ in _] =>
      assert (engine_kept o e p1.1) as H1; [|destruct p1 as [e1 sd1]; cbn [fst] in H1]
  end.
  { destruct (parse_find_value nodes "thread-id") as [tid|];
      [|apply threads_kept_emits].
    pose proof (kept_find_thread (Some tid) e) as Hf.
    destruct (te_find_thread (Some tid) e) as [[i|] e1]; cbn [snd fst] in *; [|done].
    eapply threads_kept_trans; [exact Hf|].
    eapply threads_kept_trans; [|apply kept_parse_extra, set_THREAD_CORE_same].
    destruct (parse_find_array nodes "frame");
      [apply kept_parse_frame|apply threads_kept_refl]. }
  match goal with
  | |- context [let '(_, _) := ?p2 in _] =>
      assert (engine_kept o e1 p2.1) as H2; [|destruct p2 as [e2 sd2]; cbn [fst] in H2]
  end.
  { destruct (parse_find_node nodes "stopped-threads") as [[name tid|name ids]|];
      cbn [fst].
    - case_bool_decide.
      + refine (kept_foldl fst (λ es i, thread_iter_stopped o i es) _ _ (e1, sd1)).
        intros [s sd] a. apply kept_iter_stopped.
      + pose proof (kept_find_thread (Some tid) e1) as Hf.
        destruct (te_find_thread (Some tid) e1) as [[i|] e2]; cbn [snd fst] in *; [|done].
        eapply threads_kept_trans; [exact Hf|apply kept_iter_stopped].
    - refine (kept_foldl fst (λ es node, thread_node_stopped o node es) _ _ (e1, sd1)).
      intros [s sd] a. apply kept_node_stopped.
    - apply threads_kept_emits. }
  eapply threads_kept_trans; [exact H1|]. eapply threads_kept_trans; [exact H2|].
  match goal with
  | |- context [if (break_async <? 1)%Z then te_request _ ?e4 else _] =>
      assert (engine_kept o e2 e4) as H4; [|by destruct (break_async <? 1)%Z]
  end.
  match goal with
  | |- context [if bool_decide _ then te_request _ ?e3 else _] =>
      assert (engine_kept o e2 e3) as H3; [|by case_bool_decide]
  end.
  destruct (_ && _ && _); [|apply threads_kept_refl].
  destruct (sd_iter sd2); [apply threads_kept_emits|apply threads_kept_refl].
Qed.

Lemma kept_set_gdb_thread tid sel e :
  engine_kept o e (te_with (set_gdb_thread tid sel (te_threads e)) e).
Proof.
  unfold engine_kept. cbn [te_threads te_with].
  destruct (set_gdb_thread_same tid sel (te_threads e)) as ((Hg & Hs & Hc & Hp & _) & _).
  by apply threads_kept_same.
Qed.

Lemma kept_thread_parse nodes tid stopped e :
  RUNNING o ≠ STOPPED (thread_prefs o) → engine_kept o e (thread_parse o nodes tid stopped e).
Proof.
  unfold engine_kept. intros Hrs. unfold thread_parse.
  pose proof (kept_find_thread tid e) as Hf.
  destruct (te_find_thread tid e) as [[i|] e1]; cbn [snd] in Hf; [|done].
  cbv zeta. eapply threads_kept_trans; [exact Hf|].
  eapply threads_kept_trans; [|apply kept_parse_extra, set_THREAD_CORE_same].
  eapply threads_kept_trans; [|apply kept_parse_extra, set_THREAD_TARGET_ID_same].
  destruct stopped.
  - destruct (parse_find_array nodes "frame");
      [apply kept_parse_frame|apply threads_kept_emits].
  - destruct (thread_store (te_threads e1) !! i); [|apply threads_kept_refl].
    case_bool_decide; [by apply kept_iter_running|apply threads_kept_refl].
Qed.

Lemma kept_node_parse node e :
  RUNNING o ≠ STOPPED (thread_prefs o) → engine_kept o e (thread_node_parse o node e).
Proof.
  unfold engine_kept. intros Hrs. unfold thread_node_parse.
  destruct node as [name value|name nodes]; [apply threads_kept_emits|].
  destruct (parse_find_value nodes "id"); [|apply threads_kept_emits].
  destruct (parse_find_value nodes "state"); [|apply threads_kept_emits].
  by apply kept_thread_parse.
Qed.

Lemma kept_info_parse nodes sel e :
  RUNNING o ≠ STOPPED (thread_prefs o) → engine_kept o e (thread_info_parse o nodes sel e).2.
Proof.
  unfold engine_kept. intros Hrs. unfold thread_info_parse. cbv zeta.
  assert (engine_kept o e
            (foldl (λ e node, thread_node_parse o node e) e (parse_lead_array nodes)))
    as Hl.
  { apply (kept_foldl Datatypes.id (λ e node, thread_node_parse o node e)).
    intros s a. by apply kept_node_parse. }
  destruct (parse_find_value nodes "current-thread-id"); cbn [snd]; [|done].
  eapply threads_kept_trans; [exact Hl|apply kept_set_gdb_thread].
Qed.

End ThreadReports.

(** X22.  A report of the debugger about a thread (running, stopped, the
    thread list, a frame) adds no thread and removes none: the ids in the
    thread store, the live-thread counter and the groups stay as they are;
    and the prompt counter, if it was the number of stopped threads before
    the report, is the number of stopped threads after it.  The texts of the
    two states have to differ. *)
Theorem thread_report_keeps_threads `{Host} {states : ThreadStates} (o : ThreadOptions)
    (ev : ThreadReport) (e : ThreadEngine) :
  RUNNING o ≠ STOPPED (thread_prefs o) →
  threads_kept (thread_prefs o) (te_threads e) (te_threads (thread_report o ev e)).
Proof.
  intros Hrs. change (engine_kept o e (thread_report o ev e)).
  destruct ev as [nodes|break_async nodes|nodes|nodes|nodes]; cbn [thread_report].
  - by apply kept_on_thread_running.
  - apply kept_on_thread_stopped.
  - unfold on_thread_info. by apply kept_info_parse.
  - unfold on_thread_follow. pose proof (kept_info_parse o nodes true e Hrs) as Hi.
    destruct (thread_info_parse o nodes true e) as [[tid|] e1]; cbn [snd] in Hi; [done|].
    eapply threads_kept_trans; [exact Hi|apply threads_kept_emits].
  - unfold on_thread_frame. destruct (parse_grab_token nodes) as [token rest].
    by apply kept_thread_parse.
Qed.

Lemma thread_report_keeps_threads_witness :
  let o := example_options in
  let ev := report_stopped 0 [PT_VALUE "thread-id" "2"; PT_VALUE "stopped-threads" "all"] in
  RUNNING o ≠ STOPPED (thread_prefs o)
  ∧ prompt_counts (thread_prefs o) (te_threads example_engine)
  ∧ threads_kept (thread_prefs o) (te_threads example_engine)
      (te_threads (thread_report (H:=ref_host) (states:=ref_states) o ev example_engine))
  ∧ thread_prompt
      (te_threads (thread_report (H:=ref_host) (states:=ref_states) o ev example_engine))
    = 2%Z.
Proof.
  split; [done|]. split; [reflexivity|]. split; [|reflexivity].
  by apply (thread_report_keeps_threads (H:=ref_host) (states:=ref_states)).
Defined.

(** ** thread.c: reports about all threads *)

Lemma foldl_alter_seq {S} (st : S → list ThreadRow) (step : S → nat → S)
    (f : ThreadRow → ThreadRow) :
  (∀ s i, st (step s i) = alter f i (st s)) →
  ∀ n s, n ≤ length (st s) →
    st (foldl step s (seq 0 n)) = (f <$> take n (st s)) ++ drop n (st s).
Proof.
  intros Hstep. induction n as [|n IH]; intros s Hn.
  - cbn. by rewrite drop_0.
  - rewrite seq_S, foldl_app. cbn [foldl Nat.add]. rewrite Hstep, IH by lia.
    destruct (lookup_lt_is_Some_2 (st s) n) as [x Hx]; [lia|].
    rewrite (drop_S _ x n Hx).
    rewrite alter_middle by (rewrite length_fmap, length_take; lia).
    rewrite (take_S_r _ _ x Hx), fmap_app. cbn. by rewrite <- app_assoc.
Qed.

Lemma foldl_alter_all {S} (st : S → list ThreadRow) (step : S → nat → S)
    (f : ThreadRow → ThreadRow) s :
  (∀ s i, st (step s i) = alter f i (st s)) →
  st (foldl step s (seq 0 (length (st s)))) = f <$> st s.
Proof.
  intros Hstep. rewrite (foldl_alter_seq st step f Hstep) by done.
  by rewrite firstn_all, drop_all, app_nil_r.
Qed.

Lemma stopped_rows_all prefs (rows : list ThreadRow) :
  Forall (λ r, THREAD_STATE r = STOPPED prefs) rows → stopped_rows prefs rows = rows.
Proof.
  unfold stopped_rows. induction 1 as [|r rows Hr _ IH]; [done|].
  rewrite filter_cons, decide_True by done. by rewrite IH.
Qed.

Lemma stopped_rows_none prefs (rows : list ThreadRow) :
  Forall (λ r, THREAD_STATE r ≠ STOPPED prefs) rows → stopped_rows prefs rows = [].
Proof.
  unfold stopped_rows. induction 1 as [|r rows Hr _ IH]; [done|].
  by rewrite filter_cons, decide_False by done.
Qed.

Section ThreadAll.

Context `{Host} {states : ThreadStates} (o : ThreadOptions).

Lemma thread_iter_stopped_store i e sd :
  thread_store (te_threads (thread_iter_stopped o i (e, sd)).1)
  = alter (set_THREAD_STATE (STOPPED (thread_prefs o))) i (thread_store (te_threads e)).
Proof.
  destruct (thread_store (te_threads e) !! i) as [r|] eqn:Hl.
  - rewrite (thread_iter_stopped_threads o i e sd r Hl). cbv zeta. by case_bool_decide.
  - unfold thread_iter_stopped. rewrite Hl. cbn [fst]. by rewrite alter_lookup_None.
Qed.

Lemma thread_iter_running_store i tid e :
  thread_store (te_threads (thread_iter_running o i tid e))
  = alter (running_row o) i (thread_store (te_threads e)).
Proof.
  destruct (thread_store (te_threads e) !! i) as [r|] eqn:Hl.
  - rewrite (thread_iter_running_threads o i tid e r Hl). cbv zeta.
    destruct (thread_iter_unmark_fields o (1 + if pref_keep_exec_point o then 1 else 0) r
                (te_threads e)) as (Hs & _).
    cbn [thread_store set_thread_store]. by rewrite Hs.
  - unfold thread_iter_running. rewrite Hl. by rewrite alter_lookup_None.
Qed.

End ThreadAll.

(** X23.  When the debugger reports that all threads stopped, every thread
    in the store is marked stopped, no thread is added or removed, and the
    prompt counter, if it counted the stopped threads before, is the number
    of threads. *)
Theorem thread_stopped_all `{Host} {states : ThreadStates} (o : ThreadOptions) (break_async : Z)
    (nodes : list ParseNode) (e : ThreadEngine) :
  parse_find_value nodes "stopped-threads" = Some "all" →
  prompt_counts (thread_prefs o) (te_threads e) →
  let t := te_threads e in
  let t' := te_threads (on_thread_stopped o break_async nodes e) in
  Forall (λ r, THREAD_STATE r = STOPPED (thread_prefs o)) (thread_store t')
  ∧ THREAD_ID <$> thread_store t' = THREAD_ID <$> thread_store t
  ∧ thread_prompt t' = guint (Z.of_nat (length (thread_store t))).
Proof.
  intros Hall Hp. cbv zeta.
  destruct (kept_on_thread_stopped o break_async nodes e) as (Hp' & Hids & _).
  specialize (Hp' Hp). unfold prompt_counts in Hp'.
  set (t' := te_threads (on_thread_stopped o break_async nodes e)) in *.
  assert (Forall (λ r, THREAD_STATE r = STOPPED (thread_prefs o)) (thread_store t')) as Hst.
  { subst t'. clear Hp Hp' Hids. unfold on_thread_stopped. cbv zeta.
    unfold parse_find_value in Hall.
    destruct (parse_find_node nodes "stopped-threads") as [[name v|name v]|]; [|done..].
    injection Hall as ->.
    match goal with
    | |- context [let '(_, _) := ?p1 in let '(_, _) := _ in _] =>
        destruct p1 as [e1 sd1]
    end.
    rewrite bool_decide_eq_true_2 by done.
    match goal with
    | |- context [let '(_, _) := ?p2 in _] =>
        assert (thread_store (te_threads p2.1)
                = set_THREAD_STATE (STOPPED (thread_prefs o)) <$> thread_store (te_threads e1))
          as H2; [|destruct p2 as [e2 sd2]; cbn [fst] in H2]
    end.
    { apply (foldl_alter_all (λ es : ThreadEngine * StopData, thread_store (te_threads es.1))
               (λ es i, thread_iter_stopped o i es)
               (set_THREAD_STATE (STOPPED (thread_prefs o))) (e1, sd1)).
      intros [s sd] i. apply thread_iter_stopped_store. }
    match goal with
    | |- Forall _ (thread_store (te_threads ?e4)) =>
        assert (thread_store (te_threads e4) = thread_store (te_threads e2)) as ->
    end.
    { destruct (break_async <? 1)%Z; case_bool_decide;
        (destruct (_ && _ && _); [destruct (sd_iter sd2)|]); reflexivity. }
    rewrite H2. apply Forall_fmap, Forall_true. done. }
  split; [done|]. split; [done|].
  rewrite Hp', stopped_rows_all by done.
  apply (f_equal length) in Hids. rewrite !length_fmap in Hids. by rewrite Hids.
Qed.

Lemma thread_stopped_all_witness :
  let o := example_options in
  let nodes := [PT_VALUE "thread-id" "2"; PT_VALUE "stopped-threads" "all"] in
  let t' := te_threads (on_thread_stopped (H:=ref_host) (states:=ref_states) o 0 nodes
                          example_engine) in
  parse_find_value nodes "stopped-threads" = Some "all"
  ∧ prompt_counts (thread_prefs o) (te_threads example_engine)
  ∧ Forall (λ r, THREAD_STATE r = STOPPED (thread_prefs o)) (thread_store t')
  ∧ thread_prompt t' = 2%Z.
Proof.
  split; [reflexivity|]. split; [reflexivity|].
  destruct (thread_stopped_all (H:=ref_host) (states:=ref_states) example_options 0
              [PT_VALUE "thread-id" "2"; PT_VALUE "stopped-threads" "all"] example_engine
              eq_refl eq_refl) as (Hs & _ & Hp).
  split; [exact Hs|exact Hp].
Defined.

(** X24.  When the debugger reports that all threads are running, every row
    of the thread store is rewritten as a running one (its state; and, unless
    the execution point is kept, its file, line, function, address and core
    cleared), and the prompt counter, if it counted the stopped threads
    before, is 0.  The texts of the two states have to differ. *)
Theorem thread_running_all {states : ThreadStates} (o : ThreadOptions)
    (nodes : list ParseNode) (e : ThreadEngine) :
  parse_find_value nodes "thread-id" = Some "all" →
  RUNNING o ≠ STOPPED (thread_prefs o) →
  prompt_counts (thread_prefs o) (te_threads e) →
  let t' := te_threads (on_thread_running o nodes e) in
  thread_store t' = running_row o <$> thread_store (te_threads e)
  ∧ Forall (λ r, THREAD_STATE r = RUNNING o) (thread_store t')
  ∧ thread_prompt t' = 0%Z.
Proof.
  intros Hall Hrs Hp. cbv zeta.
  destruct (kept_on_thread_running o nodes e Hrs) as (Hp' & _).
  specialize (Hp' Hp). unfold prompt_counts in Hp'.
  set (t' := te_threads (on_thread_running o nodes e)) in *.
  assert (thread_store t' = running_row o <$> thread_store (te_threads e)) as Hst.
  { subst t'. unfold on_thread_running. rewrite Hall. cbv beta iota zeta.
    rewrite (bool_decide_eq_true_2 ("all" = "all")) by done.
    assert (thread_store (te_threads (te_foreach (λ i, thread_iter_running o i None) e))
            = running_row o <$> thread_store (te_threads e)) as Hf.
    { unfold te_foreach.
      apply (foldl_alter_all (λ e : ThreadEngine, thread_store (te_threads e))
               (λ e i, thread_iter_running o i None e) (running_row o) e).
      intros s i. apply thread_iter_running_store. }
    destruct (_ && _ && _); [|done].
    cbn [te_threads te_with]. unfold auto_select_thread.
    by destruct (list_find _ _) as [[i r]|]. }
  assert (Forall (λ r, THREAD_STATE r = RUNNING o) (thread_store t')) as Hrun.
  { rewrite Hst. apply Forall_fmap, Forall_true. intros r. apply running_row_state. }
  split; [done|]. split; [done|].
  rewrite Hp', stopped_rows_none; [done|].
  eapply Forall_impl; [exact Hrun|]. cbn. intros r ->. done.
Qed.

Lemma thread_running_all_witness :
  let o := example_options in
  let nodes := [PT_VALUE "thread-id" "all"] in
  let t' := te_threads (on_thread_running (states:=ref_states) o nodes example_engine) in
  parse_find_value nodes "thread-id" = Some "all"
  ∧ RUNNING o ≠ STOPPED (thread_prefs o)
  ∧ prompt_counts (thread_prefs o) (te_threads example_engine)
  ∧ Forall (λ r, THREAD_STATE r = RUNNING o) (thread_store t')
  ∧ thread_prompt t' = 0%Z.
Proof.
  split; [reflexivity|]. split; [done|]. split; [reflexivity|].
  destruct (thread_running_all (states:=ref_states) example_options [PT_VALUE "thread-id" "all"] example_engine
              eq_refl) as (_ & Hs & Hp); [done|reflexivity|].
  split; [exact Hs|exact Hp].
Defined.

(** ** thread.c: the prompt counter over the life of a thread *)

Lemma stopped_rows_delete prefs (rows : list ThreadRow) (i : nat) r :
  rows !! i = Some r →
  Z.of_nat (length (stopped_rows prefs (delete i rows)))
  = (Z.of_nat (length (stopped_rows prefs rows)) - stopped_z prefs r)%Z.
Proof.
  intros Hl. apply list_elem_of_split_length in Hl as (l1 & l2 & -> & ->).
  rewrite delete_middle. unfold stopped_rows, stopped_z.
  rewrite !filter_app, !filter_cons, !length_app.
  case_bool_decide; [rewrite decide_True by done|rewrite decide_False by done];
    cbn [length]; lia.
Qed.

(** X25.  Creating and exiting threads keeps the prompt counter equal to the
    number of stopped threads: a new thread is not stopped, and a stopped
    thread that exits is taken off the counter.  The text of the stopped
    state must not be empty. *)
Theorem thread_lifetime_keeps_prompt (prefs : ThreadPrefs) (ev : ThreadEvent)
    (w : Breaks * Threads) :
  STOPPED prefs ≠ "" →
  prompt_counts prefs w.2 →
  prompt_counts prefs (thread_step prefs ev w).2.
Proof.
  intros Hne Hp. destruct w as [b t]. cbn [snd] in Hp. unfold prompt_counts in *.
  destruct ev as [nodes|nodes]; cbn [thread_step].
  - destruct (parse_find_value nodes "id") as [tid|] eqn:Htid.
    + destruct (on_thread_created_store prefs nodes b t tid Htid)
        as (Hs & _ & _ & Hpr & _).
      rewrite Hpr, Hs, Hp. unfold stopped_rows. rewrite filter_app.
      rewrite (filter_cons _ _ []), decide_False, filter_nil, app_nil_r; [done|].
      destruct (parse_find_value nodes "group-id"); cbn [THREAD_STATE new_thread_row];
        congruence.
    + unfold on_thread_created. rewrite Htid. cbv zeta.
      by destruct (bool_decide (thread_count t = 0%Z)).
  - destruct (parse_find_value nodes "id") as [tid|] eqn:Htid.
    + destruct (on_thread_exited_store prefs nodes b t tid Htid)
        as (_ & _ & _ & _ & Hrow).
      destruct (list_find _ _) as [[i r]|] eqn:Hf.
      * destruct Hrow as (Hs & Hpr). apply list_find_Some in Hf as (Hl & _).
        rewrite Hpr, Hs, (stopped_rows_delete _ _ _ r Hl), Hp.
        rewrite guint_sub_guint. done.
      * destruct Hrow as (Hs & Hpr). by rewrite Hpr, Hs.
    + unfold on_thread_exited. rewrite Htid.
      repeat case_bool_decide; done.
Qed.

Lemma thread_lifetime_keeps_prompt_witness :
  let prefs := example_prefs in
  let w := (breaks_init, te_threads example_engine) in
  let w' := thread_step prefs (thread_exited [PT_VALUE "id" "1"]) w in
  STOPPED prefs ≠ "" ∧ prompt_counts prefs w.2
  ∧ prompt_counts prefs w'.2 ∧ thread_prompt w'.2 = 0%Z.
Proof.
  split; [done|]. split; [reflexivity|]. split; [|reflexivity].
  apply (thread_lifetime_keeps_prompt example_prefs (thread_exited [PT_VALUE "id" "1"])
           (breaks_init, te_threads example_engine)); [done|reflexivity].
Defined.

(** ** break.c: a stop at a breakpoint *)

Lemma strip_prefix_self id : strip_prefix id id = Some EmptyString.
Proof. induction id as [|c id IH]; [done|]. cbn. by rewrite bool_decide_eq_true_2. Qed.

Lemma break_id_matches_self id : break_id_matches id (Some id) = true.
Proof. unfold break_id_matches. by rewrite strip_prefix_self. Qed.

(** X26.  A stop report changes no breakpoint but the one it names: a row
    whose backend id is neither the reported number nor one of its
    locations is in the store after the report as it was before. *)
Theorem break_stopped_other_rows `{Host} {states : ThreadStates} (o : ThreadOptions) (break_async : Z)
    (nodes : list ParseNode) (w : Breaks * ThreadEngine) (r : BreakRow) :
  r ∈ store w.1 →
  (∀ id, parse_find_value nodes "bkptno" = Some id →
         break_id_matches id (BREAK_ID r) = false) →
  r ∈ store (on_break_stopped o break_async nodes w).1.
Proof.
  intros Hr Hm. unfold on_break_stopped. cbn [fst].
  destruct (break_async <? 1)%Z; [|done].
  destruct (parse_find_value nodes "bkptno") as [id|]; [|done].
  destruct (parse_find_value nodes "disp") as [disp|]; [|done].
  specialize (Hm id eq_refl). case_bool_decide; [|case_bool_decide; [|done]].
  - destruct (model_find_id (store w.1) id) as [i|] eqn:Hf; [|done].
    apply model_find_id_Some in Hf as (r' & Hl & Hid & _).
    destruct (store_break_enable i false w.1) as (-> & _).
    apply list_elem_of_lookup in Hr as [j Hj].
    apply list_elem_of_lookup. exists j.
    rewrite list_lookup_alter_ne; [done|].
    intros ->. rewrite Hl in Hj. injection Hj as ->.
    rewrite Hid, break_id_matches_self in Hm. done.
  - destruct (store_break_remove_all id false w.1) as (-> & _).
    apply list_elem_of_omap. exists r. split; [done|].
    unfold remove_row. by rewrite Hm.
Qed.

Lemma break_stopped_other_rows_witness :
  let r1 := example_row (Some "1") "b"%char None "a.c:7" in
  let r2 := example_row (Some "2") "b"%char None "a.c:9" in
  let st := with_store [r1; r2] breaks_init in
  let nodes := [PT_VALUE "bkptno" "1"; PT_VALUE "disp" "del"] in
  r2 ∈ store st
  ∧ r2 ∈ store (on_break_stopped (H:=ref_host) (states:=ref_states) example_options 0 nodes
                  (st, example_engine)).1.
Proof.
  assert (example_row (Some "2") "b"%char None "a.c:9"
          ∈ store (with_store [example_row (Some "1") "b"%char None "a.c:7";
                               example_row (Some "2") "b"%char None "a.c:9"] breaks_init))
    as Hr by (apply list_elem_of_lookup; by exists 1).
  split; [exact Hr|].
  apply (break_stopped_other_rows (H:=ref_host) (states:=ref_states) example_options 0
           [PT_VALUE "bkptno" "1"; PT_VALUE "disp" "del"] (_, example_engine) _ Hr).
  intros id Hid. injection Hid as <-. reflexivity.
Defined.

(** ** break.c: a listing parsed twice *)

Section Replay.

Context `{Host}.

Lemma row_merge_same_origin nodes id loc r1 r2 :
  same_origin r1 r2 → row_merge nodes id loc r1 = row_merge nodes id loc r2.
Proof. intros (? & ? & ? & ? & ? & ? & ?). row_eq; done. Qed.

Lemma row_merge_keeps_origin nodes id loc r : same_origin (row_merge nodes id loc r) r.
Proof. by repeat split. Qed.

Lemma same_origin_trans r1 r2 r3 : same_origin r1 r2 → same_origin r2 r3 → same_origin r1 r3.
Proof.
  intros (? & ? & ? & ? & ? & ? & ?) (? & ? & ? & ? & ? & ? & ?).
  repeat split; congruence.
Qed.

Lemma replay_row_cons n nodes r : replay_row (n :: nodes) r = replay_row nodes (replay_step r n).
Proof. done. Qed.

Lemma replay_row_app nodes1 nodes2 r :
  replay_row (nodes1 ++ nodes2) r = replay_row nodes2 (replay_row nodes1 r).
Proof. unfold replay_row. by rewrite foldl_app. Qed.

Lemma replay_step_facts r n :
  same_origin (replay_step r n) r ∧ BREAK_ID (replay_step r n) = BREAK_ID r.
Proof.
  unfold replay_step. destruct (node_id n) as [x|]; [|by repeat split].
  case_bool_decide as Hx; [|by repeat split]. split.
  - apply row_merge_keeps_origin.
  - by rewrite Hx.
Qed.

Lemma replay_row_facts nodes : ∀ r,
  same_origin (replay_row nodes r) r ∧ BREAK_ID (replay_row nodes r) = BREAK_ID r.
Proof.
  induction nodes as [|n nodes IH]; intros r; [by repeat split|].
  rewrite replay_row_cons. destruct (IH (replay_step r n)) as [Ho Hi].
  destruct (replay_step_facts r n) as [Ho' Hi']. split.
  - by eapply same_origin_trans.
  - congruence.
Qed.

Lemma replay_row_no_match nodes : ∀ r,
  Forall (λ n, ∀ x, node_id n = Some x → BREAK_ID r ≠ Some x) nodes →
  replay_row nodes r = r.
Proof.
  induction nodes as [|n nodes IH]; intros r Hn; [done|].
  apply Forall_cons in Hn as [Hn Hns]. rewrite replay_row_cons.
  assert (replay_step r n = r) as ->; [|by apply IH].
  unfold replay_step. destruct (node_id n) as [x|]; [|done].
  rewrite bool_decide_eq_false_2; [done|]. by apply Hn.
Qed.

(** A refreshed row comes back unchanged from a second pass over the same
    listing. *)
Lemma replay_row_refreshed nodes r :
  refreshed nodes r → replay_row nodes (set_BREAK_MISSING true r) = r.
Proof.
  intros [[Hid Hm]|(x & Hid & Hm & pre & n & post & -> & Hn & Hpost & Hmerge)].
  - rewrite replay_row_no_match.
    + row_eq. by rewrite Hm.
    + apply Forall_forall. intros n _ x _. cbn. by rewrite Hid.
  - rewrite replay_row_app, replay_row_cons.
    set (r' := replay_row pre (set_BREAK_MISSING true r)).
    destruct (replay_row_facts pre (set_BREAK_MISSING true r)) as [Ho Hi].
    fold r' in Ho, Hi. cbn in Hi. rewrite Hid in Hi.
    assert (replay_step r' n = r) as ->.
    { unfold replay_step. rewrite Hn, bool_decide_eq_true_2 by done.
      transitivity (node_merge n x r); [|done]. apply row_merge_same_origin.
      eapply same_origin_trans; [done|]. by repeat split. }
    apply replay_row_no_match.
    eapply Forall_impl; [done|]. cbn. intros m Hm' y Hy. rewrite Hid. congruence.
Qed.

(** With unique ids, merging into the first row with the id is merging
    into every row with the id. *)
Lemma merge_first_rowwise l1 l2 r n x :
  BREAK_ID r = Some x → Forall (λ r', BREAK_ID r' ≠ Some x) l1 →
  unique_ids (l1 ++ r :: l2) → node_id n = Some x →
  l1 ++ node_merge n x r :: l2 = (λ r', replay_step r' n) <$> (l1 ++ r :: l2).
Proof.
  intros Hr Hl1 Hu Hn.
  assert (Forall (λ r', BREAK_ID r' ≠ Some x) l2) as Hl2.
  { unfold unique_ids in Hu. rewrite omap_id_middle, Hr in Hu. cbn in Hu.
    apply NoDup_app in Hu as (_ & _ & Hu). apply NoDup_cons in Hu as [Hu _].
    apply Forall_forall. intros r' Hr' Hid. apply Hu.
    apply list_elem_of_omap. eauto. }
  assert (∀ l, Forall (λ r', BREAK_ID r' ≠ Some x) l →
               (λ r', replay_step r' n) <$> l = l) as Hsame.
  { intros l Hl. induction Hl as [|r' l Hr' Hl IH]; [done|].
    rewrite fmap_cons, IH. f_equal. unfold replay_step.
    by rewrite Hn, bool_decide_eq_false_2. }
  rewrite fmap_app, fmap_cons, !Hsame by done. do 2 f_equal.
  unfold replay_step. by rewrite Hn, bool_decide_eq_true_2.
Qed.

(** A parse pass over a store in which every listed id has a row and ids
    are unique creates nothing, so it has a result: it is [replay_row] on
    every row. *)
Lemma breaks_parse_replay nodes : ∀ st bd,
  bd_stage bd ≠ BG_APPLY → unique_ids (store st) →
  (∀ n x, n ∈ nodes → node_id n = Some x → ∃ r, r ∈ store st ∧ BREAK_ID r = Some x) →
  ∃ res, breaks_parse nodes (st, bd) = Some res
    ∧ store res.1 = replay_row nodes <$> store st
    ∧ scid_gen res.1 = scid_gen st.
Proof.
  induction nodes as [|n nodes IH]; intros st bd Ha Hu Hpres.
  - eexists. split; [reflexivity|]. split; [|done]. cbn. by rewrite list_fmap_id.
  - rewrite breaks_parse_cons.
    assert (∃ res1, break_node_parse n (st, bd) = Some res1
              ∧ store res1.1 = (λ r', replay_step r' n) <$> store st
              ∧ scid_gen res1.1 = scid_gen st
              ∧ bd_stage res1.2 ≠ BG_APPLY) as ([st1 bd1] & -> & Hst & Hsc & Ha').
    { destruct (node_id n) as [x|] eqn:Hid.
      - pose proof (break_node_parse_shape n x st bd Hid Ha) as Hshape.
        cbv zeta in Hshape.
        destruct (break_node_parse n (st, bd)) as [res1|].
        + exists res1. split; [done|]. destruct Hshape as (Hs & _ & Hshape).
          rewrite Hs.
          destruct Hshape as [(l1 & r & l2 & Hst & Hr & Hl1 & -> & -> & _)|(Hx & _)].
          * rewrite Hst in Hu |- *. split; [|done].
            by apply merge_first_rowwise.
          * destruct (Hpres n x ltac:(left) Hid) as (r & Hr & Hrid).
            by eapply Forall_forall in Hx.
        + destruct Hshape as [Hx _].
          destruct (Hpres n x ltac:(left) Hid) as (r & Hr & Hrid).
          by eapply Forall_forall in Hx.
      - destruct (break_node_parse_bad n (st, bd) Hid) as [e ->]. eexists.
        split; [reflexivity|]. cbn.
        split; [|done]. rewrite <- (list_fmap_id (store st)) at 1.
        apply Forall_fmap_ext_1, Forall_forall. intros r _. unfold replay_step.
        by rewrite Hid. }
    cbn [mbind option_bind fst snd] in *.
    assert (omap BREAK_ID (store st1) = omap BREAK_ID (store st)) as Hids.
    { rewrite Hst. apply omap_id_fmap. intros r. apply replay_step_facts. }
    destruct (IH st1 bd1 Ha') as (res & -> & Hres & Hsc').
    + unfold unique_ids. by rewrite Hids.
    + intros m x Hm Hid. destruct (Hpres m x ltac:(by right) Hid) as (r & Hr & Hrid).
      exists (replay_step r n). split.
      * rewrite Hst. by apply (list_elem_of_fmap_2 (λ r', replay_step r' n)).
      * by rewrite (proj2 (replay_step_facts r n)).
    + exists res. split; [done|]. split; [|congruence].
      rewrite Hres, Hst, <- list_fmap_compose.
      apply Forall_fmap_ext_1, Forall_forall. by intros r _.
Qed.

End Replay.

Section Pass.

Context `{Host}.

Lemma settled_in_snoc pre n x r :
  settled_in pre x r → node_id n ≠ Some x → settled_in (pre ++ [n]) x r.
Proof.
  intros (p & m & q & -> & Hm & Hq & Hr) Hn.
  exists p, m, (q ++ [n]). rewrite <- app_assoc. split; [done|]. split; [done|].
  split; [|done]. apply Forall_app. split; [done|]. by apply Forall_singleton.
Qed.

Lemma settled_in_last pre n x r :
  node_id n = Some x → node_merge n x r = r → settled_in (pre ++ [n]) x r.
Proof. intros Hn Hr. by exists pre, n, []. Qed.

Lemma first_row_id_snoc pre n :
  first_row_id (pre ++ [n])
  = match first_row_id pre with
    | Some x => Some x
    | None => node_id n
    end.
Proof.
  induction pre as [|m pre IH]; cbn.
  - by destruct (node_id n).
  - by destruct (node_id m).
Qed.

Lemma StronglySorted_middle {A} (R : relation A) l1 x l2 :
  StronglySorted R (l1 ++ x :: l2)
  ↔ StronglySorted R l1 ∧ StronglySorted R l2 ∧ Forall (λ a, R a x) l1
    ∧ Forall (R x) l2 ∧ (∀ a b, a ∈ l1 → b ∈ l2 → R a b).
Proof.
  rewrite StronglySorted_app, StronglySorted_cons. split.
  - intros (Hc & H1 & H2 & H3). repeat split; try done.
    + apply Forall_forall. intros a Ha. apply Hc; [done|]. by left.
    + intros a b Ha Hb. apply Hc; [done|]. by right.
  - intros (H1 & H2 & H3 & H4 & H5). repeat split; try done.
    intros a b Ha [->|Hb]%elem_of_cons; [|by apply H5].
    by eapply Forall_forall in H3.
Qed.

Lemma Forall_and_1 {A} (P Q : A → Prop) (l : list A) :
  Forall P l → Forall Q l → Forall (λ x, P x ∧ Q x) l.
Proof. intros HP HQ. by apply Forall_and. Qed.

(** Putting in a row whose id no row has, or rewriting the first row with
    an id, keeps the rows of the store in their places. *)
Lemma pass_inv_found pre n x l1 r l2 bd bd' :
  pass_inv pre (l1 ++ r :: l2) bd →
  node_id n = Some x → BREAK_ID r = Some x →
  Forall (λ r', BREAK_ID r' ≠ Some x) l1 →
  bd_iter bd' = Some (length l1) → bd_stage bd' ≠ BG_APPLY →
  pass_inv (pre ++ [n]) (l1 ++ node_merge n x r :: l2) bd'.
Proof.
  intros [Hf Hs Hp Hi Ha] Hn Hr Hl1 Hit Hst.
  apply StronglySorted_middle in Hf as (Hf1 & Hf2 & Hf3 & Hf4 & Hf5).
  assert (Forall (λ r', BREAK_MISSING r' = false → BREAK_ID r' ≠ Some x) l2) as Hl2.
  { eapply Forall_impl; [exact Hf4|]. intros r' Hr' Hm. rewrite <- Hr. by apply Hr'. }
  apply Forall_app in Hs as [Hs1 Hs2]. apply Forall_cons in Hs2 as [_ Hs2].
  constructor.
  - apply StronglySorted_middle. repeat split; try done.
    eapply Forall_impl; [exact Hl1|]. intros a Ha' _. cbn. congruence.
  - apply Forall_app. split; [|apply Forall_cons; split].
    + eapply Forall_impl; [apply (Forall_and_1 _ _ _ Hs1 Hl1)|]. cbn.
      intros r' [Hr' Hx] Hm. destruct (Hr' Hm) as (y & Hy & Hset). exists y.
      split; [done|]. apply settled_in_snoc; [done|]. congruence.
    + intros _. exists x. split; [done|]. apply settled_in_last; [done|].
      apply row_merge_idemp.
    + eapply Forall_impl; [apply (Forall_and_1 _ _ _ Hs2 Hl2)|]. cbn.
      intros r' [Hr' Hx] Hm. destruct (Hr' Hm) as (y & Hy & Hset). exists y.
      split; [done|]. apply settled_in_snoc; [done|]. rewrite Hn.
      intros [= ->]. by apply Hx.
  - intros m y [Hm| ->%list_elem_of_singleton]%elem_of_app Hy.
    + destruct (Hp m y Hm Hy) as (r' & Hr' & Hid' & Hm').
      apply elem_of_app in Hr' as [Hr'|[->|Hr']%elem_of_cons].
      * exists r'. split; [|done]. apply elem_of_app. by left.
      * exists (node_merge n x r). split; [|split; [|done]].
        -- apply elem_of_app. right. by left.
        -- cbn. congruence.
      * exists r'. split; [|done]. apply elem_of_app. right. by right.
    + exists (node_merge n x r). rewrite Hn in Hy. simplify_eq.
      split; [|done]. apply elem_of_app. right. by left.
  - intros _. exists (length l1). split; [done|]. rewrite length_app. cbn. lia.
  - done.
Qed.

Lemma pass_inv_new pre n x l1 new l2 bd bd' :
  pass_inv pre (l1 ++ l2) bd →
  node_id n = Some x → BREAK_ID new = Some x → BREAK_MISSING new = false →
  node_merge n x new = new →
  Forall (λ r', BREAK_ID r' ≠ Some x) (l1 ++ l2) →
  bd_iter bd' = Some (length l1) → bd_stage bd' ≠ BG_APPLY →
  pass_inv (pre ++ [n]) (l1 ++ new :: l2) bd'.
Proof.
  intros [Hf Hs Hp Hi Ha] Hn Hid Hm Hmerge Hx Hit Hst.
  apply StronglySorted_app in Hf as (Hf1 & Hf2 & Hf3).
  apply Forall_app in Hx as [Hx1 Hx2]. apply Forall_app in Hs as [Hs1 Hs2].
  constructor.
  - apply StronglySorted_middle. repeat split; try done.
    all: (eapply Forall_impl; [exact Hx1|]) || (eapply Forall_impl; [exact Hx2|]).
    all: intros a Ha' Hm'; unfold later_fresh in *; rewrite Hid; congruence.
  - apply Forall_app. split; [|apply Forall_cons; split].
    + eapply Forall_impl; [apply (Forall_and_1 _ _ _ Hs1 Hx1)|]. cbn.
      intros r' [Hr' Hx'] Hm'. destruct (Hr' Hm') as (y & Hy & Hset). exists y.
      split; [done|]. apply settled_in_snoc; [done|]. congruence.
    + intros _. exists x. split; [done|]. by apply settled_in_last.
    + eapply Forall_impl; [apply (Forall_and_1 _ _ _ Hs2 Hx2)|]. cbn.
      intros r' [Hr' Hx'] Hm'. destruct (Hr' Hm') as (y & Hy & Hset). exists y.
      split; [done|]. apply settled_in_snoc; [done|]. congruence.
  - intros m y [Hm'| ->%list_elem_of_singleton]%elem_of_app Hy.
    + destruct (Hp m y Hm' Hy) as (r' & Hr' & Hid' & Hm'').
      exists r'. split; [|done].
      apply elem_of_app in Hr' as [Hr'|Hr']; apply elem_of_app; [by left|].
      right. by right.
    + exists new. rewrite Hn in Hy. injection Hy as <-.
      split; [|by split]. apply elem_of_app. right. by left.
  - intros _. exists (length l1). split; [done|]. rewrite length_app. cbn. lia.
  - done.
Qed.

Lemma pass_inv_bad pre n rows bd bd' :
  pass_inv pre rows bd → node_id n = None →
  bd_iter bd' = bd_iter bd → bd_stage bd' ≠ BG_APPLY →
  pass_inv (pre ++ [n]) rows bd'.
Proof.
  intros [Hf Hs Hp Hi Ha] Hn Hit Hst. constructor; try done.
  - eapply Forall_impl; [exact Hs|]. cbn. intros r Hr Hm.
    destruct (Hr Hm) as (y & Hy & Hset). exists y. split; [done|].
    apply settled_in_snoc; [done|]. by rewrite Hn.
  - intros m y [Hm| ->%list_elem_of_singleton]%elem_of_app Hy; [by eapply Hp|].
    congruence.
  - rewrite first_row_id_snoc, Hn, Hit. destruct (first_row_id pre); [|done].
    intros _. by apply Hi.
Qed.

(** One node of a refresh pass. *)
Lemma pass_inv_step pre n st bd res :
  pass_inv pre (store st) bd →
  node_new_loc (node_fields n) = parse_location (node_fields n) →
  (first_row_id pre = None → ∀ x, node_id n = Some x → str_mem "." x = false) →
  break_node_parse n (st, bd) = Some res →
  pass_inv (pre ++ [n]) (store res.1) res.2.
Proof.
  intros Hinv Hloc Hparent Hres. pose proof (inv_stage _ _ _ Hinv) as Ha.
  destruct (node_id n) as [x|] eqn:Hid.
  - pose proof (break_node_parse_shape n x st bd Hid Ha) as Hshape.
    cbv zeta in Hshape. rewrite Hres in Hshape.
    destruct Hshape as (Hst & _ & Hshape).
    assert (bd_stage res.2 ≠ BG_APPLY) as Ha' by by rewrite Hst.
    destruct Hshape as [(l1 & r & l2 & Hrows & Hr & Hl1 & -> & _ & Hit)
                       |(Hx & _ & _ & [(l1 & l2 & Hrows & -> & Hit)
                                      |(Hsame & _ & Hdot & Hnoiter)])].
    + rewrite Hrows in Hinv. by eapply pass_inv_found.
    + rewrite Hrows in Hinv, Hx.
      destruct (new_row_facts (node_name n) (node_fields n) x bd (scid_gen st + 1))
        as (Hnid & Hnm & _ & Hnmerge & _).
      assert (node_merge n x (new_row (node_name n) (node_fields n) x bd
                                (scid_gen st + 1))
              = new_row (node_name n) (node_fields n) x bd (scid_gen st + 1))
        as Hsettled by (unfold node_merge; rewrite <- Hloc; exact Hnmerge).
      exact (pass_inv_new pre n x l1 _ l2 bd _ Hinv Hid Hnid Hnm Hsettled Hx Hit Ha').
    + exfalso. destruct (first_row_id pre) eqn:Hfirst.
      * apply Hnoiter. apply (inv_iter _ _ _ Hinv). by rewrite Hfirst.
      * rewrite (Hparent eq_refl x eq_refl) in Hdot. done.
  - destruct (break_node_parse_bad n (st, bd) Hid) as [e He].
    rewrite He in Hres. injection Hres as <-.
    by eapply pass_inv_bad.
Qed.

Lemma first_row_id_app pre post :
  first_row_id (pre ++ post)
  = match first_row_id pre with
    | Some x => Some x
    | None => first_row_id post
    end.
Proof.
  induction pre as [|m pre IH]; cbn; [by destruct (first_row_id post)|].
  by destruct (node_id m).
Qed.

(** A whole refresh pass. *)
Lemma pass_inv_parse post : ∀ pre st bd res,
  pass_inv pre (store st) bd → self_located post →
  (first_row_id pre = None → parent_first post) →
  breaks_parse post (st, bd) = Some res →
  pass_inv (pre ++ post) (store res.1) res.2.
Proof.
  induction post as [|n post IH]; intros pre st bd res Hinv Hloc Hparent Hres.
  - injection Hres as <-. by rewrite app_nil_r.
  - apply Forall_cons in Hloc as [Hn Hloc]. rewrite breaks_parse_cons in Hres.
    destruct (break_node_parse n (st, bd)) as [[st1 bd1]|] eqn:Hnode; [|done].
    cbn [mbind option_bind] in Hres.
    pose proof (pass_inv_step pre n st bd (st1, bd1) Hinv Hn) as Hstep.
    cbn [fst snd] in Hstep.
    rewrite (cons_middle n pre post), app_assoc.
    apply (IH (pre ++ [n]) st1 bd1 res); [|done| |done].
    + apply Hstep; [|done]. intros Hnone x Hx. apply (Hparent Hnone). cbn.
      by rewrite Hx.
    + rewrite first_row_id_snoc. destruct (first_row_id pre) eqn:Hfirst; [done|].
      intros Hnid x Hx. apply (Hparent eq_refl). cbn. by rewrite Hnid.
Qed.

End Pass.

Section Refresh.

Context `{Host}.

Lemma breaks_missing_rows_sweep rows : ∀ rows',
  breaks_missing_rows rows = Some rows' → rows' = omap sweep_row rows.
Proof.
  induction rows as [|r rows IH]; intros rows' Hrows; [by injection Hrows as <-|].
  cbn [breaks_missing_rows] in Hrows. cbn [omap list_omap].
  destruct (breaks_missing_rows rows) as [rest|]; [|by repeat case_match].
  rewrite <- (IH rest eq_refl). unfold sweep_row.
  destruct (bool_decide (BREAK_ID r ≠ None) && BREAK_MISSING r);
    [destruct (BREAK_DISCARD r); [done|]|]; by injection Hrows as <-.
Qed.

Lemma breaks_missing_rows_kept rows :
  Forall (λ r, sweep_row r = Some r) rows → breaks_missing_rows rows = Some rows.
Proof.
  intros Hall. induction Hall as [|r rows Hr _ IH]; [done|].
  cbn [breaks_missing_rows]. rewrite IH. unfold sweep_row in Hr.
  destruct (bool_decide (BREAK_ID r ≠ None) && BREAK_MISSING r);
    [destruct (BREAK_DISCARD r); [done|]|]; cbn; [|done].
  by injection Hr as ->.
Qed.

Lemma sweep_row_touched r : BREAK_MISSING r = false → sweep_row r = Some r.
Proof. intros Hm. unfold sweep_row. by rewrite Hm, andb_false_r. Qed.

Lemma sweep_row_Some r r1 :
  sweep_row r = Some r1 →
  (BREAK_MISSING r = false ∧ r1 = r) ∨ (BREAK_ID r1 = None ∧ BREAK_MISSING r1 = true).
Proof.
  unfold sweep_row. destruct (BREAK_MISSING r) eqn:Hm.
  - rewrite andb_true_r. case_bool_decide as Hid.
    + destruct (BREAK_DISCARD r); [done|]. intros [= <-]. right.
      unfold break_clear_row. by destruct (strchr BP_BORTS (BREAK_TYPE r)).
    + intros [= <-]. right. split; [|done]. by destruct (BREAK_ID r).
  - rewrite andb_false_r. intros [= <-]. by left.
Qed.

Lemma sweep_refreshed nodes rows :
  Forall (refreshed nodes) rows → omap sweep_row rows = rows.
Proof.
  induction 1 as [|r rows Hr Hrows IH]; [done|]. cbn [omap list_omap].
  rewrite IH. unfold sweep_row.
  destruct Hr as [[-> _]|(x & _ & -> & _)]; [done|]. by rewrite andb_false_r.
Qed.

(** The store after the sweep that ends a refresh pass. *)
Lemma pass_inv_sweep nodes rows bd :
  pass_inv nodes rows bd →
  Forall (refreshed nodes) (omap sweep_row rows)
  ∧ unique_ids (omap sweep_row rows)
  ∧ ∀ n x, n ∈ nodes → node_id n = Some x →
      ∃ r, r ∈ omap sweep_row rows ∧ BREAK_ID r = Some x.
Proof.
  intros [Hf Hs Hp _ _]. split; [|split].
  - apply Forall_forall. intros r1 (r & Hr & Hsw)%list_elem_of_omap.
    apply sweep_row_Some in Hsw as [[Hm ->]|Hstub]; [|by left].
    right. eapply Forall_forall in Hs; [|done].
    destruct (Hs Hm) as (x & Hx & Hset). by exists x.
  - clear Hp Hs. unfold unique_ids.
    induction Hf as [|r rows Hf IH Hr]; [apply NoDup_nil_2|].
    cbn [omap list_omap]. destruct (sweep_row r) as [r1|] eqn:Hsw; [|done].
    cbn [omap list_omap]. destruct (BREAK_ID r1) as [x|] eqn:Hx; [|done].
    apply NoDup_cons. split; [|done].
    apply sweep_row_Some in Hsw as [[Hm ->]|[Hnone _]]; [|congruence].
    intros (r2 & (r' & Hr' & Hsw')%list_elem_of_omap & Hx2)%list_elem_of_omap.
    apply sweep_row_Some in Hsw' as [[Hm' ->]|[Hnone _]]; [|congruence].
    eapply Forall_forall in Hr; [|done]. apply (Hr Hm'). congruence.
  - intros n x Hn Hx. destruct (Hp n x Hn Hx) as (r & Hr & Hid & Hm).
    exists r. split; [|done]. apply list_elem_of_omap. exists r.
    split; [done|]. by apply sweep_row_touched.
Qed.

Lemma pass_inv_start rows :
  pass_inv [] (set_BREAK_MISSING true <$> rows) (bd_start BG_DISCARD).
Proof.
  assert (Forall (λ r, BREAK_MISSING r = true) (set_BREAK_MISSING true <$> rows))
    as Hall by (apply Forall_fmap, Forall_forall; done).
  constructor; try done.
  - induction Hall as [|r l Hr Hl IH]; [constructor|].
    apply StronglySorted_cons. split; [|done].
    eapply Forall_impl; [exact Hl|]. intros b Hb Hm. congruence.
  - eapply Forall_impl; [exact Hall|]. cbn. intros r Hr Hm. congruence.
  - intros n x Hn. by apply elem_of_nil in Hn.
Qed.

Lemma refreshed_swept nodes rows :
  Forall (refreshed nodes) rows → Forall (λ r, sweep_row r = Some r) rows.
Proof.
  intros Href. eapply Forall_impl; [exact Href|]. intros r Hr. unfold sweep_row.
  destruct Hr as [[-> _]|(x & _ & -> & _)]; [done|]. by rewrite andb_false_r.
Qed.

(** The store a refresh pass leaves, when it has a result. *)
Lemma refresh_pass_refreshed rows st res rows1 :
  self_located rows → parent_first rows →
  breaks_parse rows (breaks_mark_missing st, bd_start BG_DISCARD) = Some res →
  breaks_missing_rows (store res.1) = Some rows1 →
  Forall (refreshed rows) rows1
  ∧ unique_ids rows1
  ∧ ∀ n x, n ∈ rows → node_id n = Some x → ∃ r, r ∈ rows1 ∧ BREAK_ID r = Some x.
Proof.
  intros Hloc Hparent Hparse Hsweep.
  rewrite (breaks_missing_rows_sweep _ _ Hsweep).
  eapply pass_inv_sweep.
  apply (pass_inv_parse rows [] (breaks_mark_missing st) (bd_start BG_DISCARD) res);
    [apply pass_inv_start|done..].
Qed.

(** A refresh pass over a store that a pass over the same rows has left. *)
Lemma refresh_pass_fixed rows st :
  Forall (refreshed rows) (store st) → unique_ids (store st) →
  (∀ n x, n ∈ rows → node_id n = Some x → ∃ r, r ∈ store st ∧ BREAK_ID r = Some x) →
  ∃ res, breaks_parse rows (breaks_mark_missing st, bd_start BG_DISCARD) = Some res
    ∧ store res.1 = store st ∧ scid_gen res.1 = scid_gen st
    ∧ breaks_missing_rows (store res.1) = Some (store st).
Proof.
  intros Href Hu Hpres.
  destruct (breaks_parse_replay rows (breaks_mark_missing st) (bd_start BG_DISCARD))
    as (res & Hres & Hst & Hsc); [done| | |].
  - unfold unique_ids. cbn. by rewrite omap_id_fmap.
  - intros n x Hn Hx. destruct (Hpres n x Hn Hx) as (r & Hr & Hid).
    exists (set_BREAK_MISSING true r). split; [|done].
    by apply (list_elem_of_fmap_2 (set_BREAK_MISSING true)).
  - exists res. split; [done|].
    assert (store res.1 = store st) as Hsame.
    { rewrite Hst. cbn [store breaks_mark_missing with_store].
      rewrite <- list_fmap_compose.
      rewrite <- (list_fmap_id (store st)) at 2.
      apply Forall_fmap_ext_1. eapply Forall_impl; [exact Href|].
      intros r Hr. by apply replay_row_refreshed. }
    split; [done|]. split; [done|]. rewrite Hsame.
    apply breaks_missing_rows_kept. by eapply refreshed_swept.
Qed.

(** X28.  A full-listing refresh that runs to its end is idempotent when
    every listed row carries its resolved location itself and the listing
    starts with a parent row: processing the same listing a second time
    has a result too and leaves the rows, their columns, their number and
    the sequence-id counter as the first pass left them.  After the first
    pass no two rows carry the same id, and every row is a local row
    without id or holds what the last listed node with its id says. *)
Theorem break_list_refresh_idempotent (nodes rows : list ParseNode) (token : string)
    (st st1 : Breaks) :
  break_list_body nodes = Some (Some token, rows) →
  self_located rows → parent_first rows →
  on_break_list nodes st = Some st1 →
  ∃ st2, on_break_list nodes st1 = Some st2
    ∧ store st2 = store st1 ∧ scid_gen st2 = scid_gen st1
    ∧ unique_ids (store st1) ∧ Forall (refreshed rows) (store st1).
Proof.
  intros Hbody Hloc Hparent Hfirst.
  assert (∀ s, on_break_list nodes s
               = match breaks_parse rows (breaks_mark_missing s, bd_start BG_DISCARD) with
                 | Some res => breaks_missing res.1
                 | None => None
                 end) as Hpass.
  { intros s. unfold on_break_list. unfold break_list_body in Hbody.
    destruct (parse_find_array (parse_lead_array nodes) "body") as [body|]; [|done].
    cbn in Hbody. injection Hbody as Hbody. rewrite Hbody.
    rewrite bool_decide_eq_true_2 by done.
    by destruct (breaks_parse rows _) as [[s1 b1]|]. }
  rewrite Hpass in Hfirst. rewrite Hpass.
  destruct (breaks_parse rows (breaks_mark_missing st, bd_start BG_DISCARD))
    as [res|] eqn:Hparse; [|done].
  unfold breaks_missing in Hfirst.
  destruct (breaks_missing_rows (store res.1)) as [rows1|] eqn:Hsweep; [|done].
  injection Hfirst as <-. cbn [store scid_gen with_store].
  destruct (refresh_pass_refreshed rows st res rows1 Hloc Hparent Hparse Hsweep)
    as (Href & Hu & Hpres).
  destruct (refresh_pass_fixed rows (with_store rows1 res.1) Href Hu Hpres)
    as (res2 & -> & Hst2 & Hsc2 & Hsweep2).
  unfold breaks_missing. rewrite Hsweep2. cbn [store with_store] in *.
  eexists. split; [reflexivity|]. by cbn.
Qed.

End Refresh.

(** A refresh listing with the breakpoints 1 and 2 over a store that holds
    a local breakpoint and a stale breakpoint 9. *)
Lemma break_list_refresh_idempotent_witness :
  let rows := [example_bkpt "1" "a.c:10"; example_bkpt "2" "a.c:12"] in
  let st := with_store [example_row None "b" None "a.c:3";
                        example_row (Some "9") "b" None "a.c:4"] breaks_init in
  ∃ st1 st2,
    on_break_list (H:=ref_host) (example_listing rows) st = Some st1
    ∧ on_break_list (H:=ref_host) (example_listing rows) st1 = Some st2
    ∧ BREAK_ID <$> store st1 = [None; None; Some "1"; Some "2"]
    ∧ store st2 = store st1.
Proof.
  intros rows st. eexists.
  assert (on_break_list (H:=ref_host) (example_listing rows) st = Some _) as Hfirst
    by (vm_compute; reflexivity).
  destruct (break_list_refresh_idempotent (H:=ref_host) (example_listing rows) rows ""
              st _ eq_refl ltac:(repeat constructor)
              ltac:(intros x Hx; injection Hx as <-; reflexivity) Hfirst)
    as (st2 & Hsecond & Hstore & _).
  exists st2. split; [exact Hfirst|]. split; [exact Hsecond|].
  split; [reflexivity|exact Hstore].
Defined.

